(** * JasperMate IO manager: a shallow embedding of the Go sources

    The development follows [src/server/localio]: [models.go] (model table),
    [port.go] (Modbus transactions of one serial port) and [manager.go]
    (card registry, write queue and batcher, read cycle, safe state).

    Conventions of the embedding
    - Go [int], [uint16] and [byte] are [Z]; the conversions [uint16(x)] and
      [byte(x)] are written out as reductions modulo 2^16 and 2^8.  A Go [int]
      is 64 bits wide; every index the manager computes with has been
      validated against a channel count of at most 8, so [int] arithmetic is
      not reduced.
    - [float32] is the IEEE-754 binary32 bit pattern, as [math.Float32bits]
      returns it; comparison and multiplication decode the pattern.
    - [[]byte] is [list Z], a Go [error] is its message ([string]), and
      [(value, error)] results are sums.
    - the third-party [modbus.Client] behind a port, the handler factory and
      the clock are parameters of the model; every transaction is appended
      to a trace together with its reply.
    - [sync.Mutex] sections and [time.Sleep] calls have no counterpart: each
      operation is modelled as it runs on its own. *)

From Stdlib Require Import ZArith String Ascii List Bool Lia Permutation DecimalString.
From Stdlib Require DecimalZ DecimalPos.
From Stdlib Require Import SpecFloat.
From stdpp Require Import gmap strings list fin_maps sorting.
Import ListNotations.

Local Open Scope string_scope.
Local Open Scope Z_scope.
Local Open Scope list_scope.

(** ** Machine integers and bytes *)

Definition uint16 (x : Z) : Z := x mod 65536.
Definition byte (x : Z) : Z := x mod 256.

(** [binary.BigEndian.Uint16], [Uint32] and [PutUint32]. *)
Definition be_uint16 (b : list Z) : Z :=
  match b with
  | b0 :: b1 :: _ => Z.lor (Z.shiftl b0 8) b1
  | _ => 0
  end.

Definition be_uint32 (b : list Z) : Z :=
  match b with
  | b0 :: b1 :: b2 :: b3 :: _ =>
      Z.lor (Z.lor (Z.lor (Z.shiftl b0 24) (Z.shiftl b1 16)) (Z.shiftl b2 8)) b3
  | _ => 0
  end.

Definition be_put_uint32 (v : Z) : list Z :=
  [byte (Z.shiftr v 24); byte (Z.shiftr v 16); byte (Z.shiftr v 8); byte v].

(** The Go slice expression [raw[lo:hi]]; [None] is the run-time panic
    "slice bounds out of range".  The capacity of a reply is taken to be its
    length. *)
Definition slice (raw : list Z) (lo hi : Z) : option (list Z) :=
  if (0 <=? lo) && (lo <=? hi) && (hi <=? Z.of_nat (length raw))
  then Some (firstn (Z.to_nat (hi - lo)) (skipn (Z.to_nat lo) raw))
  else None.

(** ** float32 *)

Module F32.

Definition t := Z.

Definition prec : Z := 24.
Definition emax : Z := 128.

Definition sign_bit (b : t) : bool := Z.testbit b 31.
Definition exponent (b : t) : Z := Z.land (Z.shiftr b 23) 255.
Definition mantissa (b : t) : Z := Z.land b 8388607.

Definition decode (b : t) : spec_float :=
  let s := sign_bit b in
  let e := exponent b in
  let m := mantissa b in
  if e =? 0 then
    match m with
    | Zpos p => S754_finite s p (-149)
    | _ => S754_zero s
    end
  else if e =? 255 then
    (if m =? 0 then S754_infinity s else S754_nan)
  else
    match m + 8388608 with
    | Zpos p => S754_finite s p (e - 150)
    | _ => S754_nan
    end.

Definition sign_word (s : bool) : Z := if s then 2147483648 else 0.

(** Encoding of a rounded result; an invalid operation yields the default
    quiet NaN. *)
Definition encode (x : spec_float) : t :=
  match x with
  | S754_zero s => sign_word s
  | S754_infinity s => sign_word s + 2139095040
  | S754_nan => 2143289344
  | S754_finite s m e =>
      if Zpos m <? 8388608 then sign_word s + Zpos m
      else sign_word s + Z.shiftl (e + 150) 23 + (Zpos m - 8388608)
  end.

Definition eqb (a b : t) : bool := SFeqb (decode a) (decode b).
Definition neb (a b : t) : bool := negb (eqb a b).
Definition mul (a b : t) : t := encode (SFmul prec emax (decode a) (decode b)).

Definition zero : t := 0.
Definition one : t := 1065353216.          (* 0x3F800000 *)
Definition four : t := 1082130432.         (* 0x40800000 *)
Definition thousand : t := 1148846080.     (* 0x447A0000 *)
Definition four_thousand : t := 1165623296. (* 0x457A0000 *)

End F32.

Arguments F32.decode : simpl never.
Arguments F32.encode : simpl never.
Arguments F32.eqb : simpl never.
Arguments F32.neb : simpl never.
Arguments F32.mul : simpl never.

(** ** Strings *)

(** [strconv.Itoa]; [strconv.Atoi] with its error dropped, as the sorting
    comparators use it (the two agree with Go on every string [Itoa]
    produces, which is all a registered card ID can be). *)
Definition Itoa (n : Z) : string := NilZero.string_of_int (Z.to_int n).

Definition Atoi (s : string) : Z :=
  match NilZero.int_of_string s with
  | Some i => Z.of_int i
  | None => 0
  end.

Definition hexDigit (d : Z) : string :=
  String.substring (Z.to_nat (d mod 16)) 1 "0123456789ABCDEF".

(** [fmt.Sprintf("0x%04X", val)] for a [uint16]. *)
Definition hex4 (val : Z) : string :=
  "0x" +:+ hexDigit (val / 4096) +:+ hexDigit (val / 256)
       +:+ hexDigit (val / 16) +:+ hexDigit val.

(** [string(bytes)]. *)
Definition string_of_bytes (b : list Z) : string :=
  string_of_list_ascii (map (fun x => ascii_of_N (Z.to_N x)) b).

(** ** models.go *)

Module ModelSpec.
Record t := mk { Name : string; DI : Z; DO : Z; AI : Z; AO : Z }.
(** The zero value a Go map lookup yields for a missing key. *)
Definition zero : t := mk "" 0 0 0 0.
End ModelSpec.

Definition ModelTable : gmap string ModelSpec.t :=
  list_to_map
    [ ("IO0404", ModelSpec.mk "IO0404" 0 0 4 4);
      ("IO0440", ModelSpec.mk "IO0440" 0 4 4 0);
      ("IO4040", ModelSpec.mk "IO4040" 4 4 0 0);
      ("IO8000", ModelSpec.mk "IO8000" 8 0 0 0);
      ("IO0080", ModelSpec.mk "IO0080" 0 8 0 0) ].

(** [ModelTable[module]] in its one-result form. *)
Definition specOf (module : string) : ModelSpec.t :=
  default ModelSpec.zero (ModelTable !! module).

Definition guessModel (di doCount ai ao : Z) : string :=
  if (di =? 4) && (doCount =? 4) && (ai =? 0) && (ao =? 0) then "IO4040"
  else if (di =? 0) && (doCount =? 4) && (ai =? 4) && (ao =? 0) then "IO0440"
  else if (di =? 0) && (doCount =? 8) && (ai =? 0) && (ao =? 0) then "IO0080"
  else if (di =? 8) && (doCount =? 0) && (ai =? 0) && (ao =? 0) then "IO8000"
  else if (di =? 0) && (doCount =? 0) && (ai =? 4) && (ao =? 4) then "IO0404"
  else "Unknown".

(** ** Data model of manager.go *)

Module SafeStateConfig.
Record t := mk { DOState : bool; AOVoltageValue : F32.t; AOCurrentValue : F32.t }.
End SafeStateConfig.

Definition DefaultSafeStateConfig : SafeStateConfig.t :=
  SafeStateConfig.mk false F32.zero F32.four.

Module CardState.
(** [BaudRate] is the field [readCard] assigns from [readBaudRate]. *)
Record t := mk {
  Timestamp : Z;
  DI : list bool;
  DO : list bool;
  AI : list F32.t;
  AO : list F32.t;
  AOType : list string;
  SerialNumber : string;
  BaudRate : Z;
  Error : string }.

Definition zero : t := mk 0 [] [] [] [] [] "" 0 "".

Definition set_DI (v : list bool) (s : t) : t :=
  mk (Timestamp s) v (DO s) (AI s) (AO s) (AOType s) (SerialNumber s) (BaudRate s) (Error s).
Definition set_DO (v : list bool) (s : t) : t :=
  mk (Timestamp s) (DI s) v (AI s) (AO s) (AOType s) (SerialNumber s) (BaudRate s) (Error s).
Definition set_AI (v : list F32.t) (s : t) : t :=
  mk (Timestamp s) (DI s) (DO s) v (AO s) (AOType s) (SerialNumber s) (BaudRate s) (Error s).
Definition set_AO (v : list F32.t) (s : t) : t :=
  mk (Timestamp s) (DI s) (DO s) (AI s) v (AOType s) (SerialNumber s) (BaudRate s) (Error s).
Definition set_AOType (v : list string) (s : t) : t :=
  mk (Timestamp s) (DI s) (DO s) (AI s) (AO s) v (SerialNumber s) (BaudRate s) (Error s).
Definition set_SerialNumber (v : string) (s : t) : t :=
  mk (Timestamp s) (DI s) (DO s) (AI s) (AO s) (AOType s) v (BaudRate s) (Error s).
Definition set_BaudRate (v : Z) (s : t) : t :=
  mk (Timestamp s) (DI s) (DO s) (AI s) (AO s) (AOType s) (SerialNumber s) v (Error s).
Definition set_Error (v : string) (s : t) : t :=
  mk (Timestamp s) (DI s) (DO s) (AI s) (AO s) (AOType s) (SerialNumber s) (BaudRate s) v.
End CardState.

Module Card.
Record t := mk {
  ID : string;
  PortPath : string;
  SlaveID : Z;
  Module_ : string;
  Last : CardState.t;
  needsFullRead : bool }.

Definition set_Last (v : CardState.t) (c : t) : t :=
  mk (ID c) (PortPath c) (SlaveID c) (Module_ c) v (needsFullRead c).
Definition set_needsFullRead (v : bool) (c : t) : t :=
  mk (ID c) (PortPath c) (SlaveID c) (Module_ c) (Last c) v.
End Card.

Inductive writeOpType := writeOpDO | writeOpAO | writeOpAOType.

Global Instance writeOpType_eq_dec : EqDecision writeOpType.
Proof. solve_decision. Defined.

Module writeOperation.
Record t := mk {
  CardID : string;
  Type_ : writeOpType;
  Index : Z;
  Value : F32.t;
  Mode : string }.
End writeOperation.

Module CommandResult.
Record t := mk { Index : Z; Status : string; Message : string }.
Definition zero : t := mk 0 "" "".
Definition set_Index (v : Z) (r : t) : t := mk v (Status r) (Message r).
End CommandResult.

Module WriteGroup.
Record t := mk {
  CardID : string;
  RegisterType : writeOpType;
  Operations : list writeOperation.t }.
End WriteGroup.

(** A port session: the handler's current slave id is its only state that
    the manager changes. *)
Module portClient.
Record t := mk { path : string; handler : Z }.
End portClient.

Module Manager.
(** [stateChangeCallback] records whether a callback is registered; the
    timing fields and the factories are parameters of the model. *)
Record t := mk {
  ports : gmap string portClient.t;
  cards : gmap string Card.t;
  nextID : Z;
  writeQueue : list writeOperation.t;
  stateChangeCallback : bool;
  safeStateConfig : SafeStateConfig.t }.

Definition set_ports v (m : t) : t :=
  mk v (cards m) (nextID m) (writeQueue m) (stateChangeCallback m) (safeStateConfig m).
Definition set_cards v (m : t) : t :=
  mk (ports m) v (nextID m) (writeQueue m) (stateChangeCallback m) (safeStateConfig m).
Definition set_nextID v (m : t) : t :=
  mk (ports m) (cards m) v (writeQueue m) (stateChangeCallback m) (safeStateConfig m).
Definition set_writeQueue v (m : t) : t :=
  mk (ports m) (cards m) (nextID m) v (stateChangeCallback m) (safeStateConfig m).
Definition set_stateChangeCallback v (m : t) : t :=
  mk (ports m) (cards m) (nextID m) (writeQueue m) v (safeStateConfig m).
End Manager.

Definition NewManager : Manager.t :=
  Manager.mk ∅ ∅ 1 [] false DefaultSafeStateConfig.

(** ** The bus, the trace and the monad of manager operations *)

(** The calls of [modbus.Client] the manager makes. *)
Inductive Request :=
| ReadCoils (address quantity : Z)
| ReadDiscreteInputs (address quantity : Z)
| ReadHoldingRegisters (address quantity : Z)
| ReadInputRegisters (address quantity : Z)
| WriteSingleCoil (address value : Z)
| WriteMultipleCoils (address quantity : Z) (value : list Z)
| WriteSingleRegister (address value : Z)
| WriteMultipleRegisters (address quantity : Z) (value : list Z).

(** [(results []byte, err error)]. *)
Definition Reply : Type := list Z + string.

Definition replyErr (r : Reply) : option string :=
  match r with
  | inl _ => None
  | inr e => Some e
  end.

(** What the process does to its environment, in order: opening a serial
    port, one Modbus transaction (port, slave id of the handler, request,
    reply), and an invocation of the state-change callback. *)
Inductive Event :=
| EvDial (path : string) (err : option string)
| EvFrame (path : string) (slave : Z) (rq : Request) (rp : Reply)
| EvCallback (cards : list Card.t).

Module World.
Record t := mk { mgr : Manager.t; trace : list Event }.
End World.

(** A Go call either returns or panics. *)
Inductive Res (A : Type) :=
| Ok (a : A) (w : World.t)
| Panic.
Arguments Ok {A} a w.
Arguments Panic {A}.

Definition M (A : Type) : Type := World.t -> Res A.

Global Instance M_ret : MRet M := fun A a w => Ok a w.
Global Instance M_bind : MBind M := fun A B f c w =>
  match c w with
  | Ok a w' => f a w'
  | Panic => Panic
  end.

Definition getMgr : M Manager.t := fun w => Ok (World.mgr w) w.

Definition modifyMgr (f : Manager.t -> Manager.t) : M unit :=
  fun w => Ok tt (World.mk (f (World.mgr w)) (World.trace w)).

Definition emit (e : Event) : M unit :=
  fun w => Ok tt (World.mk (World.mgr w) (World.trace w ++ [e])).

(** A run-time check of Go (index or slice bounds) that failed. *)
Definition must {A} (o : option A) : M A :=
  fun w => match o with
           | Some a => Ok a w
           | None => Panic
           end.

(** [for _, x := range l { body }]. *)
Fixpoint forEach {A} (l : list A) (body : A -> M unit) : M unit :=
  match l with
  | [] => mret tt
  | x :: l' => body x ;; forEach l' body
  end.

(** A loop that carries a local variable. *)
Fixpoint foldM {A S} (l : list A) (s : S) (body : S -> A -> M S) : M S :=
  match l with
  | [] => mret s
  | x :: l' => s' ← body s x; foldM l' s' body
  end.

(** ** port.go: bit packing *)

(** [unpackBits]; [count] is positive at both call sites. *)
Definition unpackBits (raw : list Z) (count : Z) : list bool :=
  map (fun i =>
         let byteIdx := i / 8 in
         let bitIdx := i mod 8 in
         match raw !! Z.to_nat byteIdx with
         | Some b => negb (Z.land b (Z.shiftl 1 bitIdx) =? 0)
         | None => false
         end)
      (seqZ 0 count).

(** [packBits]: every [i] below [len(values)] has [i/8] below the byte
    count, so the update is always in range. *)
Definition packBits (values : list bool) : list Z :=
  let byteCount := (Z.of_nat (length values) + 7) / 8 in
  fold_left
    (fun bytes '(i, val) =>
       if val : bool
       then alter (fun b => byte (Z.lor b (Z.shiftl 1 (Z.of_nat i mod 8)))) (i / 8)%nat bytes
       else bytes)
    (imap (fun i val => (i, val)) values)
    (replicate (Z.to_nat byteCount) 0).

(** The bytes [writeMultipleAO] builds: [PutUint32] of each [Float32bits]. *)
Definition putFloats (values : list F32.t) : list Z :=
  concat (map be_put_uint32 values).

(** The first [n] floats of a register reply, [raw[i*4 : i*4+4]] each. *)
Definition getFloats (raw : list Z) (n : Z) : option (list F32.t) :=
  mapM (fun i => be_uint32 <$> slice raw (i * 4) (i * 4 + 4)) (seqZ 0 n).

Definition aoTypeName (val : Z) : string :=
  if val =? 1 then "0-10V"
  else if val =? 4 then "4-20mA"
  else hex4 val.

Definition getAOTypes (typeRaw : list Z) (n : Z) : option (list string) :=
  mapM (fun i => (fun b => aoTypeName (be_uint16 b)) <$> slice typeRaw (i * 2) (i * 2 + 2))
       (seqZ 0 n).

(** The bytes before the first NUL. *)
Fixpoint untilNul (b : list Z) : list Z :=
  match b with
  | [] => []
  | x :: b' => if x =? 0 then [] else x :: untilNul b'
  end.

Section Environment.

(** The [modbus.Client] of a port: its reply to a request, given all that
    happened before.  [dial] is the handler factory followed by [Connect]
    ([None] when the port opens), [now] the clock, and [rangeMap] the
    order in which a Go [range] visits the entries of a map.  Go chooses
    that order afresh for every range; the properties below hold for every
    order, and where two calls are compared each call is given an order of
    its own. *)
Variable bus : list Event -> string -> Z -> Request -> Reply.
Variable dial : list Event -> string -> option string.
Variable now : list Event -> Z.
Variable rangeMap : forall A : Type, list A -> list A.

Definition timeNow : M Z := fun w => Ok (now (World.trace w)) w.

(** ** port.go: transactions of one port

    A [*portClient] is the key of the port in [Manager.ports]. *)

Definition setSlaveID (pc : string) (slave : Z) : M unit :=
  modifyMgr (fun m =>
    Manager.set_ports
      (alter (fun p => portClient.mk (portClient.path p) slave) pc (Manager.ports m)) m).

Definition handlerSlave (m : Manager.t) (pc : string) : Z :=
  from_option portClient.handler 0 (Manager.ports m !! pc).

(** One call [pc.client.X(...)]: the frame goes to the slave the handler
    currently holds. *)
Definition clientCall (pc : string) (rq : Request) : M Reply :=
  fun w =>
    let slave := handlerSlave (World.mgr w) pc in
    let rp := bus (World.trace w) pc slave rq in
    Ok rp (World.mk (World.mgr w) (World.trace w ++ [EvFrame pc slave rq rp])).

Definition probeDI (pc : string) : M Z :=
  r ← clientCall pc (ReadDiscreteInputs 0 8);
  match r with
  | inl _ => mret 8
  | inr _ =>
      r ← clientCall pc (ReadDiscreteInputs 0 4);
      match r with
      | inl _ => mret 4
      | inr _ => mret 0
      end
  end.

Definition probeDO (pc : string) : M Z :=
  r ← clientCall pc (ReadCoils 0 8);
  match r with
  | inl _ => mret 8
  | inr _ =>
      r ← clientCall pc (ReadCoils 0 4);
      match r with
      | inl _ => mret 4
      | inr _ => mret 0
      end
  end.

Definition probeAI (pc : string) : M Z :=
  r ← clientCall pc (ReadInputRegisters 0 8);
  match r with
  | inl _ => mret 4
  | inr _ => mret 0
  end.

Definition probeAO (pc : string) : M Z :=
  r ← clientCall pc (ReadHoldingRegisters 400 4);
  match r with
  | inl _ => mret 4
  | inr _ => mret 0
  end.

Definition probeCounts (pc : string) : M (Z * Z * Z * Z) :=
  di ← probeDI pc;
  doCount ← probeDO pc;
  ai ← probeAI pc;
  ao ← probeAO pc;
  mret (di, doCount, ai, ao).

Definition detectModel (pc : string) (slave : Z) : M string :=
  setSlaveID pc slave;;
  '(di, doCount, ai, ao) ← probeCounts pc;
  mret (guessModel di doCount ai ao).

Definition readSerialNumber (pc : string) : M string :=
  r ← clientCall pc (ReadHoldingRegisters 112 10);
  match r with
  | inr _ => mret ""
  | inl snRaw =>
      if Z.of_nat (length snRaw) <? 20 then mret ""
      else mret (string_of_bytes (untilNul (take 20 snRaw)))
  end.

Definition readBaudRate (pc : string) : M Z :=
  r ← clientCall pc (ReadHoldingRegisters 32 2);
  match r with
  | inr _ => mret 0
  | inl raw =>
      if Z.of_nat (length raw) <? 4 then mret 0
      else mret (be_uint32 (take 4 raw))
  end.

(** The tail of [readCard] that runs when [readAll] is set. *)
Definition readCard_identity (pc : string) (readAll : bool) (state : CardState.t)
  : M (CardState.t * option string) :=
  if readAll then
    sn ← readSerialNumber pc;
    baud ← readBaudRate pc;
    mret (CardState.set_BaudRate baud (CardState.set_SerialNumber sn state), None)
  else mret (state, None).

Definition readCard_AO (pc : string) (spec : ModelSpec.t) (readAll : bool)
    (state : CardState.t) : M (CardState.t * option string) :=
  if 0 <? ModelSpec.AO spec then
    r ← clientCall pc (ReadHoldingRegisters 0 (uint16 (ModelSpec.AO spec * 2)));
    match r with
    | inr err => mret (CardState.set_Error ("AO read error: " +:+ err) state, Some err)
    | inl raw =>
        ao ← must (getFloats raw (ModelSpec.AO spec));
        let state := CardState.set_AO ao state in
        if readAll then
          r ← clientCall pc (ReadHoldingRegisters 400 (uint16 (ModelSpec.AO spec)));
          match r with
          | inl typeRaw =>
              types ← must (getAOTypes typeRaw (ModelSpec.AO spec));
              readCard_identity pc readAll (CardState.set_AOType types state)
          | inr _ => readCard_identity pc readAll state
          end
        else readCard_identity pc readAll state
    end
  else readCard_identity pc readAll state.

Definition readCard_AI (pc : string) (spec : ModelSpec.t) (readAll : bool)
    (state : CardState.t) : M (CardState.t * option string) :=
  if 0 <? ModelSpec.AI spec then
    r ← clientCall pc (ReadInputRegisters 0 (uint16 (ModelSpec.AI spec * 2)));
    match r with
    | inr err => mret (CardState.set_Error ("AI read error: " +:+ err) state, Some err)
    | inl raw =>
        ai ← must (getFloats raw (ModelSpec.AI spec));
        readCard_AO pc spec readAll (CardState.set_AI ai state)
    end
  else readCard_AO pc spec readAll state.

Definition readCard_DO (pc : string) (spec : ModelSpec.t) (readAll : bool)
    (state : CardState.t) : M (CardState.t * option string) :=
  if 0 <? ModelSpec.DO spec then
    r ← clientCall pc (ReadCoils 0 (uint16 (ModelSpec.DO spec)));
    match r with
    | inr err => mret (CardState.set_Error ("DO read error: " +:+ err) state, Some err)
    | inl raw =>
        readCard_AI pc spec readAll
          (CardState.set_DO (unpackBits raw (ModelSpec.DO spec)) state)
    end
  else readCard_AI pc spec readAll state.

(** [readCard]: the four blocks of the source in order, each block
    continuing into the next one unless it returns early. *)
Definition readCard (pc : string) (slave : Z) (spec : ModelSpec.t) (readAll : bool)
  : M (CardState.t * option string) :=
  setSlaveID pc slave;;
  ts ← timeNow;
  let state := CardState.mk ts [] [] [] [] [] "" 0 "" in
  if 0 <? ModelSpec.DI spec then
    r ← clientCall pc (ReadDiscreteInputs 0 (uint16 (ModelSpec.DI spec)));
    match r with
    | inr err => mret (CardState.set_Error ("DI read error: " +:+ err) state, Some err)
    | inl raw =>
        readCard_DO pc spec readAll
          (CardState.set_DI (unpackBits raw (ModelSpec.DI spec)) state)
    end
  else readCard_DO pc spec readAll state.

Definition writeAOType (pc : string) (slave : Z) (index : Z) (mode : string)
  : M (option string) :=
  setSlaveID pc slave;;
  let val := if decide (mode = "0-10V") then 1 else 4 in
  r ← clientCall pc (WriteSingleRegister (uint16 (400 + index)) val);
  mret (replyErr r).

Definition reboot (pc : string) (slave : Z) : M (option string) :=
  setSlaveID pc slave;;
  r ← clientCall pc (WriteSingleRegister 16 65280);
  mret (replyErr r).

Definition writeMultipleDO (pc : string) (slave : Z) (startIndex : Z)
    (values : list bool) : M (option string) :=
  setSlaveID pc slave;;
  let quantity := uint16 (Z.of_nat (length values)) in
  let bytes := packBits values in
  r ← clientCall pc (WriteMultipleCoils startIndex quantity bytes);
  mret (replyErr r).

Definition writeMultipleAO (pc : string) (slave : Z) (startIndex : Z)
    (values : list F32.t) : M (option string) :=
  setSlaveID pc slave;;
  let quantity := uint16 (Z.of_nat (length values) * 2) in
  let buf := putFloats values in
  r ← clientCall pc (WriteMultipleRegisters (uint16 (startIndex * 2)) quantity buf);
  mret (replyErr r).

(** ** manager.go: registry *)

(** [ensurePort]: the port of [path], opened on first use. *)
Definition ensurePort (path : string) : M (string + string) :=
  m ← getMgr;
  match Manager.ports m !! path with
  | Some _ => mret (inl path)
  | None =>
      fun w =>
        let r := dial (World.trace w) path in
        let tr := World.trace w ++ [EvDial path r] in
        match r with
        | Some err => Ok (inr err) (World.mk (World.mgr w) tr)
        | None =>
            Ok (inl path)
               (World.mk
                  (Manager.set_ports
                     (<[path := portClient.mk path 0]> (Manager.ports (World.mgr w)))
                     (World.mgr w))
                  tr)
        end
  end.

(** An assignment through a [*Card]: the card object is the entry of its
    ID in the registry. *)
Definition updateCard (id : string) (f : Card.t -> Card.t) : M unit :=
  modifyMgr (fun m => Manager.set_cards (alter f id (Manager.cards m)) m).

Definition AddCard (portPath : string) (slave : Z) (module : string)
  : M (Card.t + string) :=
  r ← ensurePort portPath;
  match r with
  | inr err => mret (inr err)
  | inl pc =>
      detected ← (if decide (module = "") then
                    module ← detectModel pc slave;
                    if decide (module = "")
                    then mret (inr "unable to detect module; specify module explicitly")
                    else mret (inl module)
                  else mret (inl module));
      match detected with
      | inr err => mret (inr err)
      | inl module =>
          match ModelTable !! module with
          | None => mret (inr ("unknown module " +:+ module))
          | Some spec =>
              m ← getMgr;
              let id := Manager.nextID m in
              let c := Card.mk (Itoa id) portPath slave (ModelSpec.Name spec)
                               CardState.zero false in
              modifyMgr (fun m =>
                Manager.set_cards (<[Card.ID c := c]> (Manager.cards m))
                  (Manager.set_nextID (id + 1) m));;
              '(state, err) ← readCard pc slave spec true;
              match err with
              | None =>
                  updateCard (Card.ID c) (Card.set_Last state);;
                  mret (inl (Card.set_Last state c))
              | Some _ => mret (inl c)
              end
          end
      end
  end.

Definition GetCard (id : string) : M (option Card.t) :=
  m ← getMgr;
  mret (Manager.cards m !! id).

Definition RemoveCard (id : string) : M bool :=
  m ← getMgr;
  match Manager.cards m !! id with
  | None => mret false
  | Some _ =>
      modifyMgr (fun m => Manager.set_cards (delete id (Manager.cards m)) m);;
      mret true
  end.

(** [sort.Slice] by [Atoi(ID)], written as an insertion sort: the IDs of
    registered cards are distinct numerals, so the order is determined. *)
Fixpoint insertByID (c : Card.t) (l : list Card.t) : list Card.t :=
  match l with
  | [] => [c]
  | d :: l' =>
      if Atoi (Card.ID c) <? Atoi (Card.ID d) then c :: d :: l'
      else d :: insertByID c l'
  end.

Definition sortByID (l : list Card.t) : list Card.t :=
  fold_right insertByID [] l.

(** The snapshot loop [for _, c := range m.cards]. *)
Definition rangeCards (m : Manager.t) : list Card.t :=
  rangeMap Card.t (map snd (map_to_list (Manager.cards m))).

Definition GetAllCards : M (list Card.t) :=
  m ← getMgr;
  mret (sortByID (rangeCards m)).

(** The loops of [detectStateChange]; they run after the lengths were
    found equal. *)
Fixpoint anyDiff {A} (ne : A -> A -> bool) (new old : list A) : bool :=
  match new, old with
  | x :: new', y :: old' => ne x y || anyDiff ne new' old'
  | _, _ => false
  end.

Definition detectStateChange (oldState newState : CardState.t) : bool :=
  if negb (length (CardState.DI newState) =? length (CardState.DI oldState))%nat then true
  else if anyDiff (fun a b => negb (Bool.eqb a b))
                  (CardState.DI newState) (CardState.DI oldState) then true
  else if negb (length (CardState.AI newState) =? length (CardState.AI oldState))%nat then true
  else anyDiff F32.neb (CardState.AI newState) (CardState.AI oldState).

(** ** manager.go: write queue *)

Definition QueueWriteDO (cardID : string) (index : Z) (state : bool)
  : M (option string) :=
  c ← GetCard cardID;
  match c with
  | None => mret (Some "card not found")
  | Some c =>
      let spec := specOf (Card.Module_ c) in
      if (index <? 0) || (ModelSpec.DO spec <=? index)
      then mret (Some "index out of range")
      else
        let value := if state then F32.one else F32.zero in
        modifyMgr (fun m =>
          Manager.set_writeQueue
            (Manager.writeQueue m ++ [writeOperation.mk cardID writeOpDO index value ""]) m);;
        mret None
  end.

Definition QueueWriteAO (cardID : string) (index : Z) (value : F32.t)
  : M (option string) :=
  c ← GetCard cardID;
  match c with
  | None => mret (Some "card not found")
  | Some c =>
      let spec := specOf (Card.Module_ c) in
      if (index <? 0) || (ModelSpec.AO spec <=? index)
      then mret (Some "index out of range")
      else
        modifyMgr (fun m =>
          Manager.set_writeQueue
            (Manager.writeQueue m ++ [writeOperation.mk cardID writeOpAO index value ""]) m);;
        mret None
  end.

Definition QueueWriteAOType (cardID : string) (index : Z) (mode : string)
  : M (option string) :=
  c ← GetCard cardID;
  match c with
  | None => mret (Some "card not found")
  | Some c =>
      let spec := specOf (Card.Module_ c) in
      if (index <? 0) || (ModelSpec.AO spec <=? index)
      then mret (Some "index out of range")
      else
        modifyMgr (fun m =>
          Manager.set_writeQueue
            (Manager.writeQueue m ++ [writeOperation.mk cardID writeOpAOType index F32.zero mode]) m);;
        mret None
  end.

Definition RebootCard (cardID : string) : M (option string) :=
  m ← getMgr;
  match Manager.cards m !! cardID with
  | None => mret (Some "card not found")
  | Some c =>
      updateCard cardID (Card.set_needsFullRead true);;
      r ← ensurePort (Card.PortPath c);
      match r with
      | inr err => mret (Some err)
      | inl pc => reboot pc (Card.SlaveID c)
      end
  end.

Definition SetStateChangeCallback (registered : bool) : M unit :=
  modifyMgr (Manager.set_stateChangeCallback registered).

(** ** manager.go: batch writes *)

(** [l[i]] and [l[i] = x] with Go's bounds check. *)
Definition load {A} (l : list A) (i : Z) : option A :=
  if 0 <=? i then l !! Z.to_nat i else None.

Definition store {A} (l : list A) (i : Z) (x : A) : option (list A) :=
  if (0 <=? i) && (i <? Z.of_nat (length l))
  then Some (<[Z.to_nat i := x]> l)
  else None.

Definition typeCode (t : writeOpType) : Z :=
  match t with
  | writeOpDO => 0
  | writeOpAO => 1
  | writeOpAOType => 2
  end.

(** [fmt.Sprintf("%s:%d", op.CardID, op.Type)]. *)
Definition groupKey (cardID : string) (t : writeOpType) : string :=
  cardID +:+ ":" +:+ Itoa (typeCode t).

(** The map [GroupWriteOperations] builds. *)
Definition groupStep (groups : gmap string WriteGroup.t) (op : writeOperation.t)
  : gmap string WriteGroup.t :=
  let key := groupKey (writeOperation.CardID op) (writeOperation.Type_ op) in
  match groups !! key with
  | Some group =>
      <[key := WriteGroup.mk (WriteGroup.CardID group) (WriteGroup.RegisterType group)
                             (WriteGroup.Operations group ++ [op])]> groups
  | None =>
      <[key := WriteGroup.mk (writeOperation.CardID op) (writeOperation.Type_ op) [op]]> groups
  end.

Definition groupMap (ops : list writeOperation.t) : gmap string WriteGroup.t :=
  fold_left groupStep ops ∅.

Definition GroupWriteOperations (ops : list writeOperation.t) : list WriteGroup.t :=
  rangeMap WriteGroup.t (map snd (map_to_list (groupMap ops))).

Definition shouldWrite (op : writeOperation.t) (card : Card.t) : bool :=
  let idx := writeOperation.Index op in
  match writeOperation.Type_ op with
  | writeOpDO =>
      if (0 <=? idx) && (idx <? Z.of_nat (length (CardState.DO (Card.Last card)))) then
        match CardState.DO (Card.Last card) !! Z.to_nat idx with
        | Some currentState =>
            let newState := F32.neb (writeOperation.Value op) F32.zero in
            negb (Bool.eqb currentState newState)
        | None => true
        end
      else true
  | writeOpAO =>
      if (0 <=? idx) && (idx <? Z.of_nat (length (CardState.AO (Card.Last card)))) then
        match CardState.AO (Card.Last card) !! Z.to_nat idx with
        | Some currentValue => F32.neb currentValue (writeOperation.Value op)
        | None => true
        end
      else true
  | writeOpAOType =>
      if (0 <=? idx) && (idx <? Z.of_nat (length (CardState.AOType (Card.Last card)))) then
        match CardState.AOType (Card.Last card) !! Z.to_nat idx with
        | Some currentMode => negb (bool_decide (currentMode = writeOperation.Mode op))
        | None => true
        end
      else true
  end.

Definition errorResult (i : Z) (msg : string) : CommandResult.t :=
  CommandResult.mk i "error" msg.

(** What the validation loop of [ProcessBatchWrite] leaves in
    [results[i]]; a valid operation that needs writing keeps the zero
    value. *)
Definition validateOp (m : Manager.t) (i : Z) (op : writeOperation.t) : CommandResult.t :=
  match Manager.cards m !! writeOperation.CardID op with
  | None => errorResult i "card not found"
  | Some card =>
      let spec := specOf (Card.Module_ card) in
      let maxIndex :=
        match writeOperation.Type_ op with
        | writeOpDO => ModelSpec.DO spec
        | writeOpAO | writeOpAOType => ModelSpec.AO spec
        end in
      if (writeOperation.Index op <? 0) || (maxIndex <=? writeOperation.Index op)
      then errorResult i "index out of range"
      else if negb (shouldWrite op card)
      then CommandResult.mk i "ok" "value unchanged, skipped"
      else CommandResult.zero
  end.

(** The filter loop: [validOps] and [validToOrig], from position [i] on. *)
Fixpoint collectValid (i : Z) (ops : list writeOperation.t)
    (results : list CommandResult.t) : list writeOperation.t * list Z :=
  match ops, results with
  | op :: ops', r :: results' =>
      let '(validOps, validToOrig) := collectValid (i + 1) ops' results' in
      if decide (CommandResult.Status r = "")
      then (op :: validOps, i :: validToOrig)
      else (validOps, validToOrig)
  | _, _ => ([], [])
  end.

Definition sameTarget (a b : writeOperation.t) : bool :=
  bool_decide (writeOperation.CardID a = writeOperation.CardID b)
  && bool_decide (writeOperation.Type_ a = writeOperation.Type_ b)
  && (writeOperation.Index a =? writeOperation.Index b).

(** The inner search loop: the first [k] at or after [k0] whose operation
    has the card, type and index of [groupOp], or [-1]. *)
Fixpoint findValid (k0 : Z) (validOps : list writeOperation.t)
    (groupOp : writeOperation.t) : Z :=
  match validOps with
  | [] => -1
  | validOp :: rest =>
      if sameTarget validOp groupOp then k0 else findValid (k0 + 1) rest groupOp
  end.

(** The loop that maps the results of one group back. *)
Definition mapBack (validOps : list writeOperation.t) (validToOrig : list Z)
    (group : WriteGroup.t) (groupResults results : list CommandResult.t)
  : option (list CommandResult.t) :=
  fold_left
    (fun acc '(j, groupOp) =>
       results ← acc;
       match groupResults !! (j : nat) with
       | None => Some results
       | Some groupResult =>
           let validIdx := findValid 0 validOps groupOp in
           if (0 <=? validIdx) && (validIdx <? Z.of_nat (length validToOrig)) then
             origIdx ← load validToOrig validIdx;
             store results origIdx (CommandResult.set_Index origIdx groupResult)
           else Some results
       end)
    (imap (fun j groupOp => (j, groupOp)) (WriteGroup.Operations group))
    (Some results).

Definition minIndex (ops : list writeOperation.t) (start : Z) : Z :=
  fold_left (fun minIdx op =>
               if writeOperation.Index op <? minIdx then writeOperation.Index op else minIdx)
            ops start.

Definition maxIndex (ops : list writeOperation.t) (start : Z) : Z :=
  fold_left (fun maxIdx op =>
               if maxIdx <? writeOperation.Index op then writeOperation.Index op else maxIdx)
            ops start.

(** [make([]T, count)] filled from the cache where the cache has the
    index. *)
Definition windowInit {A} (zero : A) (cache : list A) (minIdx count : Z)
  : option (list A) :=
  if count <? 0 then None
  else mapM (fun i =>
               let idx := minIdx + i in
               if idx <? Z.of_nat (length cache) then load cache idx else Some zero)
            (seqZ 0 count).

Definition overlay {A} (val : writeOperation.t -> A) (minIdx : Z)
    (ops : list writeOperation.t) (values : list A) : option (list A) :=
  fold_left (fun acc op =>
               values ← acc;
               store values (writeOperation.Index op - minIdx) (val op))
            ops (Some values).

Definition writeResult (i : Z) (err : option string) : CommandResult.t :=
  match err with
  | Some e => errorResult i e
  | None => CommandResult.mk i "ok" ""
  end.

(** The closing loop [for i := range ops { results[i] = ... }]. *)
Definition setResults (n : nat) (err : option string) (results : list CommandResult.t)
  : option (list CommandResult.t) :=
  fold_left (fun acc i => results ← acc; store results i (writeResult i err))
            (seqZ 0 (Z.of_nat n)) (Some results).

Definition processBatchDO (pc : string) (card : Card.t) (ops : list writeOperation.t)
    (results : list CommandResult.t) : M (list CommandResult.t) :=
  match ops with
  | [] => mret results
  | op0 :: _ =>
      let minIdx := minIndex ops (writeOperation.Index op0) in
      let maxIdx := maxIndex ops (writeOperation.Index op0) in
      let count := maxIdx - minIdx + 1 in
      values ← must (windowInit false (CardState.DO (Card.Last card)) minIdx count);
      values ← must (overlay (fun op => F32.neb (writeOperation.Value op) F32.zero)
                             minIdx ops values);
      err ← writeMultipleDO pc (Card.SlaveID card) (uint16 minIdx) values;
      must (setResults (length ops) err results)
  end.

Definition processBatchAO (pc : string) (card : Card.t) (ops : list writeOperation.t)
    (results : list CommandResult.t) : M (list CommandResult.t) :=
  match ops with
  | [] => mret results
  | op0 :: _ =>
      let minIdx := minIndex ops (writeOperation.Index op0) in
      let maxIdx := maxIndex ops (writeOperation.Index op0) in
      let count := maxIdx - minIdx + 1 in
      values ← must (windowInit F32.zero (CardState.AO (Card.Last card)) minIdx count);
      values ← must (overlay writeOperation.Value minIdx ops values);
      err ← writeMultipleAO pc (Card.SlaveID card) minIdx values;
      must (setResults (length ops) err results)
  end.

Definition processBatchAOType (pc : string) (card : Card.t) (ops : list writeOperation.t)
    (results : list CommandResult.t) : M (list CommandResult.t) :=
  foldM (imap (fun i op => (Z.of_nat i, op)) ops) results
        (fun results '(i, op) =>
           err ← writeAOType pc (Card.SlaveID card) (writeOperation.Index op)
                             (writeOperation.Mode op);
           must (store results i (writeResult i err))).

Definition processWriteGroup (group : WriteGroup.t) : M (list CommandResult.t) :=
  let ops := WriteGroup.Operations group in
  card ← GetCard (WriteGroup.CardID group);
  match card with
  | None => mret (imap (fun i _ => errorResult (Z.of_nat i) "card not found") ops)
  | Some card =>
      r ← ensurePort (Card.PortPath card);
      match r with
      | inr err =>
          mret (imap (fun i _ => errorResult (Z.of_nat i) ("failed to get port: " +:+ err)) ops)
      | inl pc =>
          let results := replicate (length ops) CommandResult.zero in
          match WriteGroup.RegisterType group with
          | writeOpDO => processBatchDO pc card ops results
          | writeOpAO => processBatchAO pc card ops results
          | writeOpAOType => processBatchAOType pc card ops results
          end
      end
  end.

Definition ProcessBatchWrite (ops : list writeOperation.t) : M (list CommandResult.t) :=
  m ← getMgr;
  let results := imap (fun i op => validateOp m (Z.of_nat i) op) ops in
  let '(validOps, validToOrig) := collectValid 0 ops results in
  if (length validOps =? 0)%nat then mret results
  else
    let groups := GroupWriteOperations validOps in
    foldM groups results
          (fun results group =>
             groupResults ← processWriteGroup group;
             must (mapBack validOps validToOrig group groupResults results)).

Definition ProcessWriteQueue : M unit :=
  m ← getMgr;
  let queue := Manager.writeQueue m in
  modifyMgr (Manager.set_writeQueue []);;
  if (length queue =? 0)%nat then mret tt
  else
    _ ← ProcessBatchWrite queue;
    mret tt.

(** ** manager.go: read cycle *)

(** The state a successful read stores: a full read is stored as it is, a
    fast read keeps the serial number and the AO types of the card. *)
Definition mergeState (readAll : bool) (last state : CardState.t) : CardState.t :=
  if readAll then state
  else CardState.set_AOType (CardState.AOType last)
         (CardState.set_SerialNumber (CardState.SerialNumber last) state).

(** The body of the loop of [ReadAllAndProcessWrites] for the card object
    [id]; [hasStateChange] is the loop-scoped flag.  Nothing inside the
    loop removes a card, so the object is always found in the registry. *)
Definition cycleCard (hasStateChange : bool) (id : string) : M bool :=
  m ← getMgr;
  match Manager.cards m !! id with
  | None => mret hasStateChange
  | Some c =>
      let spec := specOf (Card.Module_ c) in
      match Manager.ports m !! Card.PortPath c with
      | None =>
          updateCard id (fun c =>
            Card.set_Last
              (CardState.set_Error ("port " +:+ Card.PortPath c +:+ " not found") (Card.Last c)) c);;
          mret hasStateChange
      | Some _ =>
          let pc := Card.PortPath c in
          let prevState := Card.Last c in
          let readAll := Card.needsFullRead c in
          (if readAll then updateCard id (Card.set_needsFullRead false) else mret tt);;
          '(state, err) ← readCard pc (Card.SlaveID c) spec readAll;
          updateCard id (fun c =>
            match err with
            | Some e => Card.set_Last (CardState.set_Error e (Card.Last c)) c
            | None => Card.set_Last (mergeState readAll (Card.Last c) state) c
            end);;
          m ← getMgr;
          let last := from_option Card.Last prevState (Manager.cards m !! id) in
          let hasStateChange :=
            if hasStateChange then true else detectStateChange prevState last in
          ProcessWriteQueue;;
          mret hasStateChange
      end
  end.

Definition ReadAllAndProcessWrites : M (list Card.t) :=
  m ← getMgr;
  let cards := map Card.ID (sortByID (rangeCards m)) in
  hasStateChange ← foldM cards false cycleCard;
  (if hasStateChange : bool then
     m ← getMgr;
     if Manager.stateChangeCallback m then
       callbackCards ← GetAllCards;
       emit (EvCallback callbackCards)
     else mret tt
   else mret tt);;
  m ← getMgr;
  mret (omap (fun id => Manager.cards m !! id) cards).

(** ** manager.go: safe state *)

Definition orFirst (firstErr : option string) (e : string) : option string :=
  match firstErr with
  | None => Some e
  | Some _ => firstErr
  end.

Definition safeAOValues (safeConfig : SafeStateConfig.t) (aoType : list string) (n : Z)
  : list F32.t :=
  map (fun i =>
         if (i <? Z.of_nat (length aoType))
            && bool_decide (aoType !! Z.to_nat i = Some "4-20mA")
         then F32.mul (SafeStateConfig.AOCurrentValue safeConfig) F32.thousand
         else F32.mul (SafeStateConfig.AOVoltageValue safeConfig) F32.thousand)
      (seqZ 0 n).

(** The body of the loop of [WriteAllOutputsToSafeState].  No step of the
    call assigns to a card, so the snapshot [card] is the card object. *)
Definition safeStateCard (safeConfig : SafeStateConfig.t) (firstErr : option string)
    (card : Card.t) : M (option string) :=
  let spec := specOf (Card.Module_ card) in
  r ← ensurePort (Card.PortPath card);
  match r with
  | inr err =>
      mret (orFirst firstErr ("card " +:+ Card.ID card +:+ ": failed to get port: " +:+ err))
  | inl pc =>
      firstErr ←
        (if 0 <? ModelSpec.DO spec then
           let doValues :=
             replicate (Z.to_nat (ModelSpec.DO spec)) (SafeStateConfig.DOState safeConfig) in
           err ← writeMultipleDO pc (Card.SlaveID card) 0 doValues;
           match err with
           | Some e =>
               mret (orFirst firstErr
                       ("card " +:+ Card.ID card +:+ ": failed to write DO to safe state: " +:+ e))
           | None => mret firstErr
           end
         else mret firstErr);
      if 0 <? ModelSpec.AO spec then
        let cardState := Card.Last card in
        let aoValues :=
          safeAOValues safeConfig (CardState.AOType cardState) (ModelSpec.AO spec) in
        err ← writeMultipleAO pc (Card.SlaveID card) 0 aoValues;
        match err with
        | Some e =>
            mret (orFirst firstErr
                    ("card " +:+ Card.ID card +:+ ": failed to write AO to safe state: " +:+ e))
        | None => mret firstErr
        end
      else mret firstErr
  end.

Definition WriteAllOutputsToSafeState : M (option string) :=
  m ← getMgr;
  let cards := rangeCards m in
  let safeConfig := Manager.safeStateConfig m in
  firstErr ← foldM cards None (safeStateCard safeConfig);
  match firstErr with
  | Some e => mret (Some ("WriteAllOutputsToSafeState completed with errors: " +:+ e))
  | None => mret None
  end.

(** * Vocabulary of the properties *)

(** The manager after [setSlaveID]. *)
Definition withSlave (pc : string) (slave : Z) (m : Manager.t) : Manager.t :=
  Manager.set_ports
    (alter (fun p => portClient.mk (portClient.path p) slave) pc (Manager.ports m)) m.

(** One transaction with the slave id set first, as every exported method
    of the port performs it. *)
Definition frameEvent (w : World.t) (pc : string) (slave : Z) (rq : Request) : Event :=
  EvFrame pc (handlerSlave (withSlave pc slave (World.mgr w)) pc) rq
          (bus (World.trace w) pc (handlerSlave (withSlave pc slave (World.mgr w)) pc) rq).

Definition afterFrame (w : World.t) (pc : string) (slave : Z) (rq : Request) : World.t :=
  World.mk (withSlave pc slave (World.mgr w)) (World.trace w ++ [frameEvent w pc slave rq]).

Definition frameReply (w : World.t) (pc : string) (slave : Z) (rq : Request) : Reply :=
  bus (World.trace w) pc (handlerSlave (withSlave pc slave (World.mgr w)) pc) rq.

Definition sameRegistry (m m' : Manager.t) : Prop :=
  Manager.cards m' = Manager.cards m /\
  Manager.nextID m' = Manager.nextID m /\
  Manager.writeQueue m' = Manager.writeQueue m /\
  Manager.stateChangeCallback m' = Manager.stateChangeCallback m /\
  Manager.safeStateConfig m' = Manager.safeStateConfig m /\
  forall p, is_Some (Manager.ports m !! p) -> is_Some (Manager.ports m' !! p).

(** Where a trace entry went and whether it failed. *)
Definition evTarget (ev : Event) : option (string * Z * Request) :=
  match ev with
  | EvFrame p s rq _ => Some (p, s, rq)
  | _ => None
  end.

Definition evError (ev : Event) : option string :=
  match ev with
  | EvDial _ e => e
  | EvFrame _ _ _ rp => replyErr rp
  | EvCallback _ => None
  end.

(** The safe value of AO channel [i], in the words of the specification. *)
Definition spec_safeAO (cfg : SafeStateConfig.t) (aoType : list string) (i : Z) : F32.t :=
  match aoType !! Z.to_nat i with
  | Some t =>
      if decide (t = "4-20mA")
      then F32.mul (SafeStateConfig.AOCurrentValue cfg) F32.thousand
      else F32.mul (SafeStateConfig.AOVoltageValue cfg) F32.thousand
  | None => F32.mul (SafeStateConfig.AOVoltageValue cfg) F32.thousand
  end.

(** The frames the specification asks for one card: one WriteMultipleCoils
    when the card has digital outputs, then one WriteMultipleRegisters when
    it has analog outputs. *)
Definition spec_safeFrames (cfg : SafeStateConfig.t) (card : Card.t)
  : list (string * Z * Request) :=
  let spec := specOf (Card.Module_ card) in
  (if 0 <? ModelSpec.DO spec then
     [(Card.PortPath card, Card.SlaveID card,
       WriteMultipleCoils 0 (ModelSpec.DO spec)
         (packBits (replicate (Z.to_nat (ModelSpec.DO spec)) (SafeStateConfig.DOState cfg))))]
   else [])
  ++
  (if 0 <? ModelSpec.AO spec then
     [(Card.PortPath card, Card.SlaveID card,
       WriteMultipleRegisters 0 (ModelSpec.AO spec * 2)
         (putFloats (map (spec_safeAO cfg (CardState.AOType (Card.Last card)))
                         (seqZ 0 (ModelSpec.AO spec)))))]
   else []).

(** The same frames with their payloads spelled out, byte by byte.

    [n] coils that all have the state [b], as Modbus packs coils: eight to
    a byte, the first coil in the lowest bit, the unused high bits of the
    last byte zero. *)
Definition spec_coilBytes (n : Z) (b : bool) : list Z :=
  map (fun k => if b then 2 ^ Z.min 8 (n - 8 * k) - 1 else 0) (seqZ 0 ((n + 7) / 8)).

(** Float32 values as register bytes: four bytes each, the most
    significant byte first. *)
Definition spec_floatBytes (values : list F32.t) : list Z :=
  flat_map (fun v => [v / 2 ^ 24 mod 256; v / 2 ^ 16 mod 256; v / 2 ^ 8 mod 256; v mod 256])
           values.

(** The binary32 pattern of a whole number [0 <= k < 2^24]: the exponent
    is the position of the leading bit of [k], biased by 127, and the
    fraction holds the bits below the leading one, left aligned. *)
Definition float32_of_whole (k : Z) : F32.t :=
  if k =? 0 then 0
  else (Z.log2 k + 127) * 2 ^ 23 + (k * 2 ^ (23 - Z.log2 k) - 2 ^ 23).

(** [x * 1000] in float32: the IEEE-754 product of [x] and the number
    1000, rounded to nearest even. *)
Definition spec_times1000 (x : F32.t) : F32.t :=
  F32.encode (SFmul F32.prec F32.emax (F32.decode x) (F32.decode (float32_of_whole 1000))).

(** The safe value of AO channel [i]: the current value times 1000 when
    the cached type of the channel is "4-20mA", the voltage value times
    1000 otherwise, a channel without cached type included. *)
Definition spec_safeValue (cfg : SafeStateConfig.t) (aoType : list string) (i : Z) : F32.t :=
  if decide (aoType !! Z.to_nat i = Some "4-20mA")
  then spec_times1000 (SafeStateConfig.AOCurrentValue cfg)
  else spec_times1000 (SafeStateConfig.AOVoltageValue cfg).

Definition spec_safeWire (cfg : SafeStateConfig.t) (card : Card.t)
  : list (string * Z * Request) :=
  let spec := specOf (Card.Module_ card) in
  (if 0 <? ModelSpec.DO spec then
     [(Card.PortPath card, Card.SlaveID card,
       WriteMultipleCoils 0 (ModelSpec.DO spec)
         (spec_coilBytes (ModelSpec.DO spec) (SafeStateConfig.DOState cfg)))]
   else [])
  ++
  (if 0 <? ModelSpec.AO spec then
     [(Card.PortPath card, Card.SlaveID card,
       WriteMultipleRegisters 0 (ModelSpec.AO spec * 2)
         (spec_floatBytes (map (spec_safeValue cfg (CardState.AOType (Card.Last card)))
                               (seqZ 0 (ModelSpec.AO spec)))))]
   else []).

(** The error message [WriteAllOutputsToSafeState] derives from a failed
    step of [card]. *)
Definition safeStateMessage (card : Card.t) (ev : Event) : option string :=
  match ev with
  | EvDial _ (Some e) =>
      Some ("card " +:+ Card.ID card +:+ ": failed to get port: " +:+ e)
  | EvFrame _ _ (WriteMultipleCoils _ _ _) (inr e) =>
      Some ("card " +:+ Card.ID card +:+ ": failed to write DO to safe state: " +:+ e)
  | EvFrame _ _ (WriteMultipleRegisters _ _ _) (inr e) =>
      Some ("card " +:+ Card.ID card +:+ ": failed to write AO to safe state: " +:+ e)
  | _ => None
  end.

Fixpoint firstSome {A} (l : list (option A)) : option A :=
  match l with
  | [] => None
  | Some a :: _ => Some a
  | None :: l' => firstSome l'
  end.

(** What one card contributes to the trace: its frames, after a successful
    opening of its port if that was still closed, or the failed opening
    alone. *)
Definition safeStateAttempt (cfg : SafeStateConfig.t) (card : Card.t) (tr : list Event)
  : Prop :=
  map evTarget tr = map Some (spec_safeFrames cfg card)
  \/ (exists tr', tr = EvDial (Card.PortPath card) None :: tr' /\
                  map evTarget tr' = map Some (spec_safeFrames cfg card))
  \/ (exists e, tr = [EvDial (Card.PortPath card) (Some e)]).

(** The two writes of [safeStateCard], once the port is there. *)
Definition safeStateDO (safeConfig : SafeStateConfig.t) (firstErr : option string)
    (card : Card.t) (pc : string) : M (option string) :=
  let spec := specOf (Card.Module_ card) in
  if 0 <? ModelSpec.DO spec then
    let doValues :=
      replicate (Z.to_nat (ModelSpec.DO spec)) (SafeStateConfig.DOState safeConfig) in
    err ← writeMultipleDO pc (Card.SlaveID card) 0 doValues;
    match err with
    | Some e =>
        mret (orFirst firstErr
                ("card " +:+ Card.ID card +:+ ": failed to write DO to safe state: " +:+ e))
    | None => mret firstErr
    end
  else mret firstErr.

Definition safeStateAO (safeConfig : SafeStateConfig.t) (firstErr : option string)
    (card : Card.t) (pc : string) : M (option string) :=
  let spec := specOf (Card.Module_ card) in
  if 0 <? ModelSpec.AO spec then
    let cardState := Card.Last card in
    let aoValues :=
      safeAOValues safeConfig (CardState.AOType cardState) (ModelSpec.AO spec) in
    err ← writeMultipleAO pc (Card.SlaveID card) 0 aoValues;
    match err with
    | Some e =>
        mret (orFirst firstErr
                ("card " +:+ Card.ID card +:+ ": failed to write AO to safe state: " +:+ e))
    | None => mret firstErr
    end
  else mret firstErr.

Definition orElse {A} (a b : option A) : option A :=
  match a with
  | Some _ => a
  | None => b
  end.

Definition spec_safeDOFrame (cfg : SafeStateConfig.t) (card : Card.t)
  : list (string * Z * Request) :=
  let spec := specOf (Card.Module_ card) in
  if 0 <? ModelSpec.DO spec then
    [(Card.PortPath card, Card.SlaveID card,
      WriteMultipleCoils 0 (ModelSpec.DO spec)
        (packBits (replicate (Z.to_nat (ModelSpec.DO spec)) (SafeStateConfig.DOState cfg))))]
  else [].

Definition spec_safeAOFrame (cfg : SafeStateConfig.t) (card : Card.t)
  : list (string * Z * Request) :=
  let spec := specOf (Card.Module_ card) in
  if 0 <? ModelSpec.AO spec then
    [(Card.PortPath card, Card.SlaveID card,
      WriteMultipleRegisters 0 (ModelSpec.AO spec * 2)
        (putFloats (map (spec_safeAO cfg (CardState.AOType (Card.Last card)))
                        (seqZ 0 (ModelSpec.AO spec)))))]
  else [].

(** The messages of all failed steps of the call, in order. *)
Definition safeStateMessages (cards : list Card.t) (trs : list (list Event))
  : list (option string) :=
  concat (zip_with (fun c tr => map (safeStateMessage c) tr) cards trs).

(** Every registered card has its port in the port table: [AddCard]
    registers a card only after [ensurePort] succeeded, and no operation
    removes a port. *)
Definition portsOpen (m : Manager.t) : Prop :=
  forall id c, Manager.cards m !! id = Some c ->
               is_Some (Manager.ports m !! Card.PortPath c).

(** [range] over a Go map visits every entry once, in some order. *)
Hypothesis rangeMap_perm : forall (A : Type) (l : list A), Permutation (rangeMap A l) l.

(** The window before the overlay: the cached value where there is one. *)
Definition cachedWindow {A} (zero : A) (cache : list A) (minIdx count : Z) : list A :=
  map (fun i => default zero (cache !! Z.to_nat (minIdx + i))) (seqZ 0 count).

(** The window after the overlay. *)
Definition overlaid {A} (val : writeOperation.t -> A) (minIdx : Z)
    (ops : list writeOperation.t) (values : list A) : list A :=
  fold_left (fun values op => <[Z.to_nat (writeOperation.Index op - minIdx) := val op]> values)
            ops values.

(** The window [processBatchDO] and [processBatchAO] write. *)
Definition writeWindow {A} (zero : A) (val : writeOperation.t -> A) (cache : list A)
    (ops : list writeOperation.t) : list A :=
  match ops with
  | [] => []
  | op0 :: _ =>
      let minIdx := minIndex ops (writeOperation.Index op0) in
      let maxIdx := maxIndex ops (writeOperation.Index op0) in
      overlaid val minIdx ops (cachedWindow zero cache minIdx (maxIdx - minIdx + 1))
  end.

Definition firstIndex (ops : list writeOperation.t) : Z :=
  match ops with
  | [] => 0
  | op0 :: _ => minIndex ops (writeOperation.Index op0)
  end.

(** The requests one group puts on the bus of its card. *)
Definition groupRequests (card : Card.t) (g : WriteGroup.t) : list (string * Z * Request) :=
  let ops := WriteGroup.Operations g in
  let to rq := (Card.PortPath card, Card.SlaveID card, rq) in
  match ops with
  | [] => []
  | _ :: _ =>
      match WriteGroup.RegisterType g with
      | writeOpDO =>
          let values := writeWindow false (fun op => F32.neb (writeOperation.Value op) F32.zero)
                                    (CardState.DO (Card.Last card)) ops in
          [to (WriteMultipleCoils (uint16 (firstIndex ops))
                 (uint16 (Z.of_nat (length values))) (packBits values))]
      | writeOpAO =>
          let values := writeWindow F32.zero writeOperation.Value
                                    (CardState.AO (Card.Last card)) ops in
          [to (WriteMultipleRegisters (uint16 (firstIndex ops * 2))
                 (uint16 (Z.of_nat (length values) * 2)) (putFloats values))]
      | writeOpAOType =>
          map (fun op =>
                 to (WriteSingleRegister (uint16 (400 + writeOperation.Index op))
                       (if decide (writeOperation.Mode op = "0-10V") then 1 else 4)))
              ops
      end
  end.

Definition aoTypeRequest (card : Card.t) (op : writeOperation.t) : string * Z * Request :=
  (Card.PortPath card, Card.SlaveID card,
   WriteSingleRegister (uint16 (400 + writeOperation.Index op))
     (if decide (writeOperation.Mode op = "0-10V") then 1 else 4)).

(** What a batch step contributes to the trace once the card is known: the
    given frames, preceded by a successful opening of the port when it was
    still closed, or the failed opening alone. *)
Definition portAttempt (path : string) (frames : list (string * Z * Request))
    (tr : list Event) : Prop :=
  map evTarget tr = map Some frames
  \/ (exists tr', tr = EvDial path None :: tr' /\ map evTarget tr' = map Some frames)
  \/ (exists e, tr = [EvDial path (Some e)]).

Definition groupAttempt (m : Manager.t) (g : WriteGroup.t) (tr : list Event) : Prop :=
  match Manager.cards m !! WriteGroup.CardID g with
  | None => tr = []
  | Some c => portAttempt (Card.PortPath c) (groupRequests c g) tr
  end.

(** What one group does, in a world whose registry is that of [m]. *)
Definition groupRun (m : Manager.t) (g : WriteGroup.t) (tr : list Event) : Prop :=
  groupAttempt m g tr /\
  forall c, Manager.cards m !! WriteGroup.CardID g = Some c ->
            is_Some (Manager.ports m !! Card.PortPath c) ->
            map evTarget tr = map Some (groupRequests c g).

Definition opKey (op : writeOperation.t) : string :=
  groupKey (writeOperation.CardID op) (writeOperation.Type_ op).

Definition groupOf (l : list writeOperation.t) : option WriteGroup.t :=
  match l with
  | [] => None
  | op0 :: _ => Some (WriteGroup.mk (writeOperation.CardID op0) (writeOperation.Type_ op0) l)
  end.

(** [validOps] and [validToOrig] of a batch: the operations that passed
    validation and differ from the cache, and their positions. *)
Definition pendingOps (m : Manager.t) (ops : list writeOperation.t) : list writeOperation.t :=
  (collectValid 0 ops (imap (fun i op => validateOp m (Z.of_nat i) op) ops)).1.

Definition pendingIdx (m : Manager.t) (ops : list writeOperation.t) : list Z :=
  (collectValid 0 ops (imap (fun i op => validateOp m (Z.of_nat i) op) ops)).2.

Definition channelCount (spec : ModelSpec.t) (t : writeOpType) : Z :=
  match t with
  | writeOpDO => ModelSpec.DO spec
  | writeOpAO | writeOpAOType => ModelSpec.AO spec
  end.

(** The world after the groups [gs] were processed in turn. *)
Fixpoint groupsWorld (gs : list WriteGroup.t) (w : World.t) : World.t :=
  match gs with
  | [] => w
  | g :: gs' =>
      match processWriteGroup g w with
      | Ok _ w' => groupsWorld gs' w'
      | Panic => w
      end
  end.

(** An operation is pending when it passed validation and differs from the
    cached value. *)
Definition isPending (m : Manager.t) (op : writeOperation.t) : Prop :=
  CommandResult.Status (validateOp m 0 op) = "".

Global Instance isPending_dec m op : Decision (isPending m op).
Proof. unfold isPending. apply _. Defined.

(** The requested value equals the cached value of the channel. *)
Definition cachedEqual (card : Card.t) (op : writeOperation.t) : Prop :=
  match writeOperation.Type_ op with
  | writeOpDO =>
      CardState.DO (Card.Last card) !! Z.to_nat (writeOperation.Index op)
      = Some (F32.neb (writeOperation.Value op) F32.zero)
  | writeOpAO =>
      exists v, CardState.AO (Card.Last card) !! Z.to_nat (writeOperation.Index op) = Some v
                /\ F32.eqb v (writeOperation.Value op) = true
  | writeOpAOType =>
      CardState.AOType (Card.Last card) !! Z.to_nat (writeOperation.Index op)
      = Some (writeOperation.Mode op)
  end.

(** An operation needs writing: its card is registered, its index is a
    channel of the card, and its value is not the cached one. *)
Definition needsWrite (m : Manager.t) (op : writeOperation.t) : Prop :=
  exists card, Manager.cards m !! writeOperation.CardID op = Some card /\
    0 <= writeOperation.Index op
      < channelCount (specOf (Card.Module_ card)) (writeOperation.Type_ op) /\
    ~ cachedEqual card op.

(** The WriteMultipleCoils requests of a trace that went to one slave of
    one port. *)
Definition coilOf (path : string) (slave : Z) (t : string * Z * Request) : option Request :=
  match t with
  | (p, s, WriteMultipleCoils a q v) =>
      if decide (p = path /\ s = slave) then Some (WriteMultipleCoils a q v) else None
  | _ => None
  end.

Definition coilFrames (path : string) (slave : Z) (tr : list Event) : list Request :=
  omap (fun ev => evTarget ev ≫= coilOf path slave) tr.

(** Distinct registered cards sit at distinct bus addresses. *)
Definition distinctAddresses (m : Manager.t) : Prop :=
  forall id1 id2 c1 c2,
    Manager.cards m !! id1 = Some c1 -> Manager.cards m !! id2 = Some c2 ->
    Card.PortPath c1 = Card.PortPath c2 -> Card.SlaveID c1 = Card.SlaveID c2 -> id1 = id2.

(** [op] is a DO operation of the batch for card [id] that needs writing. *)
Definition writesDO (m : Manager.t) (ops : list writeOperation.t) (id : string)
    (op : writeOperation.t) : Prop :=
  op ∈ ops /\ writeOperation.CardID op = id /\ writeOperation.Type_ op = writeOpDO /\
  needsWrite m op.

(** The four sub-reads that fill the I/O values: DI, DO, AI and AO, all at
    address 0. *)
Definition isPrimaryRead (rq : Request) : bool :=
  match rq with
  | ReadDiscreteInputs a _ | ReadCoils a _ | ReadInputRegisters a _
  | ReadHoldingRegisters a _ => a =? 0
  | _ => false
  end.

Definition evFailedPrimary (ev : Event) : bool :=
  match ev with
  | EvFrame _ _ rq (inr _) => isPrimaryRead rq
  | _ => false
  end.

(** What a run of [readCard], or of one of its blocks entered with a state
    whose error field is [e0], can result in. *)
Definition readOutcome (e0 : string) (w : World.t)
    (r : Res (CardState.t * option string)) : Prop :=
  match r with
  | Panic => True
  | Ok (st, err) w' =>
      sameRegistry (World.mgr w) (World.mgr w') /\
      exists tr, World.trace w' = World.trace w ++ tr /\
        match err with
        | Some e =>
            exists tr0 p s rq,
              tr = tr0 ++ [EvFrame p s rq (inr e)] /\ isPrimaryRead rq = true /\
              Forall (fun ev => evError ev = None) tr0
        | None =>
            Forall (fun ev => evFailedPrimary ev = false) tr /\ CardState.Error st = e0
        end
  end.

(** The blocks that run after the last primary read never fail. *)
Definition tailOutcome (e0 : string) (w : World.t)
    (r : Res (CardState.t * option string)) : Prop :=
  match r with
  | Panic => True
  | Ok (st, err) w' =>
      sameRegistry (World.mgr w) (World.mgr w') /\
      exists tr, World.trace w' = World.trace w ++ tr /\
        err = None /\ Forall (fun ev => evFailedPrimary ev = false) tr /\
        CardState.Error st = e0
  end.

(** A register read that succeeds returns two bytes per register asked
    for, as a Modbus device answers. *)
Definition registerRepliesSized : Prop :=
  forall tr p s a q raw,
    (bus tr p s (ReadInputRegisters a q) = inl raw \/
     bus tr p s (ReadHoldingRegisters a q) = inl raw) ->
    Z.of_nat (length raw) = 2 * q.

(** The world after an assignment through the card object [id]. *)
Definition withCard (id : string) (f : Card.t -> Card.t) (w : World.t) : World.t :=
  World.mk (Manager.set_cards (alter f id (Manager.cards (World.mgr w))) (World.mgr w))
           (World.trace w).

(** The module [AddCard] goes on with: the one given, or the one detected
    on the bus when none was given. *)
Definition resolveModule (pc : string) (slave : Z) (module : string) : M (string + string) :=
  if decide (module = "") then
    module ← detectModel pc slave;
    if decide (module = "")
    then mret (inr "unable to detect module; specify module explicitly")
    else mret (inl module)
  else mret (inl module).

(** The card [AddCard] creates and the world after it was registered. *)
Definition newCard (portPath : string) (slave : Z) (spec : ModelSpec.t) (m : Manager.t)
  : Card.t :=
  Card.mk (Itoa (Manager.nextID m)) portPath slave (ModelSpec.Name spec) CardState.zero false.

Definition registerCard (portPath : string) (slave : Z) (spec : ModelSpec.t) (w : World.t)
  : World.t :=
  let m := World.mgr w in
  let c := newCard portPath slave spec m in
  World.mk (Manager.set_cards (<[Card.ID c := c]> (Manager.cards m))
              (Manager.set_nextID (Manager.nextID m + 1) m))
           (World.trace w).

(** The state the cycle stores for a card after its read. *)
Definition cycleLast (c : Card.t) (st : CardState.t) (err : option string) : CardState.t :=
  match err with
  | Some e => CardState.set_Error e (Card.Last c)
  | None => mergeState (Card.needsFullRead c) (Card.Last c) st
  end.

(** The window of a coil write reaches from channel [a] to channel [b]. *)
Definition covers (rq : Request) (a b : Z) : Prop :=
  match rq with
  | WriteMultipleCoils lo q _ => lo <= a /\ b <= lo + q - 1
  | _ => False
  end.

(** Every result carries its position in the batch as its Index, or is
    the zero value. *)
Definition positioned (rs : list CommandResult.t) : Prop :=
  forall (i : nat) r, rs !! i = Some r ->
    CommandResult.Index r = Z.of_nat i \/ r = CommandResult.zero.

(** A result that was written: its Status is "ok" or "error". *)
Definition settled (r : CommandResult.t) : Prop := CommandResult.Status r <> "".

Definition settledAt (rs : list CommandResult.t) (i : Z) : Prop :=
  exists r, load rs i = Some r /\ settled r.

(** No two operations of the batch that need writing have the same card,
    kind and index. *)
Definition distinctTargets (m : Manager.t) (ops : list writeOperation.t) : Prop :=
  forall (i j : nat) a b,
    ops !! i = Some a -> ops !! j = Some b -> isPending m a -> isPending m b ->
    sameTarget a b = true -> i = j.

(** One step of the loop of [mapBack]. *)
Definition mapBackStep (validOps : list writeOperation.t) (validToOrig : list Z)
    (groupResults : list CommandResult.t) (acc : option (list CommandResult.t))
    (x : nat * writeOperation.t) : option (list CommandResult.t) :=
  let '(j, groupOp) := x in
  results ← acc;
  match groupResults !! (j : nat) with
  | None => Some results
  | Some groupResult =>
      let validIdx := findValid 0 validOps groupOp in
      if (0 <=? validIdx) && (validIdx <? Z.of_nat (length validToOrig)) then
        origIdx ← load validToOrig validIdx;
        store results origIdx (CommandResult.set_Index origIdx groupResult)
      else Some results
  end.

(** A computation that leaves the registry as it is and closes no port. *)
Definition keepsRegistry {A} (c : M A) : Prop :=
  forall w a w', c w = Ok a w' -> sameRegistry (World.mgr w) (World.mgr w').

(** One step of the loop of [packBits]. *)
Definition packStep (bytes : list Z) (x : nat * bool) : list Z :=
  let '(i, val) := x in
  if val : bool
  then alter (fun b => byte (Z.lor b (Z.shiftl 1 (Z.of_nat i mod 8)))) (i / 8)%nat bytes
  else bytes.

(** The requests a batch puts on the bus: those of its groups, in the
    order the groups are processed. *)
Definition batchRequests (m : Manager.t) (ops : list writeOperation.t)
    : list (string * Z * Request) :=
  flat_map (fun g => match Manager.cards m !! WriteGroup.CardID g with
                     | Some c => groupRequests c g
                     | None => []
                     end)
           (GroupWriteOperations (pendingOps m ops)).

(** The message of an operation the validation loop rejects. *)
Definition rejection (m : Manager.t) (op : writeOperation.t) : string :=
  match Manager.cards m !! writeOperation.CardID op with
  | None => "card not found"
  | Some _ => "index out of range"
  end.

(** The registry is well formed: a card is filed under its own ID, its
    module is a model of the table, and its ID is the numeral of a value
    the counter [nextID] has passed. *)
Definition registryOK (m : Manager.t) : Prop :=
  1 <= Manager.nextID m /\
  forall id c, Manager.cards m !! id = Some c ->
    Card.ID c = id /\
    is_Some (ModelTable !! Card.Module_ c) /\
    exists n, 1 <= n < Manager.nextID m /\ id = Itoa n.

(** The order [sort.Slice] puts the cards in. *)
Definition beforeID (c d : Card.t) : Prop := Atoi (Card.ID c) < Atoi (Card.ID d).

(** The requests that only read. *)
Definition isReadRequest (rq : Request) : bool :=
  match rq with
  | ReadCoils _ _ | ReadDiscreteInputs _ _
  | ReadHoldingRegisters _ _ | ReadInputRegisters _ _ => true
  | _ => false
  end.

(** A read request put to slave [slave] of port [pc]. *)
Definition readOf (pc : string) (slave : Z) (ev : Event) : Prop :=
  match ev with
  | EvFrame p s rq _ => p = pc /\ s = slave /\ isReadRequest rq = true
  | _ => False
  end.

(** The handler of port [pc] addresses slave [slave]. *)
Definition aimed (pc : string) (slave : Z) (m : Manager.t) : Prop :=
  handlerSlave m pc = slave.

(** A computation that, started in a manager state of [Pre], ends in one of
    [Post] and adds to the trace only entries of [P]. *)
Definition talks {A} (Pre Post : Manager.t -> Prop) (P : Event -> Prop) (c : M A) : Prop :=
  forall w a w', Pre (World.mgr w) -> c w = Ok a w' ->
    Post (World.mgr w') /\
    exists tr, World.trace w' = World.trace w ++ tr /\ Forall P tr.

(** The calls of the state-change callback a trace records. *)
Definition callbacks (tr : list Event) : list (list Card.t) :=
  omap (fun ev => match ev with EvCallback cs => Some cs | _ => None end) tr.

(** The fields of a card that no operation of the manager assigns. *)
Definition sameStatic (c c' : Card.t) : Prop :=
  Card.ID c' = Card.ID c /\ Card.PortPath c' = Card.PortPath c /\
  Card.SlaveID c' = Card.SlaveID c /\ Card.Module_ c' = Card.Module_ c.

(** The registry [m'] holds the cards of [m], their states apart. *)
Definition cardsEvolve (m m' : Manager.t) : Prop :=
  forall id,
    match Manager.cards m !! id, Manager.cards m' !! id with
    | Some c, Some c' => sameStatic c c'
    | None, None => True
    | _, _ => False
    end.

(** The channel read behind a request, as [readCard] names it in the
    error text of the state. *)
Definition readKind (rq : Request) : option string :=
  match rq with
  | ReadDiscreteInputs a _ => if a =? 0 then Some "DI" else None
  | ReadCoils a _ => if a =? 0 then Some "DO" else None
  | ReadInputRegisters a _ => if a =? 0 then Some "AI" else None
  | ReadHoldingRegisters a _ => if a =? 0 then Some "AO" else None
  | _ => None
  end.

(** The serial number, the baud rate and the AO types a reply gives; a
    read that failed leaves the field empty. *)
Definition serialOf (rp : Reply) : string :=
  match rp with
  | inl snRaw =>
      if Z.of_nat (length snRaw) <? 20 then ""
      else string_of_bytes (untilNul (take 20 snRaw))
  | inr _ => ""
  end.

Definition baudOf (rp : Reply) : Z :=
  match rp with
  | inl raw => if Z.of_nat (length raw) <? 4 then 0 else be_uint32 (take 4 raw)
  | inr _ => 0
  end.

Definition aoTypesOf (n : Z) (rp : Reply) : list string :=
  match rp with
  | inl typeRaw => default [] (getAOTypes typeRaw n)
  | inr _ => []
  end.

(** The end of a full read: the serial number and the baud rate are read
    last, after the AO types when the card has analog outputs, and the
    three fields are what the replies give. *)
Definition identityTail (pc : string) (s : Z) (ao : Z) (st : CardState.t)
    (tr : list Event) : Prop :=
  exists tr0 rpSn rpBaud,
    tr = tr0 ++ [EvFrame pc s (ReadHoldingRegisters 112 10) rpSn;
                 EvFrame pc s (ReadHoldingRegisters 32 2) rpBaud] /\
    CardState.SerialNumber st = serialOf rpSn /\
    CardState.BaudRate st = baudOf rpBaud /\
    (0 < ao ->
     exists tr1 rpT,
       tr0 = tr1 ++ [EvFrame pc s (ReadHoldingRegisters 400 (uint16 ao)) rpT] /\
       CardState.AOType st = aoTypesOf ao rpT).

(** What a run of [readCard], or of one of its blocks, results in: the
    error text of an aborted read, and the end of a full read. *)
Definition readDetail (pc : string) (ao : Z) (readAll : bool) (w : World.t)
    (r : Res (CardState.t * option string)) : Prop :=
  match r with
  | Panic => True
  | Ok (st, err) w' =>
      World.mgr w' = World.mgr w /\
      exists tr, World.trace w' = World.trace w ++ tr /\
        match err with
        | Some e =>
            exists tr0 rq kind,
              tr = tr0 ++ [EvFrame pc (handlerSlave (World.mgr w) pc) rq (inr e)] /\
              readKind rq = Some kind /\
              CardState.Error st = kind +:+ " read error: " +:+ e
        | None =>
            readAll = true -> identityTail pc (handlerSlave (World.mgr w) pc) ao st tr
        end
  end.

(** What a run returned, the trace it left, and a card of the registry it
    left. *)
Definition returned {A} (r : Res A) : option A :=
  match r with
  | Ok a _ => Some a
  | Panic => None
  end.

Definition traced {A} (r : Res A) : list Event :=
  match r with
  | Ok _ w => World.trace w
  | Panic => []
  end.

Definition cardAfter {A} (id : string) (r : Res A) : option Card.t :=
  match r with
  | Ok _ w => Manager.cards (World.mgr w) !! id
  | Panic => None
  end.

Definition worldAfter {A} (r : Res A) (w0 : World.t) : World.t :=
  match r with
  | Ok _ w => w
  | Panic => w0
  end.

(** * Scenarios *)

(** A bus on which every device answers: register reads with two zero
    bytes per register, everything else with one zero byte. *)
Definition deviceBus : list Event -> string -> Z -> Request -> Reply :=
  fun _ _ _ rq =>
    match rq with
    | ReadInputRegisters _ q | ReadHoldingRegisters _ q =>
        if 0 <=? q then inl (replicate (Z.to_nat (2 * q)) 0) else inr "illegal data value"
    | _ => inl [0]
    end.

(** A bus on which nothing answers. *)
Definition deafBus : list Event -> string -> Z -> Request -> Reply :=
  fun _ _ _ _ => inr "timeout".

(** Devices that answer the reads of their channels and time out on the
    AO type, serial number and baud rate registers. *)
Definition primaryOnlyBus : list Event -> string -> Z -> Request -> Reply :=
  fun tr p s rq =>
    match rq with
    | ReadHoldingRegisters a _ => if a =? 0 then deviceBus tr p s rq else inr "timeout"
    | _ => deviceBus tr p s rq
    end.

Definition dialOk : list Event -> string -> option string := fun _ _ => None.

Definition tick : list Event -> Z := fun tr => Z.of_nat (length tr).

Definition inOrder : forall A : Type, list A -> list A := fun _ l => l.

(** An IO4040 with every input and output off, and an IO0404 whose
    channels are at zero. *)
Definition cardA : Card.t :=
  Card.mk "1" "/dev/ttyS1" 1 "IO4040"
    (CardState.mk 0 [false; false; false; false] [false; false; false; false]
       [] [] [] "SN-A" 9600 "")
    false.

Definition cardB : Card.t :=
  Card.mk "2" "/dev/ttyS1" 2 "IO0404"
    (CardState.mk 0 [] [] [F32.zero; F32.zero; F32.zero; F32.zero]
       [F32.zero; F32.zero; F32.zero; F32.zero]
       ["4-20mA"; "0-10V"; "4-20mA"; "4-20mA"] "SN-B" 9600 "")
    false.

Definition site : Manager.t :=
  Manager.mk {[ "/dev/ttyS1" := portClient.mk "/dev/ttyS1" 0 ]}
             (<["1" := cardA]> {[ "2" := cardB ]}) 3 [] false DefaultSafeStateConfig.

Definition siteWorld : World.t := World.mk site [].

Definition opDO (id : string) (i : Z) (v : bool) : writeOperation.t :=
  writeOperation.mk id writeOpDO i (if v then F32.one else F32.zero) "".

Definition opAOType (id : string) (i : Z) (mode : string) : writeOperation.t :=
  writeOperation.mk id writeOpAOType i F32.zero mode.

(** A [range] that visits the entries in the opposite order. *)
Definition reversed (A : Type) (l : list A) : list A := rev l.

(** Devices whose first digital input is on. *)
Definition inputBus : list Event -> string -> Z -> Request -> Reply :=
  fun tr p s rq =>
    match rq with
    | ReadDiscreteInputs _ _ => inl [1]
    | _ => deviceBus tr p s rq
    end.

(** The site with a state-change callback registered. *)
Definition watched : World.t :=
  World.mk (Manager.set_stateChangeCallback true site) [].

(** The site with a safe state that switches the digital outputs on and
    puts one volt, or four milliamperes, on the analog ones. *)
Definition guarded : World.t :=
  World.mk (Manager.mk (Manager.ports site) (Manager.cards site) 3 [] false
              (SafeStateConfig.mk true F32.one F32.four))
           [].

(** * Properties *)

(** ** Running the monad *)

Lemma bind_Ok {A B} (c : M A) (f : A -> M B) w a w' :
  c w = Ok a w' -> (c ≫= f) w = f a w'.
Proof. intros H. unfold mbind, M_bind. rewrite H. reflexivity. Qed.

Lemma bind_inv {A B} (c : M A) (f : A -> M B) w b w'' :
  (c ≫= f) w = Ok b w'' -> exists a w', c w = Ok a w' /\ f a w' = Ok b w''.
Proof.
  unfold mbind, M_bind. destruct (c w) as [a w'|] eqn:E; [|discriminate].
  intros H. exists a, w'. split; [reflexivity | exact H].
Qed.

Lemma setSlaveID_run pc slave w :
  setSlaveID pc slave w = Ok tt (World.mk (withSlave pc slave (World.mgr w)) (World.trace w)).
Proof. reflexivity. Qed.

Lemma handlerSlave_withSlave pc slave m :
  is_Some (Manager.ports m !! pc) -> handlerSlave (withSlave pc slave m) pc = slave.
Proof.
  intros [p Hp]. unfold handlerSlave, withSlave. simpl.
  rewrite lookup_alter_eq, Hp. reflexivity.
Qed.

Lemma withSlave_cards pc slave m : Manager.cards (withSlave pc slave m) = Manager.cards m.
Proof. reflexivity. Qed.

Lemma withSlave_ports_dom pc slave m path :
  is_Some (Manager.ports (withSlave pc slave m) !! path) <-> is_Some (Manager.ports m !! path).
Proof.
  unfold withSlave. simpl. destruct (decide (pc = path)) as [->|Hne].
  - rewrite lookup_alter_eq. destruct (Manager.ports m !! path); simpl; split; intros [? ?]; eauto; discriminate.
  - rewrite lookup_alter_ne by exact Hne. reflexivity.
Qed.

Lemma writeMultipleDO_run pc slave start values w :
  let rq := WriteMultipleCoils start (uint16 (Z.of_nat (length values))) (packBits values) in
  writeMultipleDO pc slave start values w
  = Ok (replyErr (frameReply w pc slave rq)) (afterFrame w pc slave rq).
Proof. reflexivity. Qed.

Lemma writeMultipleAO_run pc slave start values w :
  let rq := WriteMultipleRegisters (uint16 (start * 2))
              (uint16 (Z.of_nat (length values) * 2)) (putFloats values) in
  writeMultipleAO pc slave start values w
  = Ok (replyErr (frameReply w pc slave rq)) (afterFrame w pc slave rq).
Proof. reflexivity. Qed.

Lemma writeAOType_run pc slave index mode w :
  let rq := WriteSingleRegister (uint16 (400 + index))
              (if decide (mode = "0-10V") then 1 else 4) in
  writeAOType pc slave index mode w
  = Ok (replyErr (frameReply w pc slave rq)) (afterFrame w pc slave rq).
Proof. reflexivity. Qed.

Lemma reboot_run pc slave w :
  let rq := WriteSingleRegister 16 65280 in
  reboot pc slave w = Ok (replyErr (frameReply w pc slave rq)) (afterFrame w pc slave rq).
Proof. reflexivity. Qed.

(** ** The model table *)

Lemma ModelTable_cases module spec :
  ModelTable !! module = Some spec ->
  spec ∈ [ ModelSpec.mk "IO0404" 0 0 4 4; ModelSpec.mk "IO0440" 0 4 4 0;
           ModelSpec.mk "IO4040" 4 4 0 0; ModelSpec.mk "IO8000" 8 0 0 0;
           ModelSpec.mk "IO0080" 0 8 0 0 ].
Proof using Type.
  clear bus dial now rangeMap rangeMap_perm.
  intros H. unfold ModelTable in H. apply elem_of_list_to_map_2 in H.
  repeat (apply elem_of_cons in H as [H|H]; [inversion H; subst; set_solver|]).
  inversion H.
Qed.

Lemma specOf_bounds module :
  let spec := specOf module in
  0 <= ModelSpec.DI spec <= 8 /\ 0 <= ModelSpec.DO spec <= 8 /\
  0 <= ModelSpec.AI spec <= 4 /\ 0 <= ModelSpec.AO spec <= 4.
Proof.
  unfold specOf. destruct (ModelTable !! module) as [spec|] eqn:E; simpl.
  - apply ModelTable_cases in E.
    repeat (apply elem_of_cons in E as [->|E]; [simpl; lia|]). inversion E.
  - lia.
Qed.

(** ** Registry facts that the port methods preserve *)

Lemma sameRegistry_refl m : sameRegistry m m.
Proof. unfold sameRegistry. tauto. Qed.

Lemma sameRegistry_trans m1 m2 m3 :
  sameRegistry m1 m2 -> sameRegistry m2 m3 -> sameRegistry m1 m3.
Proof.
  unfold sameRegistry. intros (?&?&?&?&?&?) (?&?&?&?&?&?).
  repeat split; try congruence. auto.
Qed.

Lemma sameRegistry_withSlave pc slave m : sameRegistry m (withSlave pc slave m).
Proof.
  unfold sameRegistry. repeat split; try reflexivity.
  intros p Hp. apply withSlave_ports_dom. exact Hp.
Qed.

Lemma sameRegistry_afterFrame w pc slave rq :
  sameRegistry (World.mgr w) (World.mgr (afterFrame w pc slave rq)).
Proof. apply sameRegistry_withSlave. Qed.

Lemma ensurePort_open path w :
  is_Some (Manager.ports (World.mgr w) !! path) ->
  ensurePort path w = Ok (inl path) w.
Proof.
  intros [p Hp]. unfold ensurePort, mbind, M_bind, getMgr. rewrite Hp. reflexivity.
Qed.

(** The three ways [ensurePort] can go. *)
Lemma ensurePort_cases path w :
  (is_Some (Manager.ports (World.mgr w) !! path) /\ ensurePort path w = Ok (inl path) w)
  \/ (Manager.ports (World.mgr w) !! path = None /\
      exists w', ensurePort path w = Ok (inl path) w' /\
        World.trace w' = World.trace w ++ [EvDial path None] /\
        sameRegistry (World.mgr w) (World.mgr w') /\
        is_Some (Manager.ports (World.mgr w') !! path))
  \/ (Manager.ports (World.mgr w) !! path = None /\
      exists e, ensurePort path w
                = Ok (inr e) (World.mk (World.mgr w) (World.trace w ++ [EvDial path (Some e)]))).
Proof.
  destruct (Manager.ports (World.mgr w) !! path) as [p|] eqn:Hp.
  - left. split; [eauto|]. apply ensurePort_open. eauto.
  - right. unfold ensurePort, mbind, M_bind, getMgr. rewrite Hp.
    destruct (dial (World.trace w) path) as [e|] eqn:Hd.
    + right. split; [reflexivity|]. exists e. reflexivity.
    + left. split; [reflexivity|]. eexists. split; [reflexivity|]. simpl.
      split; [reflexivity|]. split.
      * unfold sameRegistry. simpl. repeat split; try reflexivity.
        intros q Hq. destruct (decide (path = q)) as [->|Hne].
        -- rewrite lookup_insert_eq. eauto.
        -- rewrite lookup_insert_ne by exact Hne. exact Hq.
      * rewrite lookup_insert_eq. eauto.
Qed.

(** ** Safe state *)

Lemma safeAOValues_spec cfg aoType n :
  safeAOValues cfg aoType n = map (spec_safeAO cfg aoType) (seqZ 0 n).
Proof.
  unfold safeAOValues. apply map_ext_in. intros i Hi.
  apply list_elem_of_In, elem_of_seqZ in Hi. unfold spec_safeAO.
  destruct (aoType !! Z.to_nat i) as [t|] eqn:E.
  - assert (Z.to_nat i < length aoType)%nat by (eapply lookup_lt_Some; eauto).
    replace (i <? Z.of_nat (length aoType)) with true by (symmetry; apply Z.ltb_lt; lia).
    simpl. destruct (decide (t = "4-20mA")) as [->|Hne].
    + rewrite bool_decide_eq_true_2; reflexivity.
    + rewrite bool_decide_eq_false_2; [reflexivity|congruence].
  - rewrite bool_decide_eq_false_2 by discriminate. rewrite andb_false_r. reflexivity.
Qed.

Lemma firstSome_app {A} (l1 l2 : list (option A)) :
  firstSome (l1 ++ l2) = match firstSome l1 with Some a => Some a | None => firstSome l2 end.
Proof. induction l1 as [|[a|] l1 IH]; simpl; auto. Qed.

Lemma safeStateCard_unfold cfg fe card :
  safeStateCard cfg fe card =
  (r ← ensurePort (Card.PortPath card);
   match r with
   | inr err =>
       mret (orFirst fe ("card " +:+ Card.ID card +:+ ": failed to get port: " +:+ err))
   | inl pc => fe1 ← safeStateDO cfg fe card pc; safeStateAO cfg fe1 card pc
   end).
Proof. reflexivity. Qed.

Lemma orElse_assoc {A} (a b c : option A) : orElse (orElse a b) c = orElse a (orElse b c).
Proof. destruct a; reflexivity. Qed.

Lemma safeStateDO_run cfg fe card w :
  is_Some (Manager.ports (World.mgr w) !! Card.PortPath card) ->
  exists fe' w' tr,
    safeStateDO cfg fe card (Card.PortPath card) w = Ok fe' w' /\
    World.trace w' = World.trace w ++ tr /\
    map evTarget tr = map Some (spec_safeDOFrame cfg card) /\
    fe' = orElse fe (firstSome (map (safeStateMessage card) tr)) /\
    sameRegistry (World.mgr w) (World.mgr w').
Proof.
  intros Hport. unfold safeStateDO, spec_safeDOFrame.
  pose proof (specOf_bounds (Card.Module_ card)) as (_ & HDO & _ & _).
  destruct (0 <? ModelSpec.DO (specOf (Card.Module_ card))) eqn:EDO.
  - unfold mbind, M_bind. rewrite writeMultipleDO_run.
    rewrite length_replicate.
    replace (uint16 (Z.of_nat (Z.to_nat (ModelSpec.DO (specOf (Card.Module_ card))))))
      with (ModelSpec.DO (specOf (Card.Module_ card)))
      by (unfold uint16; rewrite Z2Nat.id by lia; symmetry; apply Z.mod_small; lia).
    set (rq := WriteMultipleCoils 0 _ _).
    exists (orElse fe (firstSome [safeStateMessage card
              (frameEvent w (Card.PortPath card) (Card.SlaveID card) rq)])),
      (afterFrame w (Card.PortPath card) (Card.SlaveID card) rq),
      [frameEvent w (Card.PortPath card) (Card.SlaveID card) rq].
    split; [|split; [|split; [|split]]].
    + unfold frameReply, frameEvent. simpl.
      destruct (bus _ _ _ _) as [b|e]; simpl; destruct fe; reflexivity.
    + reflexivity.
    + simpl. rewrite handlerSlave_withSlave by exact Hport. reflexivity.
    + reflexivity.
    + apply sameRegistry_afterFrame.
  - exists fe, w, []. split; [reflexivity|]. split; [symmetry; apply app_nil_r|].
    split; [reflexivity|]. split; [destruct fe; reflexivity|]. apply sameRegistry_refl.
Qed.

Lemma safeStateAO_run cfg fe card w :
  is_Some (Manager.ports (World.mgr w) !! Card.PortPath card) ->
  exists fe' w' tr,
    safeStateAO cfg fe card (Card.PortPath card) w = Ok fe' w' /\
    World.trace w' = World.trace w ++ tr /\
    map evTarget tr = map Some (spec_safeAOFrame cfg card) /\
    fe' = orElse fe (firstSome (map (safeStateMessage card) tr)) /\
    sameRegistry (World.mgr w) (World.mgr w').
Proof.
  intros Hport. unfold safeStateAO, spec_safeAOFrame.
  pose proof (specOf_bounds (Card.Module_ card)) as (_ & _ & _ & HAO).
  destruct (0 <? ModelSpec.AO (specOf (Card.Module_ card))) eqn:EAO.
  - unfold mbind, M_bind. rewrite writeMultipleAO_run.
    rewrite safeAOValues_spec, length_map, length_seqZ.
    replace (uint16 (Z.of_nat (Z.to_nat (ModelSpec.AO (specOf (Card.Module_ card)))) * 2))
      with (ModelSpec.AO (specOf (Card.Module_ card)) * 2)
      by (unfold uint16; rewrite Z2Nat.id by lia; symmetry; apply Z.mod_small; lia).
    change (uint16 (0 * 2)) with 0.
    set (rq := WriteMultipleRegisters 0 _ _).
    exists (orElse fe (firstSome [safeStateMessage card
              (frameEvent w (Card.PortPath card) (Card.SlaveID card) rq)])),
      (afterFrame w (Card.PortPath card) (Card.SlaveID card) rq),
      [frameEvent w (Card.PortPath card) (Card.SlaveID card) rq].
    split; [|split; [|split; [|split]]].
    + unfold frameReply, frameEvent. simpl.
      destruct (bus _ _ _ _) as [b|e]; simpl; destruct fe; reflexivity.
    + reflexivity.
    + simpl. rewrite handlerSlave_withSlave by exact Hport. reflexivity.
    + reflexivity.
    + apply sameRegistry_afterFrame.
  - exists fe, w, []. split; [reflexivity|]. split; [symmetry; apply app_nil_r|].
    split; [reflexivity|]. split; [destruct fe; reflexivity|]. apply sameRegistry_refl.
Qed.

Lemma spec_safeFrames_split cfg card :
  spec_safeFrames cfg card = spec_safeDOFrame cfg card ++ spec_safeAOFrame cfg card.
Proof. reflexivity. Qed.

Lemma safeStateWrites_run cfg fe card w :
  is_Some (Manager.ports (World.mgr w) !! Card.PortPath card) ->
  exists fe' w' tr,
    (fe1 ← safeStateDO cfg fe card (Card.PortPath card);
     safeStateAO cfg fe1 card (Card.PortPath card)) w = Ok fe' w' /\
    World.trace w' = World.trace w ++ tr /\
    map evTarget tr = map Some (spec_safeFrames cfg card) /\
    fe' = orElse fe (firstSome (map (safeStateMessage card) tr)) /\
    sameRegistry (World.mgr w) (World.mgr w').
Proof.
  intros Hport.
  destruct (safeStateDO_run cfg fe card w Hport) as (fe1 & w1 & tr1 & H1 & Ht1 & Hf1 & He1 & Hr1).
  assert (Hport1 : is_Some (Manager.ports (World.mgr w1) !! Card.PortPath card))
    by (apply Hr1; exact Hport).
  destruct (safeStateAO_run cfg fe1 card w1 Hport1) as (fe2 & w2 & tr2 & H2 & Ht2 & Hf2 & He2 & Hr2).
  exists fe2, w2, (tr1 ++ tr2).
  split; [erewrite bind_Ok by exact H1; exact H2|].
  split; [rewrite Ht2, Ht1, app_assoc; reflexivity|].
  split; [rewrite spec_safeFrames_split, !map_app, Hf1, Hf2; reflexivity|].
  split; [|eapply sameRegistry_trans; eauto].
  rewrite He2, He1, map_app, firstSome_app, orElse_assoc. f_equal.
  destruct (firstSome (map (safeStateMessage card) tr1)); reflexivity.
Qed.

Lemma safeStateCard_run cfg fe card w :
  exists fe' w' tr,
    safeStateCard cfg fe card w = Ok fe' w' /\
    World.trace w' = World.trace w ++ tr /\
    safeStateAttempt cfg card tr /\
    (is_Some (Manager.ports (World.mgr w) !! Card.PortPath card) ->
     map evTarget tr = map Some (spec_safeFrames cfg card)) /\
    fe' = orElse fe (firstSome (map (safeStateMessage card) tr)) /\
    sameRegistry (World.mgr w) (World.mgr w').
Proof.
  rewrite safeStateCard_unfold.
  destruct (ensurePort_cases (Card.PortPath card) w)
    as [[Hport Hrun] | [[Hclosed (w0 & Hrun & Ht0 & Hr0 & Hport0)] | [Hclosed (e & Hrun)]]].
  - destruct (safeStateWrites_run cfg fe card w Hport) as (fe' & w' & tr & H & Ht & Hf & He & Hr).
    exists fe', w', tr. split; [erewrite bind_Ok by exact Hrun; exact H|].
    split; [exact Ht|]. split; [left; exact Hf|]. split; [intros _; exact Hf|].
    split; [exact He|exact Hr].
  - destruct (safeStateWrites_run cfg fe card w0 Hport0) as (fe' & w' & tr & H & Ht & Hf & He & Hr).
    exists fe', w', (EvDial (Card.PortPath card) None :: tr).
    split; [erewrite bind_Ok by exact Hrun; exact H|].
    split; [rewrite Ht, Ht0, <- app_assoc; reflexivity|].
    split; [right; left; eauto|].
    split; [intros [? Hp]; congruence|].
    split; [exact He|eapply sameRegistry_trans; eauto].
  - eexists _, _, [EvDial (Card.PortPath card) (Some e)].
    split; [erewrite bind_Ok by exact Hrun; reflexivity|].
    split; [reflexivity|]. split; [right; right; eauto|].
    split; [intros [? Hp]; congruence|].
    split; [destruct fe; reflexivity|apply sameRegistry_refl].
Qed.

Lemma safeState_loop cfg cards :
  forall fe w,
  exists fe' w' trs,
    foldM cards fe (safeStateCard cfg) w = Ok fe' w' /\
    World.trace w' = World.trace w ++ concat trs /\
    Forall2 (safeStateAttempt cfg) cards trs /\
    ((forall c, c ∈ cards -> is_Some (Manager.ports (World.mgr w) !! Card.PortPath c)) ->
     Forall2 (fun c tr => map evTarget tr = map Some (spec_safeFrames cfg c)) cards trs) /\
    fe' = orElse fe (firstSome (safeStateMessages cards trs)) /\
    sameRegistry (World.mgr w) (World.mgr w').
Proof.
  induction cards as [|c cards IH]; intros fe w.
  - exists fe, w, []. simpl. split; [reflexivity|]. split; [symmetry; apply app_nil_r|].
    split; [constructor|]. split; [intros _; constructor|].
    split; [destruct fe; reflexivity|apply sameRegistry_refl].
  - destruct (safeStateCard_run cfg fe c w) as (fe1 & w1 & tr & H1 & Ht1 & Ha1 & Ho1 & He1 & Hr1).
    destruct (IH fe1 w1) as (fe2 & w2 & trs & H2 & Ht2 & Ha2 & Ho2 & He2 & Hr2).
    exists fe2, w2, (tr :: trs). simpl.
    split; [erewrite bind_Ok by exact H1; exact H2|].
    split; [rewrite Ht2, Ht1, app_assoc; reflexivity|].
    split; [constructor; assumption|].
    split.
    { intros Hopen. constructor.
      - apply Ho1, Hopen. left.
      - apply Ho2. intros c' Hc'. apply Hr1, Hopen. right. exact Hc'. }
    split; [|eapply sameRegistry_trans; eauto].
    rewrite He2, He1. unfold safeStateMessages. simpl.
    rewrite firstSome_app, orElse_assoc. f_equal.
    destruct (firstSome (map (safeStateMessage c) tr)); reflexivity.
Qed.

Lemma Forall2_targets cfg cards trs :
  Forall2 (fun c tr => map evTarget tr = map Some (spec_safeFrames cfg c)) cards trs ->
  map evTarget (concat trs) = map Some (flat_map (spec_safeFrames cfg) cards).
Proof.
  induction 1 as [|c tr cards trs H _ IH]; simpl; [reflexivity|].
  rewrite !map_app, H, IH. reflexivity.
Qed.

Lemma WriteAllOutputsToSafeState_unfold w :
  WriteAllOutputsToSafeState w =
  match foldM (rangeCards (World.mgr w)) None
              (safeStateCard (Manager.safeStateConfig (World.mgr w))) w with
  | Ok (Some e) w' => Ok (Some ("WriteAllOutputsToSafeState completed with errors: " +:+ e)) w'
  | Ok None w' => Ok None w'
  | Panic => Panic
  end.
Proof.
  unfold WriteAllOutputsToSafeState, mbind, M_bind, getMgr.
  destruct (foldM _ _ _ w) as [[e|] w'|]; reflexivity.
Qed.

Lemma attempt_message_error cfg c tr :
  safeStateAttempt cfg c tr ->
  Forall (fun ev => safeStateMessage c ev = None <-> evError ev = None) tr.
Proof using Type.
  clear bus dial now rangeMap rangeMap_perm.
  assert (Hframes : forall tr', map evTarget tr' = map Some (spec_safeFrames cfg c) ->
            Forall (fun ev => safeStateMessage c ev = None <-> evError ev = None) tr').
  { intros tr' H. apply Forall_forall. intros ev Hev.
    assert (Hin : evTarget ev ∈ map Some (spec_safeFrames cfg c)).
    { rewrite <- H. apply list_elem_of_fmap_2. exact Hev. }
    apply list_elem_of_fmap in Hin as (f & Hf & Hfin).
    unfold spec_safeFrames in Hfin. apply elem_of_app in Hfin as [Hfin|Hfin];
      destruct (0 <? _); try (inversion Hfin; fail);
      apply list_elem_of_singleton in Hfin; subst f;
      destruct ev as [| p s rq rp |]; simpl in Hf; try discriminate;
      inversion Hf; subst; destruct rp; simpl; split; intros; congruence. }
  intros [H | [(tr' & -> & H) | (e & ->)]].
  - apply Hframes, H.
  - constructor; [simpl; tauto|apply Hframes, H].
  - constructor; [simpl; split; discriminate|constructor].
Qed.

Lemma firstSome_None {A} (l : list (option A)) :
  firstSome l = None <-> Forall (fun x => x = None) l.
Proof using Type.
  induction l as [|[a|] l IH]; simpl.
  - split; [constructor|reflexivity].
  - split; [discriminate|]. intros H. inversion H. discriminate.
  - rewrite IH. split; [intros; constructor; auto|]. intros H. inversion H. assumption.
Qed.

Lemma Forall_iff_on {A} (P Q : A -> Prop) (l : list A) :
  Forall (fun x => P x <-> Q x) l -> (Forall P l <-> Forall Q l).
Proof using Type.
  induction 1 as [|x l Hx _ IH].
  - split; constructor.
  - split; intros H; inversion H; subst; constructor; tauto.
Qed.

Lemma messages_None cfg cards trs :
  Forall2 (safeStateAttempt cfg) cards trs ->
  (firstSome (safeStateMessages cards trs) = None
   <-> Forall (fun ev => evError ev = None) (concat trs)).
Proof using Type.
  intros H. rewrite firstSome_None. unfold safeStateMessages.
  induction H as [|c tr cards trs Ha _ IH]; simpl.
  - split; constructor.
  - rewrite !Forall_app, IH, Forall_fmap.
    apply attempt_message_error, Forall_iff_on in Ha.
    unfold compose. rewrite Ha. reflexivity.
Qed.

Lemma rangeCards_registered m c :
  c ∈ rangeCards m <-> exists id, Manager.cards m !! id = Some c.
Proof.
  unfold rangeCards. rewrite (rangeMap_perm Card.t). rewrite list_elem_of_fmap. split.
  - intros ([id c'] & -> & Hin). apply elem_of_map_to_list in Hin. eauto.
  - intros (id & Hid). exists (id, c). split; [reflexivity|].
    apply elem_of_map_to_list. exact Hid.
Qed.

(** *** The payloads, byte by byte *)

Lemma whole_thousand : float32_of_whole 1000 = F32.thousand.
Proof using Type.
  clear bus dial now rangeMap rangeMap_perm.
  vm_compute. reflexivity.
Qed.

Lemma mul_times1000 x : F32.mul x F32.thousand = spec_times1000 x.
Proof using Type.
  clear bus dial now rangeMap rangeMap_perm.
  unfold F32.mul, spec_times1000. rewrite whole_thousand. reflexivity.
Qed.

Lemma times1000_whole_check :
  forallb (fun k => spec_times1000 (float32_of_whole k) =? float32_of_whole (1000 * k))
          (seqZ 0 1001) = true.
Proof using Type.
  clear bus dial now rangeMap rangeMap_perm.
  vm_compute. reflexivity.
Qed.

(** A whole number of volts or milliamperes times 1000 is exact. *)
Lemma times1000_whole k :
  0 <= k <= 1000 -> spec_times1000 (float32_of_whole k) = float32_of_whole (1000 * k).
Proof using Type.
  clear bus dial now rangeMap rangeMap_perm.
  intros Hk. pose proof times1000_whole_check as H. rewrite forallb_forall in H.
  apply Z.eqb_eq, H. apply list_elem_of_In, elem_of_seqZ. lia.
Qed.

Lemma putFloats_bytes values : putFloats values = spec_floatBytes values.
Proof using Type.
  clear bus dial now rangeMap rangeMap_perm.
  unfold putFloats, spec_floatBytes. induction values as [|v l IH]; [reflexivity|].
  cbn [map concat flat_map]. rewrite IH. f_equal.
  unfold be_put_uint32, byte. rewrite !Z.shiftr_div_pow2 by lia. reflexivity.
Qed.

Lemma packBits_all n b :
  n = 4 \/ n = 8 -> packBits (replicate (Z.to_nat n) b) = spec_coilBytes n b.
Proof using Type.
  clear bus dial now rangeMap rangeMap_perm.
  intros [-> | ->]; destruct b; vm_compute; reflexivity.
Qed.

Lemma specOf_DO module :
  let d := ModelSpec.DO (specOf module) in d = 0 \/ d = 4 \/ d = 8.
Proof using Type.
  clear bus dial now rangeMap rangeMap_perm.
  unfold specOf. destruct (ModelTable !! module) as [spec|] eqn:E; simpl.
  - apply ModelTable_cases in E.
    repeat (apply elem_of_cons in E as [->|E]; [simpl; lia|]). inversion E.
  - lia.
Qed.

Lemma spec_safeAO_value cfg aoType i : spec_safeAO cfg aoType i = spec_safeValue cfg aoType i.
Proof using Type.
  clear bus dial now rangeMap rangeMap_perm.
  unfold spec_safeAO, spec_safeValue. rewrite <- !mul_times1000.
  destruct (aoType !! Z.to_nat i) as [t|];
    [|rewrite decide_False by discriminate; reflexivity].
  destruct (decide (t = "4-20mA")) as [->|Hne].
  - rewrite decide_True by reflexivity. reflexivity.
  - rewrite decide_False by congruence. reflexivity.
Qed.

(** What the code builds with [packBits], [Float32bits] and [PutUint32]
    are the frames with the payloads spelled out. *)
Lemma spec_safeFrames_wire cfg card : spec_safeFrames cfg card = spec_safeWire cfg card.
Proof using Type.
  clear bus dial now rangeMap rangeMap_perm.
  unfold spec_safeFrames, spec_safeWire. cbv zeta. f_equal.
  - destruct (0 <? ModelSpec.DO (specOf (Card.Module_ card))) eqn:E; [|reflexivity].
    apply Z.ltb_lt in E. pose proof (specOf_DO (Card.Module_ card)) as Hd. cbv zeta in Hd.
    rewrite packBits_all by lia. reflexivity.
  - destruct (0 <? ModelSpec.AO (specOf (Card.Module_ card))); [|reflexivity].
    rewrite putFloats_bytes. do 4 f_equal. apply map_ext. intros i. apply spec_safeAO_value.
Qed.

(** C1. [WriteAllOutputsToSafeState] returns, and what it adds to the trace
    is, card after card (each registered card once), exactly the frames of
    the specification: for a card with digital outputs one WriteMultipleCoils
    at coil 0 of [spec.DO] coils, all of them [DOState]; for a card with
    analog outputs one WriteMultipleRegisters at register 0 carrying
    [spec.AO] floats, channel [i] being [AOCurrentValue * 1000] when the
    cached type of the channel is "4-20mA" and [AOVoltageValue * 1000]
    otherwise, a channel without cached type included.  The payloads are
    given byte by byte: the coils eight to a byte with every coil bit equal
    to [DOState], the floats as the four bytes of their binary32 pattern,
    and the product as the IEEE-754 product with the number 1000, which for
    a whole number of volts or milliamperes is that number times 1000
    exactly. *)
Theorem C1_safe_state_frames (w : World.t) :
  portsOpen (World.mgr w) ->
  let m := World.mgr w in
  (exists r w' tr,
     WriteAllOutputsToSafeState w = Ok r w' /\
     World.trace w' = World.trace w ++ tr /\
     Permutation (rangeCards m) (map snd (map_to_list (Manager.cards m))) /\
     map evTarget tr
     = map Some (flat_map (spec_safeWire (Manager.safeStateConfig m)) (rangeCards m))) /\
  (forall k, 0 <= k <= 1000 ->
     spec_times1000 (float32_of_whole k) = float32_of_whole (1000 * k)).
Proof.
  intros Hopen m. split; [|exact times1000_whole].
  destruct (safeState_loop (Manager.safeStateConfig m) (rangeCards m) None w)
    as (fe & w' & trs & Hrun & Htr & _ & Hframes & _ & _).
  rewrite WriteAllOutputsToSafeState_unfold. fold m. rewrite Hrun.
  assert (Hall : forall c, c ∈ rangeCards m ->
                 is_Some (Manager.ports (World.mgr w) !! Card.PortPath c)).
  { intros c Hc. apply rangeCards_registered in Hc as (id & Hid). eapply Hopen, Hid. }
  specialize (Hframes Hall). apply Forall2_targets in Hframes.
  rewrite (flat_map_ext _ _ (spec_safeFrames_wire (Manager.safeStateConfig m))) in Hframes.
  destruct fe as [e|]; eexists _, w', (concat trs);
    (split; [reflexivity|]); (split; [exact Htr|]);
    (split; [apply rangeMap_perm|exact Hframes]).
Qed.

(** C2. [WriteAllOutputsToSafeState] returns, whatever the bus and the port
    opener answer.  Every registered card is attempted in turn: it
    contributes its frames (after opening its port, if need be) or the failed
    opening of its port, whatever happened to the cards before it.  The
    result is built from the first failed step of the whole call, and it is
    nil exactly when no step of any card failed. *)
Theorem C2_safe_state_first_error (w : World.t) :
  let m := World.mgr w in
  let cfg := Manager.safeStateConfig m in
  exists r w' trs,
    WriteAllOutputsToSafeState w = Ok r w' /\
    Permutation (rangeCards m) (map snd (map_to_list (Manager.cards m))) /\
    World.trace w' = World.trace w ++ concat trs /\
    Forall2 (safeStateAttempt cfg) (rangeCards m) trs /\
    r = option_map (fun e => "WriteAllOutputsToSafeState completed with errors: " +:+ e)
                   (firstSome (safeStateMessages (rangeCards m) trs)) /\
    (r = None <-> Forall (fun ev => evError ev = None) (concat trs)).
Proof.
  intros m cfg.
  destruct (safeState_loop cfg (rangeCards m) None w)
    as (fe & w' & trs & Hrun & Htr & Hatt & _ & Hfe & _).
  simpl in Hfe. rewrite WriteAllOutputsToSafeState_unfold. fold m cfg. rewrite Hrun.
  pose proof (messages_None cfg _ _ Hatt) as Hnone. rewrite <- Hfe in Hnone.
  exists (option_map (fun e => "WriteAllOutputsToSafeState completed with errors: " +:+ e) fe),
    w', trs.
  split; [destruct fe; reflexivity|].
  split; [apply rangeMap_perm|]. split; [exact Htr|]. split; [exact Hatt|].
  split; [rewrite Hfe; reflexivity|].
  rewrite <- Hnone. destruct fe; simpl; split; congruence.
Qed.

(** ** Batch writes: indexing *)

Lemma store_Some {A} (l : list A) (i : Z) (x : A) :
  0 <= i < Z.of_nat (length l) -> store l i x = Some (<[Z.to_nat i := x]> l).
Proof.
  intros H. unfold store.
  replace (0 <=? i) with true by (symmetry; apply Z.leb_le; lia).
  replace (i <? Z.of_nat (length l)) with true by (symmetry; apply Z.ltb_lt; lia).
  reflexivity.
Qed.

Lemma store_inv {A} (l l' : list A) (i : Z) (x : A) :
  store l i x = Some l' ->
  0 <= i < Z.of_nat (length l) /\ l' = <[Z.to_nat i := x]> l.
Proof.
  unfold store. destruct (0 <=? i) eqn:E1; [|discriminate].
  destruct (i <? Z.of_nat (length l)) eqn:E2; [|discriminate]. simpl.
  intros H. inversion H. apply Z.leb_le in E1. apply Z.ltb_lt in E2. auto.
Qed.

Lemma load_Some {A} (l : list A) (i : Z) (x : A) :
  0 <= i -> l !! Z.to_nat i = Some x -> load l i = Some x.
Proof.
  intros H Hx. unfold load.
  replace (0 <=? i) with true by (symmetry; apply Z.leb_le; lia). exact Hx.
Qed.

Lemma minIndex_le ops : forall start, minIndex ops start <= start.
Proof.
  unfold minIndex. induction ops as [|op ops IH]; intros start; simpl; [lia|].
  destruct (writeOperation.Index op <? start) eqn:E.
  - apply Z.ltb_lt in E. specialize (IH (writeOperation.Index op)). lia.
  - apply IH.
Qed.

Lemma minIndex_lower ops : forall start op,
  op ∈ ops -> minIndex ops start <= writeOperation.Index op.
Proof.
  unfold minIndex. induction ops as [|op0 ops IH]; intros start op Hin; [inversion Hin|].
  simpl. apply elem_of_cons in Hin as [->|Hin].
  - destruct (writeOperation.Index op0 <? start) eqn:E.
    + apply (minIndex_le ops).
    + apply Z.ltb_ge in E. pose proof (minIndex_le ops start). unfold minIndex in *. lia.
  - apply IH, Hin.
Qed.

Lemma minIndex_attained ops : forall start,
  minIndex ops start = start \/
  exists op, op ∈ ops /\ minIndex ops start = writeOperation.Index op.
Proof.
  unfold minIndex. induction ops as [|op0 ops IH]; intros start; simpl; [left; reflexivity|].
  destruct (writeOperation.Index op0 <? start).
  - destruct (IH (writeOperation.Index op0)) as [H|(op & Hin & H)].
    + right. exists op0. split; [left|exact H].
    + right. exists op. split; [right; exact Hin|exact H].
  - destruct (IH start) as [H|(op & Hin & H)].
    + left. exact H.
    + right. exists op. split; [right; exact Hin|exact H].
Qed.

Lemma maxIndex_ge ops : forall start, start <= maxIndex ops start.
Proof.
  unfold maxIndex. induction ops as [|op ops IH]; intros start; simpl; [lia|].
  destruct (start <? writeOperation.Index op) eqn:E.
  - apply Z.ltb_lt in E. specialize (IH (writeOperation.Index op)). lia.
  - apply IH.
Qed.

Lemma maxIndex_upper ops : forall start op,
  op ∈ ops -> writeOperation.Index op <= maxIndex ops start.
Proof.
  unfold maxIndex. induction ops as [|op0 ops IH]; intros start op Hin; [inversion Hin|].
  simpl. apply elem_of_cons in Hin as [->|Hin].
  - destruct (start <? writeOperation.Index op0) eqn:E.
    + apply (maxIndex_ge ops).
    + apply Z.ltb_ge in E. pose proof (maxIndex_ge ops start). unfold maxIndex in *. lia.
  - apply IH, Hin.
Qed.

Lemma maxIndex_attained ops : forall start,
  maxIndex ops start = start \/
  exists op, op ∈ ops /\ maxIndex ops start = writeOperation.Index op.
Proof.
  unfold maxIndex. induction ops as [|op0 ops IH]; intros start; simpl; [left; reflexivity|].
  destruct (start <? writeOperation.Index op0).
  - destruct (IH (writeOperation.Index op0)) as [H|(op & Hin & H)].
    + right. exists op0. split; [left|exact H].
    + right. exists op. split; [right; exact Hin|exact H].
  - destruct (IH start) as [H|(op & Hin & H)].
    + left. exact H.
    + right. exists op. split; [right; exact Hin|exact H].
Qed.

Lemma windowInit_Some {A} (zero : A) (cache : list A) (minIdx count : Z) :
  0 <= minIdx -> 0 <= count ->
  windowInit zero cache minIdx count = Some (cachedWindow zero cache minIdx count).
Proof.
  intros Hmin Hcount. unfold windowInit, cachedWindow.
  replace (count <? 0) with false by (symmetry; apply Z.ltb_ge; lia).
  apply mapM_Some. apply Forall2_fmap_r, Forall_Forall2_diag, Forall_forall.
  intros i Hi. apply elem_of_seqZ in Hi. unfold compose.
  destruct (minIdx + i <? Z.of_nat (length cache)) eqn:E.
  - apply Z.ltb_lt in E.
    destruct (lookup_lt_is_Some_2 cache (Z.to_nat (minIdx + i))) as [x Hx]; [lia|].
    rewrite Hx. simpl. apply load_Some; [lia|exact Hx].
  - apply Z.ltb_ge in E. rewrite lookup_ge_None_2 by lia. reflexivity.
Qed.

Lemma length_cachedWindow {A} (zero : A) cache minIdx count :
  length (cachedWindow zero cache minIdx count) = Z.to_nat count.
Proof. unfold cachedWindow. rewrite length_map, length_seqZ. reflexivity. Qed.

Lemma lookup_cachedWindow {A} (zero : A) cache minIdx count (k : nat) :
  (k < Z.to_nat count)%nat ->
  cachedWindow zero cache minIdx count !! k
  = Some (default zero (cache !! Z.to_nat (minIdx + Z.of_nat k))).
Proof.
  intros Hk. unfold cachedWindow. rewrite list_lookup_fmap.
  rewrite lookup_seqZ_lt by lia. simpl. rewrite Z.add_0_l. reflexivity.
Qed.

Lemma length_overlaid {A} (val : writeOperation.t -> A) minIdx ops :
  forall values, length (overlaid val minIdx ops values) = length values.
Proof.
  unfold overlaid. induction ops as [|op ops IH]; intros values; simpl; [reflexivity|].
  rewrite IH, length_insert. reflexivity.
Qed.

Lemma overlay_Some {A} (val : writeOperation.t -> A) minIdx ops :
  forall values,
  Forall (fun op => minIdx <= writeOperation.Index op
                    < minIdx + Z.of_nat (length values)) ops ->
  overlay val minIdx ops values = Some (overlaid val minIdx ops values).
Proof.
  unfold overlay, overlaid. induction ops as [|op ops IH]; intros values H; simpl; [reflexivity|].
  inversion H as [|? ? Hop Hops]; subst.
  rewrite store_Some by lia. apply IH. rewrite length_insert. exact Hops.
Qed.

Lemma overlaid_snoc {A} (val : writeOperation.t -> A) minIdx ops op values :
  overlaid val minIdx (ops ++ [op]) values
  = <[Z.to_nat (writeOperation.Index op - minIdx) := val op]> (overlaid val minIdx ops values).
Proof. unfold overlaid. rewrite fold_left_app. reflexivity. Qed.

Lemma overlaid_untouched {A} (val : writeOperation.t -> A) minIdx ops values (k : nat) :
  Forall (fun op => minIdx <= writeOperation.Index op) ops ->
  (forall op, op ∈ ops -> writeOperation.Index op <> minIdx + Z.of_nat k) ->
  overlaid val minIdx ops values !! k = values !! k.
Proof.
  induction ops as [|op ops IH] using rev_ind; intros Hlow Hno; [reflexivity|].
  rewrite overlaid_snoc. apply Forall_app in Hlow as [Hlow Hop].
  inversion Hop as [|? ? Hop' _]; subst.
  rewrite list_lookup_insert_ne.
  - apply IH; [exact Hlow|]. intros op' Hin. apply Hno, elem_of_app. left. exact Hin.
  - assert (writeOperation.Index op <> minIdx + Z.of_nat k)
      by (apply Hno, elem_of_app; right; left). lia.
Qed.

Lemma overlaid_touched {A} (val : writeOperation.t -> A) minIdx ops values (k : nat) :
  Forall (fun op => minIdx <= writeOperation.Index op) ops ->
  (k < length values)%nat ->
  (exists op, op ∈ ops /\ writeOperation.Index op = minIdx + Z.of_nat k) ->
  exists op, op ∈ ops /\ writeOperation.Index op = minIdx + Z.of_nat k /\
             overlaid val minIdx ops values !! k = Some (val op).
Proof.
  induction ops as [|op ops IH] using rev_ind; intros Hlow Hk (op' & Hin & Hidx).
  - inversion Hin.
  - rewrite overlaid_snoc. apply Forall_app in Hlow as [Hlow Hop].
    destruct (decide (writeOperation.Index op = minIdx + Z.of_nat k)) as [Heq|Hne].
    + exists op. split; [apply elem_of_app; right; left|]. split; [exact Heq|].
      replace (Z.to_nat (writeOperation.Index op - minIdx)) with k by lia.
      apply list_lookup_insert_eq. rewrite length_overlaid. exact Hk.
    + apply elem_of_app in Hin as [Hin|Hin].
      * destruct (IH Hlow Hk) as (op1 & Hin1 & Hidx1 & Hv); [eauto|].
        exists op1. split; [apply elem_of_app; left; exact Hin1|]. split; [exact Hidx1|].
        inversion Hop as [|? ? Hop' _]; subst.
        rewrite list_lookup_insert_ne by lia. exact Hv.
      * apply list_elem_of_singleton in Hin. subst op'. contradiction.
Qed.

Lemma setResults_prefix err results (k : nat) :
  (k <= length results)%nat ->
  exists rs,
    fold_left (fun acc i => results ← acc; store results i (writeResult i err))
              (seqZ 0 (Z.of_nat k)) (Some results) = Some rs /\
    length rs = length results.
Proof.
  induction k as [|k IH]; intros Hk.
  - exists results. split; reflexivity.
  - destruct IH as (rs & Hrs & Hlen); [lia|].
    rewrite seqZ_S, fold_left_app, Hrs. simpl.
    rewrite store_Some by lia. eexists. split; [reflexivity|].
    rewrite length_insert. exact Hlen.
Qed.

Lemma setResults_Some n err results :
  length results = n ->
  exists rs, setResults n err results = Some rs /\ length rs = n.
Proof.
  intros Hn. destruct (setResults_prefix err results n) as (rs & Hrs & Hlen); [lia|].
  exists rs. split; [exact Hrs|lia].
Qed.

(** ** Batch writes: the frames of one group *)

Lemma window_in_range ops op0 rest :
  ops = op0 :: rest ->
  let minIdx := minIndex ops (writeOperation.Index op0) in
  let maxIdx := maxIndex ops (writeOperation.Index op0) in
  0 <= maxIdx - minIdx + 1 /\
  Forall (fun op => minIdx <= writeOperation.Index op
                    < minIdx + Z.of_nat (Z.to_nat (maxIdx - minIdx + 1))) ops.
Proof.
  intros Hops minIdx maxIdx.
  assert (Hle : minIdx <= maxIdx).
  { pose proof (minIndex_le ops (writeOperation.Index op0)).
    pose proof (maxIndex_ge ops (writeOperation.Index op0)). unfold minIdx, maxIdx. lia. }
  split; [lia|]. apply Forall_forall. intros op Hin.
  pose proof (minIndex_lower ops (writeOperation.Index op0) op Hin).
  pose proof (maxIndex_upper ops (writeOperation.Index op0) op Hin).
  fold minIdx in H. fold maxIdx in H0. lia.
Qed.

Lemma minIndex_nonneg ops op0 rest :
  ops = op0 :: rest ->
  Forall (fun op => 0 <= writeOperation.Index op) ops ->
  0 <= minIndex ops (writeOperation.Index op0).
Proof.
  intros Hops Hall. rewrite Forall_forall in Hall.
  destruct (minIndex_attained ops (writeOperation.Index op0)) as [->|(op & Hin & ->)].
  - apply Hall. rewrite Hops. left.
  - apply Hall, Hin.
Qed.

Lemma processBatchDO_run pc card ops results w :
  ops <> [] ->
  Forall (fun op => 0 <= writeOperation.Index op) ops ->
  length results = length ops ->
  let values := writeWindow false (fun op => F32.neb (writeOperation.Value op) F32.zero)
                            (CardState.DO (Card.Last card)) ops in
  let rq := WriteMultipleCoils (uint16 (firstIndex ops))
              (uint16 (Z.of_nat (length values))) (packBits values) in
  exists rs,
    processBatchDO pc card ops results w = Ok rs (afterFrame w pc (Card.SlaveID card) rq) /\
    length rs = length ops.
Proof.
  intros Hne Hall Hlen. destruct ops as [|op0 rest]; [contradiction|].
  intros values rq.
  pose proof (window_in_range (op0 :: rest) op0 rest eq_refl) as [Hcount Hrange].
  pose proof (minIndex_nonneg (op0 :: rest) op0 rest eq_refl Hall) as Hmin.
  destruct (setResults_Some (length (op0 :: rest))
              (replyErr (frameReply w pc (Card.SlaveID card) rq)) results Hlen)
    as (rs & Hrs & Hrslen).
  exists rs. split; [|exact Hrslen].
  unfold processBatchDO. cbv beta iota zeta.
  unfold mbind, M_bind, must.
  rewrite windowInit_Some by assumption.
  rewrite overlay_Some by (rewrite length_cachedWindow; exact Hrange).
  rewrite writeMultipleDO_run. cbv zeta.
  subst rq values. unfold writeWindow, firstIndex in Hrs. cbv beta iota zeta in Hrs.
  rewrite Hrs. reflexivity.
Qed.

Lemma processBatchAO_run pc card ops results w :
  ops <> [] ->
  Forall (fun op => 0 <= writeOperation.Index op) ops ->
  length results = length ops ->
  let values := writeWindow F32.zero writeOperation.Value
                            (CardState.AO (Card.Last card)) ops in
  let rq := WriteMultipleRegisters (uint16 (firstIndex ops * 2))
              (uint16 (Z.of_nat (length values) * 2)) (putFloats values) in
  exists rs,
    processBatchAO pc card ops results w = Ok rs (afterFrame w pc (Card.SlaveID card) rq) /\
    length rs = length ops.
Proof.
  intros Hne Hall Hlen. destruct ops as [|op0 rest]; [contradiction|].
  intros values rq.
  pose proof (window_in_range (op0 :: rest) op0 rest eq_refl) as [Hcount Hrange].
  pose proof (minIndex_nonneg (op0 :: rest) op0 rest eq_refl Hall) as Hmin.
  destruct (setResults_Some (length (op0 :: rest))
              (replyErr (frameReply w pc (Card.SlaveID card) rq)) results Hlen)
    as (rs & Hrs & Hrslen).
  exists rs. split; [|exact Hrslen].
  unfold processBatchAO. cbv beta iota zeta.
  unfold mbind, M_bind, must.
  rewrite windowInit_Some by assumption.
  rewrite overlay_Some by (rewrite length_cachedWindow; exact Hrange).
  rewrite writeMultipleAO_run. cbv zeta.
  subst rq values. unfold writeWindow, firstIndex in Hrs. cbv beta iota zeta in Hrs.
  rewrite Hrs. reflexivity.
Qed.

Lemma afterFrame_target w pc slave rq :
  is_Some (Manager.ports (World.mgr w) !! pc) ->
  evTarget (frameEvent w pc slave rq) = Some (pc, slave, rq).
Proof.
  intros Hport. unfold frameEvent. simpl.
  rewrite handlerSlave_withSlave by exact Hport. reflexivity.
Qed.

Lemma processBatchAOType_loop card ops :
  forall (k : nat) results w,
  (k + length ops <= length results)%nat ->
  is_Some (Manager.ports (World.mgr w) !! Card.PortPath card) ->
  exists rs w' tr,
    foldM (imap (fun i op => (Z.of_nat (k + i), op)) ops) results
          (fun results '(i, op) =>
             err ← writeAOType (Card.PortPath card) (Card.SlaveID card)
                               (writeOperation.Index op) (writeOperation.Mode op);
             must (store results i (writeResult i err))) w = Ok rs w' /\
    World.trace w' = World.trace w ++ tr /\
    map evTarget tr = map Some (map (aoTypeRequest card) ops) /\
    length rs = length results /\
    sameRegistry (World.mgr w) (World.mgr w').
Proof.
  induction ops as [|op ops IH]; intros k results w Hlen Hport.
  - exists results, w, []. simpl. split; [reflexivity|]. split; [symmetry; apply app_nil_r|].
    split; [reflexivity|]. split; [reflexivity|apply sameRegistry_refl].
  - rewrite imap_cons. simpl in Hlen. cbn [foldM].
    set (rq := WriteSingleRegister (uint16 (400 + writeOperation.Index op))
                 (if decide (writeOperation.Mode op = "0-10V") then 1 else 4)).
    set (w1 := afterFrame w (Card.PortPath card) (Card.SlaveID card) rq).
    assert (Hport1 : is_Some (Manager.ports (World.mgr w1) !! Card.PortPath card))
      by (apply withSlave_ports_dom; exact Hport).
    destruct (IH (S k) (<[Z.to_nat (Z.of_nat (k + 0)) :=
                writeResult (Z.of_nat (k + 0))
                  (replyErr (frameReply w (Card.PortPath card) (Card.SlaveID card) rq))]> results) w1)
      as (rs & w' & tr & Hrun & Htr & Htg & Hrs & Hreg);
      [rewrite length_insert; lia|exact Hport1|].
    exists rs, w', (frameEvent w (Card.PortPath card) (Card.SlaveID card) rq :: tr).
    split.
    { erewrite bind_Ok.
      2:{ erewrite bind_Ok by apply writeAOType_run. unfold must.
          rewrite store_Some by lia. reflexivity. }
      erewrite (imap_ext _ (fun i op => (Z.of_nat (S k + i), op))); [exact Hrun|].
      intros i x _. simpl. do 2 f_equal. lia. }
    split; [rewrite Htr; unfold w1; simpl; rewrite <- app_assoc; reflexivity|].
    split; [cbn [map]; rewrite Htg, afterFrame_target by exact Hport; reflexivity|].
    split; [rewrite Hrs, length_insert; reflexivity|].
    eapply sameRegistry_trans; [apply sameRegistry_afterFrame|exact Hreg].
Qed.

Lemma processBatchAOType_run card ops results w :
  length results = length ops ->
  is_Some (Manager.ports (World.mgr w) !! Card.PortPath card) ->
  exists rs w' tr,
    processBatchAOType (Card.PortPath card) card ops results w = Ok rs w' /\
    World.trace w' = World.trace w ++ tr /\
    map evTarget tr = map Some (map (aoTypeRequest card) ops) /\
    length rs = length ops /\
    sameRegistry (World.mgr w) (World.mgr w').
Proof.
  intros Hlen Hport.
  destruct (processBatchAOType_loop card ops 0 results w) as (rs & w' & tr & H);
    [simpl; lia|exact Hport|].
  exists rs, w', tr. unfold processBatchAOType.
  destruct H as (H1 & H2 & H3 & H4 & H5). repeat split; try assumption; try apply H5.
  congruence.
Qed.

(** The group's writes with the port at hand. *)
Lemma groupWrites_run g card w :
  Forall (fun op => 0 <= writeOperation.Index op) (WriteGroup.Operations g) ->
  is_Some (Manager.ports (World.mgr w) !! Card.PortPath card) ->
  let ops := WriteGroup.Operations g in
  let results := replicate (length ops) CommandResult.zero in
  exists rs w' tr,
    match WriteGroup.RegisterType g with
    | writeOpDO => processBatchDO (Card.PortPath card) card ops results
    | writeOpAO => processBatchAO (Card.PortPath card) card ops results
    | writeOpAOType => processBatchAOType (Card.PortPath card) card ops results
    end w = Ok rs w' /\
    World.trace w' = World.trace w ++ tr /\
    map evTarget tr = map Some (groupRequests card g) /\
    length rs = length ops /\
    sameRegistry (World.mgr w) (World.mgr w').
Proof.
  intros Hall Hport ops results.
  assert (Hlen : length results = length ops) by apply length_replicate.
  unfold groupRequests. fold ops.
  destruct (WriteGroup.RegisterType g).
  - destruct ops as [|op0 rest] eqn:Hops.
    + exists results, w, []. split; [reflexivity|]. split; [symmetry; apply app_nil_r|].
      split; [reflexivity|]. split; [exact Hlen|apply sameRegistry_refl].
    + rewrite <- Hops in *.
      destruct (processBatchDO_run (Card.PortPath card) card ops results w)
        as (rs & Hrun & Hrs); [rewrite Hops; discriminate|exact Hall|exact Hlen|].
      eexists rs, _, [frameEvent w (Card.PortPath card) (Card.SlaveID card) _].
      split; [exact Hrun|]. split; [reflexivity|].
      split; [cbn [map]; rewrite afterFrame_target by exact Hport; reflexivity|].
      split; [exact Hrs|apply sameRegistry_afterFrame].
  - destruct ops as [|op0 rest] eqn:Hops.
    + exists results, w, []. split; [reflexivity|]. split; [symmetry; apply app_nil_r|].
      split; [reflexivity|]. split; [exact Hlen|apply sameRegistry_refl].
    + rewrite <- Hops in *.
      destruct (processBatchAO_run (Card.PortPath card) card ops results w)
        as (rs & Hrun & Hrs); [rewrite Hops; discriminate|exact Hall|exact Hlen|].
      eexists rs, _, [frameEvent w (Card.PortPath card) (Card.SlaveID card) _].
      split; [exact Hrun|]. split; [reflexivity|].
      split; [cbn [map]; rewrite afterFrame_target by exact Hport; reflexivity|].
      split; [exact Hrs|apply sameRegistry_afterFrame].
  - destruct (processBatchAOType_run card ops results w Hlen Hport)
      as (rs & w' & tr & Hrun & Htr & Htg & Hrs & Hreg).
    exists rs, w', tr. split; [exact Hrun|]. split; [exact Htr|].
    split; [|split; [exact Hrs|exact Hreg]].
    rewrite Htg. destruct ops; reflexivity.
Qed.

Lemma processWriteGroup_unfold g w :
  processWriteGroup g w =
  let ops := WriteGroup.Operations g in
  match Manager.cards (World.mgr w) !! WriteGroup.CardID g with
  | None => Ok (imap (fun i _ => errorResult (Z.of_nat i) "card not found") ops) w
  | Some card =>
      (r ← ensurePort (Card.PortPath card);
       match r with
       | inr err =>
           mret (imap (fun i _ => errorResult (Z.of_nat i) ("failed to get port: " +:+ err)) ops)
       | inl pc =>
           let results := replicate (length ops) CommandResult.zero in
           match WriteGroup.RegisterType g with
           | writeOpDO => processBatchDO pc card ops results
           | writeOpAO => processBatchAO pc card ops results
           | writeOpAOType => processBatchAOType pc card ops results
           end
       end) w
  end.
Proof.
  unfold processWriteGroup.
  erewrite bind_Ok; [|unfold GetCard; erewrite bind_Ok; reflexivity].
  destruct (Manager.cards (World.mgr w) !! WriteGroup.CardID g); reflexivity.
Qed.

Lemma processWriteGroup_run g w :
  Forall (fun op => 0 <= writeOperation.Index op) (WriteGroup.Operations g) ->
  exists rs w' tr,
    processWriteGroup g w = Ok rs w' /\
    World.trace w' = World.trace w ++ tr /\
    length rs = length (WriteGroup.Operations g) /\
    sameRegistry (World.mgr w) (World.mgr w') /\
    groupRun (World.mgr w) g tr.
Proof.
  intros Hall. rewrite processWriteGroup_unfold. unfold groupRun, groupAttempt. cbv zeta.
  destruct (Manager.cards (World.mgr w) !! WriteGroup.CardID g) as [card|] eqn:Hcard.
  - destruct (ensurePort_cases (Card.PortPath card) w)
      as [[Hport Hrun] | [[Hclosed (w0 & Hrun & Ht0 & Hr0 & Hport0)] | [Hclosed (e & Hrun)]]].
    + destruct (groupWrites_run g card w Hall Hport)
        as (rs & w' & tr & H & Ht & Htg & Hrs & Hreg).
      exists rs, w', tr. split; [erewrite bind_Ok by exact Hrun; exact H|].
      split; [exact Ht|]. split; [exact Hrs|]. split; [exact Hreg|].
      split; [left; exact Htg|]. intros c Hc _. inversion Hc; subst. exact Htg.
    + destruct (groupWrites_run g card w0 Hall Hport0)
        as (rs & w' & tr & H & Ht & Htg & Hrs & Hreg).
      exists rs, w', (EvDial (Card.PortPath card) None :: tr).
      split; [erewrite bind_Ok by exact Hrun; exact H|].
      split; [rewrite Ht, Ht0, <- app_assoc; reflexivity|]. split; [exact Hrs|].
      split; [eapply sameRegistry_trans; eauto|].
      split; [right; left; eauto|]. intros c Hc [x Hx]. inversion Hc; subst. congruence.
    + eexists _, _, [EvDial (Card.PortPath card) (Some e)].
      split; [erewrite bind_Ok by exact Hrun; reflexivity|].
      split; [reflexivity|]. split; [apply length_imap|].
      split; [apply sameRegistry_refl|].
      split; [right; right; eauto|]. intros c Hc [x Hx]. inversion Hc; subst. congruence.
  - eexists _, w, []. split; [reflexivity|]. split; [symmetry; apply app_nil_r|].
    split; [apply length_imap|]. split; [apply sameRegistry_refl|].
    split; [reflexivity|]. intros c Hc. discriminate.
Qed.

Lemma groupRun_sameRegistry m m' g tr :
  sameRegistry m m' -> groupRun m' g tr -> groupRun m g tr.
Proof.
  intros (Hcards & _ & _ & _ & _ & Hports) [Ha Ht]. unfold groupRun, groupAttempt in *.
  rewrite Hcards in *. split; [exact Ha|]. intros c Hc Hp. apply (Ht c Hc), Hports, Hp.
Qed.

(** ** Batch writes: mapping results back *)

Lemma mapBack_step_Some validOps validToOrig (groupResults : list CommandResult.t)
    (l : list (nat * writeOperation.t)) :
  forall results,
  Forall (fun i => 0 <= i < Z.of_nat (length results)) validToOrig ->
  exists rs,
    fold_left
      (fun acc '(j, groupOp) =>
         results ← acc;
         match groupResults !! (j : nat) with
         | None => Some results
         | Some groupResult =>
             let validIdx := findValid 0 validOps groupOp in
             if (0 <=? validIdx) && (validIdx <? Z.of_nat (length validToOrig)) then
               origIdx ← load validToOrig validIdx;
               store results origIdx (CommandResult.set_Index origIdx groupResult)
             else Some results
         end) l (Some results) = Some rs /\
    length rs = length results /\
    forall i : nat, Z.of_nat i ∉ validToOrig -> rs !! i = results !! i.
Proof.
  induction l as [|[j groupOp] l IH]; intros results Hrange.
  - exists results. simpl. auto.
  - cbn [fold_left]. cbn [mbind option_bind].
    destruct (groupResults !! j) as [groupResult|]; [|apply IH, Hrange].
    set (validIdx := findValid 0 validOps groupOp).
    destruct ((0 <=? validIdx) && (validIdx <? Z.of_nat (length validToOrig))) eqn:E;
      [|apply IH, Hrange].
    apply andb_true_iff in E as [E1 E2]. apply Z.leb_le in E1. apply Z.ltb_lt in E2.
    destruct (lookup_lt_is_Some_2 validToOrig (Z.to_nat validIdx)) as [origIdx Ho]; [lia|].
    rewrite (load_Some _ _ _ E1 Ho). cbn [mbind option_bind].
    assert (Hin : origIdx ∈ validToOrig) by (apply list_elem_of_lookup; eauto).
    pose proof (proj1 (Forall_forall _ _) Hrange _ Hin) as Hor. cbv beta in Hor.
    rewrite store_Some by exact Hor.
    destruct (IH (<[Z.to_nat origIdx := CommandResult.set_Index origIdx groupResult]> results))
      as (rs & Hrs & Hlen & Hkeep).
    { rewrite length_insert. exact Hrange. }
    exists rs. split; [exact Hrs|]. split; [rewrite Hlen; apply length_insert|].
    intros i Hi. rewrite (Hkeep i Hi). apply list_lookup_insert_ne.
    intros Heq. apply Hi. replace (Z.of_nat i) with origIdx by lia. exact Hin.
Qed.

Lemma mapBack_Some validOps validToOrig g groupResults results :
  Forall (fun i => 0 <= i < Z.of_nat (length results)) validToOrig ->
  exists rs,
    mapBack validOps validToOrig g groupResults results = Some rs /\
    length rs = length results /\
    forall i : nat, Z.of_nat i ∉ validToOrig -> rs !! i = results !! i.
Proof. intros H. unfold mapBack. apply mapBack_step_Some, H. Qed.

Lemma collectValid_spec ops :
  forall k results,
  length results = length ops ->
  Forall (fun i => k <= i < k + Z.of_nat (length ops)) (collectValid k ops results).2 /\
  (forall op, op ∈ (collectValid k ops results).1 ->
     exists i r, ops !! i = Some op /\ results !! i = Some r /\ CommandResult.Status r = "") /\
  (forall (i : nat) r, results !! i = Some r -> CommandResult.Status r <> "" ->
     k + Z.of_nat i ∉ (collectValid k ops results).2).
Proof.
  induction ops as [|op ops IH]; intros k results Hlen.
  - simpl. split; [constructor|]. split; [intros op H; inversion H|].
    intros i r _ _ H. inversion H.
  - destruct results as [|r results]; [discriminate|]. simpl in Hlen.
    destruct (IH (k + 1) results) as (Hr & Hops & Hnot); [lia|].
    cbn [collectValid]. destruct (collectValid (k + 1) ops results) as [vo vt] eqn:Ecv.
    simpl in Hr, Hops, Hnot.
    assert (Hr' : Forall (fun i => k <= i < k + Z.of_nat (length (op :: ops))) vt).
    { eapply Forall_impl; [exact Hr|]. simpl. intros i Hi. cbn [length]. lia. }
    destruct (decide (CommandResult.Status r = "")) as [Hs|Hs]; simpl.
    + split; [constructor; [cbn [length]; lia|exact Hr']|]. split.
      * intros op' Hin. apply elem_of_cons in Hin as [->|Hin].
        -- exists 0%nat, r. auto.
        -- destruct (Hops op' Hin) as (i & r' & H1 & H2 & H3). exists (S i), r'. auto.
      * intros i r' Hi Hne Hin. apply elem_of_cons in Hin as [Heq|Hin].
        -- assert (i = 0%nat) by lia. subst i. simpl in Hi. inversion Hi; subst. contradiction.
        -- destruct i as [|i].
           ++ rewrite Forall_forall in Hr. specialize (Hr _ Hin). lia.
           ++ simpl in Hi. apply (Hnot i r' Hi Hne).
              replace (k + 1 + Z.of_nat i) with (k + Z.of_nat (S i)) by lia. exact Hin.
    + split; [exact Hr'|]. split.
      * intros op' Hin. destruct (Hops op' Hin) as (i & r' & H1 & H2 & H3).
        exists (S i), r'. auto.
      * intros i r' Hi Hne Hin. destruct i as [|i].
        -- rewrite Forall_forall in Hr. specialize (Hr _ Hin). lia.
        -- simpl in Hi. apply (Hnot i r' Hi Hne).
           replace (k + 1 + Z.of_nat i) with (k + Z.of_nat (S i)) by lia. exact Hin.
Qed.

(** ** Batch writes: grouping *)

Lemma string_length_app (a b : string) :
  String.length (a +:+ b) = (String.length a + String.length b)%nat.
Proof. induction a as [|x a IH]; simpl; [reflexivity|]. rewrite IH. reflexivity. Qed.

Lemma string_app_cons (x : ascii) (a b : string) :
  String x a +:+ b = String x (a +:+ b).
Proof. reflexivity. Qed.

Lemma string_app_inj_suffix (c1 c2 s1 s2 : string) :
  String.length s1 = String.length s2 ->
  c1 +:+ s1 = c2 +:+ s2 -> c1 = c2 /\ s1 = s2.
Proof.
  revert c2. induction c1 as [|x c1 IH]; intros [|y c2] Hlen Heq.
  - change (s1 = s2) in Heq. auto.
  - exfalso. change (s1 = String y (c2 +:+ s2)) in Heq. subst s1.
    cbn [String.length] in Hlen. rewrite string_length_app in Hlen. lia.
  - exfalso. change (String x (c1 +:+ s1) = s2) in Heq. subst s2.
    cbn [String.length] in Hlen. rewrite string_length_app in Hlen. lia.
  - rewrite !string_app_cons in Heq. inversion Heq; subst.
    destruct (IH c2 Hlen) as [-> ->]; auto.
Qed.

Lemma groupKey_inj c1 t1 c2 t2 :
  groupKey c1 t1 = groupKey c2 t2 -> c1 = c2 /\ t1 = t2.
Proof.
  unfold groupKey. intros H.
  apply string_app_inj_suffix in H as [-> H]; [|destruct t1, t2; reflexivity].
  split; [reflexivity|]. destruct t1, t2; try reflexivity; vm_compute in H; discriminate.
Qed.

(** The entry of a key in the map of groups: the operations of that key, in
    the order of the batch, under the card and type of the first of them. *)
Lemma groupMap_lookup ops k :
  groupMap ops !! k = groupOf (filter (fun op => opKey op = k) ops).
Proof.
  unfold groupMap. induction ops as [|op ops IH] using rev_ind; [reflexivity|].
  rewrite fold_left_app, filter_app. cbn [fold_left]. unfold groupStep at 1.
  fold (opKey op). destruct (decide (opKey op = k)) as [Hk|Hk].
  - rewrite filter_cons_True by exact Hk. rewrite filter_nil. subst k.
    rewrite IH. destruct (filter (fun op0 => opKey op0 = opKey op) ops) as [|op0 rest]; simpl.
    + rewrite lookup_insert_eq. reflexivity.
    + rewrite lookup_insert_eq. reflexivity.
  - rewrite filter_cons_False by exact Hk. rewrite filter_nil, app_nil_r.
    destruct (fold_left groupStep ops ∅ !! opKey op);
      rewrite lookup_insert_ne by exact Hk; exact IH.
Qed.

Lemma groupMap_entry ops k g :
  groupMap ops !! k = Some g ->
  k = groupKey (WriteGroup.CardID g) (WriteGroup.RegisterType g) /\
  WriteGroup.Operations g = filter (fun op => opKey op = k) ops /\
  WriteGroup.Operations g <> [].
Proof.
  rewrite groupMap_lookup. unfold groupOf.
  destruct (filter (fun op => opKey op = k) ops) as [|op0 rest] eqn:E; [discriminate|].
  intros H. inversion H; subst g. simpl. split; [|split; [reflexivity|discriminate]].
  assert (Hin : op0 ∈ filter (fun op => opKey op = k) ops) by (rewrite E; left).
  apply list_elem_of_filter in Hin as [Hk _]. symmetry. exact Hk.
Qed.

(** The groups of a batch: every group holds exactly the operations of its
    card and type, and no two groups share card and type. *)
Lemma groups_spec ops g :
  g ∈ GroupWriteOperations ops ->
  WriteGroup.Operations g
  = filter (fun op => writeOperation.CardID op = WriteGroup.CardID g /\
                      writeOperation.Type_ op = WriteGroup.RegisterType g) ops /\
  WriteGroup.Operations g <> [].
Proof.
  unfold GroupWriteOperations. rewrite rangeMap_perm, list_elem_of_fmap.
  intros ([k g'] & -> & Hin). apply elem_of_map_to_list in Hin. simpl.
  apply groupMap_entry in Hin as (Hk & Hops & Hne). split; [|exact Hne].
  rewrite Hops. apply list_filter_iff. intros op. unfold opKey. rewrite Hk. split.
  - apply groupKey_inj.
  - intros [-> ->]. reflexivity.
Qed.

Lemma groups_NoDup ops :
  NoDup (map (fun g => (WriteGroup.CardID g, WriteGroup.RegisterType g))
             (GroupWriteOperations ops)).
Proof.
  unfold GroupWriteOperations. rewrite rangeMap_perm.
  pose proof (NoDup_fst_map_to_list (groupMap ops)) as Hnd.
  assert (Hkeys : forall kg, kg ∈ map_to_list (groupMap ops) ->
            kg.1 = groupKey (WriteGroup.CardID kg.2) (WriteGroup.RegisterType kg.2)).
  { intros [k g] Hin. apply elem_of_map_to_list, groupMap_entry in Hin. tauto. }
  induction (map_to_list (groupMap ops)) as [|[k g] l IH]; simpl; [constructor|].
  inversion Hnd as [|? ? Hnotin Hnd']; subst. constructor.
  - intros Hin. apply Hnotin. apply list_elem_of_fmap in Hin as (g' & Heq & Hg').
    apply list_elem_of_fmap in Hg' as ([k' g''] & -> & Hin'). simpl in Heq.
    apply list_elem_of_fmap. exists (k', g''). split; [|exact Hin'].
    pose proof (Hkeys (k, g) ltac:(left)) as H1.
    pose proof (Hkeys (k', g'') ltac:(right; exact Hin')) as H2.
    simpl in *. inversion Heq. congruence.
  - apply IH; [exact Hnd'|]. intros kg Hin. apply Hkeys. right. exact Hin.
Qed.

Lemma groups_cover ops op :
  op ∈ ops ->
  exists g, g ∈ GroupWriteOperations ops /\
            WriteGroup.CardID g = writeOperation.CardID op /\
            WriteGroup.RegisterType g = writeOperation.Type_ op.
Proof.
  intros Hin.
  destruct (groupMap ops !! opKey op) as [g|] eqn:E.
  - exists g. pose proof (groupMap_entry _ _ _ E) as (Hk & _ & _).
    apply groupKey_inj in Hk as [Hc Ht]. split; [|auto].
    unfold GroupWriteOperations. rewrite rangeMap_perm. apply list_elem_of_fmap.
    exists (opKey op, g). split; [reflexivity|]. apply elem_of_map_to_list. exact E.
  - rewrite groupMap_lookup in E. unfold groupOf in E.
    destruct (filter (fun op0 => opKey op0 = opKey op) ops) as [|op0 rest] eqn:Ef; [|discriminate].
    assert (Hf : op ∈ filter (fun op0 => opKey op0 = opKey op) ops)
      by (apply list_elem_of_filter; auto).
    rewrite Ef in Hf. inversion Hf.
Qed.

(** ** Batch writes: the whole call *)

Lemma validateOp_pending m i op :
  CommandResult.Status (validateOp m i op) = "" <->
  exists card, Manager.cards m !! writeOperation.CardID op = Some card /\
    0 <= writeOperation.Index op
      < channelCount (specOf (Card.Module_ card)) (writeOperation.Type_ op) /\
    shouldWrite op card = true.
Proof.
  unfold validateOp, channelCount.
  destruct (Manager.cards m !! writeOperation.CardID op) as [card|]; simpl.
  - set (n := match writeOperation.Type_ op with
              | writeOpDO => _ | _ => _ end).
    destruct (writeOperation.Index op <? 0) eqn:E1; simpl.
    + apply Z.ltb_lt in E1. split; [discriminate|]. intros (c & Hc & Hr & _).
      inversion Hc; subst. lia.
    + apply Z.ltb_ge in E1. destruct (n <=? writeOperation.Index op) eqn:E2; simpl.
      * apply Z.leb_le in E2. split; [discriminate|]. intros (c & Hc & Hr & _).
        inversion Hc; subst. fold n in Hr. lia.
      * apply Z.leb_gt in E2. destruct (shouldWrite op card) eqn:Es; simpl.
        -- split; [|reflexivity]. intros _. exists card. fold n. auto with lia.
        -- split; [discriminate|]. intros (c & Hc & _ & Hs). inversion Hc; subst. congruence.
  - split; [discriminate|]. intros (c & Hc & _). discriminate.
Qed.

Lemma pendingOps_valid m ops op :
  op ∈ pendingOps m ops ->
  exists i, ops !! i = Some op /\ CommandResult.Status (validateOp m (Z.of_nat i) op) = "".
Proof.
  unfold pendingOps. intros Hin.
  destruct (collectValid_spec ops 0 (imap (fun i op => validateOp m (Z.of_nat i) op) ops))
    as (_ & Hops & _); [apply length_imap|].
  destruct (Hops op Hin) as (i & r & Hi & Hr & Hs). exists i. split; [exact Hi|].
  rewrite list_lookup_imap, Hi in Hr. inversion Hr; subst. exact Hs.
Qed.

Lemma pendingOps_nonneg m ops op :
  op ∈ pendingOps m ops -> 0 <= writeOperation.Index op.
Proof.
  intros Hin. apply pendingOps_valid in Hin as (i & _ & Hs).
  apply validateOp_pending in Hs as (c & _ & Hr & _). lia.
Qed.

Lemma groups_loop validOps validToOrig m0 gs :
  forall results w,
  sameRegistry m0 (World.mgr w) ->
  Forall (fun g => Forall (fun op => 0 <= writeOperation.Index op) (WriteGroup.Operations g)) gs ->
  Forall (fun i => 0 <= i < Z.of_nat (length results)) validToOrig ->
  exists rs trs,
    foldM gs results
          (fun results group =>
             groupResults ← processWriteGroup group;
             must (mapBack validOps validToOrig group groupResults results)) w
    = Ok rs (groupsWorld gs w) /\
    length rs = length results /\
    World.trace (groupsWorld gs w) = World.trace w ++ concat trs /\
    Forall2 (groupRun m0) gs trs /\
    sameRegistry m0 (World.mgr (groupsWorld gs w)) /\
    forall i : nat, Z.of_nat i ∉ validToOrig -> rs !! i = results !! i.
Proof.
  induction gs as [|g gs IH]; intros results w Hreg Hall Hrange.
  - exists results, []. simpl. split; [reflexivity|]. split; [reflexivity|].
    split; [symmetry; apply app_nil_r|]. split; [constructor|]. split; [exact Hreg|auto].
  - inversion Hall as [|? ? Hg Hgs]; subst.
    destruct (processWriteGroup_run g w Hg) as (grs & w1 & tr & Hrun & Htr & Hlen & Hreg1 & Hgr).
    destruct (mapBack_Some validOps validToOrig g grs results Hrange)
      as (rs1 & Hmb & Hlen1 & Hkeep1).
    destruct (IH rs1 w1) as (rs & trs & Hfold & Hrs & Htrs & Hf2 & Hreg2 & Hkeep);
      [eapply sameRegistry_trans; eauto|exact Hgs|rewrite Hlen1; exact Hrange|].
    exists rs, (tr :: trs). cbn [groupsWorld foldM]. rewrite Hrun.
    split.
    { erewrite bind_Ok; [exact Hfold|]. erewrite bind_Ok by exact Hrun.
      unfold must. rewrite Hmb. reflexivity. }
    split; [congruence|].
    split; [rewrite Htrs, Htr; simpl; rewrite app_assoc; reflexivity|].
    split; [constructor; [exact (groupRun_sameRegistry _ _ _ _ Hreg Hgr)|exact Hf2]|].
    split; [exact Hreg2|]. intros i Hi. rewrite (Hkeep i Hi). apply Hkeep1, Hi.
Qed.

Lemma GroupWriteOperations_nil : GroupWriteOperations [] = [].
Proof.
  unfold GroupWriteOperations, groupMap. simpl. rewrite map_to_list_empty. simpl.
  apply Permutation_nil. symmetry. apply rangeMap_perm.
Qed.

Lemma ProcessBatchWrite_run ops w :
  let m := World.mgr w in
  let gs := GroupWriteOperations (pendingOps m ops) in
  exists rs trs,
    ProcessBatchWrite ops w = Ok rs (groupsWorld gs w) /\
    length rs = length ops /\
    World.trace (groupsWorld gs w) = World.trace w ++ concat trs /\
    Forall2 (groupRun m) gs trs /\
    sameRegistry m (World.mgr (groupsWorld gs w)) /\
    forall (i : nat) op, ops !! i = Some op ->
      CommandResult.Status (validateOp m (Z.of_nat i) op) <> "" ->
      rs !! i = Some (validateOp m (Z.of_nat i) op).
Proof.
  intros m gs. unfold ProcessBatchWrite.
  erewrite bind_Ok by reflexivity. fold m.
  set (results := imap (fun i op => validateOp m (Z.of_nat i) op) ops).
  assert (Hlen : length results = length ops) by apply length_imap.
  destruct (collectValid_spec ops 0 results Hlen) as (Hrange & Hops & Hnot).
  assert (Hkeep0 : forall (i : nat) op, ops !! i = Some op ->
            CommandResult.Status (validateOp m (Z.of_nat i) op) <> "" ->
            Z.of_nat i ∉ (collectValid 0 ops results).2).
  { intros i op Hi Hs. apply (Hnot i (validateOp m (Z.of_nat i) op)); [|exact Hs].
    unfold results. rewrite list_lookup_imap, Hi. reflexivity. }
  assert (Hres : forall (i : nat) op, ops !! i = Some op ->
            results !! i = Some (validateOp m (Z.of_nat i) op)).
  { intros i op Hi. unfold results. rewrite list_lookup_imap, Hi. reflexivity. }
  unfold gs, pendingOps. fold results.
  destruct (collectValid 0 ops results) as [validOps validToOrig] eqn:Ecv.
  cbn [fst snd] in *.
  destruct (length validOps =? 0)%nat eqn:E0.
  - apply Nat.eqb_eq in E0. apply length_zero_iff_nil in E0. subst validOps.
    rewrite GroupWriteOperations_nil. exists results, []. simpl.
    split; [reflexivity|]. split; [exact Hlen|]. split; [symmetry; apply app_nil_r|].
    split; [constructor|]. split; [apply sameRegistry_refl|].
    intros i op Hi _. apply Hres, Hi.
  - destruct (groups_loop validOps validToOrig m (GroupWriteOperations validOps) results w)
      as (rs & trs & Hfold & Hrs & Htrs & Hf2 & Hreg & Hkeep).
    + apply sameRegistry_refl.
    + apply Forall_forall. intros g Hg. apply groups_spec in Hg as [Hg _].
      apply Forall_forall. intros op Hop. rewrite Hg in Hop.
      apply list_elem_of_filter in Hop as [_ Hop].
      apply (pendingOps_nonneg m ops). unfold pendingOps. fold results. rewrite Ecv. exact Hop.
    + eapply Forall_impl; [exact Hrange|]. simpl. intros i Hi. lia.
    + exists rs, trs. split; [exact Hfold|]. split; [congruence|].
      split; [exact Htrs|]. split; [exact Hf2|]. split; [exact Hreg|].
      intros i op Hi Hs. rewrite (Hkeep i (Hkeep0 i op Hi Hs)). apply Hres, Hi.
Qed.

Lemma validateOp_status_index m i j op :
  CommandResult.Status (validateOp m i op) = CommandResult.Status (validateOp m j op).
Proof.
  unfold validateOp. destruct (Manager.cards m !! writeOperation.CardID op); [|reflexivity].
  destruct (_ || _); [reflexivity|]. destruct (negb _); reflexivity.
Qed.

Lemma collectValid_filter m ops :
  forall k (k' : nat),
  (collectValid k ops (imap (fun i op => validateOp m (Z.of_nat (k' + i)) op) ops)).1
  = filter (isPending m) ops.
Proof.
  induction ops as [|op ops IH]; intros k k'; [reflexivity|].
  rewrite imap_cons. cbn [collectValid].
  specialize (IH (k + 1) (S k')).
  rewrite (imap_ext _ (fun i op => validateOp m (Z.of_nat (S k' + i)) op)).
  2:{ intros i x _. simpl. do 2 f_equal. lia. }
  destruct (collectValid (k + 1) ops _) as [vo vt]. simpl in IH. subst vo.
  destruct (decide (CommandResult.Status (validateOp m (Z.of_nat (k' + 0)) op) = "")) as [Hs|Hs].
  - rewrite filter_cons_True; [reflexivity|].
    unfold isPending. rewrite (validateOp_status_index m 0 (Z.of_nat (k' + 0))). exact Hs.
  - rewrite filter_cons_False; [reflexivity|].
    unfold isPending. rewrite (validateOp_status_index m 0 (Z.of_nat (k' + 0))). exact Hs.
Qed.

Lemma pendingOps_filter m ops : pendingOps m ops = filter (isPending m) ops.
Proof. unfold pendingOps. apply (collectValid_filter m ops 0 0%nat). Qed.

Lemma filter_delete_not {A} (P : A -> Prop) `{forall x, Decision (P x)} (l : list A) :
  forall (i : nat) x, l !! i = Some x -> ~ P x -> filter P (delete i l) = filter P l.
Proof.
  induction l as [|y l IH]; intros [|i] x Hi Hx; simpl in Hi; try discriminate.
  - inversion Hi; subst. simpl. rewrite filter_cons_False by exact Hx. reflexivity.
  - simpl. rewrite !filter_cons. rewrite (IH i x Hi Hx). reflexivity.
Qed.

Lemma cachedEqual_shouldWrite card op :
  0 <= writeOperation.Index op -> cachedEqual card op -> shouldWrite op card = false.
Proof.
  intros Hidx. unfold cachedEqual, shouldWrite.
  replace (0 <=? writeOperation.Index op) with true by (symmetry; apply Z.leb_le; lia).
  destruct (writeOperation.Type_ op).
  - intros H. pose proof (lookup_lt_Some _ _ _ H) as Hlt.
    replace (_ <? _) with true by (symmetry; apply Z.ltb_lt; lia).
    rewrite H. destruct (F32.neb _ _); reflexivity.
  - intros (v & H & Hv). pose proof (lookup_lt_Some _ _ _ H) as Hlt.
    replace (_ <? _) with true by (symmetry; apply Z.ltb_lt; lia).
    rewrite H. simpl. unfold F32.neb. rewrite Hv. reflexivity.
  - intros H. pose proof (lookup_lt_Some _ _ _ H) as Hlt.
    replace (_ <? _) with true by (symmetry; apply Z.ltb_lt; lia).
    rewrite H. simpl. rewrite bool_decide_eq_true_2; reflexivity.
Qed.

Lemma validateOp_skipped m i op card :
  Manager.cards m !! writeOperation.CardID op = Some card ->
  0 <= writeOperation.Index op
    < channelCount (specOf (Card.Module_ card)) (writeOperation.Type_ op) ->
  cachedEqual card op ->
  validateOp m i op = CommandResult.mk i "ok" "value unchanged, skipped".
Proof.
  intros Hcard Hrange Heq. unfold validateOp. rewrite Hcard.
  unfold channelCount in Hrange.
  replace (writeOperation.Index op <? 0) with false by (symmetry; apply Z.ltb_ge; lia).
  replace (_ <=? writeOperation.Index op) with false by (symmetry; apply Z.leb_gt; lia).
  simpl. rewrite cachedEqual_shouldWrite by (assumption || lia). reflexivity.
Qed.

(** C5, as amended.  An operation whose card is registered, whose index is a
    channel of the card and whose value equals the cached value of that
    channel gets the result "ok" (message "value unchanged, skipped"), and
    it adds nothing to the bus traffic: the call leaves the world, trace
    included, exactly as the same batch without that operation does. *)
Theorem C5_unchanged_op_is_elided (ops : list writeOperation.t) (i : nat)
    (op : writeOperation.t) (card : Card.t) (w : World.t) :
  ops !! i = Some op ->
  Manager.cards (World.mgr w) !! writeOperation.CardID op = Some card ->
  0 <= writeOperation.Index op
    < channelCount (specOf (Card.Module_ card)) (writeOperation.Type_ op) ->
  cachedEqual card op ->
  exists rs rs' w',
    ProcessBatchWrite ops w = Ok rs w' /\
    ProcessBatchWrite (delete i ops) w = Ok rs' w' /\
    rs !! i = Some (CommandResult.mk (Z.of_nat i) "ok" "value unchanged, skipped").
Proof.
  intros Hi Hcard Hrange Heq.
  pose proof (validateOp_skipped (World.mgr w) (Z.of_nat i) op card Hcard Hrange Heq) as Hv.
  destruct (ProcessBatchWrite_run ops w) as (rs & trs & Hrun & _ & _ & _ & _ & Hkeep).
  destruct (ProcessBatchWrite_run (delete i ops) w) as (rs' & trs' & Hrun' & _).
  assert (Hsame : pendingOps (World.mgr w) (delete i ops) = pendingOps (World.mgr w) ops).
  { rewrite !pendingOps_filter. apply (filter_delete_not _ _ i op Hi).
    unfold isPending. rewrite (validateOp_status_index _ 0 (Z.of_nat i)), Hv. discriminate. }
  rewrite Hsame in Hrun'.
  eexists rs, rs', _. split; [exact Hrun|]. split; [exact Hrun'|].
  rewrite <- Hv. apply Hkeep; [exact Hi|]. rewrite Hv. discriminate.
Qed.

(** ** Coalesced DO writes *)

Lemma shouldWrite_cachedEqual card op :
  0 <= writeOperation.Index op ->
  (shouldWrite op card = true <-> ~ cachedEqual card op).
Proof.
  intros Hidx. split.
  - intros Hs Heq. rewrite (cachedEqual_shouldWrite card op Hidx Heq) in Hs. discriminate.
  - intros Hne. destruct (shouldWrite op card) eqn:Hs; [reflexivity|]. exfalso. apply Hne.
    unfold shouldWrite in Hs. unfold cachedEqual.
    replace (0 <=? writeOperation.Index op) with true in Hs by (symmetry; apply Z.leb_le; lia).
    destruct (writeOperation.Type_ op).
    + destruct (_ <? _); [|discriminate]. cbn [andb] in Hs.
      destruct (CardState.DO (Card.Last card) !! _) as [b|]; [|discriminate].
      f_equal. destruct b, (F32.neb _ _); try reflexivity; discriminate.
    + destruct (_ <? _); [|discriminate]. cbn [andb] in Hs.
      destruct (CardState.AO (Card.Last card) !! _) as [v|]; [|discriminate].
      exists v. split; [reflexivity|]. unfold F32.neb in Hs.
      destruct (F32.eqb _ _); [reflexivity|discriminate].
    + destruct (_ <? _); [|discriminate]. cbn [andb] in Hs.
      destruct (CardState.AOType (Card.Last card) !! _) as [t|]; [|discriminate].
      f_equal. apply negb_false_iff, bool_decide_eq_true in Hs. exact Hs.
Qed.

Lemma isPending_needsWrite m op : isPending m op <-> needsWrite m op.
Proof.
  unfold isPending, needsWrite. rewrite validateOp_pending. split.
  - intros (card & Hc & Hr & Hs). exists card. split; [exact Hc|]. split; [exact Hr|].
    apply shouldWrite_cachedEqual; [lia|exact Hs].
  - intros (card & Hc & Hr & Hs). exists card. split; [exact Hc|]. split; [exact Hr|].
    apply shouldWrite_cachedEqual; [lia|exact Hs].
Qed.

Lemma coilFrames_targets path slave tr :
  forall frames, map evTarget tr = map Some frames ->
  coilFrames path slave tr = omap (coilOf path slave) frames.
Proof.
  unfold coilFrames. induction tr as [|ev tr IH]; intros [|f frames] H; try discriminate.
  - reflexivity.
  - simpl in H. inversion H as [[Hev Htl]]. cbn [omap list_omap]. rewrite Hev. simpl.
    rewrite (IH frames Htl). reflexivity.
Qed.

Lemma coilFrames_app path slave tr1 tr2 :
  coilFrames path slave (tr1 ++ tr2) = coilFrames path slave tr1 ++ coilFrames path slave tr2.
Proof. unfold coilFrames. apply omap_app. Qed.

Lemma coilFrames_concat_nil path slave trs :
  Forall (fun tr => coilFrames path slave tr = []) trs ->
  coilFrames path slave (concat trs) = [].
Proof.
  induction 1 as [|tr trs H _ IH]; [reflexivity|].
  simpl. rewrite coilFrames_app, H, IH. reflexivity.
Qed.

Lemma other_group_no_coils m g tr id card :
  portsOpen m -> distinctAddresses m ->
  Manager.cards m !! id = Some card ->
  groupRun m g tr ->
  (WriteGroup.CardID g, WriteGroup.RegisterType g) <> (id, writeOpDO) ->
  coilFrames (Card.PortPath card) (Card.SlaveID card) tr = [].
Proof.
  intros Hopen Hdist Hcard [Hatt Hexact] Hne. unfold groupAttempt in Hatt.
  destruct (Manager.cards m !! WriteGroup.CardID g) as [c|] eqn:Hc.
  - rewrite (coilFrames_targets _ _ _ _ (Hexact c eq_refl (Hopen _ _ Hc))).
    unfold groupRequests. destruct (WriteGroup.Operations g) as [|op0 rest]; [reflexivity|].
    destruct (WriteGroup.RegisterType g) eqn:Ht.
    + cbn [omap list_omap coilOf]. rewrite decide_False; [reflexivity|].
      intros [Hp Hs]. apply Hne. f_equal. exact (Hdist _ _ _ _ Hc Hcard Hp Hs).
    + reflexivity.
    + generalize (op0 :: rest). intros l. induction l as [|op l IH]; [reflexivity|].
      cbn [map omap list_omap aoTypeRequest coilOf] in *. exact IH.
  - subst tr. reflexivity.
Qed.

Lemma groupRequests_DO card g op0 rest :
  WriteGroup.Operations g = op0 :: rest ->
  WriteGroup.RegisterType g = writeOpDO ->
  let ops := op0 :: rest in
  let lo := minIndex ops (writeOperation.Index op0) in
  let hi := maxIndex ops (writeOperation.Index op0) in
  let vals := overlaid (fun op => F32.neb (writeOperation.Value op) F32.zero) lo ops
                (cachedWindow false (CardState.DO (Card.Last card)) lo (hi - lo + 1)) in
  groupRequests card g
  = [(Card.PortPath card, Card.SlaveID card,
      WriteMultipleCoils (uint16 lo) (uint16 (Z.of_nat (length vals))) (packBits vals))].
Proof. intros Hops Ht. unfold groupRequests. rewrite Hops, Ht. reflexivity. Qed.

Lemma others_no_coils m id card gs trs :
  portsOpen m -> distinctAddresses m ->
  Manager.cards m !! id = Some card ->
  Forall2 (groupRun m) gs trs ->
  (forall g, g ∈ gs -> (WriteGroup.CardID g, WriteGroup.RegisterType g) <> (id, writeOpDO)) ->
  coilFrames (Card.PortPath card) (Card.SlaveID card) (concat trs) = [].
Proof.
  intros Hopen Hdist Hcard Hf2 Hne. apply coilFrames_concat_nil.
  induction Hf2 as [|g tr gs trs Hg _ IH]; constructor.
  - eapply other_group_no_coils; eauto. apply Hne. left.
  - apply IH. intros g' Hg'. apply Hne. right. exact Hg'.
Qed.

Lemma DO_group_members m ops g :
  g ∈ GroupWriteOperations (pendingOps m ops) ->
  WriteGroup.RegisterType g = writeOpDO ->
  forall op, op ∈ WriteGroup.Operations g <-> writesDO m ops (WriteGroup.CardID g) op.
Proof.
  intros Hg Ht op. apply groups_spec in Hg as [Hops _]. rewrite Hops.
  rewrite list_elem_of_filter, pendingOps_filter, list_elem_of_filter, Ht.
  rewrite isPending_needsWrite. unfold writesDO. tauto.
Qed.

(** C3, as amended.  Take a batch in which two DO operations of one card,
    with indices [a < b], both need writing (registered card, valid index,
    value different from the cache).  Then the call returns, and among the
    frames it sends to the address of that card there is exactly one
    WriteMultipleCoils.  Its window starts at the lowest and ends at the
    highest index among the DO operations of the card that need writing, so
    it covers [a, b]; a coil of the window that none of these operations
    targets carries the cached value (false where nothing is cached), and a
    targeted coil carries the value of one of the operations targeting it. *)
Theorem C3_coalesced_DO_write (ops : list writeOperation.t)
    (opa opb : writeOperation.t) (card : Card.t) (w : World.t) :
  let m := World.mgr w in
  let id := writeOperation.CardID opa in
  portsOpen m -> distinctAddresses m ->
  Manager.cards m !! id = Some card ->
  writesDO m ops id opa -> writesDO m ops id opb ->
  writeOperation.Index opa < writeOperation.Index opb ->
  exists rs w' tr lo vals,
    ProcessBatchWrite ops w = Ok rs w' /\
    World.trace w' = World.trace w ++ tr /\
    coilFrames (Card.PortPath card) (Card.SlaveID card) tr
    = [WriteMultipleCoils lo (Z.of_nat (length vals)) (packBits vals)] /\
    lo <= writeOperation.Index opa /\
    writeOperation.Index opb <= lo + Z.of_nat (length vals) - 1 /\
    (exists op, writesDO m ops id op /\ writeOperation.Index op = lo) /\
    (exists op, writesDO m ops id op /\
                writeOperation.Index op = lo + Z.of_nat (length vals) - 1) /\
    forall k : nat, (k < length vals)%nat ->
      ((forall op, writesDO m ops id op -> writeOperation.Index op <> lo + Z.of_nat k) ->
       vals !! k = Some (default false
                           (CardState.DO (Card.Last card) !! Z.to_nat (lo + Z.of_nat k))))
      /\
      ((exists op, writesDO m ops id op /\ writeOperation.Index op = lo + Z.of_nat k) ->
       exists op, writesDO m ops id op /\ writeOperation.Index op = lo + Z.of_nat k /\
                  vals !! k = Some (F32.neb (writeOperation.Value op) F32.zero)).
Proof.
  intros m id Hopen Hdist Hcard Ha Hb Hab.
  destruct (ProcessBatchWrite_run ops w) as (rs & trs & Hrun & _ & Htr & Hf2 & _ & _).
  fold m in Hrun, Htr, Hf2.
  set (gs := GroupWriteOperations (pendingOps m ops)) in *.
  (* the DO group of the card *)
  assert (Hpa : opa ∈ pendingOps m ops).
  { rewrite pendingOps_filter. apply list_elem_of_filter. split.
    - apply isPending_needsWrite. apply Ha.
    - apply Ha. }
  destruct (groups_cover _ _ Hpa) as (g0 & Hg0 & Hid0 & Ht0). fold gs id in Hg0, Hid0.
  assert (Ht0' : WriteGroup.RegisterType g0 = writeOpDO).
  { rewrite Ht0. apply Ha. }
  pose proof (DO_group_members m ops g0 Hg0 Ht0') as Hmem. rewrite Hid0 in Hmem.
  pose proof (groups_NoDup (pendingOps m ops)) as Hnd. fold gs in Hnd.
  apply list_elem_of_split in Hg0 as (gs1 & gs2 & Hgs). rewrite Hgs in Hf2, Hnd.
  apply Forall2_app_inv_l in Hf2 as (trs1 & trs' & Hf1 & Hf' & ->).
  apply Forall2_cons_inv_l in Hf' as (tr0 & trs2 & Hr0 & Hf2 & ->).
  rewrite map_app in Hnd. cbn [map] in Hnd.
  apply NoDup_app in Hnd as (_ & Hnd1 & Hnd2). apply NoDup_cons in Hnd2 as [Hnd2 _].
  rewrite Hid0, Ht0' in Hnd1, Hnd2.
  assert (Hno1 : coilFrames (Card.PortPath card) (Card.SlaveID card) (concat trs1) = []).
  { eapply others_no_coils; eauto. intros g Hg Heq. apply (Hnd1 (id, writeOpDO)); [|left].
    apply list_elem_of_fmap. exists g. auto. }
  assert (Hno2 : coilFrames (Card.PortPath card) (Card.SlaveID card) (concat trs2) = []).
  { eapply others_no_coils; eauto. intros g Hg Heq. apply Hnd2.
    apply list_elem_of_fmap. exists g. auto. }
  (* its operations and their bounds *)
  destruct Hr0 as [_ Hexact]. rewrite Hid0 in Hexact.
  specialize (Hexact card Hcard (Hopen _ _ Hcard)).
  assert (Hbound : forall op, op ∈ WriteGroup.Operations g0 ->
            0 <= writeOperation.Index op < 8).
  { intros op Hop. apply Hmem in Hop as (_ & Hc & Ht & (c & Hcc & Hr & _)).
    rewrite Hc in Hcc. rewrite Hcard in Hcc. inversion Hcc; subst c.
    rewrite Ht in Hr. simpl in Hr.
    pose proof (specOf_bounds (Card.Module_ card)) as (_ & HDO & _). simpl in HDO. lia. }
  assert (Hina : opa ∈ WriteGroup.Operations g0) by (apply Hmem; exact Ha).
  assert (Hinb : opb ∈ WriteGroup.Operations g0) by (apply Hmem; exact Hb).
  pose proof (groupRequests_DO card g0) as Hreq.
  destruct (WriteGroup.Operations g0) as [|op0 rest]; [inversion Hina|].
  specialize (Hreq op0 rest eq_refl Ht0'). cbv zeta in Hreq.
  set (ops0 := op0 :: rest) in *.
  assert (Hin0 : op0 ∈ ops0) by left.
  set (lo := minIndex ops0 (writeOperation.Index op0)) in *.
  set (hi := maxIndex ops0 (writeOperation.Index op0)) in *.
  assert (Hlo_att : exists op, op ∈ ops0 /\ writeOperation.Index op = lo).
  { destruct (minIndex_attained ops0 (writeOperation.Index op0)) as [H|(op & Hin & H)];
      [exists op0|exists op]; auto. }
  assert (Hhi_att : exists op, op ∈ ops0 /\ writeOperation.Index op = hi).
  { destruct (maxIndex_attained ops0 (writeOperation.Index op0)) as [H|(op & Hin & H)];
      [exists op0|exists op]; auto. }
  assert (Hlow : forall op, op ∈ ops0 -> lo <= writeOperation.Index op)
    by (intros op Hop; apply minIndex_lower, Hop).
  assert (Hup : forall op, op ∈ ops0 -> writeOperation.Index op <= hi)
    by (intros op Hop; apply maxIndex_upper, Hop).
  assert (Hlo8 : 0 <= lo < 8) by (destruct Hlo_att as (op & Hin & <-); apply Hbound, Hin).
  assert (Hhi8 : lo <= hi < 8).
  { destruct Hhi_att as (op & Hin & <-). split; [apply Hlow, Hin|apply Hbound, Hin]. }
  set (val := fun op => F32.neb (writeOperation.Value op) F32.zero) in *.
  set (base := cachedWindow false (CardState.DO (Card.Last card)) lo (hi - lo + 1)) in *.
  set (vals := overlaid val lo ops0 base) in *.
  assert (Hlen : length vals = Z.to_nat (hi - lo + 1)).
  { unfold vals, base. rewrite length_overlaid, length_cachedWindow. reflexivity. }
  unfold uint16 in Hreq. rewrite !Z.mod_small in Hreq by (rewrite ?Hlen; lia).
  rewrite Hreq in Hexact.
  assert (Hlowall : Forall (fun op => lo <= writeOperation.Index op) ops0)
    by (apply Forall_forall; exact Hlow).
  exists rs, (groupsWorld gs w), (concat (trs1 ++ tr0 :: trs2)), lo, vals.
  split; [exact Hrun|]. split; [exact Htr|].
  split.
  { rewrite concat_app, coilFrames_app. cbn [concat]. rewrite coilFrames_app, Hno1, Hno2.
    rewrite (coilFrames_targets _ _ _ _ Hexact). cbn [omap list_omap coilOf].
    rewrite decide_True by auto. reflexivity. }
  split; [apply Hlow, Hina|].
  split; [rewrite Hlen; specialize (Hup _ Hinb); lia|].
  split; [destruct Hlo_att as (op & Hin & Hop); exists op; split; [apply Hmem, Hin|exact Hop]|].
  split.
  { destruct Hhi_att as (op & Hin & Hop). exists op. split; [apply Hmem, Hin|].
    rewrite Hlen. lia. }
  intros k Hk. split.
  - intros Hnone. unfold vals. rewrite overlaid_untouched.
    + unfold base. apply lookup_cachedWindow. lia.
    + exact Hlowall.
    + intros op Hop. apply Hnone, Hmem, Hop.
  - intros (op & Hop & Hidx).
    destruct (overlaid_touched val lo ops0 base k Hlowall) as (op' & Hin' & Hidx' & Hv).
    + unfold base. rewrite length_cachedWindow. lia.
    + exists op. split; [apply Hmem, Hop|exact Hidx].
    + exists op'. split; [apply Hmem, Hin'|]. split; [exact Hidx'|exact Hv].
Qed.

(** ** readCard *)

Lemma clientCall_run pc rq w :
  clientCall pc rq w
  = Ok (bus (World.trace w) pc (handlerSlave (World.mgr w) pc) rq)
       (World.mk (World.mgr w)
          (World.trace w ++ [EvFrame pc (handlerSlave (World.mgr w) pc) rq
                               (bus (World.trace w) pc (handlerSlave (World.mgr w) pc) rq)])).
Proof. reflexivity. Qed.

Lemma tailOutcome_readOutcome e0 w r : tailOutcome e0 w r -> readOutcome e0 w r.
Proof.
  destruct r as [[st err] w'|]; [|auto]. simpl.
  intros (Hreg & tr & Htr & -> & Hf & He). split; [exact Hreg|]. exists tr. auto.
Qed.

(** Prefixing an outcome with one transaction that is no failed primary
    read. *)
Lemma tailOutcome_after e0 w pc rq r :
  (forall e, bus (World.trace w) pc (handlerSlave (World.mgr w) pc) rq = inr e ->
             isPrimaryRead rq = false) ->
  tailOutcome e0
    (World.mk (World.mgr w)
       (World.trace w ++ [EvFrame pc (handlerSlave (World.mgr w) pc) rq
                            (bus (World.trace w) pc (handlerSlave (World.mgr w) pc) rq)])) r ->
  tailOutcome e0 w r.
Proof.
  intros Hev. destruct r as [[st err] w'|]; [|auto]. simpl.
  intros (Hreg & tr & Htr & -> & Hf & He). split; [exact Hreg|].
  eexists (_ :: tr). split; [rewrite Htr, <- app_assoc; reflexivity|].
  split; [reflexivity|]. split; [|exact He]. constructor; [|exact Hf].
  simpl. destruct (bus _ _ _ _) as [b|e] eqn:E; [reflexivity|]. apply (Hev e). reflexivity.
Qed.

Lemma readOutcome_after e0 w pc rq raw r :
  bus (World.trace w) pc (handlerSlave (World.mgr w) pc) rq = inl raw ->
  readOutcome e0
    (World.mk (World.mgr w)
       (World.trace w ++ [EvFrame pc (handlerSlave (World.mgr w) pc) rq (inl raw)])) r ->
  readOutcome e0 w r.
Proof.
  intros Hev. destruct r as [[st err] w'|]; [|auto]. simpl.
  intros (Hreg & tr & Htr & Hspec). split; [exact Hreg|].
  eexists (_ :: tr). split; [rewrite Htr, <- app_assoc; reflexivity|].
  destruct err as [e|].
  - destruct Hspec as (tr0 & p & s & rq' & -> & Hp & Hall).
    exists (EvFrame pc (handlerSlave (World.mgr w) pc) rq (inl raw) :: tr0), p, s, rq'.
    split; [reflexivity|]. split; [exact Hp|]. constructor; [reflexivity|exact Hall].
  - destruct Hspec as [Hf He]. split; [|exact He]. constructor; [reflexivity|exact Hf].
Qed.

Lemma readOutcome_fail e0 w pc rq e st :
  isPrimaryRead rq = true ->
  readOutcome e0 w
    (Ok (st, Some e)
       (World.mk (World.mgr w)
          (World.trace w ++ [EvFrame pc (handlerSlave (World.mgr w) pc) rq (inr e)]))).
Proof.
  intros Hp. simpl. split; [apply sameRegistry_refl|]. eexists. split; [reflexivity|].
  exists [], pc, (handlerSlave (World.mgr w) pc), rq. auto.
Qed.

Lemma readSerialNumber_run pc w :
  exists sn,
    readSerialNumber pc w
    = Ok sn (World.mk (World.mgr w)
               (World.trace w ++ [EvFrame pc (handlerSlave (World.mgr w) pc)
                                    (ReadHoldingRegisters 112 10)
                                    (bus (World.trace w) pc (handlerSlave (World.mgr w) pc)
                                         (ReadHoldingRegisters 112 10))])).
Proof.
  unfold readSerialNumber. erewrite bind_Ok by apply clientCall_run.
  destruct (bus _ _ _ _) as [snRaw|e]; [|eexists; reflexivity].
  destruct (_ <? 20); eexists; reflexivity.
Qed.

Lemma readBaudRate_run pc w :
  exists baud,
    readBaudRate pc w
    = Ok baud (World.mk (World.mgr w)
                 (World.trace w ++ [EvFrame pc (handlerSlave (World.mgr w) pc)
                                      (ReadHoldingRegisters 32 2)
                                      (bus (World.trace w) pc (handlerSlave (World.mgr w) pc)
                                           (ReadHoldingRegisters 32 2))])).
Proof.
  unfold readBaudRate. erewrite bind_Ok by apply clientCall_run.
  destruct (bus _ _ _ _) as [raw|e]; [|eexists; reflexivity].
  destruct (_ <? 4); eexists; reflexivity.
Qed.

Lemma readCard_identity_outcome pc readAll state w :
  tailOutcome (CardState.Error state) w (readCard_identity pc readAll state w).
Proof.
  unfold readCard_identity. destruct readAll.
  - destruct (readSerialNumber_run pc w) as (sn & Hsn).
    erewrite bind_Ok by exact Hsn.
    apply (tailOutcome_after _ _ pc (ReadHoldingRegisters 112 10)); [intros e _; reflexivity|].
    match goal with |- tailOutcome _ ?w1 _ =>
      destruct (readBaudRate_run pc w1) as (baud & Hbaud) end.
    erewrite bind_Ok by exact Hbaud.
    apply (tailOutcome_after _ _ pc (ReadHoldingRegisters 32 2)); [intros e _; reflexivity|].
    simpl. split; [apply sameRegistry_refl|]. exists []. rewrite app_nil_r. auto.
  - simpl. split; [apply sameRegistry_refl|]. exists []. rewrite app_nil_r. auto.
Qed.

Lemma must_bind_outcome {A B} (o : option A) (k : A -> M B) (P : Res B -> Prop) w :
  P Panic -> (forall a, o = Some a -> P (k a w)) -> P ((must o ≫= k) w).
Proof.
  intros HP Hk. unfold mbind, M_bind, must. destruct o as [a|]; [apply Hk; reflexivity|exact HP].
Qed.

Lemma readCard_AO_outcome pc spec readAll state w :
  readOutcome (CardState.Error state) w (readCard_AO pc spec readAll state w).
Proof.
  unfold readCard_AO. destruct (0 <? ModelSpec.AO spec).
  - erewrite bind_Ok by apply clientCall_run.
    destruct (bus _ _ _ _) as [raw|e] eqn:Hbus.
    + eapply readOutcome_after; [exact Hbus|].
      apply must_bind_outcome; [exact I|]. intros ao _.
      destruct readAll.
      * erewrite bind_Ok by apply clientCall_run.
        apply tailOutcome_readOutcome.
        apply (tailOutcome_after _ _ pc (ReadHoldingRegisters 400 (uint16 (ModelSpec.AO spec))));
          [intros e _; reflexivity|].
        destruct (bus _ _ _ (ReadHoldingRegisters 400 _)) as [typeRaw|e].
        -- apply must_bind_outcome; [exact I|]. intros types _.
           apply (readCard_identity_outcome pc true
                    (CardState.set_AOType types (CardState.set_AO ao state))).
        -- apply (readCard_identity_outcome pc true (CardState.set_AO ao state)).
      * apply tailOutcome_readOutcome.
        apply (readCard_identity_outcome pc false (CardState.set_AO ao state)).
    + apply readOutcome_fail. reflexivity.
  - apply tailOutcome_readOutcome, readCard_identity_outcome.
Qed.

Lemma readCard_AI_outcome pc spec readAll state w :
  readOutcome (CardState.Error state) w (readCard_AI pc spec readAll state w).
Proof.
  unfold readCard_AI. destruct (0 <? ModelSpec.AI spec).
  - erewrite bind_Ok by apply clientCall_run.
    destruct (bus _ _ _ _) as [raw|e] eqn:Hbus.
    + eapply readOutcome_after; [exact Hbus|].
      apply must_bind_outcome; [exact I|]. intros ai _.
      apply (readCard_AO_outcome pc spec readAll (CardState.set_AI ai state)).
    + apply readOutcome_fail. reflexivity.
  - apply readCard_AO_outcome.
Qed.

Lemma readCard_DO_outcome pc spec readAll state w :
  readOutcome (CardState.Error state) w (readCard_DO pc spec readAll state w).
Proof.
  unfold readCard_DO. destruct (0 <? ModelSpec.DO spec).
  - erewrite bind_Ok by apply clientCall_run.
    destruct (bus _ _ _ _) as [raw|e] eqn:Hbus.
    + eapply readOutcome_after; [exact Hbus|].
      apply (readCard_AI_outcome pc spec readAll
               (CardState.set_DO (unpackBits raw (ModelSpec.DO spec)) state)).
    + apply readOutcome_fail. reflexivity.
  - apply readCard_AI_outcome.
Qed.

Lemma readOutcome_sameRegistry e0 w0 w r :
  sameRegistry (World.mgr w0) (World.mgr w) -> World.trace w = World.trace w0 ->
  readOutcome e0 w r -> readOutcome e0 w0 r.
Proof.
  intros Hreg Htr. destruct r as [[st err] w'|]; [|auto]. simpl.
  intros (Hreg' & tr & Htr' & Hspec). split; [eapply sameRegistry_trans; eauto|].
  exists tr. rewrite <- Htr. auto.
Qed.

(** Every run of [readCard]: an error is the reply of a primary read, which
    is then the last transaction of the call and the first one that
    failed; without error no primary read failed, and the state carries no
    error text. *)
Lemma readCard_outcome pc slave spec readAll w :
  readOutcome "" w (readCard pc slave spec readAll w).
Proof.
  unfold readCard. erewrite bind_Ok by apply setSlaveID_run.
  erewrite bind_Ok by reflexivity.
  cbn [World.trace].
  set (w0 := World.mk (withSlave pc slave (World.mgr w)) (World.trace w)).
  apply (readOutcome_sameRegistry "" w w0);
    [apply (sameRegistry_withSlave pc slave)|reflexivity|].
  set (state := CardState.mk (now (World.trace w)) [] [] [] [] [] "" 0 "").
  change "" with (CardState.Error state) at 1.
  destruct (0 <? ModelSpec.DI spec).
  - erewrite bind_Ok by apply clientCall_run.
    destruct (bus _ _ _ _) as [raw|e] eqn:Hbus.
    + eapply readOutcome_after; [exact Hbus|].
      apply (readCard_DO_outcome pc spec readAll
               (CardState.set_DI (unpackBits raw (ModelSpec.DI spec)) state)).
    + apply readOutcome_fail. reflexivity.
  - apply readCard_DO_outcome.
Qed.

Lemma slice_is_Some raw lo hi :
  0 <= lo <= hi -> hi <= Z.of_nat (length raw) -> is_Some (slice raw lo hi).
Proof.
  intros H1 H2. unfold slice.
  replace (0 <=? lo) with true by (symmetry; apply Z.leb_le; lia).
  replace (lo <=? hi) with true by (symmetry; apply Z.leb_le; lia).
  replace (hi <=? Z.of_nat (length raw)) with true by (symmetry; apply Z.leb_le; lia).
  simpl. eauto.
Qed.

Lemma getFloats_is_Some raw n :
  4 * n <= Z.of_nat (length raw) -> is_Some (getFloats raw n).
Proof.
  intros H. unfold getFloats. apply mapM_is_Some_2, Forall_forall. intros i Hi.
  apply elem_of_seqZ in Hi. unfold compose.
  destruct (slice_is_Some raw (i * 4) (i * 4 + 4)) as [b Hb]; [lia|lia|].
  rewrite Hb. simpl. eauto.
Qed.

Lemma getAOTypes_is_Some raw n :
  2 * n <= Z.of_nat (length raw) -> is_Some (getAOTypes raw n).
Proof.
  intros H. unfold getAOTypes. apply mapM_is_Some_2, Forall_forall. intros i Hi.
  apply elem_of_seqZ in Hi. unfold compose.
  destruct (slice_is_Some raw (i * 2) (i * 2 + 2)) as [b Hb]; [lia|lia|].
  rewrite Hb. simpl. eauto.
Qed.

Lemma must_bind_returns {A B} (o : option A) (k : A -> M B) w :
  is_Some o -> (forall a, k a w <> Panic) -> (must o ≫= k) w <> Panic.
Proof. intros [a ->] Hk. unfold mbind, M_bind, must. apply Hk. Qed.

Lemma readCard_identity_returns pc readAll state w :
  readCard_identity pc readAll state w <> Panic.
Proof.
  unfold readCard_identity. destruct readAll; [|discriminate].
  destruct (readSerialNumber_run pc w) as (sn & Hsn). erewrite bind_Ok by exact Hsn.
  match goal with |- (_ ≫= _) ?w1 <> _ =>
    destruct (readBaudRate_run pc w1) as (baud & Hbaud) end.
  erewrite bind_Ok by exact Hbaud. discriminate.
Qed.

Lemma readCard_AO_returns pc spec readAll state w :
  registerRepliesSized -> 0 <= ModelSpec.AO spec <= 8 ->
  readCard_AO pc spec readAll state w <> Panic.
Proof.
  intros Hsized Hb. unfold readCard_AO. destruct (0 <? ModelSpec.AO spec).
  - erewrite bind_Ok by apply clientCall_run.
    destruct (bus _ _ _ _) as [raw|e] eqn:Hbus; [|discriminate].
    pose proof (Hsized _ _ _ _ _ _ (or_intror Hbus)) as Hlen.
    unfold uint16 in Hlen. rewrite Z.mod_small in Hlen by lia.
    apply must_bind_returns; [apply getFloats_is_Some; lia|]. intros ao.
    destruct readAll; [|apply readCard_identity_returns].
    erewrite bind_Ok by apply clientCall_run.
    destruct (bus _ _ _ (ReadHoldingRegisters 400 _)) as [typeRaw|e] eqn:Hbus2;
      [|apply readCard_identity_returns].
    pose proof (Hsized _ _ _ _ _ _ (or_intror Hbus2)) as Hlen2.
    unfold uint16 in Hlen2. rewrite Z.mod_small in Hlen2 by lia.
    apply must_bind_returns; [apply getAOTypes_is_Some; lia|]. intros types.
    apply readCard_identity_returns.
  - apply readCard_identity_returns.
Qed.

Lemma readCard_AI_returns pc spec readAll state w :
  registerRepliesSized -> 0 <= ModelSpec.AI spec <= 8 -> 0 <= ModelSpec.AO spec <= 8 ->
  readCard_AI pc spec readAll state w <> Panic.
Proof.
  intros Hsized Hb Hb'. unfold readCard_AI. destruct (0 <? ModelSpec.AI spec).
  - erewrite bind_Ok by apply clientCall_run.
    destruct (bus _ _ _ _) as [raw|e] eqn:Hbus; [|discriminate].
    pose proof (Hsized _ _ _ _ _ _ (or_introl Hbus)) as Hlen.
    unfold uint16 in Hlen. rewrite Z.mod_small in Hlen by lia.
    apply must_bind_returns; [apply getFloats_is_Some; lia|]. intros ai.
    apply readCard_AO_returns; assumption.
  - apply readCard_AO_returns; assumption.
Qed.

Lemma readCard_returns pc slave module readAll w :
  registerRepliesSized ->
  readCard pc slave (specOf module) readAll w <> Panic.
Proof.
  intros Hsized. pose proof (specOf_bounds module) as (_ & _ & HAI & HAO).
  cbv zeta in HAI, HAO.
  assert (HDO : forall state w', readCard_DO pc (specOf module) readAll state w' <> Panic).
  { intros state w'. unfold readCard_DO. destruct (0 <? _).
    - erewrite bind_Ok by apply clientCall_run.
      destruct (bus _ _ _ _) as [raw|e]; [|discriminate].
      apply readCard_AI_returns; (assumption || lia).
    - apply readCard_AI_returns; (assumption || lia). }
  unfold readCard. erewrite bind_Ok by apply setSlaveID_run.
  erewrite bind_Ok by reflexivity. destruct (0 <? _).
  - erewrite bind_Ok by apply clientCall_run.
    destruct (bus _ _ _ _) as [raw|e]; [apply HDO|discriminate].
  - apply HDO.
Qed.

(** ** Registration *)

Lemma updateCard_run id f w : updateCard id f w = Ok tt (withCard id f w).
Proof. reflexivity. Qed.

Lemma withCard_lookup id f w c :
  Manager.cards (World.mgr w) !! id = Some c ->
  Manager.cards (World.mgr (withCard id f w)) !! id = Some (f c).
Proof. intros H. unfold withCard. simpl. rewrite lookup_alter_eq, H. reflexivity. Qed.

Lemma withCard_ports id f w :
  Manager.ports (World.mgr (withCard id f w)) = Manager.ports (World.mgr w).
Proof. reflexivity. Qed.

Lemma withCard_id id f w c :
  Manager.cards (World.mgr w) !! id = Some c -> f c = c -> withCard id f w = w.
Proof.
  intros Hc Hf. destruct w as [m tr]. destruct m. unfold withCard. simpl in *.
  f_equal. unfold Manager.set_cards. simpl. f_equal.
  apply alter_id. intros x Hx. congruence.
Qed.

Lemma AddCard_unfold portPath slave module :
  AddCard portPath slave module =
  (r ← ensurePort portPath;
   match r with
   | inr err => mret (inr err)
   | inl pc =>
       detected ← resolveModule pc slave module;
       match detected with
       | inr err => mret (inr err)
       | inl module =>
           match ModelTable !! module with
           | None => mret (inr ("unknown module " +:+ module))
           | Some spec =>
               m ← getMgr;
               let c := newCard portPath slave spec m in
               modifyMgr (fun m =>
                 Manager.set_cards (<[Card.ID c := c]> (Manager.cards m))
                   (Manager.set_nextID (Manager.nextID m + 1) m));;
               '(state, err) ← readCard pc slave spec true;
               match err with
               | None =>
                   updateCard (Card.ID c) (Card.set_Last state);;
                   mret (inl (Card.set_Last state c))
               | Some _ => mret (inl c)
               end
           end
       end
   end).
Proof. reflexivity. Qed.

Lemma resolveModule_given pc slave module w :
  module <> "" -> resolveModule pc slave module w = Ok (inl module) w.
Proof. intros H. unfold resolveModule. rewrite decide_False by exact H. reflexivity. Qed.

Lemma AddCard_run portPath slave module pc module' spec st err w w1 w2 w3 :
  ensurePort portPath w = Ok (inl pc) w1 ->
  resolveModule pc slave module w1 = Ok (inl module') w2 ->
  ModelTable !! module' = Some spec ->
  readCard pc slave spec true (registerCard portPath slave spec w2) = Ok (st, err) w3 ->
  let c0 := newCard portPath slave spec (World.mgr w2) in
  let c := match err with None => Card.set_Last st c0 | Some _ => c0 end in
  let w4 := match err with None => withCard (Card.ID c0) (Card.set_Last st) w3 | Some _ => w3 end in
  AddCard portPath slave module w = Ok (inl c) w4 /\
  Manager.cards (World.mgr w4) !! Card.ID c = Some c.
Proof.
  intros Hport Hres Hspec Hread c0 c w4.
  assert (Hc3 : Manager.cards (World.mgr w3) !! Card.ID c0 = Some c0).
  { pose proof (readCard_outcome pc slave spec true (registerCard portPath slave spec w2)) as Ho.
    rewrite Hread in Ho. destruct Ho as ((Hcards & _) & _). rewrite Hcards.
    unfold registerCard. simpl. apply lookup_insert_eq. }
  split.
  - rewrite AddCard_unfold. erewrite bind_Ok by exact Hport. cbv beta iota.
    erewrite bind_Ok by exact Hres. cbv beta iota. rewrite Hspec.
    erewrite bind_Ok by reflexivity. cbv zeta. erewrite bind_Ok by reflexivity.
    change (World.mk _ _) with (registerCard portPath slave spec w2).
    erewrite bind_Ok by exact Hread. subst c w4. destruct err; reflexivity.
  - subst c w4. destruct err.
    + exact Hc3.
    + apply (withCard_lookup _ _ _ _ Hc3).
Qed.

(** C10.  Once the port is obtained and the module is resolved, [AddCard]
    returns the new card with a nil error whatever the initial full read
    returns, and the card is in the registry under its ID.  When that read
    fails, the card's last state is the zero value: no values and no error
    text. *)
Theorem C10_AddCard_succeeds_when_read_fails (portPath : string) (slave : Z)
    (module pc module' : string) (spec : ModelSpec.t) (st : CardState.t)
    (err : option string) (w w1 w2 w3 : World.t) :
  ensurePort portPath w = Ok (inl pc) w1 ->
  resolveModule pc slave module w1 = Ok (inl module') w2 ->
  ModelTable !! module' = Some spec ->
  readCard pc slave spec true (registerCard portPath slave spec w2) = Ok (st, err) w3 ->
  exists c w4,
    AddCard portPath slave module w = Ok (inl c) w4 /\
    Manager.cards (World.mgr w4) !! Card.ID c = Some c /\
    Card.ID c = Itoa (Manager.nextID (World.mgr w2)) /\
    Card.PortPath c = portPath /\ Card.SlaveID c = slave /\
    Card.Module_ c = ModelSpec.Name spec /\
    (err <> None -> Card.Last c = CardState.zero /\ CardState.Error (Card.Last c) = "" /\ w4 = w3) /\
    (err = None -> Card.Last c = st).
Proof.
  intros Hport Hres Hspec Hread.
  destruct (AddCard_run _ _ _ _ _ _ _ _ _ _ _ _ Hport Hres Hspec Hread) as [Hrun Hreg].
  eexists _, _. split; [exact Hrun|]. split; [exact Hreg|].
  destruct err as [e|]; simpl; repeat split; try reflexivity; try congruence.
Qed.

(** ** Reboot and the read cycle *)

Lemma RebootCard_run cardID c w :
  Manager.cards (World.mgr w) !! cardID = Some c ->
  exists r w',
    RebootCard cardID w = Ok r w' /\
    Manager.cards (World.mgr w') !! cardID = Some (Card.set_needsFullRead true c) /\
    (is_Some (Manager.ports (World.mgr w) !! Card.PortPath c) ->
     exists rp,
       World.trace w'
       = World.trace w ++ [EvFrame (Card.PortPath c) (Card.SlaveID c)
                             (WriteSingleRegister 16 65280) rp] /\
       r = replyErr rp).
Proof.
  intros Hc. unfold RebootCard. erewrite bind_Ok by reflexivity. rewrite Hc.
  erewrite bind_Ok by apply updateCard_run.
  set (w0 := withCard cardID (Card.set_needsFullRead true) w).
  assert (Hc0 : Manager.cards (World.mgr w0) !! cardID = Some (Card.set_needsFullRead true c))
    by (apply withCard_lookup; exact Hc).
  destruct (ensurePort_cases (Card.PortPath c) w0)
    as [[Hport Hrun] | [[Hclosed (w1 & Hrun & Ht1 & Hr1 & Hport1)] | [Hclosed (e & Hrun)]]].
  - erewrite bind_Ok by exact Hrun. cbv beta iota. rewrite reboot_run. cbv zeta.
    eexists _, _. split; [reflexivity|]. split; [exact Hc0|]. intros _.
    exists (frameReply w0 (Card.PortPath c) (Card.SlaveID c) (WriteSingleRegister 16 65280)).
    split; [|reflexivity]. unfold afterFrame, frameEvent, frameReply. cbn [World.trace].
    rewrite handlerSlave_withSlave by exact Hport. reflexivity.
  - erewrite bind_Ok by exact Hrun. cbv beta iota. rewrite reboot_run. cbv zeta.
    eexists _, _. split; [reflexivity|]. split.
    + simpl. destruct Hr1 as (Hcards & _). rewrite Hcards. exact Hc0.
    + intros [p Hp]. change (Manager.ports (World.mgr w) !! Card.PortPath c = None) in Hclosed.
      congruence.
  - erewrite bind_Ok by exact Hrun. cbv beta iota.
    eexists _, _. split; [reflexivity|]. split; [exact Hc0|].
    intros [p Hp]. change (Manager.ports (World.mgr w) !! Card.PortPath c = None) in Hclosed.
      congruence.
Qed.

Lemma ProcessWriteQueue_run w :
  exists w' tr,
    ProcessWriteQueue w = Ok tt w' /\
    World.trace w' = World.trace w ++ tr /\
    Manager.cards (World.mgr w') = Manager.cards (World.mgr w) /\
    Manager.writeQueue (World.mgr w') = [].
Proof.
  unfold ProcessWriteQueue. erewrite bind_Ok by reflexivity.
  erewrite bind_Ok by reflexivity.
  set (w0 := World.mk (Manager.set_writeQueue [] (World.mgr w)) (World.trace w)).
  destruct (length (Manager.writeQueue (World.mgr w)) =? 0)%nat.
  - exists w0, []. split; [reflexivity|]. split; [symmetry; apply app_nil_r|].
    split; reflexivity.
  - destruct (ProcessBatchWrite_run (Manager.writeQueue (World.mgr w)) w0)
      as (rs & trs & Hrun & _ & Htr & _ & Hreg & _).
    erewrite bind_Ok by exact Hrun. eexists _, (concat trs).
    split; [reflexivity|]. split; [exact Htr|].
    destruct Hreg as (Hcards & _ & Hq & _). split; [exact Hcards|exact Hq].
Qed.

Lemma cycleCard_run h id c st err w w1 :
  Manager.cards (World.mgr w) !! id = Some c ->
  is_Some (Manager.ports (World.mgr w) !! Card.PortPath c) ->
  readCard (Card.PortPath c) (Card.SlaveID c) (specOf (Card.Module_ c)) (Card.needsFullRead c)
           (withCard id (Card.set_needsFullRead false) w) = Ok (st, err) w1 ->
  exists h' w' tr,
    cycleCard h id w = Ok h' w' /\
    World.trace w' = World.trace w1 ++ tr /\
    Manager.cards (World.mgr w') !! id
    = Some (Card.set_Last (cycleLast c st err) (Card.set_needsFullRead false c)).
Proof.
  intros Hc Hport Hread. destruct Hport as [p Hp].
  unfold cycleCard. erewrite bind_Ok by reflexivity. rewrite Hc, Hp.
  set (w0 := withCard id (Card.set_needsFullRead false) w) in *.
  assert (Hpre : (if Card.needsFullRead c
                  then updateCard id (Card.set_needsFullRead false)
                  else mret tt) w = Ok tt w0).
  { destruct (Card.needsFullRead c) eqn:Hflag; [reflexivity|].
    unfold w0. rewrite (withCard_id id _ w c Hc); [reflexivity|].
    destruct c; simpl in *; subst; reflexivity. }
  erewrite bind_Ok by exact Hpre. erewrite bind_Ok by exact Hread. cbv beta iota.
  assert (Hc1 : Manager.cards (World.mgr w1) !! id = Some (Card.set_needsFullRead false c)).
  { pose proof (readCard_outcome (Card.PortPath c) (Card.SlaveID c) (specOf (Card.Module_ c))
                  (Card.needsFullRead c) w0) as Ho.
    rewrite Hread in Ho. destruct Ho as ((Hcards & _) & _). rewrite Hcards.
    apply withCard_lookup, Hc. }
  erewrite bind_Ok by apply updateCard_run.
  match goal with |- context [withCard id ?f w1] => set (w2 := withCard id f w1) end.
  assert (Hc2 : Manager.cards (World.mgr w2) !! id
                = Some (Card.set_Last (cycleLast c st err) (Card.set_needsFullRead false c))).
  { unfold w2. rewrite (withCard_lookup _ _ _ _ Hc1). unfold cycleLast.
    destruct err; reflexivity. }
  erewrite bind_Ok by reflexivity. cbv zeta.
  destruct (ProcessWriteQueue_run w2) as (w3 & tr & Hq & Htr & Hcards & _).
  erewrite bind_Ok by exact Hq. eexists _, w3, tr. split; [reflexivity|].
  split; [exact Htr|]. rewrite Hcards. exact Hc2.
Qed.

(** ** What a read leaves in the state *)

Lemma readSerialNumber_value pc w :
  let s := handlerSlave (World.mgr w) pc in
  let rp := bus (World.trace w) pc s (ReadHoldingRegisters 112 10) in
  readSerialNumber pc w
  = Ok (serialOf rp)
       (World.mk (World.mgr w)
          (World.trace w ++ [EvFrame pc s (ReadHoldingRegisters 112 10) rp])).
Proof using Type.
  clear dial now rangeMap rangeMap_perm.
  cbv zeta. unfold readSerialNumber, serialOf. erewrite bind_Ok by apply clientCall_run.
  destruct (bus _ _ _ _) as [snRaw|e]; [|reflexivity].
  destruct (_ <? 20); reflexivity.
Qed.

Lemma readBaudRate_value pc w :
  let s := handlerSlave (World.mgr w) pc in
  let rp := bus (World.trace w) pc s (ReadHoldingRegisters 32 2) in
  readBaudRate pc w
  = Ok (baudOf rp)
       (World.mk (World.mgr w)
          (World.trace w ++ [EvFrame pc s (ReadHoldingRegisters 32 2) rp])).
Proof using Type.
  clear dial now rangeMap rangeMap_perm.
  cbv zeta. unfold readBaudRate, baudOf. erewrite bind_Ok by apply clientCall_run.
  destruct (bus _ _ _ _) as [raw|e]; [|reflexivity].
  destruct (_ <? 4); reflexivity.
Qed.

Lemma readDetail_after pc ao readAll w f r :
  readDetail pc ao readAll (World.mk (World.mgr w) (World.trace w ++ [f])) r ->
  readDetail pc ao readAll w r.
Proof using Type.
  clear bus dial now rangeMap rangeMap_perm.
  destruct r as [[st err] w'|]; [|auto]. cbn [readDetail World.mgr World.trace].
  intros (Hm & tr & Ht & H). split; [exact Hm|]. exists (f :: tr).
  split; [rewrite Ht, <- app_assoc; reflexivity|]. destruct err as [e|].
  - destruct H as (tr0 & rq & kind & -> & Hk & He). exists (f :: tr0), rq, kind. auto.
  - intros Hr. destruct (H Hr) as (tr0 & rs & rb & -> & Hs & Hb & Hao).
    exists (f :: tr0), rs, rb. split; [reflexivity|]. split; [exact Hs|]. split; [exact Hb|].
    intros Hpos. destruct (Hao Hpos) as (tr1 & rt & -> & Ht'). exists (f :: tr1), rt. auto.
Qed.

Lemma readDetail_fail pc ao readAll w rq kind e state :
  readKind rq = Some kind ->
  readDetail pc ao readAll w
    (Ok (CardState.set_Error (kind +:+ " read error: " +:+ e) state, Some e)
        (World.mk (World.mgr w)
           (World.trace w ++ [EvFrame pc (handlerSlave (World.mgr w) pc) rq (inr e)]))).
Proof using Type.
  clear bus dial now rangeMap rangeMap_perm.
  intros Hk. split; [reflexivity|]. eexists. split; [reflexivity|].
  exists [], rq, kind. auto.
Qed.


Lemma readCard_identity_detail pc readAll state w :
  exists st w' tr,
    readCard_identity pc readAll state w = Ok (st, None) w' /\
    World.mgr w' = World.mgr w /\ World.trace w' = World.trace w ++ tr /\
    (readAll = true ->
     exists rpSn rpBaud,
       tr = [EvFrame pc (handlerSlave (World.mgr w) pc) (ReadHoldingRegisters 112 10) rpSn;
             EvFrame pc (handlerSlave (World.mgr w) pc) (ReadHoldingRegisters 32 2) rpBaud] /\
       CardState.SerialNumber st = serialOf rpSn /\
       CardState.BaudRate st = baudOf rpBaud /\
       CardState.AOType st = CardState.AOType state).
Proof using Type.
  clear dial now rangeMap rangeMap_perm.
  unfold readCard_identity. destruct readAll.
  - erewrite bind_Ok by apply readSerialNumber_value. cbv zeta.
    erewrite bind_Ok by apply readBaudRate_value. cbv zeta.
    cbn [World.mgr World.trace]. eexists _, _, _. split; [reflexivity|].
    split; [reflexivity|]. split; [rewrite <- app_assoc; reflexivity|].
    intros _. eexists _, _. split; [reflexivity|]. auto.
  - exists state, w, []. split; [reflexivity|]. split; [reflexivity|].
    split; [symmetry; apply app_nil_r|]. discriminate.
Qed.

(** The tail alone, for a card without analog outputs or a fast read. *)
Lemma readCard_identity_plain pc ao readAll state w :
  ~ 0 < ao ->
  readDetail pc ao readAll w (readCard_identity pc readAll state w).
Proof using Type.
  clear dial now rangeMap rangeMap_perm.
  intros Hao.
  destruct (readCard_identity_detail pc readAll state w) as (st & w' & tr & Hrun & Hm & Ht & Htail).
  rewrite Hrun. split; [exact Hm|]. exists tr. split; [exact Ht|].
  intros Hr. destruct (Htail Hr) as (rs & rb & -> & Hs & Hb & _).
  exists [], rs, rb. split; [reflexivity|]. split; [exact Hs|]. split; [exact Hb|].
  intros Hpos. contradiction.
Qed.

Lemma readCard_AO_detail pc spec readAll state w :
  CardState.AOType state = [] ->
  readDetail pc (ModelSpec.AO spec) readAll w (readCard_AO pc spec readAll state w).
Proof using Type.
  clear dial now rangeMap rangeMap_perm.
  intros Hty. unfold readCard_AO. destruct (0 <? ModelSpec.AO spec) eqn:E.
  2:{ apply readCard_identity_plain. apply Z.ltb_ge in E. lia. }
  erewrite bind_Ok by apply clientCall_run.
  destruct (bus _ _ _ _) as [raw|e] eqn:Hbus.
  2:{ apply (readDetail_fail pc _ readAll w _ "AO" e state). reflexivity. }
  apply must_bind_outcome; [exact I|]. intros ao _.
  destruct readAll.
  2:{ match goal with |- context [readCard_identity pc false ?s ?w2] =>
        destruct (readCard_identity_detail pc false s w2)
          as (st & w' & tr & Hrun & Hm & Ht & _) end.
      rewrite Hrun. split; [exact Hm|]. eexists. split; [rewrite Ht; cbn [World.trace];
        rewrite <- app_assoc; reflexivity|]. discriminate. }
  erewrite bind_Ok by apply clientCall_run. cbn [World.mgr World.trace].
  destruct (bus _ _ _ (ReadHoldingRegisters 400 _)) as [typeRaw|e2] eqn:Hbus2.
  - apply must_bind_outcome; [exact I|]. intros types Htypes.
    match goal with |- context [readCard_identity pc true ?s ?w2] =>
      destruct (readCard_identity_detail pc true s w2)
        as (st & w' & tr & Hrun & Hm & Ht & Htail) end.
    rewrite Hrun. split; [exact Hm|]. cbn [World.mgr World.trace] in Ht, Htail.
    eexists. split; [rewrite Ht, <- !app_assoc; reflexivity|].
    intros _. destruct (Htail eq_refl) as (rs & rb & -> & Hs & Hb & Hat).
    eexists [_; _], rs, rb. split; [reflexivity|]. split; [exact Hs|]. split; [exact Hb|].
    intros _. eexists [_], _. split; [reflexivity|].
    rewrite Hat. cbn [CardState.AOType CardState.set_AOType aoTypesOf]. rewrite Htypes.
    reflexivity.
  - match goal with |- context [readCard_identity pc true ?s ?w2] =>
      destruct (readCard_identity_detail pc true s w2)
        as (st & w' & tr & Hrun & Hm & Ht & Htail) end.
    rewrite Hrun. split; [exact Hm|]. cbn [World.mgr World.trace] in Ht, Htail.
    eexists. split; [rewrite Ht, <- !app_assoc; reflexivity|].
    intros _. destruct (Htail eq_refl) as (rs & rb & -> & Hs & Hb & Hat).
    eexists [_; _], rs, rb. split; [reflexivity|]. split; [exact Hs|]. split; [exact Hb|].
    intros _. eexists [_], _. split; [reflexivity|].
    rewrite Hat. cbn [CardState.AOType CardState.set_AO aoTypesOf]. exact Hty.
Qed.

Lemma readCard_AI_detail pc spec readAll state w :
  CardState.AOType state = [] ->
  readDetail pc (ModelSpec.AO spec) readAll w (readCard_AI pc spec readAll state w).
Proof using Type.
  clear dial now rangeMap rangeMap_perm.
  intros Hty. unfold readCard_AI. destruct (0 <? ModelSpec.AI spec).
  2:{ apply readCard_AO_detail, Hty. }
  erewrite bind_Ok by apply clientCall_run.
  destruct (bus _ _ _ _) as [raw|e] eqn:Hbus.
  2:{ apply (readDetail_fail pc _ readAll w _ "AI" e state). reflexivity. }
  apply must_bind_outcome; [exact I|]. intros ai _.
  eapply readDetail_after. apply readCard_AO_detail. exact Hty.
Qed.

Lemma readCard_DO_detail pc spec readAll state w :
  CardState.AOType state = [] ->
  readDetail pc (ModelSpec.AO spec) readAll w (readCard_DO pc spec readAll state w).
Proof using Type.
  clear dial now rangeMap rangeMap_perm.
  intros Hty. unfold readCard_DO. destruct (0 <? ModelSpec.DO spec).
  2:{ apply readCard_AI_detail, Hty. }
  erewrite bind_Ok by apply clientCall_run.
  destruct (bus _ _ _ _) as [raw|e] eqn:Hbus.
  2:{ apply (readDetail_fail pc _ readAll w _ "DO" e state). reflexivity. }
  eapply readDetail_after. apply readCard_AI_detail. exact Hty.
Qed.

(** [readCard], from the world in which the slave id is set. *)
Lemma readCard_detail pc slave spec readAll w :
  readDetail pc (ModelSpec.AO spec) readAll
    (World.mk (withSlave pc slave (World.mgr w)) (World.trace w))
    (readCard pc slave spec readAll w).
Proof using Type.
  clear dial rangeMap rangeMap_perm.
  unfold readCard. erewrite bind_Ok by apply setSlaveID_run.
  erewrite bind_Ok by reflexivity. cbn [World.trace].
  set (w0 := World.mk (withSlave pc slave (World.mgr w)) (World.trace w)).
  destruct (0 <? ModelSpec.DI spec).
  2:{ apply readCard_DO_detail. reflexivity. }
  erewrite bind_Ok by apply clientCall_run.
  destruct (bus _ _ _ _) as [raw|e] eqn:Hbus.
  2:{ apply (readDetail_fail pc _ readAll w0 _ "DI" e). reflexivity. }
  eapply readDetail_after. apply readCard_DO_detail. reflexivity.
Qed.
(** C6, as amended.  With a bus that answers register reads in full,
    [readCard] returns.  When it returns an error, that error is the reply
    of one of the DI, DO, AI, AO sub-reads; that sub-read is the last
    transaction of the call (the call stops there) and every transaction
    before it succeeded, so it is the first error; the state returned with
    it carries the text "<DI|DO|AI|AO> read error: <error>".  When it
    returns no error, none of those four sub-reads failed and the state
    carries no error text; in a full read the call then ends with the
    serial-number and the baud-rate reads, after the AO-type read when the
    card has analog outputs, whatever these three reads reply, and each of
    the three fields is what its reply gives: nothing when the read failed.
    The state of an aborted read is not stored by the callers: [AddCard]
    leaves the last state of the new card zero, and the read cycle assigns
    only the error of the last state. *)
Theorem C6_readCard_primary_failure_aborts :
  registerRepliesSized ->
  (forall pc slave module readAll w,
     let spec := specOf module in
     exists st err w' tr,
       readCard pc slave spec readAll w = Ok (st, err) w' /\
       World.trace w' = World.trace w ++ tr /\
       match err with
       | Some e =>
           exists tr0 p s rq kind,
             tr = tr0 ++ [EvFrame p s rq (inr e)] /\ isPrimaryRead rq = true /\
             Forall (fun ev => evError ev = None) tr0 /\
             readKind rq = Some kind /\
             CardState.Error st = kind +:+ " read error: " +:+ e
       | None =>
           Forall (fun ev => evFailedPrimary ev = false) tr /\
           CardState.Error st = "" /\
           (readAll = true -> exists s, identityTail pc s (ModelSpec.AO spec) st tr)
       end) /\
  (forall portPath slave module pc module' spec st e w w1 w2 w3,
     ensurePort portPath w = Ok (inl pc) w1 ->
     resolveModule pc slave module w1 = Ok (inl module') w2 ->
     ModelTable !! module' = Some spec ->
     readCard pc slave spec true (registerCard portPath slave spec w2) = Ok (st, Some e) w3 ->
     exists c,
       AddCard portPath slave module w = Ok (inl c) w3 /\
       Manager.cards (World.mgr w3) !! Card.ID c = Some c /\
       Card.Last c = CardState.zero) /\
  (forall h id c st e w w1,
     Manager.cards (World.mgr w) !! id = Some c ->
     is_Some (Manager.ports (World.mgr w) !! Card.PortPath c) ->
     readCard (Card.PortPath c) (Card.SlaveID c) (specOf (Card.Module_ c))
              (Card.needsFullRead c) (withCard id (Card.set_needsFullRead false) w)
     = Ok (st, Some e) w1 ->
     exists h' w' c',
       cycleCard h id w = Ok h' w' /\
       Manager.cards (World.mgr w') !! id = Some c' /\
       Card.Last c' = CardState.set_Error e (Card.Last c)).
Proof.
  intros Hsized. split; [|split].
  - intros pc slave module readAll w spec.
    pose proof (readCard_outcome pc slave spec readAll w) as Hout.
    pose proof (readCard_detail pc slave spec readAll w) as Hdet.
    pose proof (readCard_returns pc slave module readAll w Hsized) as Hret.
    fold spec in Hret.
    destruct (readCard pc slave spec readAll w) as [[st err] w'|]; [|contradiction].
    destruct Hout as (_ & tr & Htr & Hspec).
    destruct Hdet as (_ & tr' & Htr' & Hspec'). cbn [World.trace World.mgr] in Htr', Hspec'.
    assert (tr' = tr) as -> by (rewrite Htr in Htr'; exact (app_inv_head _ _ _ (eq_sym Htr'))).
    exists st, err, w', tr. split; [reflexivity|]. split; [exact Htr|].
    destruct err as [e|].
    + destruct Hspec as (tr0 & p & s & rq & Heq & Hprim & Hall).
      destruct Hspec' as (tr0' & rq' & kind & Heq' & Hk & He).
      rewrite Heq in Heq'. apply app_inj_tail in Heq' as [_ Hf]. injection Hf as _ _ Hrq.
      subst rq'. exists tr0, p, s, rq, kind. repeat split; assumption.
    + destruct Hspec as [Hnone Herr]. split; [exact Hnone|]. split; [exact Herr|].
      intros Hr. eexists. exact (Hspec' Hr).
  - intros portPath slave module pc module' spec st e w w1 w2 w3 Hport Hres Hspec Hread.
    destruct (AddCard_run _ _ _ _ _ _ _ _ _ _ _ _ Hport Hres Hspec Hread) as [Hrun Hreg].
    eexists. split; [exact Hrun|]. split; [exact Hreg|reflexivity].
  - intros h id c st e w w1 Hc Hport Hread.
    destruct (cycleCard_run h id c st (Some e) w w1 Hc Hport Hread)
      as (h' & w' & tr & Hrun & _ & Hcard).
    eexists h', w', _. split; [exact Hrun|]. split; [exact Hcard|reflexivity].
Qed.

(** C7, as the code has it.  [AddCard] creates the card with the flag
    cleared and performs the full read itself; [RebootCard] sets the flag
    before it touches the port, so the flag is set whatever the bus
    answers; the read cycle reads the card with [readAll] equal to the flag
    and leaves the flag cleared. *)
Theorem C7_needsFullRead_lifecycle :
  registerRepliesSized ->
  (forall portPath slave module pc module' spec st err w w1 w2 w3,
      ensurePort portPath w = Ok (inl pc) w1 ->
      resolveModule pc slave module w1 = Ok (inl module') w2 ->
      ModelTable !! module' = Some spec ->
      readCard pc slave spec true (registerCard portPath slave spec w2) = Ok (st, err) w3 ->
      exists c w4,
        AddCard portPath slave module w = Ok (inl c) w4 /\
        Manager.cards (World.mgr w4) !! Card.ID c = Some c /\
        Card.needsFullRead c = false) /\
  (forall cardID c w,
      Manager.cards (World.mgr w) !! cardID = Some c ->
      exists r w' c',
        RebootCard cardID w = Ok r w' /\
        Manager.cards (World.mgr w') !! cardID = Some c' /\
        Card.needsFullRead c' = true) /\
  (forall h id c w,
      Manager.cards (World.mgr w) !! id = Some c ->
      is_Some (Manager.ports (World.mgr w) !! Card.PortPath c) ->
      exists st err w1 h' w' tr c',
        readCard (Card.PortPath c) (Card.SlaveID c) (specOf (Card.Module_ c))
                 (Card.needsFullRead c)
                 (withCard id (Card.set_needsFullRead false) w) = Ok (st, err) w1 /\
        cycleCard h id w = Ok h' w' /\
        World.trace w' = World.trace w1 ++ tr /\
        Manager.cards (World.mgr w') !! id = Some c' /\
        Card.needsFullRead c' = false).
Proof.
  intros Hsized. split; [|split].
  - intros portPath slave module pc module' spec st err w w1 w2 w3 Hport Hres Hspec Hread.
    destruct (AddCard_run _ _ _ _ _ _ _ _ _ _ _ _ Hport Hres Hspec Hread) as [Hrun Hreg].
    cbv zeta in Hrun, Hreg. eexists _, _. split; [exact Hrun|]. split; [exact Hreg|].
    destruct err; reflexivity.
  - intros cardID c w Hc. destruct (RebootCard_run cardID c w Hc) as (r & w' & Hrun & Hc' & _).
    exists r, w', (Card.set_needsFullRead true c). auto.
  - intros h id c w Hc Hport.
    pose proof (readCard_returns (Card.PortPath c) (Card.SlaveID c) (Card.Module_ c)
                  (Card.needsFullRead c) (withCard id (Card.set_needsFullRead false) w) Hsized)
      as Hret.
    destruct (readCard (Card.PortPath c) (Card.SlaveID c) (specOf (Card.Module_ c))
                (Card.needsFullRead c) (withCard id (Card.set_needsFullRead false) w))
      as [[st err] w1|] eqn:Hread; [|contradiction].
    destruct (cycleCard_run h id c st err w w1 Hc Hport Hread) as (h' & w' & tr & Hrun & Htr & Hc').
    exists st, err, w1, h', w', tr. eexists. repeat split; eauto.
Qed.

(** C8.  In the read cycle a failed read of a card changes nothing of its
    last state but the error text; a read that succeeds stores the state
    it returned, whose error text is empty: as it is after a full read,
    and with the card's serial number and AO types carried over after a
    fast read. *)
Theorem C8_failed_read_keeps_state (h : bool) (id : string) (c : Card.t)
    (st : CardState.t) (err : option string) (w w1 : World.t) :
  Manager.cards (World.mgr w) !! id = Some c ->
  is_Some (Manager.ports (World.mgr w) !! Card.PortPath c) ->
  readCard (Card.PortPath c) (Card.SlaveID c) (specOf (Card.Module_ c)) (Card.needsFullRead c)
           (withCard id (Card.set_needsFullRead false) w) = Ok (st, err) w1 ->
  exists h' w' c',
    cycleCard h id w = Ok h' w' /\
    Manager.cards (World.mgr w') !! id = Some c' /\
    let old := Card.Last c in
    let new := Card.Last c' in
    match err with
    | Some e =>
        CardState.Error new = e /\
        CardState.Timestamp new = CardState.Timestamp old /\
        CardState.DI new = CardState.DI old /\ CardState.DO new = CardState.DO old /\
        CardState.AI new = CardState.AI old /\ CardState.AO new = CardState.AO old /\
        CardState.AOType new = CardState.AOType old /\
        CardState.SerialNumber new = CardState.SerialNumber old /\
        CardState.BaudRate new = CardState.BaudRate old
    | None =>
        CardState.Error new = "" /\
        CardState.Timestamp new = CardState.Timestamp st /\
        CardState.DI new = CardState.DI st /\ CardState.DO new = CardState.DO st /\
        CardState.AI new = CardState.AI st /\ CardState.AO new = CardState.AO st /\
        CardState.BaudRate new = CardState.BaudRate st /\
        new = mergeState (Card.needsFullRead c) old st /\
        (Card.needsFullRead c = true -> new = st)
    end.
Proof.
  intros Hc Hport Hread.
  destruct (cycleCard_run h id c st err w w1 Hc Hport Hread) as (h' & w' & tr & Hrun & _ & Hc').
  eexists h', w', _. split; [exact Hrun|]. split; [exact Hc'|]. cbv zeta.
  destruct err as [e|].
  - simpl. repeat split; reflexivity.
  - pose proof (readCard_outcome (Card.PortPath c) (Card.SlaveID c) (specOf (Card.Module_ c))
                  (Card.needsFullRead c) (withCard id (Card.set_needsFullRead false) w)) as Ho.
    rewrite Hread in Ho. destruct Ho as (_ & tr' & _ & _ & Herr).
    cbn [cycleLast Card.Last Card.set_Last]. unfold mergeState.
    destruct (Card.needsFullRead c); simpl; repeat split; auto; discriminate.
Qed.

(** ** AO type writes *)

Lemma GroupWriteOperations_single op :
  GroupWriteOperations [op]
  = [WriteGroup.mk (writeOperation.CardID op) (writeOperation.Type_ op) [op]].
Proof.
  unfold GroupWriteOperations, groupMap. cbn [fold_left]. unfold groupStep.
  rewrite lookup_empty. cbv zeta. rewrite insert_empty, map_to_list_singleton.
  cbn [map snd]. apply Permutation_singleton_r, rangeMap_perm.
Qed.

Lemma QueueWriteAOType_run cardID index mode c w :
  Manager.cards (World.mgr w) !! cardID = Some c ->
  0 <= index < ModelSpec.AO (specOf (Card.Module_ c)) ->
  QueueWriteAOType cardID index mode w
  = Ok None
       (World.mk (Manager.set_writeQueue
                    (Manager.writeQueue (World.mgr w)
                     ++ [writeOperation.mk cardID writeOpAOType index F32.zero mode])
                    (World.mgr w))
                 (World.trace w)).
Proof.
  intros Hc Hidx. unfold QueueWriteAOType.
  erewrite bind_Ok by (unfold GetCard; erewrite bind_Ok; reflexivity).
  rewrite Hc. cbv zeta.
  replace (index <? 0) with false by (symmetry; apply Z.ltb_ge; lia).
  replace (ModelSpec.AO (specOf (Card.Module_ c)) <=? index) with false
    by (symmetry; apply Z.leb_gt; lia).
  reflexivity.
Qed.

(** C9, as the code has it.  No entry point checks the mode text:
    [QueueWriteAOType] enqueues an operation with any mode for a registered
    card and an index in range, and the flush writes register [0x0190 + index]
    with 1 when the mode is "0-10V" and with 4 for every other text. *)
Theorem C9_any_AO_mode_is_written (cardID : string) (index : Z) (mode : string)
    (c : Card.t) (w : World.t) :
  let m := World.mgr w in
  let op := writeOperation.mk cardID writeOpAOType index F32.zero mode in
  Manager.cards m !! cardID = Some c ->
  is_Some (Manager.ports m !! Card.PortPath c) ->
  0 <= index < ModelSpec.AO (specOf (Card.Module_ c)) ->
  exists w1,
    QueueWriteAOType cardID index mode w = Ok None w1 /\
    Manager.writeQueue (World.mgr w1) = Manager.writeQueue m ++ [op] /\
    World.trace w1 = World.trace w /\
    (Manager.writeQueue m = [] ->
     CardState.AOType (Card.Last c) !! Z.to_nat index <> Some mode ->
     exists w2 rp,
       ProcessWriteQueue w1 = Ok tt w2 /\
       World.trace w2
       = World.trace w
         ++ [EvFrame (Card.PortPath c) (Card.SlaveID c)
               (WriteSingleRegister (400 + index) (if decide (mode = "0-10V") then 1 else 4))
               rp]).
Proof.
  intros m op Hc Hport Hidx. eexists. split; [apply (QueueWriteAOType_run _ _ _ c); assumption|].
  split; [reflexivity|]. split; [reflexivity|]. intros Hq Hcache.
  fold m. rewrite Hq. cbn [app].
  unfold ProcessWriteQueue. erewrite bind_Ok by reflexivity. cbv zeta.
  erewrite bind_Ok by reflexivity. cbn [World.mgr World.trace Manager.writeQueue Manager.set_writeQueue length Nat.eqb].
  fold op.
  set (w0 := World.mk (Manager.set_writeQueue [] (Manager.set_writeQueue [op] m))
                      (World.trace w)).
  assert (Hcards0 : Manager.cards (World.mgr w0) = Manager.cards m) by reflexivity.
  assert (Hports0 : Manager.ports (World.mgr w0) = Manager.ports m) by reflexivity.
  destruct (ProcessBatchWrite_run [op] w0) as (rs & trs & Hrun & _ & Htr & Hf2 & _).
  cbv zeta in Hrun, Htr, Hf2.
  assert (Hpend : pendingOps (World.mgr w0) [op] = [op]).
  { rewrite pendingOps_filter. rewrite filter_cons_True; [reflexivity|].
    apply isPending_needsWrite. exists c. split; [rewrite Hcards0; exact Hc|]. split; [exact Hidx|]. exact Hcache. }
  rewrite Hpend, GroupWriteOperations_single in Hrun, Htr, Hf2.
  erewrite bind_Ok by exact Hrun.
  inversion Hf2 as [|g tr gs trs' Hg Hrest]; subst. inversion Hrest; subst.
  destruct Hg as [_ Hg]. specialize (Hg c). cbn [WriteGroup.CardID] in Hg.
  rewrite Hcards0, Hports0 in Hg. specialize (Hg Hc Hport).
  unfold groupRequests in Hg. cbn in Hg.
  destruct tr as [|ev [|ev' tr]]; try discriminate Hg.
  destruct ev as [| p s rq rp |]; try discriminate Hg. inversion Hg; subst.
  eexists _, rp. split; [reflexivity|]. rewrite Htr. cbn [concat app World.trace w0].
  unfold uint16. rewrite Z.mod_small; [reflexivity|].
  pose proof (specOf_bounds (Card.Module_ c)) as (_ & _ & _ & HAO). cbv zeta in HAO. lia.
Qed.

(** ** Batch writes: the positions of the results *)

Lemma positioned_store rs i r rs' :
  positioned rs -> store rs i (CommandResult.set_Index i r) = Some rs' -> positioned rs'.
Proof.
  intros Hp Hs. apply store_inv in Hs as [Hi ->]. intros k x Hk.
  destruct (decide (k = Z.to_nat i)) as [->|Hne].
  - rewrite list_lookup_insert_eq in Hk by lia. inversion Hk; subst. left. simpl. lia.
  - rewrite list_lookup_insert_ne in Hk by congruence. exact (Hp k x Hk).
Qed.

Lemma validated_positioned m ops :
  positioned (imap (fun i op => validateOp m (Z.of_nat i) op) ops).
Proof.
  intros i r H. rewrite list_lookup_imap in H. destruct (ops !! i) as [op|]; [|discriminate].
  simpl in H. inversion H as [Hr]. unfold validateOp.
  destruct (Manager.cards m !! writeOperation.CardID op); [|left; reflexivity].
  cbv zeta. destruct (_ || _); [left; reflexivity|].
  destruct (negb _); [left|right]; reflexivity.
Qed.

Lemma mapBack_positioned validOps validToOrig g groupResults results rs :
  positioned results ->
  mapBack validOps validToOrig g groupResults results = Some rs -> positioned rs.
Proof.
  unfold mapBack.
  generalize (imap (fun (j : nat) (groupOp : writeOperation.t) => (j, groupOp))
                   (WriteGroup.Operations g)).
  intros l Hp. assert (Hacc : forall r0, Some results = Some r0 -> positioned r0)
    by (intros r0 H; inversion H; subst; exact Hp).
  clear Hp. revert Hacc. generalize (Some results). revert rs.
  induction l as [|[j groupOp] l IH]; intros rs acc Hacc H.
  - simpl in H. apply Hacc, H.
  - cbn [fold_left] in H. apply IH in H; [exact H|].
    intros r1 Hstep. destruct acc as [results0|]; [|discriminate Hstep].
    specialize (Hacc results0 eq_refl). cbn [mbind option_bind] in Hstep.
    destruct (groupResults !! j) as [groupResult|]; [|inversion Hstep; subst; exact Hacc].
    cbv zeta in Hstep. destruct (_ && _); [|inversion Hstep; subst; exact Hacc].
    destruct (load validToOrig _) as [origIdx|]; [|discriminate Hstep].
    cbn [mbind option_bind] in Hstep. exact (positioned_store _ _ _ _ Hacc Hstep).
Qed.

Lemma groups_loop_positioned validOps validToOrig gs :
  forall results w rs w',
  foldM gs results
        (fun results group =>
           groupResults ← processWriteGroup group;
           must (mapBack validOps validToOrig group groupResults results)) w
  = Ok rs w' ->
  positioned results -> positioned rs.
Proof.
  induction gs as [|g gs IH]; intros results w rs w' H Hp.
  - simpl in H. inversion H; subst. exact Hp.
  - cbn [foldM] in H. apply bind_inv in H as (rs1 & w1 & Hbody & Hrest).
    apply bind_inv in Hbody as (grs & w0 & _ & Hmust). unfold must in Hmust.
    destruct (mapBack validOps validToOrig g grs results) as [rs1'|] eqn:Hmb; [|discriminate].
    inversion Hmust; subst. apply (IH _ _ _ _ Hrest). exact (mapBack_positioned _ _ _ _ _ _ Hp Hmb).
Qed.

Lemma ProcessBatchWrite_positioned (ops : list writeOperation.t) (w : World.t) :
  exists rs w',
    ProcessBatchWrite ops w = Ok rs w' /\
    length rs = length ops /\
    positioned rs.
Proof.
  destruct (ProcessBatchWrite_run ops w) as (rs & trs & Hrun & Hlen & _).
  cbv zeta in Hrun. eexists rs, _. split; [exact Hrun|]. split; [exact Hlen|].
  unfold ProcessBatchWrite in Hrun. erewrite bind_Ok in Hrun by reflexivity.
  pose proof (validated_positioned (World.mgr w) ops) as Hp.
  destruct (collectValid 0 ops _) as [validOps validToOrig].
  destruct (length validOps =? 0)%nat.
  - injection Hrun as Hrs _. rewrite <- Hrs. exact Hp.
  - exact (groups_loop_positioned _ _ _ _ _ _ _ Hrun Hp).
Qed.

(** X1.  [ProcessBatchWrite] returns for every batch, with as many results as
    operations, and every result carries its position in the batch as its
    Index or is the zero value (the result of an operation that was not
    mapped back). *)
Theorem ProcessBatchWrite_positions (ops : list writeOperation.t) (w : World.t) :
  exists rs w',
    ProcessBatchWrite ops w = Ok rs w' /\
    length rs = length ops /\
    positioned rs.
Proof. exact (ProcessBatchWrite_positioned ops w). Qed.

(** ** Batch writes: which results are written *)

Lemma writeResult_settled i err : settled (writeResult i err).
Proof. destruct err; discriminate. Qed.

Lemma setResults_prefix_lookup err results (k : nat) :
  (k <= length results)%nat ->
  exists rs,
    fold_left (fun acc i => results ← acc; store results i (writeResult i err))
              (seqZ 0 (Z.of_nat k)) (Some results) = Some rs /\
    length rs = length results /\
    forall i : nat, (i < k)%nat -> rs !! i = Some (writeResult (Z.of_nat i) err).
Proof.
  induction k as [|k IH]; intros Hk.
  - exists results. split; [reflexivity|]. split; [reflexivity|]. intros i Hi. lia.
  - destruct IH as (rs & Hrs & Hlen & Hget); [lia|].
    rewrite seqZ_S, fold_left_app, Hrs. simpl.
    rewrite store_Some by lia. eexists. split; [reflexivity|].
    split; [rewrite length_insert; exact Hlen|]. intros i Hi.
    replace (Z.to_nat (0 + Z.of_nat k)) with k by lia.
    replace (0 + Z.of_nat k) with (Z.of_nat k) by lia.
    destruct (decide (i = k)) as [->|Hne].
    + rewrite list_lookup_insert_eq by lia. reflexivity.
    + rewrite list_lookup_insert_ne by congruence. apply Hget. lia.
Qed.

Lemma setResults_settled n err results rs :
  length results = n -> setResults n err results = Some rs ->
  length rs = n /\ Forall settled rs.
Proof.
  intros Hn Hrs. unfold setResults in Hrs.
  destruct (setResults_prefix_lookup err results n) as (rs' & Hrs' & Hlen & Hget); [lia|].
  rewrite Hrs' in Hrs. inversion Hrs; subst rs'. split; [lia|].
  apply Forall_lookup. intros i r Hi.
  assert (Hlt : (i < n)%nat) by (apply lookup_lt_Some in Hi; lia).
  rewrite (Hget i Hlt) in Hi. inversion Hi. apply writeResult_settled.
Qed.

Lemma processBatchDO_settled pc card ops results w rs w' :
  length results = length ops ->
  processBatchDO pc card ops results w = Ok rs w' ->
  length rs = length ops /\ (ops <> [] -> Forall settled rs).
Proof.
  intros Hlen H. destruct ops as [|op0 rest].
  - inversion H; subst. split; [exact Hlen|]. intros Hne. contradiction.
  - unfold processBatchDO in H. cbv zeta in H.
    apply bind_inv in H as (v1 & w1 & _ & H). apply bind_inv in H as (v2 & w2 & _ & H).
    apply bind_inv in H as (err & w3 & _ & H). unfold must in H.
    destruct (setResults _ err results) as [rs'|] eqn:E; [|discriminate].
    inversion H; subst. destruct (setResults_settled _ _ _ _ Hlen E). auto.
Qed.

Lemma processBatchAO_settled pc card ops results w rs w' :
  length results = length ops ->
  processBatchAO pc card ops results w = Ok rs w' ->
  length rs = length ops /\ (ops <> [] -> Forall settled rs).
Proof.
  intros Hlen H. destruct ops as [|op0 rest].
  - inversion H; subst. split; [exact Hlen|]. intros Hne. contradiction.
  - unfold processBatchAO in H. cbv zeta in H.
    apply bind_inv in H as (v1 & w1 & _ & H). apply bind_inv in H as (v2 & w2 & _ & H).
    apply bind_inv in H as (err & w3 & _ & H). unfold must in H.
    destruct (setResults _ err results) as [rs'|] eqn:E; [|discriminate].
    inversion H; subst. destruct (setResults_settled _ _ _ _ Hlen E). auto.
Qed.

Lemma processBatchAOType_loop_settled pc card ops :
  forall (k : nat) results w rs w',
  foldM (imap (fun i op => (Z.of_nat (k + i), op)) ops) results
        (fun results '(i, op) =>
           err ← writeAOType pc (Card.SlaveID card)
                             (writeOperation.Index op) (writeOperation.Mode op);
           must (store results i (writeResult i err))) w = Ok rs w' ->
  length results = (k + length ops)%nat ->
  (forall (i : nat) r, (i < k)%nat -> results !! i = Some r -> settled r) ->
  length rs = length results /\ Forall settled rs.
Proof.
  induction ops as [|op ops IH]; intros k results w rs w' H Hlen Hpre.
  - simpl in H. inversion H; subst. split; [reflexivity|].
    apply Forall_lookup. intros i r Hi. apply (Hpre i r); [|exact Hi].
    apply lookup_lt_Some in Hi. simpl in Hlen. lia.
  - rewrite imap_cons in H. cbn [foldM] in H. simpl in Hlen.
    apply bind_inv in H as (rs1 & w1 & Hbody & Hrest).
    apply bind_inv in Hbody as (err & w0 & _ & Hst). unfold must in Hst.
    destruct (store results _ _) as [rs1'|] eqn:E; [|discriminate].
    inversion Hst; subst rs1' w1. apply store_inv in E as [Hi ->].
    erewrite (imap_ext _ (fun i op => (Z.of_nat (S k + i), op))) in Hrest.
    2:{ intros i x _. simpl. do 2 f_equal. lia. }
    destruct (IH (S k) _ _ _ _ Hrest) as [Hl Hall].
    + rewrite length_insert. lia.
    + intros i r Hik Hr. replace (Z.to_nat (Z.of_nat (k + 0))) with k in Hr by lia.
      destruct (decide (i = k)) as [->|Hne].
      * rewrite list_lookup_insert_eq in Hr by lia. inversion Hr. apply writeResult_settled.
      * rewrite list_lookup_insert_ne in Hr by congruence. apply (Hpre i r); [lia|exact Hr].
    + split; [rewrite Hl, length_insert; reflexivity|exact Hall].
Qed.

Lemma imap_settled {A} (l : list A) (f : nat -> A -> CommandResult.t) :
  (forall i x, settled (f i x)) -> Forall settled (imap f l).
Proof.
  intros Hf. apply Forall_lookup. intros i r Hi. rewrite list_lookup_imap in Hi.
  destruct (l !! i); [|discriminate]. inversion Hi. apply Hf.
Qed.

(** The results of a group are as many as its operations, and all of
    them are written. *)
Lemma processWriteGroup_settled g w grs w' :
  processWriteGroup g w = Ok grs w' ->
  length grs = length (WriteGroup.Operations g) /\
  (WriteGroup.Operations g <> [] -> Forall settled grs).
Proof.
  rewrite processWriteGroup_unfold. cbv zeta.
  destruct (Manager.cards (World.mgr w) !! WriteGroup.CardID g) as [card|].
  - intros H. apply bind_inv in H as (r & w1 & _ & H). destruct r as [pc|err].
    + assert (Hlen : length (replicate (length (WriteGroup.Operations g)) CommandResult.zero)
                     = length (WriteGroup.Operations g)) by apply length_replicate.
      destruct (WriteGroup.RegisterType g).
      * exact (processBatchDO_settled _ _ _ _ _ _ _ Hlen H).
      * exact (processBatchAO_settled _ _ _ _ _ _ _ Hlen H).
      * unfold processBatchAOType in H.
        destruct (processBatchAOType_loop_settled pc card (WriteGroup.Operations g) 0 _ _ _ _ H)
          as [Hl Hall]; [rewrite Hlen; reflexivity|intros i r Hi; lia|].
        split; [rewrite Hl; exact Hlen|intros _; exact Hall].
    + inversion H; subst. split; [apply length_imap|]. intros _. apply imap_settled.
      intros i x. discriminate.
  - intros H. inversion H; subst. split; [apply length_imap|]. intros _. apply imap_settled.
    intros i x. discriminate.
Qed.

Lemma sameTarget_refl op : sameTarget op op = true.
Proof.
  unfold sameTarget. rewrite !bool_decide_eq_true_2 by reflexivity.
  rewrite Z.eqb_refl. reflexivity.
Qed.

(** Where no two valid operations have the same target, the search finds
    the operation itself. *)
Lemma findValid_unique validOps op :
  forall (k : nat) k0,
  validOps !! k = Some op ->
  (forall (k1 k2 : nat) a b,
      validOps !! k1 = Some a -> validOps !! k2 = Some b -> sameTarget a b = true -> k1 = k2) ->
  findValid k0 validOps op = k0 + Z.of_nat k.
Proof.
  induction validOps as [|a rest IH]; intros k k0 Hk Hd; [discriminate|].
  cbn [findValid]. destruct k as [|k].
  - simpl in Hk. inversion Hk; subst. rewrite sameTarget_refl. lia.
  - simpl in Hk. destruct (sameTarget a op) eqn:E.
    + specialize (Hd 0%nat (S k) a op eq_refl Hk E). discriminate.
    + rewrite (IH k (k0 + 1) Hk); [lia|].
      intros k1 k2 a' b' H1 H2 Hs. specialize (Hd (S k1) (S k2) a' b' H1 H2 Hs). lia.
Qed.

Lemma collectValid_lookup ops :
  forall k0 results (i : nat) op r,
  ops !! i = Some op -> results !! i = Some r -> CommandResult.Status r = "" ->
  exists k : nat,
    (collectValid k0 ops results).1 !! k = Some op /\
    (collectValid k0 ops results).2 !! k = Some (k0 + Z.of_nat i).
Proof.
  induction ops as [|op0 ops IH]; intros k0 results i op r Hop Hr Hs; [discriminate|].
  destruct results as [|r0 results]; [discriminate|]. cbn [collectValid].
  destruct i as [|i].
  - simpl in Hop, Hr. inversion Hop; inversion Hr; subst.
    destruct (collectValid (k0 + 1) ops results) as [vo vt].
    rewrite decide_True by exact Hs. exists 0%nat. simpl. split; [reflexivity|].
    f_equal. lia.
  - simpl in Hop, Hr. destruct (IH (k0 + 1) results i op r Hop Hr Hs) as (k & H1 & H2).
    destruct (collectValid (k0 + 1) ops results) as [vo vt]. simpl in H1, H2.
    replace (k0 + 1 + Z.of_nat i) with (k0 + Z.of_nat (S i)) in H2 by lia.
    destruct (decide (CommandResult.Status r0 = "")).
    + exists (S k). split; assumption.
    + exists k. split; assumption.
Qed.

Lemma collectValid_origin ops :
  forall k0 results (k : nat) op,
  (collectValid k0 ops results).1 !! k = Some op ->
  exists i : nat,
    (collectValid k0 ops results).2 !! k = Some (k0 + Z.of_nat i) /\
    ops !! i = Some op /\
    exists r, results !! i = Some r /\ CommandResult.Status r = "".
Proof.
  induction ops as [|op0 ops IH]; intros k0 results k op H; [discriminate|].
  destruct results as [|r0 results]; [discriminate|]. cbn [collectValid] in *.
  specialize (IH (k0 + 1) results).
  destruct (collectValid (k0 + 1) ops results) as [vo vt]. simpl in IH.
  assert (Hrest : forall k', vo !! k' = Some op ->
            exists i : nat, vt !! k' = Some (k0 + Z.of_nat i) /\
              (op0 :: ops) !! i = Some op /\
              exists r, (r0 :: results) !! i = Some r /\ CommandResult.Status r = "").
  { intros k' Hk'. destruct (IH k' op Hk') as (i & H1 & H2 & H3). exists (S i).
    split; [rewrite H1; f_equal; lia|]. split; assumption. }
  destruct (decide (CommandResult.Status r0 = "")) as [Hs|Hs]; simpl in *.
  - destruct k as [|k].
    + inversion H; subst. exists 0%nat. split; [simpl; f_equal; lia|]. split; [reflexivity|].
      exists r0. split; [reflexivity|exact Hs].
    + apply Hrest, H.
  - apply Hrest, H.
Qed.

Lemma collectValid_increasing ops :
  forall k0 results,
  NoDup (collectValid k0 ops results).2 /\
  Forall (fun i => k0 <= i) (collectValid k0 ops results).2.
Proof.
  induction ops as [|op0 ops IH]; intros k0 results; [split; constructor|].
  destruct results as [|r0 results]; [split; constructor|]. cbn [collectValid].
  destruct (IH (k0 + 1) results) as [Hnd Hge].
  destruct (collectValid (k0 + 1) ops results) as [vo vt]. simpl in Hnd, Hge.
  assert (Hge' : Forall (fun i => k0 <= i) vt)
    by (eapply Forall_impl; [exact Hge|]; simpl; intros; lia).
  destruct (decide (CommandResult.Status r0 = "")); simpl; [|split; assumption].
  split; [|constructor; [lia|exact Hge']]. constructor; [|exact Hnd].
  intros Hin. rewrite Forall_forall in Hge. specialize (Hge _ Hin). lia.
Qed.

Lemma mapBack_fold validOps validToOrig g groupResults results :
  mapBack validOps validToOrig g groupResults results
  = fold_left (mapBackStep validOps validToOrig groupResults)
              (imap (fun j groupOp => (j, groupOp)) (WriteGroup.Operations g)) (Some results).
Proof. reflexivity. Qed.

Lemma mapBackStep_None validOps validToOrig groupResults l :
  fold_left (mapBackStep validOps validToOrig groupResults) l None = None.
Proof. induction l as [|[j op] l IH]; [reflexivity|exact IH]. Qed.

Lemma settledAt_store rs i r rs' :
  store rs i r = Some rs' -> settled r ->
  settledAt rs' i /\ forall j, settledAt rs j -> settledAt rs' j.
Proof.
  intros Hs Hr. apply store_inv in Hs as [Hi ->]. unfold settledAt, load. split.
  - exists r. replace (0 <=? i) with true by (symmetry; apply Z.leb_le; lia).
    rewrite list_lookup_insert_eq by lia. auto.
  - intros j (x & Hx & Hsx). destruct (0 <=? j) eqn:Ej; [|discriminate].
    destruct (decide (Z.to_nat j = Z.to_nat i)) as [Heq|Hne].
    + exists r. rewrite Heq, list_lookup_insert_eq by lia. auto.
    + exists x. rewrite list_lookup_insert_ne by congruence. auto.
Qed.

Lemma mapBackSteps_settle validOps validToOrig groupResults l :
  forall results rs,
  fold_left (mapBackStep validOps validToOrig groupResults) l (Some results) = Some rs ->
  (forall (j : nat) op, (j, op) ∈ l ->
     exists gr, groupResults !! j = Some gr /\ settled gr) ->
  (forall i, settledAt results i -> settledAt rs i) /\
  (forall (j : nat) op (k : nat) i, (j, op) ∈ l ->
     findValid 0 validOps op = Z.of_nat k -> validToOrig !! k = Some i -> settledAt rs i).
Proof.
  induction l as [|[j op] l IH]; intros results rs H Hgr.
  - simpl in H. inversion H; subst. split; [auto|]. intros j op k i Hin. inversion Hin.
  - cbn [fold_left] in H.
    destruct (Hgr j op ltac:(left)) as (gr & Hj & Hsgr).
    assert (Hgr' : forall (j' : nat) op', (j', op') ∈ l ->
              exists gr', groupResults !! j' = Some gr' /\ settled gr')
      by (intros j' op' Hin; apply (Hgr j' op'); right; exact Hin).
    unfold mapBackStep at 2 in H. cbn [mbind option_bind] in H. rewrite Hj in H.
    cbv zeta in H.
    destruct ((0 <=? findValid 0 validOps op)
              && (findValid 0 validOps op <? Z.of_nat (length validToOrig))) eqn:E.
    + apply andb_true_iff in E as [E1 E2]. apply Z.leb_le in E1. apply Z.ltb_lt in E2.
      destruct (lookup_lt_is_Some_2 validToOrig (Z.to_nat (findValid 0 validOps op)))
        as [origIdx Ho]; [lia|].
      assert (Hload : load validToOrig (findValid 0 validOps op) = Some origIdx).
      { unfold load. replace (0 <=? _) with true by (symmetry; apply Z.leb_le; lia).
        exact Ho. }
      rewrite Hload in H. cbn [mbind option_bind] in H.
      destruct (store results origIdx (CommandResult.set_Index origIdx gr)) as [rs1|] eqn:Est;
        [|rewrite mapBackStep_None in H; discriminate].
      destruct (settledAt_store _ _ _ _ Est Hsgr) as [Hat Hmono].
      destruct (IH rs1 rs H Hgr') as [Hm Hl]. split.
      * intros i Hi. apply Hm, Hmono, Hi.
      * intros j' op' k i Hin Hf Hk. apply elem_of_cons in Hin as [Heq|Hin].
        -- inversion Heq; subst j' op'. rewrite Hf, Nat2Z.id in Ho.
           assert (origIdx = i) by congruence. subst. apply Hm, Hat.
        -- exact (Hl j' op' k i Hin Hf Hk).
    + destruct (IH results rs H Hgr') as [Hm Hl]. split; [exact Hm|].
      intros j' op' k i Hin Hf Hk. apply elem_of_cons in Hin as [Heq|Hin].
      * inversion Heq; subst j' op'. apply lookup_lt_Some in Hk.
        rewrite Hf in E. apply andb_false_iff in E as [E|E];
          [apply Z.leb_gt in E|apply Z.ltb_ge in E]; lia.
      * exact (Hl j' op' k i Hin Hf Hk).
Qed.

Lemma mapBack_settles validOps validToOrig g groupResults results rs :
  mapBack validOps validToOrig g groupResults results = Some rs ->
  length groupResults = length (WriteGroup.Operations g) ->
  (WriteGroup.Operations g <> [] -> Forall settled groupResults) ->
  (forall i, settledAt results i -> settledAt rs i) /\
  (forall op (k : nat) i, op ∈ WriteGroup.Operations g ->
     findValid 0 validOps op = Z.of_nat k -> validToOrig !! k = Some i -> settledAt rs i).
Proof.
  rewrite mapBack_fold. intros H Hlen Hall.
  destruct (mapBackSteps_settle _ _ _ _ _ _ H) as [Hm Hl].
  - intros j op Hin. apply list_elem_of_lookup in Hin as [n Hn].
    rewrite list_lookup_imap in Hn.
    destruct (WriteGroup.Operations g !! n) as [op'|] eqn:Hop; [|discriminate].
    simpl in Hn. inversion Hn; subst j op.
    assert (Hne : WriteGroup.Operations g <> []) by (intros E; rewrite E in Hop; discriminate).
    apply lookup_lt_Some in Hop. rewrite <- Hlen in Hop.
    destruct (lookup_lt_is_Some_2 _ _ Hop) as [gr Hgr]. exists gr. split; [exact Hgr|].
    specialize (Hall Hne). rewrite Forall_lookup in Hall. exact (Hall _ _ Hgr).
  - split; [exact Hm|]. intros op k i Hin Hf Hk.
    apply list_elem_of_lookup in Hin as [n Hn].
    apply (Hl n op k i); [|exact Hf|exact Hk].
    apply list_elem_of_lookup. exists n. rewrite list_lookup_imap, Hn. reflexivity.
Qed.

Lemma groups_loop_settles validOps validToOrig gs :
  forall results w rs w',
  foldM gs results
        (fun results group =>
           groupResults ← processWriteGroup group;
           must (mapBack validOps validToOrig group groupResults results)) w
  = Ok rs w' ->
  (forall i, settledAt results i -> settledAt rs i) /\
  (forall g op (k : nat) i, g ∈ gs -> op ∈ WriteGroup.Operations g ->
     findValid 0 validOps op = Z.of_nat k -> validToOrig !! k = Some i -> settledAt rs i).
Proof.
  induction gs as [|g gs IH]; intros results w rs w' H.
  - simpl in H. inversion H; subst. split; [auto|]. intros g op k i Hin. inversion Hin.
  - cbn [foldM] in H. apply bind_inv in H as (rs1 & w1 & Hbody & Hrest).
    apply bind_inv in Hbody as (grs & w0 & Hgroup & Hmust). unfold must in Hmust.
    destruct (mapBack validOps validToOrig g grs results) as [rs1'|] eqn:Hmb; [|discriminate].
    inversion Hmust; subst rs1' w1.
    destruct (processWriteGroup_settled _ _ _ _ Hgroup) as [Hlen Hall].
    destruct (mapBack_settles _ _ _ _ _ _ Hmb Hlen Hall) as [Hm1 Hl1].
    destruct (IH _ _ _ _ Hrest) as [Hm Hl]. split.
    + intros i Hi. apply Hm, Hm1, Hi.
    + intros g' op k i Hin Hop Hf Hk. apply elem_of_cons in Hin as [->|Hin].
      * apply Hm. exact (Hl1 op k i Hop Hf Hk).
      * exact (Hl g' op k i Hin Hop Hf Hk).
Qed.

(** X2.  Where no two operations that need writing share card, kind and
    index, every result of the batch is written and carries its position
    in the batch as its Index. *)
Theorem ProcessBatchWrite_distinct_targets (ops : list writeOperation.t) (w : World.t) :
  distinctTargets (World.mgr w) ops ->
  exists rs w',
    ProcessBatchWrite ops w = Ok rs w' /\
    length rs = length ops /\
    forall (i : nat) r, rs !! i = Some r ->
      CommandResult.Index r = Z.of_nat i /\ CommandResult.Status r <> "".
Proof.
  intros Hdist.
  destruct (ProcessBatchWrite_run ops w) as (rs & trs & Hrun & Hlen & _ & _ & _ & Hkeep).
  cbv zeta in Hrun, Hkeep.
  destruct (ProcessBatchWrite_positioned ops w) as (rs2 & w2 & Hrun2 & _ & Hpos).
  rewrite Hrun in Hrun2. injection Hrun2 as <- _.
  eexists rs, _. split; [exact Hrun|]. split; [exact Hlen|].
  assert (Hsettled : forall (i : nat) r, rs !! i = Some r -> settled r).
  { intros i r Hi.
    assert (Hlt : (i < length ops)%nat) by (apply lookup_lt_Some in Hi; lia).
    destruct (lookup_lt_is_Some_2 ops i Hlt) as [op Hop].
    set (m := World.mgr w) in *.
    destruct (decide (CommandResult.Status (validateOp m (Z.of_nat i) op) = ""))
      as [Hpend|Hne].
    2:{ rewrite (Hkeep i op Hop Hne) in Hi. inversion Hi; subst r. exact Hne. }
    unfold ProcessBatchWrite in Hrun. erewrite bind_Ok in Hrun by reflexivity. fold m in Hrun.
    set (results := imap (fun i op => validateOp m (Z.of_nat i) op) ops) in *.
    assert (Hres : forall (n : nat) x, ops !! n = Some x ->
              results !! n = Some (validateOp m (Z.of_nat n) x))
      by (intros n x Hn; unfold results; rewrite list_lookup_imap, Hn; reflexivity).
    destruct (collectValid_lookup ops 0 results i op _ Hop (Hres i op Hop) Hpend)
      as (k & Hvo & Hvt).
    destruct (collectValid_increasing ops 0 results) as [Hnd _].
    pose proof (collectValid_origin ops 0 results) as Horigin.
    destruct (collectValid 0 ops results) as [vo vt]. cbn [fst snd] in Hvo, Hvt, Hnd, Horigin.
    assert (Hd : forall (k1 k2 : nat) a b,
              vo !! k1 = Some a -> vo !! k2 = Some b -> sameTarget a b = true -> k1 = k2).
    { intros k1 k2 a b Ha Hb Hs.
      destruct (Horigin k1 a Ha) as (i1 & Hv1 & Ho1 & r1 & Hr1 & Hs1).
      destruct (Horigin k2 b Hb) as (i2 & Hv2 & Ho2 & r2 & Hr2 & Hs2).
      rewrite (Hres i1 a Ho1) in Hr1. rewrite (Hres i2 b Ho2) in Hr2.
      inversion Hr1; subst r1. inversion Hr2; subst r2.
      assert (i1 = i2).
      { apply (Hdist i1 i2 a b Ho1 Ho2); [| |exact Hs]; unfold isPending.
        - rewrite (validateOp_status_index m 0 (Z.of_nat i1)). exact Hs1.
        - rewrite (validateOp_status_index m 0 (Z.of_nat i2)). exact Hs2. }
      subst i2. exact (NoDup_lookup _ _ _ _ Hnd Hv1 Hv2). }
    pose proof (findValid_unique vo op k 0 Hvo Hd) as Hfind. rewrite Z.add_0_l in Hfind.
    destruct (length vo =? 0)%nat eqn:El.
    { apply Nat.eqb_eq in El. apply lookup_lt_Some in Hvo. lia. }
    assert (Hin : op ∈ vo) by (apply list_elem_of_lookup; eauto).
    destruct (groups_cover vo op Hin) as (g & Hg & Hgc & Hgt).
    destruct (groups_spec vo g Hg) as [Hgops _].
    assert (Hop_g : op ∈ WriteGroup.Operations g).
    { rewrite Hgops. apply list_elem_of_filter. split; [split; congruence|exact Hin]. }
    destruct (groups_loop_settles _ _ _ _ _ _ _ Hrun) as [_ Hl].
    destruct (Hl g op k _ Hg Hop_g Hfind Hvt) as (r' & Hload & Hr').
    unfold load in Hload. replace (0 <=? 0 + Z.of_nat i) with true in Hload
      by (symmetry; apply Z.leb_le; lia).
    replace (Z.to_nat (0 + Z.of_nat i)) with i in Hload by lia.
    rewrite Hi in Hload. inversion Hload; subst r'. exact Hr'. }
  intros i r Hi. split; [|exact (Hsettled i r Hi)].
  destruct (Hpos i r Hi) as [H|H]; [exact H|].
  subst r. exfalso. apply (Hsettled i _ Hi). reflexivity.
Qed.

(** ** The ports of the registered cards *)

Lemma keepsRegistry_ret {A} (a : A) : keepsRegistry (mret a).
Proof. intros w a' w' H. inversion H; subst. apply sameRegistry_refl. Qed.

Lemma keepsRegistry_bind {A B} (c : M A) (f : A -> M B) :
  keepsRegistry c -> (forall a, keepsRegistry (f a)) -> keepsRegistry (c ≫= f).
Proof.
  intros Hc Hf w b w'' H. apply bind_inv in H as (a & w' & H1 & H2).
  eapply sameRegistry_trans; [exact (Hc _ _ _ H1)|exact (Hf _ _ _ _ H2)].
Qed.

Lemma keepsRegistry_clientCall pc rq : keepsRegistry (clientCall pc rq).
Proof. intros w a w' H. rewrite clientCall_run in H. inversion H; subst. apply sameRegistry_refl. Qed.

Lemma keepsRegistry_setSlaveID pc slave : keepsRegistry (setSlaveID pc slave).
Proof.
  intros w a w' H. rewrite setSlaveID_run in H. inversion H; subst.
  apply sameRegistry_withSlave.
Qed.

Lemma keepsRegistry_detectModel pc slave : keepsRegistry (detectModel pc slave).
Proof.
  unfold detectModel, probeCounts, probeDI, probeDO, probeAI, probeAO.
  repeat first
    [ apply keepsRegistry_bind
    | apply keepsRegistry_setSlaveID
    | apply keepsRegistry_clientCall
    | apply keepsRegistry_ret
    | intros [? | ?]
    | intros [[[? ?] ?] ?]
    | intro ].
Qed.

Lemma keepsRegistry_resolveModule pc slave module :
  keepsRegistry (resolveModule pc slave module).
Proof.
  unfold resolveModule. destruct (decide (module = "")); [|apply keepsRegistry_ret].
  apply keepsRegistry_bind; [apply keepsRegistry_detectModel|].
  intros m. destruct (decide (m = "")); apply keepsRegistry_ret.
Qed.

Lemma keepsRegistry_ensurePort path : keepsRegistry (ensurePort path).
Proof.
  intros w a w' H.
  destruct (ensurePort_cases path w)
    as [[_ Hrun] | [[_ (w1 & Hrun & _ & Hreg & _)] | [_ (e & Hrun)]]];
    rewrite Hrun in H; inversion H; subst; try assumption; apply sameRegistry_refl.
Qed.

Lemma keepsRegistry_readCard pc slave spec readAll :
  keepsRegistry (readCard pc slave spec readAll).
Proof.
  intros w [st err] w' H. pose proof (readCard_outcome pc slave spec readAll w) as Ho.
  rewrite H in Ho. apply Ho.
Qed.

Lemma portsOpen_sameRegistry m m' : sameRegistry m m' -> portsOpen m -> portsOpen m'.
Proof.
  intros (Hcards & _ & _ & _ & _ & Hports) Hopen id c Hc. rewrite Hcards in Hc.
  apply Hports, (Hopen id c Hc).
Qed.

(** X3.  The ports of the registered cards are in the port table: this holds
    for a new manager, and [AddCard] and [RemoveCard] keep it, as does
    every operation that leaves the registry as it is. *)
Theorem portsOpen_invariant :
  portsOpen NewManager /\
  (forall portPath slave module w r w',
      portsOpen (World.mgr w) -> AddCard portPath slave module w = Ok r w' ->
      portsOpen (World.mgr w')) /\
  (forall id w r w',
      portsOpen (World.mgr w) -> RemoveCard id w = Ok r w' -> portsOpen (World.mgr w')).
Proof.
  split; [|split].
  - intros id c H. unfold NewManager in H. simpl in H. rewrite lookup_empty in H. discriminate.
  - intros portPath slave module w r w' Hopen H. rewrite AddCard_unfold in H.
    apply bind_inv in H as (rp & w1 & Hport & H).
    pose proof (keepsRegistry_ensurePort _ _ _ _ Hport) as Hreg1.
    destruct rp as [pc|e]; [|inversion H; subst; exact (portsOpen_sameRegistry _ _ Hreg1 Hopen)].
    assert (Hpc : pc = portPath /\ is_Some (Manager.ports (World.mgr w1) !! portPath)).
    { destruct (ensurePort_cases portPath w)
        as [[Hp Hrun] | [[_ (w1' & Hrun & _ & _ & Hp)] | [_ (e & Hrun)]]];
        rewrite Hrun in Hport; inversion Hport; subst; auto. }
    destruct Hpc as [-> Hp1].
    apply bind_inv in H as (d & w2 & Hres & H).
    pose proof (keepsRegistry_resolveModule _ _ _ _ _ _ Hres) as Hreg2.
    pose proof (sameRegistry_trans _ _ _ Hreg1 Hreg2) as Hreg12.
    destruct d as [module'|e]; [|inversion H; subst; exact (portsOpen_sameRegistry _ _ Hreg12 Hopen)].
    destruct (ModelTable !! module') as [spec|];
      [|inversion H; subst; exact (portsOpen_sameRegistry _ _ Hreg12 Hopen)].
    erewrite bind_Ok in H by reflexivity. cbv zeta in H.
    erewrite bind_Ok in H by reflexivity.
    change (World.mk _ _) with (registerCard portPath slave spec w2) in H.
    apply bind_inv in H as ([st err] & w3 & Hread & H).
    pose proof (keepsRegistry_readCard _ _ _ _ _ _ _ Hread) as (Hcards3 & _ & _ & _ & _ & Hports3).
    assert (Hopen3 : portsOpen (World.mgr w3)).
    { intros id c Hc. apply Hports3. rewrite Hcards3 in Hc.
      unfold registerCard in Hc |- *. cbn [World.mgr Manager.cards Manager.set_cards
        Manager.ports Manager.set_nextID] in Hc |- *.
      destruct Hreg12 as (Hcards12 & _ & _ & _ & _ & Hports12).
      apply lookup_insert_Some in Hc as [[_ <-]|[_ Hc]].
      - apply (proj2 Hreg2). apply Hp1.
      - rewrite Hcards12 in Hc. apply Hports12, (Hopen id c Hc). }
    destruct err as [e|].
    + inversion H; subst. exact Hopen3.
    + erewrite bind_Ok in H by apply updateCard_run. inversion H; subst.
      intros id c Hc. unfold withCard in Hc |- *. cbn [World.mgr Manager.cards Manager.set_cards
        Manager.ports] in Hc |- *.
      apply lookup_alter_Some in Hc as [(_ & c0 & Hc0 & ->)|[_ Hc]].
      * exact (Hopen3 _ c0 Hc0).
      * exact (Hopen3 id c Hc).
  - intros id w r w' Hopen H. unfold RemoveCard in H. erewrite bind_Ok in H by reflexivity.
    destruct (Manager.cards (World.mgr w) !! id); [|inversion H; subst; exact Hopen].
    erewrite bind_Ok in H by reflexivity. inversion H; subst.
    intros id' c Hc. cbn [World.mgr Manager.cards Manager.set_cards Manager.ports] in Hc |- *.
    apply lookup_delete_Some in Hc as [_ Hc]. exact (Hopen id' c Hc).
Qed.

(** X4.  [GroupWriteOperations] splits a batch by card and register type:
    no two groups have the same card and type, a group holds exactly the
    operations of its card and type, in the order of the batch, and every
    operation of the batch is in the group of its card and type. *)
Theorem GroupWriteOperations_partition (ops : list writeOperation.t) :
  NoDup (map (fun g => (WriteGroup.CardID g, WriteGroup.RegisterType g))
             (GroupWriteOperations ops)) /\
  (forall g, g ∈ GroupWriteOperations ops ->
     WriteGroup.Operations g <> [] /\
     WriteGroup.Operations g
     = filter (fun op => writeOperation.CardID op = WriteGroup.CardID g /\
                         writeOperation.Type_ op = WriteGroup.RegisterType g) ops) /\
  (forall op, op ∈ ops ->
     exists g, g ∈ GroupWriteOperations ops /\
               WriteGroup.CardID g = writeOperation.CardID op /\
               WriteGroup.RegisterType g = writeOperation.Type_ op /\
               op ∈ WriteGroup.Operations g).
Proof.
  split; [apply groups_NoDup|]. split.
  - intros g Hg. destruct (groups_spec ops g Hg) as [Hops Hne]. split; assumption.
  - intros op Hin. destruct (groups_cover ops op Hin) as (g & Hg & Hc & Ht).
    exists g. split; [exact Hg|]. split; [exact Hc|]. split; [exact Ht|].
    destruct (groups_spec ops g Hg) as [Hops _]. rewrite Hops.
    apply list_elem_of_filter. split; [split; congruence|exact Hin].
Qed.

(** ** Rejected operations, and the traffic of a batch *)

Lemma validateOp_rejected m i op :
  (forall card, Manager.cards m !! writeOperation.CardID op = Some card ->
     ~ 0 <= writeOperation.Index op
         < channelCount (specOf (Card.Module_ card)) (writeOperation.Type_ op)) ->
  validateOp m i op = errorResult i (rejection m op).
Proof using Type.
  clear bus dial now rangeMap rangeMap_perm.
  intros H. unfold validateOp, rejection.
  destruct (Manager.cards m !! writeOperation.CardID op) as [card|]; [|reflexivity].
  specialize (H card eq_refl). unfold channelCount in H.
  destruct (writeOperation.Index op <? 0) eqn:E1; [reflexivity|]. apply Z.ltb_ge in E1.
  destruct (_ <=? writeOperation.Index op) eqn:E2; [reflexivity|]. apply Z.leb_gt in E2.
  exfalso. apply H. split; [exact E1|exact E2].
Qed.

(** X7.  An operation whose card is not registered, or whose index is not a
    channel of its card, is answered at its position with status "error"
    and the message "card not found", respectively "index out of range";
    it does not reach the bus and does not disturb the rest of the batch:
    the call leaves the world, trace included, as the same batch without
    that operation does. *)
Theorem ProcessBatchWrite_rejected_operation (ops : list writeOperation.t) (i : nat)
    (op : writeOperation.t) (w : World.t) :
  ops !! i = Some op ->
  (forall card, Manager.cards (World.mgr w) !! writeOperation.CardID op = Some card ->
     ~ 0 <= writeOperation.Index op
         < channelCount (specOf (Card.Module_ card)) (writeOperation.Type_ op)) ->
  exists rs rs' w',
    ProcessBatchWrite ops w = Ok rs w' /\
    ProcessBatchWrite (delete i ops) w = Ok rs' w' /\
    rs !! i = Some (CommandResult.mk (Z.of_nat i) "error" (rejection (World.mgr w) op)).
Proof.
  intros Hi Hbad.
  pose proof (validateOp_rejected (World.mgr w) (Z.of_nat i) op Hbad) as Hv.
  destruct (ProcessBatchWrite_run ops w) as (rs & trs & Hrun & _ & _ & _ & _ & Hkeep).
  destruct (ProcessBatchWrite_run (delete i ops) w) as (rs' & trs' & Hrun' & _).
  assert (Hsame : pendingOps (World.mgr w) (delete i ops) = pendingOps (World.mgr w) ops).
  { rewrite !pendingOps_filter. apply (filter_delete_not _ _ i op Hi).
    unfold isPending. rewrite (validateOp_status_index _ 0 (Z.of_nat i)), Hv. discriminate. }
  rewrite Hsame in Hrun'.
  eexists rs, rs', _. split; [exact Hrun|]. split; [exact Hrun'|].
  change (CommandResult.mk (Z.of_nat i) "error" (rejection (World.mgr w) op))
    with (errorResult (Z.of_nat i) (rejection (World.mgr w) op)).
  rewrite <- Hv. apply Hkeep; [exact Hi|]. rewrite Hv. discriminate.
Qed.

Lemma groups_targets m gs trs :
  portsOpen m ->
  Forall2 (groupRun m) gs trs ->
  map evTarget (concat trs)
  = map Some (flat_map (fun g => match Manager.cards m !! WriteGroup.CardID g with
                                 | Some c => groupRequests c g
                                 | None => []
                                 end) gs).
Proof using Type.
  clear bus dial now rangeMap rangeMap_perm.
  intros Hopen Hf2. induction Hf2 as [|g tr gs trs [Hatt Hrun] _ IH]; [reflexivity|].
  cbn [concat flat_map]. rewrite !map_app, IH. f_equal.
  unfold groupAttempt in Hatt.
  destruct (Manager.cards m !! WriteGroup.CardID g) as [c|] eqn:Ec.
  - apply Hrun; [reflexivity|]. exact (Hopen _ c Ec).
  - subst tr. reflexivity.
Qed.

Lemma ProcessBatchWrite_frames ops w :
  portsOpen (World.mgr w) ->
  exists rs w' tr,
    ProcessBatchWrite ops w = Ok rs w' /\
    World.trace w' = World.trace w ++ tr /\
    map evTarget tr = map Some (batchRequests (World.mgr w) ops) /\
    sameRegistry (World.mgr w) (World.mgr w').
Proof.
  intros Hopen.
  destruct (ProcessBatchWrite_run ops w) as (rs & trs & Hrun & _ & Htr & Hf2 & Hreg & _).
  eexists rs, _, (concat trs). split; [exact Hrun|]. split; [exact Htr|].
  split; [|exact Hreg]. apply groups_targets; assumption.
Qed.

Lemma validateOp_cards m m' i op :
  Manager.cards m' = Manager.cards m -> validateOp m' i op = validateOp m i op.
Proof using Type.
  clear bus dial now rangeMap rangeMap_perm.
  intros H. unfold validateOp. rewrite H. reflexivity.
Qed.

Lemma batchRequests_cards m m' ops :
  Manager.cards m' = Manager.cards m -> batchRequests m' ops = batchRequests m ops.
Proof using Type.
  clear bus dial now rangeMap_perm.
  intros H. unfold batchRequests, pendingOps. rewrite H.
  rewrite (imap_ext _ (fun i op => validateOp m (Z.of_nat i) op) ops); [reflexivity|].
  intros i op _. apply validateOp_cards, H.
Qed.

(** X8.  The traffic of a batch.  With the ports of the registered cards
    open, [ProcessBatchWrite] puts on the bus the requests of its groups
    and nothing else: for each card one WriteMultipleCoils for its digital
    operations that need writing, one WriteMultipleRegisters for its analog
    ones, and one WriteSingleRegister for each of its type operations; no
    port is opened, and the cards, the cache included, and the write queue
    are left as they were. *)
Theorem ProcessBatchWrite_traffic (ops : list writeOperation.t) (w : World.t) :
  portsOpen (World.mgr w) ->
  exists rs w' tr,
    ProcessBatchWrite ops w = Ok rs w' /\
    World.trace w' = World.trace w ++ tr /\
    map evTarget tr = map Some (batchRequests (World.mgr w) ops) /\
    Manager.cards (World.mgr w') = Manager.cards (World.mgr w) /\
    Manager.writeQueue (World.mgr w') = Manager.writeQueue (World.mgr w).
Proof.
  intros Hopen.
  destruct (ProcessBatchWrite_frames ops w Hopen)
    as (rs & w' & tr & Hrun & Htr & Hev & Hcards & _ & Hq & _).
  exists rs, w', tr. repeat split; assumption.
Qed.

(** ** The registry *)

Lemma Atoi_Itoa n : Atoi (Itoa n) = n.
Proof using Type.
  clear bus dial now rangeMap rangeMap_perm.
  unfold Atoi, Itoa. rewrite NilZero.isi.
  - apply DecimalZ.of_to.
  - destruct n; simpl; try discriminate. intros H. inversion H as [H1].
    revert H1. apply DecimalPos.Unsigned.to_uint_nonnil.
  - destruct n; simpl; try discriminate. intros H. inversion H as [H1].
    revert H1. apply DecimalPos.Unsigned.to_uint_nonnil.
Qed.

Lemma ModelTable_name module spec :
  ModelTable !! module = Some spec -> ModelSpec.Name spec = module.
Proof using Type.
  clear bus dial now rangeMap rangeMap_perm.
  intros H. unfold ModelTable in H. apply elem_of_list_to_map_2 in H.
  repeat (apply elem_of_cons in H as [H|H]; [inversion H; subst; reflexivity|]).
  inversion H.
Qed.

Lemma registryOK_ext m m' :
  Manager.cards m' = Manager.cards m -> Manager.nextID m' = Manager.nextID m ->
  registryOK m -> registryOK m'.
Proof using Type.
  clear bus dial now rangeMap rangeMap_perm.
  unfold registryOK. intros -> ->. auto.
Qed.

Lemma registryOK_sameRegistry m m' : sameRegistry m m' -> registryOK m -> registryOK m'.
Proof using Type.
  clear bus dial now rangeMap rangeMap_perm.
  intros (Hc & Hn & _). apply registryOK_ext; assumption.
Qed.

Lemma registryOK_alter m m' f id :
  (forall c, Card.ID (f c) = Card.ID c /\ Card.Module_ (f c) = Card.Module_ c) ->
  Manager.cards m' = alter f id (Manager.cards m) ->
  Manager.nextID m' = Manager.nextID m ->
  registryOK m -> registryOK m'.
Proof using Type.
  clear bus dial now rangeMap rangeMap_perm.
  intros Hf Hc Hn [H1 H]. split; [rewrite Hn; exact H1|].
  intros id' c Hl. rewrite Hc in Hl. rewrite Hn.
  apply lookup_alter_Some in Hl as [(<- & c0 & Hc0 & ->)|[_ Hl]]; [|exact (H _ _ Hl)].
  destruct (Hf c0) as [-> ->]. exact (H _ _ Hc0).
Qed.

(** The module [AddCard] goes on with is never empty: it is the one given,
    or the guess of [detectModel], which is a name of the table or
    "Unknown". *)
Lemma resolveModule_outcome pc slave module w r w' :
  resolveModule pc slave module w = Ok r w' ->
  exists module', r = inl module' /\ module' <> "" /\
    (module <> "" -> module' = module /\ w' = w) /\
    (module = "" -> is_Some (ModelTable !! module') \/ module' = "Unknown").
Proof using Type.
  clear rangeMap rangeMap_perm.
  unfold resolveModule. destruct (decide (module = "")) as [->|Hne].
  - intros H. apply bind_inv in H as (g & w1 & Hdet & H).
    assert (Hg : is_Some (ModelTable !! g) \/ g = "Unknown").
    { unfold detectModel in Hdet. apply bind_inv in Hdet as ([] & w2 & _ & Hdet).
      apply bind_inv in Hdet as ([[[di doCount] ai] ao] & w3 & _ & Hdet).
      inversion Hdet; subst. unfold guessModel.
      repeat (destruct (_ && _); [left; eexists; reflexivity|]). right. reflexivity. }
    assert (Hgne : g <> "").
    { intros ->. destruct Hg as [[spec Hs]|Hs]; [vm_compute in Hs|]; discriminate. }
    destruct (decide (g = "")); [contradiction|].
    inversion H; subst. exists g. split; [reflexivity|]. split; [exact Hgne|].
    split; [intros Hc; contradiction|]. intros _. exact Hg.
  - intros H. inversion H; subst. exists module. split; [reflexivity|].
    split; [exact Hne|]. split; [intros _; split; reflexivity|]. intros Hc. contradiction.
Qed.

(** What [AddCard] does to the registry: nothing when it fails, and when it
    succeeds it files the card it returns under the numeral of [nextID],
    which it advances by one. *)
Lemma AddCard_outcome portPath slave module w r w' :
  AddCard portPath slave module w = Ok r w' ->
  match r with
  | inr err =>
      sameRegistry (World.mgr w) (World.mgr w') /\
      ((Manager.ports (World.mgr w) !! portPath = None /\
        dial (World.trace w) portPath = Some err) \/
       (exists module', err = "unknown module " +:+ module' /\
          ModelTable !! module' = None /\
          (module <> "" -> module' = module) /\
          (module = "" -> module' = "Unknown")))
  | inl c =>
      exists spec,
        ModelTable !! Card.Module_ c = Some spec /\
        Card.ID c = Itoa (Manager.nextID (World.mgr w)) /\
        Card.PortPath c = portPath /\ Card.SlaveID c = slave /\
        Card.needsFullRead c = false /\
        Manager.cards (World.mgr w')
        = <[Card.ID c := c]> (Manager.cards (World.mgr w)) /\
        Manager.nextID (World.mgr w') = Manager.nextID (World.mgr w) + 1 /\
        Manager.writeQueue (World.mgr w') = Manager.writeQueue (World.mgr w)
  end.
Proof using Type.
  clear rangeMap rangeMap_perm.
  intros H. rewrite AddCard_unfold in H.
  apply bind_inv in H as (rp & w1 & Hport & H).
  pose proof (keepsRegistry_ensurePort _ _ _ _ Hport) as Hreg1.
  destruct rp as [pc|e].
  - apply bind_inv in H as (d & w2 & Hres & H).
    pose proof (keepsRegistry_resolveModule _ _ _ _ _ _ Hres) as Hreg2.
    pose proof (sameRegistry_trans _ _ _ Hreg1 Hreg2) as Hreg12.
    destruct (resolveModule_outcome _ _ _ _ _ _ Hres) as (module' & -> & Hne & Hgiven & Hguess).
    destruct (ModelTable !! module') as [spec|] eqn:Hspec.
    + erewrite bind_Ok in H by reflexivity. cbv zeta in H.
      erewrite bind_Ok in H by reflexivity.
      change (World.mk _ _) with (registerCard portPath slave spec w2) in H.
      apply bind_inv in H as ([st err] & w3 & Hread & H).
      pose proof (keepsRegistry_readCard _ _ _ _ _ _ _ Hread) as (Hcards3 & Hn3 & Hq3 & _).
      destruct Hreg12 as (Hcards12 & Hn12 & Hq12 & _).
      pose proof (ModelTable_name _ _ Hspec) as Hname.
      destruct err as [e|].
      * inversion H; subst r w'. exists spec. unfold newCard. cbn [Card.Module_ Card.ID
          Card.PortPath Card.SlaveID Card.needsFullRead]. rewrite Hn12.
        split; [rewrite Hname; exact Hspec|].
        repeat split; try reflexivity.
        -- rewrite Hcards3. unfold registerCard, newCard. simpl. rewrite Hcards12, Hn12.
           reflexivity.
        -- rewrite Hn3. unfold registerCard. simpl. rewrite Hn12. reflexivity.
        -- rewrite Hq3. unfold registerCard. simpl. exact Hq12.
      * erewrite bind_Ok in H by apply updateCard_run. inversion H; subst r w'.
        exists spec. unfold newCard. cbn [Card.Module_ Card.ID Card.set_Last
          Card.PortPath Card.SlaveID Card.needsFullRead]. rewrite Hn12.
        split; [rewrite Hname; exact Hspec|].
        repeat split; try reflexivity.
        -- unfold withCard. cbn [World.mgr Manager.cards Manager.set_cards].
           rewrite Hcards3. unfold registerCard, newCard. simpl.
           rewrite Hcards12, Hn12. apply alter_insert_eq.
        -- unfold withCard. cbn [World.mgr Manager.nextID Manager.set_cards].
           rewrite Hn3. unfold registerCard. simpl. rewrite Hn12. reflexivity.
        -- unfold withCard. cbn [World.mgr Manager.writeQueue Manager.set_cards].
           rewrite Hq3. unfold registerCard. simpl. exact Hq12.
    + inversion H; subst r w'. split; [exact Hreg12|]. right. exists module'.
      split; [reflexivity|]. split; [exact Hspec|]. split.
      * intros Hm. apply Hgiven, Hm.
      * intros Hm. destruct (Hguess Hm) as [[s Hs]|Hu]; [congruence|exact Hu].
  - inversion H; subst r w'. split; [exact Hreg1|]. left.
    destruct (ensurePort_cases portPath w)
      as [[Hp Hrun] | [[Hp (w1' & Hrun & _)] | [Hp (e' & Hrun)]]];
      rewrite Hrun in Hport; inversion Hport; subst.
    split; [exact Hp|]. 
    unfold ensurePort in Hrun. erewrite bind_Ok in Hrun by reflexivity.
    rewrite Hp in Hrun. destruct (dial (World.trace w) portPath) eqn:Hd; inversion Hrun; subst.
    reflexivity.
Qed.

Lemma ProcessWriteQueue_keeps w :
  exists w',
    ProcessWriteQueue w = Ok tt w' /\
    Manager.cards (World.mgr w') = Manager.cards (World.mgr w) /\
    Manager.nextID (World.mgr w') = Manager.nextID (World.mgr w) /\
    Manager.stateChangeCallback (World.mgr w') = Manager.stateChangeCallback (World.mgr w) /\
    Manager.writeQueue (World.mgr w') = [] /\
    (forall p, is_Some (Manager.ports (World.mgr w) !! p) ->
               is_Some (Manager.ports (World.mgr w') !! p)).
Proof.
  unfold ProcessWriteQueue. erewrite bind_Ok by reflexivity.
  erewrite bind_Ok by reflexivity.
  set (w0 := World.mk (Manager.set_writeQueue [] (World.mgr w)) (World.trace w)).
  destruct (length (Manager.writeQueue (World.mgr w)) =? 0)%nat.
  - exists w0. repeat split; auto.
  - destruct (ProcessBatchWrite_run (Manager.writeQueue (World.mgr w)) w0)
      as (rs & trs & Hrun & _ & _ & _ & Hreg & _).
    erewrite bind_Ok by exact Hrun. eexists. split; [reflexivity|].
    destruct Hreg as (Hcards & Hn & Hq & Hcb & _ & Hports).
    repeat split; assumption.
Qed.

(** X10.  The registry stays well formed: every card is filed under its own
    ID, its module is a model of the table (so the lookups
    [ModelTable[c.Module]] of the manager never miss), and its ID is the
    numeral of a counter value below [nextID].  This holds for a new
    manager, and [AddCard], [RemoveCard], [RebootCard], the batch writer
    and the flush of the queue keep it. *)
Theorem registryOK_invariant :
  registryOK NewManager /\
  (forall portPath slave module w r w',
      registryOK (World.mgr w) -> AddCard portPath slave module w = Ok r w' ->
      registryOK (World.mgr w')) /\
  (forall id w r w',
      registryOK (World.mgr w) -> RemoveCard id w = Ok r w' -> registryOK (World.mgr w')) /\
  (forall id w r w',
      registryOK (World.mgr w) -> RebootCard id w = Ok r w' -> registryOK (World.mgr w')) /\
  (forall ops w r w',
      registryOK (World.mgr w) -> ProcessBatchWrite ops w = Ok r w' ->
      registryOK (World.mgr w')) /\
  (forall w r w',
      registryOK (World.mgr w) -> ProcessWriteQueue w = Ok r w' -> registryOK (World.mgr w')).
Proof.
  split; [|split; [|split; [|split; [|split]]]].
  - split; [simpl; lia|]. intros id c H. unfold NewManager in H. simpl in H.
    rewrite lookup_empty in H. discriminate.
  - intros portPath slave module w r w' Hok H. apply AddCard_outcome in H.
    destruct r as [c|e]; [|exact (registryOK_sameRegistry _ _ (proj1 H) Hok)].
    destruct H as (spec & Hspec & Hid & _ & _ & _ & Hcards & Hn & _).
    destruct Hok as [H1 Hok]. split; [lia|]. intros id c' Hl. rewrite Hcards in Hl.
    rewrite Hn. apply lookup_insert_Some in Hl as [[<- <-]|[_ Hl]].
    + split; [reflexivity|]. split; [eexists; exact Hspec|].
      exists (Manager.nextID (World.mgr w)). split; [lia|exact Hid].
    + destruct (Hok _ _ Hl) as (Ha & Hb & n & Hn' & Hc). split; [exact Ha|].
      split; [exact Hb|]. exists n. split; [lia|exact Hc].
  - intros id w r w' Hok H. unfold RemoveCard in H. erewrite bind_Ok in H by reflexivity.
    destruct (Manager.cards (World.mgr w) !! id); [|inversion H; subst; exact Hok].
    erewrite bind_Ok in H by reflexivity. inversion H; subst.
    destruct Hok as [H1 Hok]. split; [exact H1|]. intros id' c Hl.
    cbn [World.mgr Manager.cards Manager.set_cards Manager.nextID] in Hl |- *.
    apply lookup_delete_Some in Hl as [_ Hl]. exact (Hok _ _ Hl).
  - intros id w r w' Hok H. unfold RebootCard in H. erewrite bind_Ok in H by reflexivity.
    destruct (Manager.cards (World.mgr w) !! id) as [c|]; [|inversion H; subst; exact Hok].
    erewrite bind_Ok in H by apply updateCard_run.
    assert (Hok0 : registryOK (World.mgr (withCard id (Card.set_needsFullRead true) w))).
    { apply (registryOK_alter (World.mgr w) _ (Card.set_needsFullRead true) id);
        [intros c0; split; reflexivity|reflexivity|reflexivity|exact Hok]. }
    apply bind_inv in H as (rp & w1 & Hport & H).
    pose proof (keepsRegistry_ensurePort _ _ _ _ Hport) as Hreg1.
    destruct rp as [pc|e]; [|inversion H; subst; exact (registryOK_sameRegistry _ _ Hreg1 Hok0)].
    rewrite reboot_run in H. inversion H; subst.
    apply (registryOK_sameRegistry _ _ Hreg1) in Hok0.
    eapply registryOK_ext; [| |exact Hok0]; reflexivity.
  - intros ops w r w' Hok H.
    destruct (ProcessBatchWrite_run ops w) as (rs & trs & Hrun & _ & _ & _ & Hreg & _).
    rewrite Hrun in H. inversion H; subst. exact (registryOK_sameRegistry _ _ Hreg Hok).
  - intros w r w' Hok H.
    destruct (ProcessWriteQueue_keeps w) as (w1 & Hrun & Hcards & Hn & _).
    rewrite Hrun in H. inversion H; subst.
    exact (registryOK_ext _ _ Hcards Hn Hok).
Qed.

(** X11.  A card [AddCard] returns is filed under an ID no registered card
    has: the numeral of [nextID], which no card carries yet.  It replaces
    no card, the cards registered before are as they were, and looking the
    new ID up gives the card returned. *)
Theorem AddCard_registers_fresh (portPath : string) (slave : Z) (module : string)
    (w : World.t) (c : Card.t) (w' : World.t) :
  registryOK (World.mgr w) ->
  AddCard portPath slave module w = Ok (inl c) w' ->
  Card.ID c = Itoa (Manager.nextID (World.mgr w)) /\
  Manager.cards (World.mgr w) !! Card.ID c = None /\
  Manager.cards (World.mgr w') !! Card.ID c = Some c /\
  (forall id, id <> Card.ID c ->
     Manager.cards (World.mgr w') !! id = Manager.cards (World.mgr w) !! id) /\
  Manager.nextID (World.mgr w') = Manager.nextID (World.mgr w) + 1 /\
  is_Some (ModelTable !! Card.Module_ c) /\
  Card.PortPath c = portPath /\ Card.SlaveID c = slave.
Proof.
  intros [_ Hok] H. apply AddCard_outcome in H.
  destruct H as (spec & Hspec & Hid & Hp & Hs & _ & Hcards & Hn & _).
  split; [exact Hid|]. split; [|split; [|split; [|split; [|split; [|split]]]]].
  - destruct (Manager.cards (World.mgr w) !! Card.ID c) as [d|] eqn:Hd; [|reflexivity].
    destruct (Hok _ _ Hd) as (_ & _ & n & Hlt & Hn').
    rewrite Hid in Hn'. apply (f_equal Atoi) in Hn'. rewrite !Atoi_Itoa in Hn'. lia.
  - rewrite Hcards. apply lookup_insert_eq.
  - intros id Hne. rewrite Hcards. apply lookup_insert_ne. congruence.
  - exact Hn.
  - eexists. exact Hspec.
  - exact Hp.
  - exact Hs.
Qed.

(** X12.  When [AddCard] fails nothing is registered and no ID is used up.
    Its error is the one of the port that did not open, or "unknown
    module" followed by the module: the one given, or "Unknown" when the
    module was to be detected and the counts found on the bus are those of
    no model.  (The detection never yields an empty name, so the message
    "unable to detect module" is never returned.) *)
Theorem AddCard_failure (portPath : string) (slave : Z) (module : string)
    (w : World.t) (err : string) (w' : World.t) :
  AddCard portPath slave module w = Ok (inr err) w' ->
  Manager.cards (World.mgr w') = Manager.cards (World.mgr w) /\
  Manager.nextID (World.mgr w') = Manager.nextID (World.mgr w) /\
  ((Manager.ports (World.mgr w) !! portPath = None /\
    dial (World.trace w) portPath = Some err) \/
   (module <> "" /\ ModelTable !! module = None /\ err = "unknown module " +:+ module) \/
   (module = "" /\ err = "unknown module Unknown")).
Proof.
  intros H. apply AddCard_outcome in H. destruct H as ((Hc & Hn & _) & Hcases).
  split; [exact Hc|]. split; [exact Hn|].
  destruct Hcases as [Hdial|(module' & -> & Hnone & Hgiven & Hguess)]; [left; exact Hdial|].
  right. destruct (decide (module = "")) as [He|Hne].
  - right. split; [exact He|]. rewrite (Hguess He). reflexivity.
  - left. rewrite (Hgiven Hne) in *. auto.
Qed.

(** ** The write queue *)

Lemma batchRequests_nil m : batchRequests m [] = [].
Proof.
  unfold batchRequests, pendingOps. simpl. rewrite GroupWriteOperations_nil. reflexivity.
Qed.

Lemma set_writeQueue_empty m :
  Manager.writeQueue m = [] -> Manager.set_writeQueue [] m = m.
Proof using Type.
  clear bus dial now rangeMap rangeMap_perm.
  destruct m. simpl. intros ->. reflexivity.
Qed.

Lemma ProcessWriteQueue_empty w :
  Manager.writeQueue (World.mgr w) = [] -> ProcessWriteQueue w = Ok tt w.
Proof using Type.
  clear rangeMap_perm.
  intros Hq. unfold ProcessWriteQueue. erewrite bind_Ok by reflexivity.
  erewrite bind_Ok by reflexivity. rewrite Hq. cbn [length Nat.eqb].
  rewrite set_writeQueue_empty by exact Hq. destruct w. reflexivity.
Qed.

Lemma ProcessWriteQueue_frames w :
  portsOpen (World.mgr w) ->
  exists w' tr,
    ProcessWriteQueue w = Ok tt w' /\
    World.trace w' = World.trace w ++ tr /\
    map evTarget tr
    = map Some (batchRequests (World.mgr w) (Manager.writeQueue (World.mgr w))) /\
    Manager.writeQueue (World.mgr w') = [] /\
    Manager.cards (World.mgr w') = Manager.cards (World.mgr w) /\
    ProcessWriteQueue w' = Ok tt w'.
Proof.
  intros Hopen. unfold ProcessWriteQueue at 1. erewrite bind_Ok by reflexivity.
  erewrite bind_Ok by reflexivity.
  set (w0 := World.mk (Manager.set_writeQueue [] (World.mgr w)) (World.trace w)).
  destruct (length (Manager.writeQueue (World.mgr w)) =? 0)%nat eqn:E.
  - apply Nat.eqb_eq, length_zero_iff_nil in E. rewrite E, batchRequests_nil.
    exists w0, []. split; [reflexivity|]. split; [symmetry; apply app_nil_r|].
    split; [reflexivity|]. split; [reflexivity|]. split; [reflexivity|].
    apply ProcessWriteQueue_empty. reflexivity.
  - assert (Hopen0 : portsOpen (World.mgr w0)) by exact Hopen.
    destruct (ProcessBatchWrite_frames (Manager.writeQueue (World.mgr w)) w0 Hopen0)
      as (rs & w' & tr & Hrun & Htr & Hev & Hcards & _ & Hq & _).
    erewrite bind_Ok by exact Hrun. exists w', tr.
    split; [reflexivity|]. split; [exact Htr|].
    split; [rewrite Hev; f_equal; apply batchRequests_cards; reflexivity|].
    split; [exact Hq|]. split; [exact Hcards|].
    apply ProcessWriteQueue_empty. exact Hq.
Qed.

(** X15.  The flush of the write queue.  With the ports of the registered
    cards open, [ProcessWriteQueue] runs the queued operations as one
    batch, so what it puts on the bus are the requests of that batch; it
    leaves the queue empty and the cards as they were, and a second flush
    right after does nothing at all. *)
Theorem ProcessWriteQueue_flush (w : World.t) :
  portsOpen (World.mgr w) ->
  exists w' tr,
    ProcessWriteQueue w = Ok tt w' /\
    World.trace w' = World.trace w ++ tr /\
    map evTarget tr
    = map Some (batchRequests (World.mgr w) (Manager.writeQueue (World.mgr w))) /\
    Manager.writeQueue (World.mgr w') = [] /\
    Manager.cards (World.mgr w') = Manager.cards (World.mgr w) /\
    ProcessWriteQueue w' = Ok tt w'.
Proof. apply ProcessWriteQueue_frames. Qed.

(** The requests of a batch of one operation on a registered card. *)
Lemma batchRequests_single m op c :
  Manager.cards m !! writeOperation.CardID op = Some c ->
  0 <= writeOperation.Index op
    < channelCount (specOf (Card.Module_ c)) (writeOperation.Type_ op) ->
  batchRequests m [op]
  = if shouldWrite op c
    then groupRequests c (WriteGroup.mk (writeOperation.CardID op) (writeOperation.Type_ op) [op])
    else [].
Proof.
  intros Hc Hidx. unfold batchRequests. rewrite pendingOps_filter.
  destruct (shouldWrite op c) eqn:Hs.
  - rewrite filter_cons_True.
    + rewrite filter_nil, GroupWriteOperations_single. cbn [flat_map WriteGroup.CardID].
      rewrite Hc. apply app_nil_r.
    + unfold isPending. apply validateOp_pending. exists c. auto.
  - rewrite filter_cons_False.
    + rewrite filter_nil, GroupWriteOperations_nil. reflexivity.
    + unfold isPending. rewrite validateOp_pending. intros (c' & Hc' & _ & Hs').
      congruence.
Qed.

Lemma minIndex_single op : minIndex [op] (writeOperation.Index op) = writeOperation.Index op.
Proof using Type.
  clear bus dial now rangeMap rangeMap_perm.
  unfold minIndex. simpl. rewrite Z.ltb_irrefl. reflexivity.
Qed.

Lemma maxIndex_single op : maxIndex [op] (writeOperation.Index op) = writeOperation.Index op.
Proof using Type.
  clear bus dial now rangeMap rangeMap_perm.
  unfold maxIndex. simpl. rewrite Z.ltb_irrefl. reflexivity.
Qed.

Lemma writeWindow_single {A} (zero : A) val cache op :
  writeWindow zero val cache [op] = [val op].
Proof using Type.
  clear bus dial now rangeMap rangeMap_perm.
  unfold writeWindow. rewrite minIndex_single, maxIndex_single.
  replace (writeOperation.Index op - writeOperation.Index op + 1) with 1 by lia.
  unfold cachedWindow, overlaid. simpl.
  replace (Z.to_nat (writeOperation.Index op - writeOperation.Index op)) with 0%nat by lia.
  reflexivity.
Qed.

Lemma QueueWriteDO_run cardID index state c w :
  Manager.cards (World.mgr w) !! cardID = Some c ->
  0 <= index < ModelSpec.DO (specOf (Card.Module_ c)) ->
  QueueWriteDO cardID index state w
  = Ok None
       (World.mk (Manager.set_writeQueue
                    (Manager.writeQueue (World.mgr w)
                     ++ [writeOperation.mk cardID writeOpDO index
                           (if state then F32.one else F32.zero) ""])
                    (World.mgr w))
                 (World.trace w)).
Proof using Type.
  clear bus dial now rangeMap rangeMap_perm.
  intros Hc Hidx. unfold QueueWriteDO.
  erewrite bind_Ok by (unfold GetCard; erewrite bind_Ok; reflexivity).
  rewrite Hc. cbv zeta.
  replace (index <? 0) with false by (symmetry; apply Z.ltb_ge; lia).
  replace (ModelSpec.DO (specOf (Card.Module_ c)) <=? index) with false
    by (symmetry; apply Z.leb_gt; lia).
  reflexivity.
Qed.

Lemma QueueWriteAO_run cardID index value c w :
  Manager.cards (World.mgr w) !! cardID = Some c ->
  0 <= index < ModelSpec.AO (specOf (Card.Module_ c)) ->
  QueueWriteAO cardID index value w
  = Ok None
       (World.mk (Manager.set_writeQueue
                    (Manager.writeQueue (World.mgr w)
                     ++ [writeOperation.mk cardID writeOpAO index value ""])
                    (World.mgr w))
                 (World.trace w)).
Proof using Type.
  clear bus dial now rangeMap rangeMap_perm.
  intros Hc Hidx. unfold QueueWriteAO.
  erewrite bind_Ok by (unfold GetCard; erewrite bind_Ok; reflexivity).
  rewrite Hc. cbv zeta.
  replace (index <? 0) with false by (symmetry; apply Z.ltb_ge; lia).
  replace (ModelSpec.AO (specOf (Card.Module_ c)) <=? index) with false
    by (symmetry; apply Z.leb_gt; lia).
  reflexivity.
Qed.

Lemma neb_of_bool (state : bool) :
  F32.neb (if state then F32.one else F32.zero) F32.zero = state.
Proof using Type.
  clear bus dial now rangeMap rangeMap_perm.
  destruct state; vm_compute; reflexivity.
Qed.

(** X16.  A digital write from the queue to the bus.  [QueueWriteDO] of a
    channel of a registered card is accepted and sends nothing.  At the
    next flush the state asked for is compared with the cached state of
    the channel: when they are equal nothing is sent, otherwise one
    WriteMultipleCoils goes to the slave of the card, for that one coil
    and with the state asked for. *)
Theorem QueueWriteDO_reaches_bus (cardID : string) (index : Z) (state : bool)
    (c : Card.t) (w : World.t) :
  portsOpen (World.mgr w) ->
  Manager.cards (World.mgr w) !! cardID = Some c ->
  0 <= index < ModelSpec.DO (specOf (Card.Module_ c)) ->
  Manager.writeQueue (World.mgr w) = [] ->
  exists w1 w2 tr,
    QueueWriteDO cardID index state w = Ok None w1 /\
    World.trace w1 = World.trace w /\
    ProcessWriteQueue w1 = Ok tt w2 /\
    World.trace w2 = World.trace w ++ tr /\
    Manager.writeQueue (World.mgr w2) = [] /\
    map evTarget tr
    = if decide (CardState.DO (Card.Last c) !! Z.to_nat index = Some state)
      then []
      else [Some (Card.PortPath c, Card.SlaveID c,
                  WriteMultipleCoils index 1 [if state then 1 else 0])].
Proof.
  intros Hopen Hc Hidx Hq.
  set (op := writeOperation.mk cardID writeOpDO index (if state then F32.one else F32.zero) "").
  eexists. rewrite (QueueWriteDO_run _ _ _ c w Hc Hidx). rewrite Hq. cbn [app]. fold op.
  set (w1 := World.mk (Manager.set_writeQueue [op] (World.mgr w)) (World.trace w)).
  assert (Hopen1 : portsOpen (World.mgr w1)) by exact Hopen.
  destruct (ProcessWriteQueue_frames w1 Hopen1) as (w2 & tr & Hrun & Htr & Hev & Hq2 & _).
  exists w2, tr. split; [reflexivity|]. split; [reflexivity|]. split; [exact Hrun|].
  split; [exact Htr|]. split; [exact Hq2|]. rewrite Hev.
  change (Manager.writeQueue (World.mgr w1)) with [op].
  rewrite (batchRequests_single _ op c) by (assumption || exact Hidx).
  pose proof (shouldWrite_cachedEqual c op (proj1 Hidx)) as Hsw.
  unfold cachedEqual, op in Hsw. cbn [writeOperation.Type_ writeOperation.Index
    writeOperation.Value] in Hsw. fold op in Hsw. rewrite neb_of_bool in Hsw.
  destruct (decide (CardState.DO (Card.Last c) !! Z.to_nat index = Some state)) as [He|Hne].
  - destruct (shouldWrite op c); [|reflexivity]. exfalso. apply (proj1 Hsw eq_refl), He.
  - rewrite (proj2 Hsw Hne). unfold groupRequests.
    cbn [WriteGroup.Operations WriteGroup.RegisterType].
    rewrite writeWindow_single. unfold firstIndex. rewrite minIndex_single.
    unfold op. cbn [writeOperation.Type_ writeOperation.Index writeOperation.Value length map].
    rewrite neb_of_bool.
    pose proof (specOf_bounds (Card.Module_ c)) as (_ & Hdo & _). cbv zeta in Hdo.
    unfold uint16. rewrite !Z.mod_small by lia.
    destruct state; reflexivity.
Qed.

(** X17.  An analog write from the queue to the bus.  [QueueWriteAO] of a
    channel of a registered card is accepted and sends nothing.  At the
    next flush nothing is sent when the cache holds an equal value for the
    channel; otherwise one WriteMultipleRegisters goes to the slave of the
    card, at register [2 * index], of two registers holding the bits of
    the value, high byte first. *)
Theorem QueueWriteAO_reaches_bus (cardID : string) (index : Z) (value : F32.t)
    (c : Card.t) (w : World.t) :
  portsOpen (World.mgr w) ->
  Manager.cards (World.mgr w) !! cardID = Some c ->
  0 <= index < ModelSpec.AO (specOf (Card.Module_ c)) ->
  Manager.writeQueue (World.mgr w) = [] ->
  exists w1 w2 tr,
    QueueWriteAO cardID index value w = Ok None w1 /\
    World.trace w1 = World.trace w /\
    ProcessWriteQueue w1 = Ok tt w2 /\
    World.trace w2 = World.trace w ++ tr /\
    Manager.writeQueue (World.mgr w2) = [] /\
    map evTarget tr
    = if match CardState.AO (Card.Last c) !! Z.to_nat index with
         | Some v => F32.eqb v value
         | None => false
         end
      then []
      else [Some (Card.PortPath c, Card.SlaveID c,
                  WriteMultipleRegisters (index * 2) 2 (be_put_uint32 value))].
Proof.
  intros Hopen Hc Hidx Hq.
  set (op := writeOperation.mk cardID writeOpAO index value "").
  eexists. rewrite (QueueWriteAO_run _ _ _ c w Hc Hidx). rewrite Hq. cbn [app]. fold op.
  set (w1 := World.mk (Manager.set_writeQueue [op] (World.mgr w)) (World.trace w)).
  assert (Hopen1 : portsOpen (World.mgr w1)) by exact Hopen.
  destruct (ProcessWriteQueue_frames w1 Hopen1) as (w2 & tr & Hrun & Htr & Hev & Hq2 & _).
  exists w2, tr. split; [reflexivity|]. split; [reflexivity|]. split; [exact Hrun|].
  split; [exact Htr|]. split; [exact Hq2|]. rewrite Hev.
  change (Manager.writeQueue (World.mgr w1)) with [op].
  rewrite (batchRequests_single _ op c) by (assumption || exact Hidx).
  pose proof (shouldWrite_cachedEqual c op (proj1 Hidx)) as Hsw.
  unfold cachedEqual, op in Hsw. cbn [writeOperation.Type_ writeOperation.Index
    writeOperation.Value] in Hsw. fold op in Hsw.
  destruct (CardState.AO (Card.Last c) !! Z.to_nat index) as [v|] eqn:Hv.
  - destruct (F32.eqb v value) eqn:Heq.
    + destruct (shouldWrite op c); [|reflexivity]. exfalso.
      apply (proj1 Hsw eq_refl). exists v. auto.
    + rewrite (proj2 Hsw); [|intros (v' & Hv' & He); congruence].
      unfold groupRequests.
      cbn [WriteGroup.Operations WriteGroup.RegisterType].
      rewrite !writeWindow_single. unfold firstIndex. rewrite minIndex_single.
      unfold op. cbn [writeOperation.Type_ writeOperation.Index writeOperation.Value length map].
      pose proof (specOf_bounds (Card.Module_ c)) as (_ & _ & _ & Hao). cbv zeta in Hao.
      unfold uint16, putFloats. rewrite !Z.mod_small by lia. simpl. reflexivity.
  - rewrite (proj2 Hsw); [|intros (v' & Hv' & He); congruence].
    unfold groupRequests.
    cbn [WriteGroup.Operations WriteGroup.RegisterType].
    rewrite !writeWindow_single. unfold firstIndex. rewrite minIndex_single.
    unfold op. cbn [writeOperation.Type_ writeOperation.Index writeOperation.Value length map].
    pose proof (specOf_bounds (Card.Module_ c)) as (_ & _ & _ & Hao). cbv zeta in Hao.
    unfold uint16, putFloats. rewrite !Z.mod_small by lia. simpl. reflexivity.
Qed.

(** ** What a computation puts on the bus *)

Lemma talks_ret {A} (Pre : Manager.t -> Prop) P (a : A) : talks Pre Pre P (mret a).
Proof using Type.
  clear bus dial now rangeMap rangeMap_perm.
  intros w a' w' Hpre H. inversion H; subst. split; [exact Hpre|].
  exists []. split; [symmetry; apply app_nil_r|constructor].
Qed.

Lemma talks_bind {A B} (Pre Mid Post : Manager.t -> Prop) P (c : M A) (f : A -> M B) :
  talks Pre Mid P c -> (forall a, talks Mid Post P (f a)) -> talks Pre Post P (c ≫= f).
Proof using Type.
  clear bus dial now rangeMap rangeMap_perm.
  intros Hc Hf w b w'' Hpre H. apply bind_inv in H as (a & w' & H1 & H2).
  destruct (Hc _ _ _ Hpre H1) as (Hmid & tr1 & Ht1 & HP1).
  destruct (Hf _ _ _ _ Hmid H2) as (Hpost & tr2 & Ht2 & HP2).
  split; [exact Hpost|]. exists (tr1 ++ tr2).
  split; [rewrite Ht2, Ht1, app_assoc; reflexivity|apply Forall_app; split; assumption].
Qed.

Lemma talks_must {A} (Pre : Manager.t -> Prop) P (o : option A) : talks Pre Pre P (must o).
Proof using Type.
  clear bus dial now rangeMap rangeMap_perm.
  intros w a w' Hpre H. unfold must in H. destruct o; inversion H; subst.
  split; [exact Hpre|]. exists []. split; [symmetry; apply app_nil_r|constructor].
Qed.

Lemma talks_timeNow (Pre : Manager.t -> Prop) P : talks Pre Pre P timeNow.
Proof using Type.
  clear bus dial rangeMap rangeMap_perm.
  intros w a w' Hpre H. inversion H; subst.
  split; [exact Hpre|]. exists []. split; [symmetry; apply app_nil_r|constructor].
Qed.

Lemma talks_clientCall pc slave rq :
  isReadRequest rq = true ->
  talks (aimed pc slave) (aimed pc slave) (readOf pc slave) (clientCall pc rq).
Proof using Type.
  clear dial now rangeMap rangeMap_perm.
  intros Hrq w a w' Hpre H. rewrite clientCall_run in H. inversion H; subst.
  split; [exact Hpre|]. eexists. split; [reflexivity|].
  constructor; [|constructor]. simpl. auto.
Qed.

Lemma talks_setSlaveID pc slave P :
  talks (fun m => is_Some (Manager.ports m !! pc)) (aimed pc slave) P (setSlaveID pc slave).
Proof using Type.
  clear bus dial now rangeMap rangeMap_perm.
  intros w a w' Hpre H. rewrite setSlaveID_run in H. inversion H; subst.
  split; [apply handlerSlave_withSlave; exact Hpre|].
  exists []. split; [symmetry; apply app_nil_r|constructor].
Qed.

Lemma talks_readSerialNumber pc slave :
  talks (aimed pc slave) (aimed pc slave) (readOf pc slave) (readSerialNumber pc).
Proof using Type.
  clear dial now rangeMap rangeMap_perm.
  unfold readSerialNumber. eapply talks_bind; [apply talks_clientCall; reflexivity|].
  intros [snRaw|e]; [|apply talks_ret]. destruct (_ <? 20); apply talks_ret.
Qed.

Lemma talks_readBaudRate pc slave :
  talks (aimed pc slave) (aimed pc slave) (readOf pc slave) (readBaudRate pc).
Proof using Type.
  clear dial now rangeMap rangeMap_perm.
  unfold readBaudRate. eapply talks_bind; [apply talks_clientCall; reflexivity|].
  intros [raw|e]; [|apply talks_ret]. destruct (_ <? 4); apply talks_ret.
Qed.

Lemma talks_readCard_identity pc slave readAll state :
  talks (aimed pc slave) (aimed pc slave) (readOf pc slave)
        (readCard_identity pc readAll state).
Proof using Type.
  clear dial now rangeMap rangeMap_perm.
  unfold readCard_identity. destruct readAll; [|apply talks_ret].
  eapply talks_bind; [apply talks_readSerialNumber|]. intros sn.
  eapply talks_bind; [apply talks_readBaudRate|]. intros baud. apply talks_ret.
Qed.

Lemma talks_readCard_AO pc slave spec readAll state :
  talks (aimed pc slave) (aimed pc slave) (readOf pc slave)
        (readCard_AO pc spec readAll state).
Proof using Type.
  clear dial now rangeMap rangeMap_perm.
  unfold readCard_AO. destruct (0 <? _); [|apply talks_readCard_identity].
  eapply talks_bind; [apply talks_clientCall; reflexivity|].
  intros [raw|e]; [|apply talks_ret].
  eapply talks_bind; [apply talks_must|]. intros ao.
  destruct readAll; [|apply talks_readCard_identity].
  eapply talks_bind; [apply talks_clientCall; reflexivity|].
  intros [typeRaw|e]; [|apply talks_readCard_identity].
  eapply talks_bind; [apply talks_must|]. intros types. apply talks_readCard_identity.
Qed.

Lemma talks_readCard_AI pc slave spec readAll state :
  talks (aimed pc slave) (aimed pc slave) (readOf pc slave)
        (readCard_AI pc spec readAll state).
Proof using Type.
  clear dial now rangeMap rangeMap_perm.
  unfold readCard_AI. destruct (0 <? _); [|apply talks_readCard_AO].
  eapply talks_bind; [apply talks_clientCall; reflexivity|].
  intros [raw|e]; [|apply talks_ret].
  eapply talks_bind; [apply talks_must|]. intros ai. apply talks_readCard_AO.
Qed.

Lemma talks_readCard_DO pc slave spec readAll state :
  talks (aimed pc slave) (aimed pc slave) (readOf pc slave)
        (readCard_DO pc spec readAll state).
Proof using Type.
  clear dial now rangeMap rangeMap_perm.
  unfold readCard_DO. destruct (0 <? _); [|apply talks_readCard_AI].
  eapply talks_bind; [apply talks_clientCall; reflexivity|].
  intros [raw|e]; [apply talks_readCard_AI|apply talks_ret].
Qed.

(** [readCard] through an open port sends read requests only, all of them
    to the slave it was called for. *)
Lemma talks_readCard pc slave spec readAll :
  talks (fun m => is_Some (Manager.ports m !! pc)) (aimed pc slave) (readOf pc slave)
        (readCard pc slave spec readAll).
Proof using Type.
  clear dial rangeMap rangeMap_perm.
  unfold readCard. eapply talks_bind; [apply talks_setSlaveID|]. intros [].
  eapply talks_bind; [apply talks_timeNow|]. intros ts. cbv zeta.
  destruct (0 <? _); [|apply talks_readCard_DO].
  eapply talks_bind; [apply talks_clientCall; reflexivity|].
  intros [raw|e]; [apply talks_readCard_DO|apply talks_ret].
Qed.

Lemma talks_detectModel pc slave :
  talks (fun m => is_Some (Manager.ports m !! pc)) (aimed pc slave) (readOf pc slave)
        (detectModel pc slave).
Proof using Type.
  clear dial now rangeMap rangeMap_perm.
  unfold detectModel, probeCounts, probeDI, probeDO, probeAI, probeAO.
  eapply talks_bind; [apply talks_setSlaveID|]. intros [].
  repeat first
    [ apply talks_ret
    | apply talks_clientCall; reflexivity
    | eapply talks_bind
    | intros [? | ?]
    | intros [[[? ?] ?] ?]
    | intro ].
Qed.

Lemma talks_post {A} (Pre Post Post' : Manager.t -> Prop) P (c : M A) :
  (forall m, Post m -> Post' m) -> talks Pre Post P c -> talks Pre Post' P c.
Proof using Type.
  clear bus dial now rangeMap rangeMap_perm.
  intros Hw Hc w a w' Hpre H. destruct (Hc _ _ _ Hpre H) as (Hpost & Htr).
  split; [apply Hw, Hpost|exact Htr].
Qed.

Lemma talks_resolveModule pc slave module :
  talks (fun m => is_Some (Manager.ports m !! pc)) (fun _ => True) (readOf pc slave)
        (resolveModule pc slave module).
Proof using Type.
  clear dial now rangeMap rangeMap_perm.
  unfold resolveModule. destruct (decide (module = "")).
  - eapply talks_bind; [apply talks_detectModel|]. intros g.
    apply (talks_post _ (aimed pc slave)); [auto|].
    destruct (decide (g = "")); apply talks_ret.
  - apply (talks_post _ (fun m => is_Some (Manager.ports m !! pc))); [auto|]. apply talks_ret.
Qed.

(** X18.  Registering a card only reads.  What [AddCard] adds to the trace
    is the opening of the port, when it was not open yet, and read requests
    to the slave it was called for on that port: the probes of the
    detection and the first full read.  It writes nothing to any device. *)
Theorem AddCard_only_reads (portPath : string) (slave : Z) (module : string)
    (w : World.t) (r : Card.t + string) (w' : World.t) :
  AddCard portPath slave module w = Ok r w' ->
  exists tr,
    World.trace w' = World.trace w ++ tr /\
    Forall (fun ev => readOf portPath slave ev \/ exists e, ev = EvDial portPath e) tr /\
    (is_Some (Manager.ports (World.mgr w) !! portPath) -> Forall (readOf portPath slave) tr).
Proof.
  intros H. rewrite AddCard_unfold in H.
  apply bind_inv in H as (rp & w1 & Hport & H).
  assert (Hrest : forall pc, rp = inl pc ->
            pc = portPath /\ is_Some (Manager.ports (World.mgr w1) !! portPath) /\
            exists tr, World.trace w' = World.trace w1 ++ tr /\ Forall (readOf portPath slave) tr).
  { intros pc ->.
    assert (Hpc : pc = portPath /\ is_Some (Manager.ports (World.mgr w1) !! portPath)).
    { destruct (ensurePort_cases portPath w)
        as [[Hp Hrun] | [[_ (w1' & Hrun & _ & _ & Hp)] | [_ (e & Hrun)]]];
        rewrite Hrun in Hport; inversion Hport; subst; auto. }
    destruct Hpc as [-> Hp1]. split; [reflexivity|]. split; [exact Hp1|].
    apply bind_inv in H as (d & w2 & Hres & H).
    destruct (talks_resolveModule _ _ _ _ _ _ Hp1 Hres) as (_ & tr2 & Ht2 & HP2).
    pose proof (keepsRegistry_resolveModule _ _ _ _ _ _ Hres) as (_ & _ & _ & _ & _ & Hports2).
    destruct d as [module'|e];
      [|inversion H; subst; exists tr2; split; assumption].
    destruct (ModelTable !! module') as [spec|];
      [|inversion H; subst; exists tr2; split; assumption].
    erewrite bind_Ok in H by reflexivity. cbv zeta in H.
    erewrite bind_Ok in H by reflexivity.
    change (World.mk _ _) with (registerCard portPath slave spec w2) in H.
    apply bind_inv in H as ([st err] & w3 & Hread & H).
    assert (Hp2 : is_Some (Manager.ports (World.mgr (registerCard portPath slave spec w2))
                             !! portPath)) by (apply Hports2, Hp1).
    destruct (talks_readCard _ _ _ _ _ _ _ Hp2 Hread) as (_ & tr3 & Ht3 & HP3).
    change (World.trace (registerCard portPath slave spec w2)) with (World.trace w2) in Ht3.
    assert (Ht : World.trace w' = World.trace w3).
    { destruct err as [e|]; [inversion H; subst; reflexivity|].
      erewrite bind_Ok in H by apply updateCard_run. inversion H; subst. reflexivity. }
    exists (tr2 ++ tr3). split; [rewrite Ht, Ht3, Ht2, app_assoc; reflexivity|].
    apply Forall_app. split; assumption. }
  destruct (ensurePort_cases portPath w)
    as [[Hp Hrun] | [[Hp (w1' & Hrun & Htr1 & _)] | [Hp (e & Hrun)]]];
    rewrite Hrun in Hport; inversion Hport; subst.
  - destruct (Hrest _ eq_refl) as (_ & _ & tr & Ht & HP). exists tr.
    split; [exact Ht|]. split; [|intros _; exact HP].
    eapply Forall_impl; [exact HP|]. intros ev Hev. left. exact Hev.
  - destruct (Hrest _ eq_refl) as (_ & _ & tr & Ht & HP). exists (EvDial portPath None :: tr).
    split; [rewrite Ht, Htr1, <- app_assoc; reflexivity|]. split.
    + constructor; [right; eauto|]. eapply Forall_impl; [exact HP|]. intros ev Hev. left. exact Hev.
    + intros [p Hp']. congruence.
  - inversion H; subst. exists [EvDial portPath (Some e)]. split; [reflexivity|]. split.
    + constructor; [right; eauto|constructor].
    + intros [p Hp']. congruence.
Qed.

(** ** The order of the cards *)

Lemma insertByID_perm c l : Permutation (insertByID c l) (c :: l).
Proof using Type.
  clear bus dial now rangeMap rangeMap_perm.
  induction l as [|d l IH]; [reflexivity|]. simpl.
  destruct (Atoi (Card.ID c) <? Atoi (Card.ID d)); [reflexivity|].
  rewrite IH. apply perm_swap.
Qed.

Lemma sortByID_perm l : Permutation (sortByID l) l.
Proof using Type.
  clear bus dial now rangeMap rangeMap_perm.
  induction l as [|c l IH]; [reflexivity|]. simpl.
  rewrite insertByID_perm. constructor. exact IH.
Qed.

Lemma insertByID_sorted c l :
  StronglySorted beforeID l ->
  Forall (fun d => Atoi (Card.ID d) <> Atoi (Card.ID c)) l ->
  StronglySorted beforeID (insertByID c l).
Proof using Type.
  clear bus dial now rangeMap rangeMap_perm.
  induction l as [|d l IH]; intros Hs Hne; simpl.
  - constructor; constructor.
  - apply StronglySorted_inv in Hs as [Hs Hd]. apply Forall_cons in Hne as [Hdc Hne].
    destruct (Atoi (Card.ID c) <? Atoi (Card.ID d)) eqn:E.
    + apply Z.ltb_lt in E. constructor; [constructor; assumption|].
      constructor; [exact E|]. eapply Forall_impl; [exact Hd|].
      intros x Hx. unfold beforeID in *. lia.
    + apply Z.ltb_ge in E. constructor; [apply IH; assumption|].
      rewrite insertByID_perm. constructor; [unfold beforeID; lia|exact Hd].
Qed.

Lemma sortByID_sorted l :
  NoDup (map (fun c => Atoi (Card.ID c)) l) -> StronglySorted beforeID (sortByID l).
Proof using Type.
  clear bus dial now rangeMap rangeMap_perm.
  induction l as [|c l IH]; intros Hnd; simpl; [constructor|].
  apply NoDup_cons in Hnd as [Hc Hnd]. apply insertByID_sorted; [apply IH, Hnd|].
  rewrite sortByID_perm. apply Forall_forall. intros d Hd Heq. apply Hc.
  rewrite <- Heq. apply list_elem_of_fmap. exists d. split; [reflexivity|exact Hd].
Qed.

Global Instance beforeID_antisymm : AntiSymm (=) beforeID.
Proof using Type.
  clear bus dial now rangeMap rangeMap_perm.
  intros c d H1 H2. unfold beforeID in *. lia.
Qed.

(** With distinct numeric IDs the sorted list does not depend on the order
    the cards were collected in. *)
Lemma sortByID_order l1 l2 :
  NoDup (map (fun c => Atoi (Card.ID c)) l1) -> Permutation l1 l2 ->
  sortByID l1 = sortByID l2.
Proof using Type.
  clear bus dial now rangeMap rangeMap_perm.
  intros Hnd Hp. apply (StronglySorted_unique beforeID).
  - apply sortByID_sorted, Hnd.
  - apply sortByID_sorted. rewrite <- Hp. exact Hnd.
  - rewrite !sortByID_perm. exact Hp.
Qed.

Lemma registry_keys_NoDup m :
  registryOK m ->
  NoDup (map (fun c => Atoi (Card.ID c)) (map snd (map_to_list (Manager.cards m)))).
Proof using Type.
  clear bus dial now rangeMap rangeMap_perm.
  intros [_ Hok]. rewrite map_map.
  apply NoDup_fmap_2_strong.
  - intros [id1 c1] [id2 c2] H1 H2 Heq. simpl in Heq.
    apply elem_of_map_to_list in H1, H2.
    destruct (Hok _ _ H1) as (Hi1 & _ & n1 & _ & Hn1).
    destruct (Hok _ _ H2) as (Hi2 & _ & n2 & _ & Hn2).
    assert (Hn : n1 = n2).
    { rewrite Hi1, Hi2 in Heq. rewrite Hn1, Hn2, !Atoi_Itoa in Heq. exact Heq. }
    assert (Hid : id1 = id2) by congruence.
    rewrite Hid in H1. assert (c1 = c2) by congruence. congruence.
  - apply NoDup_map_to_list.
Qed.

(** ** The read cycle *)

Lemma callbacks_app tr1 tr2 : callbacks (tr1 ++ tr2) = callbacks tr1 ++ callbacks tr2.
Proof using Type.
  clear bus dial now rangeMap rangeMap_perm.
  unfold callbacks. apply omap_app.
Qed.

Lemma callbacks_readOf pc slave tr : Forall (readOf pc slave) tr -> callbacks tr = [].
Proof using Type.
  clear bus dial now rangeMap rangeMap_perm.
  induction 1 as [|ev tr Hev _ IH]; [reflexivity|].
  destruct ev; simpl in Hev; try contradiction. exact IH.
Qed.

Lemma callbacks_targets tr : forall frames,
  map evTarget tr = map Some frames -> callbacks tr = [].
Proof using Type.
  clear bus dial now rangeMap rangeMap_perm.
  induction tr as [|ev tr IH]; intros [|f frames] H; try discriminate; [reflexivity|].
  simpl in H. injection H as Hev Htl. destruct ev; try discriminate.
  simpl. exact (IH _ Htl).
Qed.

Lemma callbacks_groupRun m g tr : groupRun m g tr -> callbacks tr = [].
Proof using Type.
  clear bus dial now rangeMap rangeMap_perm.
  intros [Hatt _]. unfold groupAttempt in Hatt.
  destruct (Manager.cards m !! WriteGroup.CardID g) as [c|]; [|subst; reflexivity].
  destruct Hatt as [H|[(tr' & -> & H)|(e & ->)]].
  - exact (callbacks_targets _ _ H).
  - simpl. exact (callbacks_targets _ _ H).
  - reflexivity.
Qed.

Lemma callbacks_groups m gs trs : Forall2 (groupRun m) gs trs -> callbacks (concat trs) = [].
Proof using Type.
  clear bus dial now rangeMap rangeMap_perm.
  induction 1 as [|g tr gs trs Hg _ IH]; [reflexivity|].
  simpl. rewrite callbacks_app, (callbacks_groupRun _ _ _ Hg), IH. reflexivity.
Qed.

(** The flush of the queue never calls the callback and leaves all but
    the queue and the ports as it is. *)
Lemma ProcessWriteQueue_quiet w :
  exists w' tr,
    ProcessWriteQueue w = Ok tt w' /\
    World.trace w' = World.trace w ++ tr /\ callbacks tr = [] /\
    Manager.cards (World.mgr w') = Manager.cards (World.mgr w) /\
    Manager.nextID (World.mgr w') = Manager.nextID (World.mgr w) /\
    Manager.stateChangeCallback (World.mgr w') = Manager.stateChangeCallback (World.mgr w) /\
    Manager.writeQueue (World.mgr w') = [] /\
    (forall p, is_Some (Manager.ports (World.mgr w) !! p) ->
               is_Some (Manager.ports (World.mgr w') !! p)).
Proof.
  unfold ProcessWriteQueue. erewrite bind_Ok by reflexivity.
  erewrite bind_Ok by reflexivity.
  set (w0 := World.mk (Manager.set_writeQueue [] (World.mgr w)) (World.trace w)).
  destruct (length (Manager.writeQueue (World.mgr w)) =? 0)%nat.
  - exists w0, []. split; [reflexivity|]. split; [symmetry; apply app_nil_r|].
    repeat split; auto.
  - destruct (ProcessBatchWrite_run (Manager.writeQueue (World.mgr w)) w0)
      as (rs & trs & Hrun & _ & Htr & Hf2 & Hreg & _).
    erewrite bind_Ok by exact Hrun. eexists _, (concat trs). split; [reflexivity|].
    split; [exact Htr|]. split; [exact (callbacks_groups _ _ _ Hf2)|].
    destruct Hreg as (Hcards & Hn & Hq & Hcb & _ & Hports).
    repeat split; assumption.
Qed.

(** One turn of the loop of the cycle, for the card [id]. *)
Lemma cycleCard_step h id w :
  registerRepliesSized -> portsOpen (World.mgr w) ->
  exists h' w' tr,
    cycleCard h id w = Ok h' w' /\
    World.trace w' = World.trace w ++ tr /\ callbacks tr = [] /\
    (forall id', id' <> id ->
       Manager.cards (World.mgr w') !! id' = Manager.cards (World.mgr w) !! id') /\
    match Manager.cards (World.mgr w) !! id with
    | None =>
        Manager.cards (World.mgr w') !! id = None /\ h' = h /\
        Manager.writeQueue (World.mgr w') = Manager.writeQueue (World.mgr w)
    | Some c =>
        exists c', Manager.cards (World.mgr w') !! id = Some c' /\ sameStatic c c' /\
          Card.needsFullRead c' = false /\
          h' = h || detectStateChange (Card.Last c) (Card.Last c') /\
          Manager.writeQueue (World.mgr w') = []
    end /\
    Manager.nextID (World.mgr w') = Manager.nextID (World.mgr w) /\
    Manager.stateChangeCallback (World.mgr w') = Manager.stateChangeCallback (World.mgr w) /\
    (forall p, is_Some (Manager.ports (World.mgr w) !! p) ->
               is_Some (Manager.ports (World.mgr w') !! p)).
Proof.
  intros Hsized Hopen. unfold cycleCard. erewrite bind_Ok by reflexivity.
  destruct (Manager.cards (World.mgr w) !! id) as [c|] eqn:Hc.
  2:{ exists h, w, []. split; [reflexivity|]. split; [symmetry; apply app_nil_r|].
      split; [reflexivity|]. split; [reflexivity|]. rewrite Hc. auto 10. }
  destruct (Hopen _ _ Hc) as [p Hp]. rewrite Hp.
  set (w0 := withCard id (Card.set_needsFullRead false) w).
  assert (Hpre : (if Card.needsFullRead c
                  then updateCard id (Card.set_needsFullRead false)
                  else mret tt) w = Ok tt w0).
  { destruct (Card.needsFullRead c) eqn:Hflag; [reflexivity|].
    unfold w0. rewrite (withCard_id id _ w c Hc); [reflexivity|].
    destruct c; simpl in *; subst; reflexivity. }
  erewrite bind_Ok by exact Hpre.
  destruct (readCard (Card.PortPath c) (Card.SlaveID c) (specOf (Card.Module_ c))
              (Card.needsFullRead c) w0) as [[st err] w1|] eqn:Hread;
    [|exfalso; exact (readCard_returns _ _ _ _ _ Hsized Hread)].
  erewrite bind_Ok by exact Hread. cbv beta iota.
  pose proof (keepsRegistry_readCard _ _ _ _ _ _ _ Hread)
    as (Hcards1 & Hn1 & Hq1 & Hcb1 & _ & Hports1).
  assert (Hp0 : is_Some (Manager.ports (World.mgr w0) !! Card.PortPath c)) by (exists p; exact Hp).
  destruct (talks_readCard _ _ _ _ _ _ _ Hp0 Hread) as (_ & tr1 & Ht1 & HP1).
  assert (Hc1 : Manager.cards (World.mgr w1) !! id = Some (Card.set_needsFullRead false c)).
  { rewrite Hcards1. apply withCard_lookup, Hc. }
  erewrite bind_Ok by apply updateCard_run.
  match goal with |- context [withCard id ?f w1] => set (w2 := withCard id f w1) end.
  set (c' := Card.set_Last (cycleLast c st err) (Card.set_needsFullRead false c)).
  assert (Hc2 : Manager.cards (World.mgr w2) !! id = Some c').
  { unfold w2. rewrite (withCard_lookup _ _ _ _ Hc1). unfold c', cycleLast.
    destruct err; reflexivity. }
  erewrite bind_Ok by reflexivity. cbv zeta. rewrite Hc2. cbn [from_option].
  destruct (ProcessWriteQueue_quiet w2)
    as (w3 & tr3 & Hrun3 & Ht3 & Hcb3 & Hcards3 & Hn3 & Hs3 & Hq3 & Hports3).
  erewrite bind_Ok by exact Hrun3.
  eexists _, w3, (tr1 ++ tr3). split; [reflexivity|].
  split; [rewrite Ht3; change (World.trace w2) with (World.trace w1);
          rewrite Ht1, app_assoc; reflexivity|].
  split; [rewrite callbacks_app, (callbacks_readOf _ _ _ HP1), Hcb3; reflexivity|].
  split.
  { intros id' Hne. rewrite Hcards3. unfold w2, withCard.
    cbn [World.mgr Manager.cards Manager.set_cards].
    rewrite lookup_alter_ne by congruence. rewrite Hcards1. unfold w0, withCard.
    cbn [World.mgr Manager.cards Manager.set_cards]. apply lookup_alter_ne. congruence. }
  split.
  { exists c'. split; [rewrite Hcards3; exact Hc2|]. split; [repeat split|].
    split; [reflexivity|]. split; [|exact Hq3].
    destruct h; reflexivity. }
  split; [rewrite Hn3; exact Hn1|]. split; [rewrite Hs3; exact Hcb1|].
  intros q Hq. apply Hports3, Hports1. exact Hq.
Qed.

Lemma sameStatic_refl c : sameStatic c c.
Proof using Type.
  clear bus dial now rangeMap rangeMap_perm.
  repeat split.
Qed.

Lemma sameStatic_trans c1 c2 c3 : sameStatic c1 c2 -> sameStatic c2 c3 -> sameStatic c1 c3.
Proof using Type.
  clear bus dial now rangeMap rangeMap_perm.
  intros (?&?&?&?) (?&?&?&?). repeat split; congruence.
Qed.

Lemma cardsEvolve_refl m : cardsEvolve m m.
Proof using Type.
  clear bus dial now rangeMap rangeMap_perm.
  intros id. destruct (Manager.cards m !! id); [apply sameStatic_refl|exact I].
Qed.

Lemma cardsEvolve_trans m1 m2 m3 : cardsEvolve m1 m2 -> cardsEvolve m2 m3 -> cardsEvolve m1 m3.
Proof using Type.
  clear bus dial now rangeMap rangeMap_perm.
  intros H12 H23 id. specialize (H12 id). specialize (H23 id).
  destruct (Manager.cards m1 !! id), (Manager.cards m2 !! id), (Manager.cards m3 !! id);
    try contradiction; try exact I.
  eapply sameStatic_trans; eassumption.
Qed.

Lemma portsOpen_evolve m m' :
  cardsEvolve m m' ->
  (forall p, is_Some (Manager.ports m !! p) -> is_Some (Manager.ports m' !! p)) ->
  portsOpen m -> portsOpen m'.
Proof using Type.
  clear bus dial now rangeMap rangeMap_perm.
  intros Hev Hports Hopen id c' Hc'. specialize (Hev id). rewrite Hc' in Hev.
  destruct (Manager.cards m !! id) as [c|] eqn:Hc; [|contradiction].
  destruct Hev as (_ & -> & _). apply Hports, (Hopen _ _ Hc).
Qed.

Lemma registryOK_evolve m m' :
  cardsEvolve m m' -> Manager.nextID m' = Manager.nextID m -> registryOK m -> registryOK m'.
Proof using Type.
  clear bus dial now rangeMap rangeMap_perm.
  intros Hev Hn [H1 Hok]. split; [rewrite Hn; exact H1|]. intros id c' Hc'.
  specialize (Hev id). rewrite Hc' in Hev.
  destruct (Manager.cards m !! id) as [c|] eqn:Hc; [|contradiction].
  destruct Hev as (Hid & _ & _ & Hmod). destruct (Hok _ _ Hc) as (Ha & Hb & Hc3).
  rewrite Hid, Hmod, Hn. auto.
Qed.

(** The loop of the cycle over the cards [ids]. *)
Lemma cycle_loop :
  registerRepliesSized ->
  forall ids, NoDup ids -> forall h w, portsOpen (World.mgr w) ->
  exists h' w' tr,
    foldM ids h cycleCard w = Ok h' w' /\
    World.trace w' = World.trace w ++ tr /\ callbacks tr = [] /\
    (forall id, id ∉ ids ->
       Manager.cards (World.mgr w') !! id = Manager.cards (World.mgr w) !! id) /\
    cardsEvolve (World.mgr w) (World.mgr w') /\
    (h' = true <->
     h = true \/
     exists id c c', id ∈ ids /\ Manager.cards (World.mgr w) !! id = Some c /\
       Manager.cards (World.mgr w') !! id = Some c' /\
       detectStateChange (Card.Last c) (Card.Last c') = true) /\
    (forall id c, id ∈ ids -> Manager.cards (World.mgr w) !! id = Some c ->
       Manager.writeQueue (World.mgr w') = [] /\
       exists c', Manager.cards (World.mgr w') !! id = Some c' /\
                  Card.needsFullRead c' = false) /\
    (Manager.writeQueue (World.mgr w) = [] -> Manager.writeQueue (World.mgr w') = []) /\
    Manager.nextID (World.mgr w') = Manager.nextID (World.mgr w) /\
    Manager.stateChangeCallback (World.mgr w') = Manager.stateChangeCallback (World.mgr w) /\
    (forall p, is_Some (Manager.ports (World.mgr w) !! p) ->
               is_Some (Manager.ports (World.mgr w') !! p)).
Proof.
  intros Hsized ids Hnd. induction Hnd as [|id rest Hnotin Hnd IH]; intros h w Hopen.
  - exists h, w, []. split; [reflexivity|]. split; [symmetry; apply app_nil_r|].
    split; [reflexivity|]. split; [reflexivity|]. split; [apply cardsEvolve_refl|].
    split.
    { split; [auto|]. intros [H|(id & c & c' & Hin & _)]; [exact H|]. inversion Hin. }
    split; [intros id c Hin; inversion Hin|]. auto.
  - destruct (cycleCard_step h id w Hsized Hopen)
      as (h1 & w1 & tr1 & Hrun1 & Ht1 & Hcb1 & Hother1 & Hid1 & Hn1 & Hs1 & Hports1).
    assert (Hev1 : cardsEvolve (World.mgr w) (World.mgr w1)).
    { intros id0. destruct (decide (id0 = id)) as [->|Hne].
      - destruct (Manager.cards (World.mgr w) !! id) as [c|].
        + destruct Hid1 as (c1 & -> & Hst & _). exact Hst.
        + destruct Hid1 as (-> & _). exact I.
      - rewrite (Hother1 _ Hne). apply cardsEvolve_refl. }
    pose proof (portsOpen_evolve _ _ Hev1 Hports1 Hopen) as Hopen1.
    destruct (IH h1 w1 Hopen1)
      as (h' & w' & tr2 & Hrun2 & Ht2 & Hcb2 & Hother2 & Hev2 & Hh2 & Hdone2 & Hq2
          & Hn2 & Hs2 & Hports2).
    assert (Hsame : Manager.cards (World.mgr w') !! id = Manager.cards (World.mgr w1) !! id)
      by (apply Hother2, Hnotin).
    assert (Hrest : forall id0, id0 ∈ rest ->
              Manager.cards (World.mgr w1) !! id0 = Manager.cards (World.mgr w) !! id0).
    { intros id0 Hin. apply Hother1. intros ->. contradiction. }
    exists h', w', (tr1 ++ tr2). split.
    { cbn [foldM]. erewrite bind_Ok by exact Hrun1. exact Hrun2. }
    split; [rewrite Ht2, Ht1, app_assoc; reflexivity|].
    split; [rewrite callbacks_app, Hcb1, Hcb2; reflexivity|].
    split.
    { intros id0 Hin. apply not_elem_of_cons in Hin as [Hne Hin].
      rewrite (Hother2 _ Hin). apply Hother1, Hne. }
    split; [exact (cardsEvolve_trans _ _ _ Hev1 Hev2)|].
    split.
    { rewrite Hh2. split.
      - intros [Hh1|(id0 & c & c' & Hin & Hc & Hc' & Hd)].
        + destruct (Manager.cards (World.mgr w) !! id) as [c|] eqn:Hc.
          * destruct Hid1 as (c1 & Hc1 & _ & _ & Hh & _). rewrite Hh in Hh1.
            apply orb_true_iff in Hh1 as [Hh1|Hd]; [left; exact Hh1|].
            right. exists id, c, c1. split; [left|]. split; [exact Hc|].
            split; [rewrite Hsame; exact Hc1|exact Hd].
          * destruct Hid1 as (_ & -> & _). left. exact Hh1.
        + right. exists id0, c, c'. split; [right; exact Hin|].
          split; [rewrite <- (Hrest _ Hin); exact Hc|]. split; [exact Hc'|exact Hd].
      - intros [Hh|(id0 & c & c' & Hin & Hc & Hc' & Hd)].
        + left. destruct (Manager.cards (World.mgr w) !! id) as [c|].
          * destruct Hid1 as (c1 & _ & _ & _ & -> & _). rewrite Hh. reflexivity.
          * destruct Hid1 as (_ & -> & _). exact Hh.
        + apply elem_of_cons in Hin as [->|Hin].
          * left. rewrite Hc in Hid1. destruct Hid1 as (c1 & Hc1 & _ & _ & -> & _).
            rewrite Hsame, Hc1 in Hc'. injection Hc' as <-. rewrite Hd. apply orb_true_r.
          * right. exists id0, c, c'. split; [exact Hin|].
            split; [rewrite (Hrest _ Hin); exact Hc|]. split; [exact Hc'|exact Hd]. }
    split.
    { intros id0 c Hin Hc. apply elem_of_cons in Hin as [->|Hin].
      - rewrite Hc in Hid1. destruct Hid1 as (c1 & Hc1 & _ & Hflag & _ & Hq1).
        split; [apply Hq2, Hq1|]. exists c1. split; [rewrite Hsame; exact Hc1|exact Hflag].
      - apply (Hdone2 id0 c Hin). rewrite (Hrest _ Hin). exact Hc. }
    split.
    { intros Hq. apply Hq2. destruct (Manager.cards (World.mgr w) !! id) as [c|].
      - destruct Hid1 as (c1 & _ & _ & _ & _ & Hq1). exact Hq1.
      - destruct Hid1 as (_ & _ & ->). exact Hq. }
    split; [rewrite Hn2; exact Hn1|]. split; [rewrite Hs2; exact Hs1|].
    intros p Hp. apply Hports2, Hports1, Hp.
Qed.

Lemma sorted_NoDup l : StronglySorted beforeID l -> NoDup l.
Proof using Type.
  clear bus dial now rangeMap rangeMap_perm.
  induction 1 as [|c l _ IH Hc]; constructor; [|exact IH].
  intros Hin. rewrite Forall_forall in Hc. specialize (Hc c Hin). unfold beforeID in Hc. lia.
Qed.

Lemma sorted_transfer l0 l :
  Forall2 (fun c0 c => Card.ID c = Card.ID c0) l0 l ->
  StronglySorted beforeID l0 -> StronglySorted beforeID l.
Proof using Type.
  clear bus dial now rangeMap rangeMap_perm.
  induction 1 as [|c0 c l0 l Hc Hl IH]; intros Hs; [constructor|].
  apply StronglySorted_inv in Hs as [Hs Hall]. constructor; [apply IH, Hs|].
  clear IH Hs. induction Hl as [|d0 d l0 l Hd _ IH]; [constructor|].
  apply Forall_cons in Hall as [H1 H2]. constructor; [|apply IH, H2].
  unfold beforeID in *. rewrite Hc, Hd. exact H1.
Qed.

Lemma snapshot_Forall2 m0 m l0 :
  cardsEvolve m0 m ->
  Forall (fun c0 => Manager.cards m0 !! Card.ID c0 = Some c0) l0 ->
  exists l,
    omap (fun id => Manager.cards m !! id) (map Card.ID l0) = l /\
    Forall2 (fun c0 c => Manager.cards m !! Card.ID c0 = Some c /\ Card.ID c = Card.ID c0) l0 l.
Proof using Type.
  clear bus dial now rangeMap rangeMap_perm.
  intros Hev. induction 1 as [|c0 l0 Hc0 _ (l & Hl & HF)].
  - exists []. split; [reflexivity|constructor].
  - pose proof (Hev (Card.ID c0)) as H. rewrite Hc0 in H.
    destruct (Manager.cards m !! Card.ID c0) as [c|] eqn:Hc; [|contradiction].
    exists (c :: l). split.
    + subst l. simpl. simpl in Hc. rewrite Hc. reflexivity.
    + constructor; [|exact HF]. split; [exact Hc|apply H].
Qed.

Lemma rangeCards_keys_NoDup m :
  registryOK m -> NoDup (map (fun c => Atoi (Card.ID c)) (rangeCards m)).
Proof.
  intros Hok. unfold rangeCards. rewrite (rangeMap_perm Card.t).
  apply registry_keys_NoDup, Hok.
Qed.

(** The cards of the evolved registry, looked up by the IDs the cycle
    collected at its start, are the snapshot [GetAllCards] takes of it. *)
Lemma snapshot_after m0 m :
  registryOK m0 -> cardsEvolve m0 m -> Manager.nextID m = Manager.nextID m0 ->
  omap (fun id => Manager.cards m !! id) (map Card.ID (sortByID (rangeCards m0)))
  = sortByID (rangeCards m).
Proof.
  intros Hok0 Hev Hn.
  pose proof (registryOK_evolve _ _ Hev Hn Hok0) as Hok.
  assert (Hreg0 : Forall (fun c0 => Manager.cards m0 !! Card.ID c0 = Some c0)
                         (sortByID (rangeCards m0))).
  { apply Forall_forall. intros c0 Hin. rewrite sortByID_perm in Hin.
    apply rangeCards_registered in Hin as (id & Hid).
    destruct Hok0 as [_ Hok0]. destruct (Hok0 _ _ Hid) as (-> & _). exact Hid. }
  destruct (snapshot_Forall2 m0 m _ Hev Hreg0) as (l & -> & HF).
  assert (Hsorted : StronglySorted beforeID l).
  { apply (sorted_transfer (sortByID (rangeCards m0))).
    - eapply Forall2_impl; [exact HF|]. intros c0 c [_ H]. exact H.
    - apply sortByID_sorted, rangeCards_keys_NoDup, Hok0. }
  apply (StronglySorted_unique beforeID).
  - exact Hsorted.
  - apply sortByID_sorted, rangeCards_keys_NoDup, Hok.
  - rewrite sortByID_perm. apply NoDup_Permutation.
    + apply sorted_NoDup, Hsorted.
    + eapply NoDup_fmap_1. apply rangeCards_keys_NoDup, Hok.
    + intros c. rewrite rangeCards_registered. split.
      * intros Hin.
        apply list_elem_of_lookup in Hin as (i & Hi).
        destruct (Forall2_lookup_r _ _ _ i c HF Hi) as (c0 & _ & Hc & _). eauto.
      * intros (id & Hid). pose proof (Hev id) as H. rewrite Hid in H.
        destruct (Manager.cards m0 !! id) as [c0|] eqn:Hc0; [|contradiction].
        assert (Hin0 : c0 ∈ sortByID (rangeCards m0))
          by (rewrite sortByID_perm; apply rangeCards_registered; eauto).
        apply list_elem_of_lookup in Hin0 as (i & Hi).
        destruct (Forall2_lookup_l _ _ _ i c0 HF Hi) as (c' & Hi' & Hc' & _).
        destruct Hok0 as [_ Hok0]. destruct (Hok0 _ _ Hc0) as (Hid0 & _).
        rewrite Hid0, Hid in Hc'. injection Hc' as <-.
        apply list_elem_of_lookup. eauto.
Qed.

Lemma registered_collected m id c :
  registryOK m -> Manager.cards m !! id = Some c ->
  id ∈ map Card.ID (sortByID (rangeCards m)).
Proof.
  intros [_ Hok] Hc. destruct (Hok _ _ Hc) as (Hid & _). rewrite <- Hid.
  apply list_elem_of_fmap. exists c. split; [reflexivity|].
  rewrite sortByID_perm. apply rangeCards_registered. eauto.
Qed.

Lemma collected_NoDup m : registryOK m -> NoDup (map Card.ID (sortByID (rangeCards m))).
Proof.
  intros Hok. pose proof (rangeCards_keys_NoDup m Hok) as Hnd.
  rewrite <- (sortByID_perm (rangeCards m)) in Hnd.
  change (fun c => Atoi (Card.ID c)) with (Atoi ∘ Card.ID) in Hnd.
  rewrite (list_fmap_compose Card.ID Atoi) in Hnd || rewrite <- map_map in Hnd.
  eapply NoDup_fmap_1. exact Hnd.
Qed.

(** A run of the cycle: the loop, the callback and the list returned. *)
Lemma cycle_run w :
  registerRepliesSized -> registryOK (World.mgr w) -> portsOpen (World.mgr w) ->
  exists cards w' tr0 (h : bool),
    ReadAllAndProcessWrites w = Ok cards w' /\
    World.trace w'
    = World.trace w ++ tr0
      ++ (if h && Manager.stateChangeCallback (World.mgr w) then [EvCallback cards] else []) /\
    callbacks tr0 = [] /\
    (h = true <->
     exists id c c', Manager.cards (World.mgr w) !! id = Some c /\
       Manager.cards (World.mgr w') !! id = Some c' /\
       detectStateChange (Card.Last c) (Card.Last c') = true) /\
    cards = sortByID (rangeCards (World.mgr w')) /\
    cardsEvolve (World.mgr w) (World.mgr w') /\
    Manager.nextID (World.mgr w') = Manager.nextID (World.mgr w) /\
    Manager.stateChangeCallback (World.mgr w') = Manager.stateChangeCallback (World.mgr w) /\
    (forall p, is_Some (Manager.ports (World.mgr w) !! p) ->
               is_Some (Manager.ports (World.mgr w') !! p)) /\
    (forall id c', Manager.cards (World.mgr w') !! id = Some c' ->
       Card.needsFullRead c' = false /\ Manager.writeQueue (World.mgr w') = []).
Proof.
  intros Hsized Hok Hopen.
  set (ids := map Card.ID (sortByID (rangeCards (World.mgr w)))).
  destruct (cycle_loop Hsized ids (collected_NoDup _ Hok) false w Hopen)
    as (h & w1 & tr & Hloop & Ht & Hcb & _ & Hev & Hh & Hdone & _ & Hn & Hs & Hports).
  pose proof (snapshot_after _ _ Hok Hev Hn) as Hsnap. fold ids in Hsnap.
  set (cards := sortByID (rangeCards (World.mgr w1))) in *.
  set (w' := if h && Manager.stateChangeCallback (World.mgr w)
             then World.mk (World.mgr w1) (World.trace w1 ++ [EvCallback cards])
             else w1).
  assert (Hmgr : World.mgr w' = World.mgr w1).
  { unfold w'. destruct (h && _); reflexivity. }
  assert (Hrun : ReadAllAndProcessWrites w = Ok cards w').
  { unfold ReadAllAndProcessWrites. erewrite bind_Ok by reflexivity. cbv zeta. fold ids.
    erewrite bind_Ok by exact Hloop.
    match goal with |- (?c ≫= _) w1 = _ => assert (Hc : c w1 = Ok tt w') end.
    { unfold w'. rewrite <- Hs. destruct h; cbn [andb]; [|reflexivity].
      erewrite bind_Ok by reflexivity.
      destruct (Manager.stateChangeCallback (World.mgr w1)); [|reflexivity].
      unfold GetAllCards. erewrite bind_Ok by (erewrite bind_Ok by reflexivity; reflexivity).
      reflexivity. }
    erewrite bind_Ok by exact Hc. erewrite bind_Ok by reflexivity.
    rewrite Hmgr, Hsnap. reflexivity. }
  exists cards, w', tr, h. split; [exact Hrun|]. rewrite Hmgr. split.
  { unfold w'. destruct (h && _); cbn [World.trace].
    - rewrite Ht, app_assoc. reflexivity.
    - rewrite Ht, app_nil_r. reflexivity. }
  split; [exact Hcb|]. split.
  { rewrite Hh. split.
    - intros [H|(id & c & c' & _ & H)]; [discriminate|]. eauto.
    - intros (id & c & c' & Hc & H). right. exists id, c, c'.
      split; [exact (registered_collected _ _ _ Hok Hc)|]. auto. }
  split; [reflexivity|]. split; [exact Hev|]. split; [exact Hn|]. split; [exact Hs|].
  split; [exact Hports|].
  intros id c' Hc'. pose proof (Hev id) as H. rewrite Hc' in H.
  destruct (Manager.cards (World.mgr w) !! id) as [c|] eqn:Hc; [|contradiction].
  destruct (Hdone id c (registered_collected _ _ _ Hok Hc) Hc) as (Hq & c1 & Hc1 & Hflag).
  rewrite Hc1 in Hc'. injection Hc' as <-. auto.
Qed.

(** X19.  The read cycle.  With devices that answer register reads in
    full, a well-formed registry and the ports of its cards open,
    [ReadAllAndProcessWrites] returns, and the list it returns is the
    snapshot [GetAllCards] takes of the registry right after it: every
    registered card once, in the order of the IDs, with the state the
    cycle left.  The cycle registers and removes nothing and assigns no
    ID, port, slave or module; after it no card is waiting for a full
    read, and when there is a card at all the write queue is empty. *)
Theorem ReadAllAndProcessWrites_cycle (w : World.t) :
  registerRepliesSized -> registryOK (World.mgr w) -> portsOpen (World.mgr w) ->
  exists cards w',
    ReadAllAndProcessWrites w = Ok cards w' /\
    GetAllCards w' = Ok cards w' /\
    cardsEvolve (World.mgr w) (World.mgr w') /\
    registryOK (World.mgr w') /\ portsOpen (World.mgr w') /\
    (forall c, c ∈ cards -> Card.needsFullRead c = false) /\
    (cards <> [] -> Manager.writeQueue (World.mgr w') = []).
Proof.
  intros Hsized Hok Hopen.
  destruct (cycle_run w Hsized Hok Hopen)
    as (cards & w' & tr0 & h & Hrun & _ & _ & _ & Hcards & Hev & Hn & _ & Hports & Hdone).
  exists cards, w'. split; [exact Hrun|]. split; [rewrite Hcards; reflexivity|].
  split; [exact Hev|]. split; [exact (registryOK_evolve _ _ Hev Hn Hok)|].
  split; [exact (portsOpen_evolve _ _ Hev Hports Hopen)|].
  assert (Hreg : forall c, c ∈ cards -> exists id, Manager.cards (World.mgr w') !! id = Some c).
  { intros c Hin. rewrite Hcards, sortByID_perm in Hin. apply rangeCards_registered, Hin. }
  split.
  - intros c Hin. destruct (Hreg c Hin) as (id & Hid). apply (Hdone _ _ Hid).
  - intros Hne. destruct cards as [|c cards]; [contradiction|].
    destruct (Hreg c ltac:(left)) as (id & Hid). apply (Hdone _ _ Hid).
Qed.

(** X20.  The state-change callback.  In a cycle the callback is called at
    most once, after the last card, with the list the cycle returns.  It
    is called exactly when a callback is registered and, for some card,
    [detectStateChange] finds the state the cycle left different from the
    state the card had before: a digital or analog input changed. *)
Theorem ReadAllAndProcessWrites_callback (w : World.t) :
  registerRepliesSized -> registryOK (World.mgr w) -> portsOpen (World.mgr w) ->
  exists cards w' tr,
    ReadAllAndProcessWrites w = Ok cards w' /\
    World.trace w' = World.trace w ++ tr /\
    let changed :=
      exists id c c', Manager.cards (World.mgr w) !! id = Some c /\
        Manager.cards (World.mgr w') !! id = Some c' /\
        detectStateChange (Card.Last c) (Card.Last c') = true in
    (Manager.stateChangeCallback (World.mgr w) = true /\ changed ->
     callbacks tr = [cards] /\ last tr = Some (EvCallback cards)) /\
    (Manager.stateChangeCallback (World.mgr w) = false \/ ~ changed -> callbacks tr = []).
Proof.
  intros Hsized Hok Hopen.
  destruct (cycle_run w Hsized Hok Hopen)
    as (cards & w' & tr0 & h & Hrun & Htr & Hcb & Hh & _).
  eexists cards, w', _. split; [exact Hrun|]. split; [exact Htr|]. cbv zeta. split.
  - intros [Hs Hch]. apply Hh in Hch. rewrite Hch, Hs. cbn [andb].
    split; [rewrite callbacks_app, Hcb; reflexivity|apply last_snoc].
  - intros [Hs|Hch].
    + rewrite Hs, andb_false_r, app_nil_r. exact Hcb.
    + destruct h; [exfalso; apply Hch, Hh; reflexivity|].
      cbn [andb]. rewrite app_nil_r. exact Hcb.
Qed.

End Environment.

(** * Encodings *)

(** ** Coils *)

Lemma land_bit (x b : Z) :
  0 <= b -> negb (Z.land x (Z.shiftl 1 b) =? 0) = Z.testbit x b.
Proof.
  intros Hb. rewrite Z.shiftl_1_l.
  destruct (Z.testbit x b) eqn:E.
  - apply negb_true_iff, Z.eqb_neq. intros H.
    assert (Hbit : Z.testbit (Z.land x (2 ^ b)) b = true)
      by (rewrite Z.land_spec, E, Z.pow2_bits_true by lia; reflexivity).
    rewrite H, Z.bits_0 in Hbit. discriminate.
  - apply negb_false_iff, Z.eqb_eq. apply Z.bits_inj'. intros n Hn.
    rewrite Z.land_spec, Z.bits_0, Z.pow2_bits_eqb by lia.
    destruct (Z.eqb_spec b n) as [->|]; [rewrite E; reflexivity|apply andb_false_r].
Qed.

Lemma packBits_fold values :
  packBits values
  = fold_left packStep (imap (fun i val => (i, val)) values)
      (replicate (Z.to_nat ((Z.of_nat (length values) + 7) / 8)) 0).
Proof. reflexivity. Qed.

Lemma packPrefix_spec (values : list bool) (N : nat) :
  forall n : nat, (n <= length values)%nat ->
  let bytes := fold_left packStep (imap (fun i val => (i, val)) (take n values))
                         (replicate N 0) in
  length bytes = N /\
  forall (k : nat) x, bytes !! k = Some x ->
    0 <= x < 256 /\
    forall b : nat, (b < 8)%nat ->
      Z.testbit x (Z.of_nat b)
      = bool_decide (8 * k + b < n)%nat && default false (values !! (8 * k + b)%nat).
Proof.
  induction n as [|n IH]; intros Hn bytes.
  - subst bytes. simpl. split; [apply length_replicate|]. intros k x Hx.
    apply lookup_replicate in Hx as [-> _]. split; [lia|]. intros b Hb.
    rewrite Z.bits_0. reflexivity.
  - destruct (lookup_lt_is_Some_2 values n) as [v Hv]; [lia|].
    subst bytes. rewrite (take_S_r _ _ _ Hv), imap_app, fold_left_app.
    rewrite length_take, Nat.min_l by lia. cbn [imap fold_left].
    rewrite Nat.add_0_r.
    destruct (IH ltac:(lia)) as [Hlen Hbits].
    set (bytes := fold_left packStep (imap (fun i val => (i, val)) (take n values))
                            (replicate N 0)) in *.
    unfold packStep. destruct v.
    + split; [rewrite length_alter; exact Hlen|]. intros k x Hx.
      destruct (decide (k = n / 8)%nat) as [->|Hne].
      * rewrite list_lookup_alter_eq in Hx.
        destruct (bytes !! (n / 8)%nat) as [y|] eqn:Hy; [|discriminate]. simpl in Hx.
        inversion Hx; subst x. destruct (Hbits _ _ Hy) as [Hrange Hb].
        split; [unfold byte; apply Z.mod_pos_bound; lia|]. intros b Hlt.
        unfold byte. change 256 with (2 ^ 8). rewrite Z.mod_pow2_bits_low by lia.
        rewrite Z.lor_spec, (Hb b Hlt), Z.shiftl_1_l, Z.pow2_bits_eqb
          by (apply Z.mod_pos_bound; lia).
        pose proof (Nat.div_mod_eq n 8) as Hdm.
        assert (Hmod : Z.of_nat n mod 8 = Z.of_nat (n mod 8))
          by (rewrite Nat2Z.inj_mod; reflexivity).
        rewrite Hmod. destruct (decide (b = n mod 8)%nat) as [->|Hb'].
        -- rewrite Z.eqb_refl, orb_true_r.
           replace (8 * (n / 8) + n mod 8)%nat with n by lia.
           rewrite Hv. rewrite bool_decide_eq_true_2 by lia. reflexivity.
        -- replace (Z.of_nat (n mod 8) =? Z.of_nat b) with false
             by (symmetry; apply Z.eqb_neq; lia).
           rewrite orb_false_r.
           pose proof (Nat.mod_upper_bound n 8 ltac:(lia)).
           destruct (decide (8 * (n / 8) + b < n)%nat).
           ++ rewrite !bool_decide_eq_true_2 by lia. reflexivity.
           ++ rewrite !bool_decide_eq_false_2 by lia. reflexivity.
      * rewrite list_lookup_alter_ne in Hx by congruence.
        destruct (Hbits _ _ Hx) as [Hrange Hb]. split; [exact Hrange|].
        intros b Hlt. rewrite (Hb b Hlt).
        pose proof (Nat.div_mod_eq n 8). pose proof (Nat.mod_upper_bound n 8 ltac:(lia)).
        assert (8 * k + b <> n)%nat.
        { intros Heq. apply Hne. rewrite <- Heq.
          replace (8 * k + b)%nat with (b + k * 8)%nat by lia.
          rewrite Nat.div_add by lia. rewrite Nat.div_small by lia. reflexivity. }
        destruct (decide (8 * k + b < n)%nat).
        -- rewrite !bool_decide_eq_true_2 by lia. reflexivity.
        -- rewrite !bool_decide_eq_false_2 by lia. reflexivity.
    + split; [exact Hlen|]. intros k x Hx. destruct (Hbits _ _ Hx) as [Hrange Hb].
      split; [exact Hrange|]. intros b Hlt. rewrite (Hb b Hlt).
      destruct (decide (8 * k + b = n)%nat) as [->|Hne].
      * rewrite Hv. simpl. rewrite !andb_false_r. reflexivity.
      * destruct (decide (8 * k + b < n)%nat).
        -- rewrite !bool_decide_eq_true_2 by lia. reflexivity.
        -- rewrite !bool_decide_eq_false_2 by lia. reflexivity.
Qed.

(** X5.  What [packBits] encodes, [unpackBits] decodes: the coils a
    write packs into bytes are read back as they were.  The bytes are as
    many as eight coils each need, every one of them a byte. *)
Theorem packBits_unpackBits (values : list bool) :
  unpackBits (packBits values) (Z.of_nat (length values)) = values /\
  Z.of_nat (length (packBits values)) = (Z.of_nat (length values) + 7) / 8 /\
  Forall (fun b => 0 <= b < 256) (packBits values).
Proof.
  rewrite packBits_fold.
  set (N := Z.to_nat ((Z.of_nat (length values) + 7) / 8)).
  destruct (packPrefix_spec values N (length values) ltac:(lia)) as [Hlen Hbits].
  rewrite firstn_all in Hlen, Hbits.
  set (bytes := fold_left packStep (imap (fun i val => (i, val)) values) (replicate N 0)) in *.
  assert (HN : Z.of_nat N = (Z.of_nat (length values) + 7) / 8)
    by (unfold N; rewrite Z2Nat.id; [reflexivity|apply Z.div_pos; lia]).
  split; [|split].
  - unfold unpackBits. apply list_eq. intros i. rewrite list_lookup_fmap.
    destruct (decide (i < length values)%nat) as [Hi|Hi].
    + rewrite lookup_seqZ_lt by lia. simpl. rewrite Z.add_0_l.
      destruct (lookup_lt_is_Some_2 values i Hi) as [v Hv]. rewrite Hv. f_equal.
      assert (Hdiv : Z.to_nat (Z.of_nat i / 8) = (i / 8)%nat)
        by (change 8 with (Z.of_nat 8); rewrite <- Nat2Z.inj_div; apply Nat2Z.id).
      assert (Hmod : Z.of_nat i mod 8 = Z.of_nat (i mod 8))
        by (change 8 with (Z.of_nat 8); rewrite <- Nat2Z.inj_mod; reflexivity).
      rewrite Hdiv, Hmod.
      pose proof (Nat.div_mod_eq i 8) as Hdm.
      pose proof (Nat.mod_upper_bound i 8 ltac:(lia)) as Hub.
      assert (Hk : (i / 8 < N)%nat).
      { apply Nat2Z.inj_lt. rewrite HN.
        pose proof (Z.div_mod (Z.of_nat (length values) + 7) 8 ltac:(lia)).
        pose proof (Z.mod_pos_bound (Z.of_nat (length values) + 7) 8 ltac:(lia)). lia. }
      destruct (lookup_lt_is_Some_2 bytes (i / 8)%nat) as [x Hx]; [lia|].
      rewrite Hx. rewrite land_bit by lia. destruct (Hbits _ _ Hx) as [_ Hb].
      rewrite (Hb (i mod 8)%nat Hub). replace (8 * (i / 8) + i mod 8)%nat with i by lia.
      rewrite Hv, bool_decide_eq_true_2 by lia. reflexivity.
    + rewrite lookup_seqZ_ge by lia. rewrite lookup_ge_None_2 by lia. reflexivity.
  - rewrite Hlen. exact HN.
  - apply Forall_lookup. intros k x Hx. apply (Hbits k x Hx).
Qed.

(** ** Registers *)

Lemma be_put_uint32_bytes v : Forall (fun b => 0 <= b < 256) (be_put_uint32 v).
Proof.
  unfold be_put_uint32, byte. repeat constructor; apply Z.mod_pos_bound; lia.
Qed.

Lemma be_uint32_put (v : Z) : 0 <= v < 2 ^ 32 -> be_uint32 (be_put_uint32 v) = v.
Proof.
  intros Hv. unfold be_put_uint32, be_uint32, byte. change 256 with (2 ^ 8).
  apply Z.bits_inj'. intros n Hn.
  rewrite !Z.lor_spec.
  assert (Hhigh : 32 <= n -> Z.testbit v n = false).
  { intros H. destruct (Z.eq_dec v 0) as [->|Hne]; [apply Z.bits_0|].
    apply Z.bits_above_log2; [lia|]. apply Z.log2_lt_pow2; [lia|].
    eapply Z.lt_le_trans; [apply Hv|]. apply Z.pow_le_mono_r; lia. }
  destruct (Z.lt_ge_cases n 8) as [H8|H8].
  - rewrite !Z.shiftl_spec_low by lia. simpl.
    rewrite Z.mod_pow2_bits_low by lia. reflexivity.
  - rewrite (Z.mod_pow2_bits_high v 8 n) by lia. rewrite orb_false_r.
    destruct (Z.lt_ge_cases n 16) as [H16|H16].
    + rewrite (Z.shiftl_spec_low _ 24), (Z.shiftl_spec_low _ 16) by lia. simpl.
      rewrite Z.shiftl_spec, Z.mod_pow2_bits_low, Z.shiftr_spec by lia.
      f_equal. lia.
    + rewrite (Z.shiftl_spec _ 8), (Z.mod_pow2_bits_high _ 8 (n - 8)) by lia.
      rewrite orb_false_r.
      destruct (Z.lt_ge_cases n 24) as [H24|H24].
      * rewrite (Z.shiftl_spec_low _ 24) by lia. simpl.
        rewrite Z.shiftl_spec, Z.mod_pow2_bits_low, Z.shiftr_spec by lia.
        f_equal. lia.
      * rewrite (Z.shiftl_spec _ 16), (Z.mod_pow2_bits_high _ 8 (n - 16)) by lia.
        rewrite orb_false_r. rewrite Z.shiftl_spec by lia.
        destruct (Z.lt_ge_cases n 32) as [H32|H32].
        -- rewrite Z.mod_pow2_bits_low, Z.shiftr_spec by lia. f_equal. lia.
        -- rewrite Z.mod_pow2_bits_high by lia. symmetry. apply Hhigh, H32.
Qed.

Lemma skipn_putFloats (values : list F32.t) :
  forall i : nat,
  skipn (4 * i) (putFloats values) = putFloats (skipn i values).
Proof.
  unfold putFloats. induction values as [|v values IH]; intros i.
  - rewrite !skipn_nil. reflexivity.
  - destruct i as [|i]; [reflexivity|].
    replace (4 * S i)%nat with (4 + 4 * i)%nat by lia.
    cbn [map concat skipn]. unfold be_put_uint32 at 1. cbn [app skipn Nat.add].
    apply IH.
Qed.

Lemma length_putFloats (values : list F32.t) :
  length (putFloats values) = (4 * length values)%nat.
Proof.
  unfold putFloats. induction values as [|x l IH]; [reflexivity|].
  cbn [map concat]. rewrite length_app, IH. simpl. lia.
Qed.

Lemma slice_putFloats (values : list F32.t) (i : nat) v :
  values !! i = Some v ->
  slice (putFloats values) (Z.of_nat i * 4) (Z.of_nat i * 4 + 4) = Some (be_put_uint32 v).
Proof.
  intros Hv. unfold slice.
  pose proof (length_putFloats values) as Hlen.
  pose proof (lookup_lt_Some _ _ _ Hv) as Hi. unfold F32.t in *.
  replace (0 <=? Z.of_nat i * 4) with true by (symmetry; apply Z.leb_le; lia).
  replace (Z.of_nat i * 4 <=? Z.of_nat i * 4 + 4) with true by (symmetry; apply Z.leb_le; lia).
  replace (Z.of_nat i * 4 + 4 <=? Z.of_nat (length (putFloats values))) with true
    by (symmetry; apply Z.leb_le; lia).
  cbn [andb]. f_equal.
  replace (Z.to_nat (Z.of_nat i * 4)) with (4 * i)%nat by lia.
  replace (Z.to_nat (Z.of_nat i * 4 + 4 - Z.of_nat i * 4)) with 4%nat by lia.
  rewrite skipn_putFloats. unfold F32.t. rewrite (drop_S _ _ _ Hv). reflexivity.
Qed.

(** X6.  What [writeMultipleAO] encodes, [readCard] decodes: the buffer
    built for a list of float32 values holds four bytes per value, and
    decoding it as [readCard] decodes a register reply gives the values
    back. *)
Theorem putFloats_getFloats (values : list F32.t) :
  Forall (fun v => 0 <= v < 2 ^ 32) values ->
  getFloats (putFloats values) (Z.of_nat (length values)) = Some values /\
  length (putFloats values) = (4 * length values)%nat /\
  Forall (fun b => 0 <= b < 256) (putFloats values).
Proof.
  intros Hvals. split; [|split].
  - unfold getFloats. apply mapM_Some. apply Forall2_same_length_lookup. split.
    + rewrite length_seqZ. lia.
    + intros i x v Hx Hv. apply lookup_seqZ in Hx as [-> Hi]. rewrite Z.add_0_l.
      rewrite (slice_putFloats values i v Hv). simpl. f_equal. apply be_uint32_put.
      rewrite Forall_lookup in Hvals. exact (Hvals i v Hv).
  - apply length_putFloats.
  - unfold putFloats. clear Hvals. induction values as [|x l IH]; [constructor|].
    cbn [map concat]. apply Forall_app. split; [apply be_put_uint32_bytes|exact IH].
Qed.

(** * A batch run twice *)

Section Repeated.

Variable bus : list Event -> string -> Z -> Request -> Reply.
Variable dial : list Event -> string -> option string.

(** The orders in which the first and the second call range over their
    groups: Go chooses the order of a range over a map afresh each time. *)
Variable rangeMap1 rangeMap2 : forall A : Type, list A -> list A.
Hypothesis perm1 : forall (A : Type) (l : list A), Permutation (rangeMap1 A l) l.
Hypothesis perm2 : forall (A : Type) (l : list A), Permutation (rangeMap2 A l) l.

Lemma batchRequests_order m ops :
  Permutation (batchRequests rangeMap2 m ops) (batchRequests rangeMap1 m ops).
Proof.
  unfold batchRequests, GroupWriteOperations. apply Permutation_flat_map.
  rewrite (perm2 WriteGroup.t), (perm1 WriteGroup.t). reflexivity.
Qed.

(** X9.  A write does not update the cache: the values an operation is
    compared with are those of the last read.  So the same batch, run
    again before the next read, is not elided: the second call puts the
    requests of the first on the bus once more.  Each call sends the
    requests of its groups in the order in which it ranges over them, so
    the two calls send the same requests, group by group, in orders that
    may differ. *)
Theorem ProcessBatchWrite_repeated (ops : list writeOperation.t) (w : World.t) :
  portsOpen (World.mgr w) ->
  exists rs1 w1 rs2 w2 tr1 tr2,
    ProcessBatchWrite bus dial rangeMap1 ops w = Ok rs1 w1 /\
    ProcessBatchWrite bus dial rangeMap2 ops w1 = Ok rs2 w2 /\
    World.trace w1 = World.trace w ++ tr1 /\
    World.trace w2 = World.trace w1 ++ tr2 /\
    map evTarget tr1 = map Some (batchRequests rangeMap1 (World.mgr w) ops) /\
    map evTarget tr2 = map Some (batchRequests rangeMap2 (World.mgr w) ops) /\
    Permutation (map evTarget tr2) (map evTarget tr1).
Proof.
  intros Hopen.
  destruct (ProcessBatchWrite_frames bus dial rangeMap1 perm1 ops w Hopen)
    as (rs1 & w1 & tr1 & Hrun1 & Htr1 & Hev1 & Hreg).
  destruct (ProcessBatchWrite_frames bus dial rangeMap2 perm2 ops w1
              (portsOpen_sameRegistry _ _ Hreg Hopen))
    as (rs2 & w2 & tr2 & Hrun2 & Htr2 & Hev2 & _).
  rewrite (batchRequests_cards rangeMap2 (World.mgr w) (World.mgr w1) ops (proj1 Hreg)) in Hev2.
  exists rs1, w1, rs2, w2, tr1, tr2. repeat split; try assumption.
  rewrite Hev1, Hev2. apply Permutation_map, batchRequests_order.
Qed.

End Repeated.

(** * The order of the cards *)

Section Order.

(** Two orders in which [range] may visit the registry. *)
Variable rangeMap1 rangeMap2 : forall A : Type, list A -> list A.
Hypothesis perm1 : forall (A : Type) (l : list A), Permutation (rangeMap1 A l) l.
Hypothesis perm2 : forall (A : Type) (l : list A), Permutation (rangeMap2 A l) l.

(** X13.  [GetAllCards] returns every registered card once, in strictly
    increasing order of the number its ID spells, and leaves the manager
    as it is.  The list is the same whatever the order in which [range]
    visits the map of the cards. *)
Theorem GetAllCards_order (w : World.t) :
  registryOK (World.mgr w) ->
  exists cards,
    GetAllCards rangeMap1 w = Ok cards w /\
    GetAllCards rangeMap2 w = Ok cards w /\
    StronglySorted beforeID cards /\
    (forall c, c ∈ cards <-> exists id, Manager.cards (World.mgr w) !! id = Some c).
Proof.
  intros Hok. pose proof (registry_keys_NoDup _ Hok) as Hnd.
  exists (sortByID (rangeCards rangeMap1 (World.mgr w))).
  assert (Hnd1 : NoDup (map (fun c => Atoi (Card.ID c)) (rangeCards rangeMap1 (World.mgr w)))).
  { unfold rangeCards. rewrite (perm1 Card.t). exact Hnd. }
  split; [reflexivity|]. split; [|split].
  - unfold GetAllCards. erewrite bind_Ok by reflexivity. unfold mret, M_ret. f_equal.
    apply sortByID_order.
    + unfold rangeCards. rewrite (perm2 Card.t). exact Hnd.
    + unfold rangeCards. rewrite (perm1 Card.t), (perm2 Card.t). reflexivity.
  - apply sortByID_sorted, Hnd1.
  - intros c. rewrite sortByID_perm. apply rangeCards_registered. exact perm1.
Qed.

End Order.

(** * Change detection *)

Lemma anyDiff_false {A} (ne : A -> A -> bool) (new old : list A) :
  length new = length old ->
  anyDiff ne new old = false <-> Forall2 (fun a b => ne a b = false) new old.
Proof.
  revert old. induction new as [|x new IH]; intros [|y old] Hlen; simpl in *; try discriminate.
  - split; [constructor|reflexivity].
  - rewrite orb_false_iff. rewrite IH by congruence. split.
    + intros [H1 H2]. constructor; assumption.
    + intros H. apply Forall2_cons in H. exact H.
Qed.

Lemma Forall2_bool_eq (l1 l2 : list bool) :
  Forall2 (fun a b => negb (Bool.eqb a b) = false) l1 l2 <-> l1 = l2.
Proof.
  split.
  - intros H. induction H as [|a b l1 l2 Hab _ IH]; [reflexivity|].
    apply negb_false_iff, Bool.eqb_prop in Hab. congruence.
  - intros ->. induction l2 as [|a l IH]; constructor; [|exact IH].
    rewrite Bool.eqb_reflx. reflexivity.
Qed.

(** X14.  [detectStateChange] reports no change exactly when the digital
    inputs are the same list and the analog inputs are equal one by one as
    float32 values.  Nothing else of a state is looked at: the outputs,
    the AO types, the serial number, the baud rate, the time stamp and the
    error never make a change. *)
Theorem detectStateChange_silent (oldState newState : CardState.t) :
  detectStateChange oldState newState = false <->
  CardState.DI newState = CardState.DI oldState /\
  Forall2 (fun a b => F32.eqb a b = true) (CardState.AI newState) (CardState.AI oldState).
Proof.
  unfold detectStateChange.
  destruct (length (CardState.DI newState) =? length (CardState.DI oldState))%nat eqn:E1; simpl.
  - apply Nat.eqb_eq in E1.
    destruct (anyDiff _ (CardState.DI newState) (CardState.DI oldState)) eqn:E2.
    + split; [discriminate|]. intros [Hdi _].
      assert (H : anyDiff (fun a b => negb (Bool.eqb a b)) (CardState.DI newState)
                    (CardState.DI oldState) = false)
        by (apply (anyDiff_false _ _ _ E1), Forall2_bool_eq; exact Hdi).
      congruence.
    + apply (anyDiff_false _ _ _ E1), Forall2_bool_eq in E2.
      destruct (length (CardState.AI newState) =? length (CardState.AI oldState))%nat eqn:E3; simpl.
      * apply Nat.eqb_eq in E3. rewrite (anyDiff_false _ _ _ E3). split.
        -- intros H. split; [exact E2|]. eapply Forall2_impl; [exact H|].
           intros a b Hab. unfold F32.neb in Hab. apply negb_false_iff in Hab. exact Hab.
        -- intros [_ H]. eapply Forall2_impl; [exact H|].
           intros a b Hab. unfold F32.neb. rewrite Hab. reflexivity.
      * apply Nat.eqb_neq in E3. split; [discriminate|]. intros [_ H].
        apply Forall2_length in H. contradiction.
  - apply Nat.eqb_neq in E1. split; [discriminate|]. intros [H _]. rewrite H in E1.
    contradiction.
Qed.

(** * The scenarios *)

Lemma inOrder_perm : forall (A : Type) (l : list A), Permutation (inOrder A l) l.
Proof. intros A l. reflexivity. Qed.

Lemma reversed_perm : forall (A : Type) (l : list A), Permutation (reversed A l) l.
Proof. intros A l. symmetry. apply Permutation_rev. Qed.

Lemma deviceBus_sized : registerRepliesSized deviceBus.
Proof.
  intros tr p s a q raw [H|H]; unfold deviceBus in H;
    destruct (0 <=? q) eqn:E; try discriminate; inversion H; subst;
    rewrite length_replicate; apply Z.leb_le in E; lia.
Qed.

Lemma deafBus_sized : registerRepliesSized deafBus.
Proof. intros tr p s a q raw [H|H]; discriminate. Qed.

Lemma site_cards id c :
  Manager.cards site !! id = Some c -> (id = "1" /\ c = cardA) \/ (id = "2" /\ c = cardB).
Proof.
  unfold site. cbn [Manager.cards]. intros H.
  apply lookup_insert_Some in H as [[<- <-]|[_ H]]; [left; split; reflexivity|].
  apply lookup_singleton_Some in H as [<- <-]. right. split; reflexivity.
Qed.

Lemma site_portsOpen : portsOpen site.
Proof.
  intros id c H. apply site_cards in H as [[_ ->]|[_ ->]]; eexists; reflexivity.
Qed.

Lemma site_distinctAddresses : distinctAddresses site.
Proof.
  intros id1 id2 c1 c2 H1 H2 Hp Hs.
  apply site_cards in H1 as [[-> ->]|[-> ->]]; apply site_cards in H2 as [[-> ->]|[-> ->]];
    try reflexivity; discriminate Hs.
Qed.

(** ** Safe state *)

Lemma guarded_frames :
  flat_map (spec_safeWire (Manager.safeStateConfig (World.mgr guarded)))
           (rangeCards inOrder (World.mgr guarded))
  = [("/dev/ttyS1", 1, WriteMultipleCoils 0 4 [15]);
     ("/dev/ttyS1", 2,
      WriteMultipleRegisters 0 8
        [69; 122; 0; 0; 68; 122; 0; 0; 69; 122; 0; 0; 69; 122; 0; 0])].
Proof. vm_compute. reflexivity. Qed.

Lemma C1_safe_state_frames_witness :
  portsOpen (World.mgr guarded) /\
  exists r w' tr,
    WriteAllOutputsToSafeState deviceBus dialOk inOrder guarded = Ok r w' /\
    World.trace w' = World.trace guarded ++ tr /\
    map evTarget tr
    = [Some ("/dev/ttyS1", 1, WriteMultipleCoils 0 4 [15]);
       Some ("/dev/ttyS1", 2,
             WriteMultipleRegisters 0 8
               [69; 122; 0; 0; 68; 122; 0; 0; 69; 122; 0; 0; 69; 122; 0; 0])].
Proof.
  split; [exact site_portsOpen|].
  destruct (C1_safe_state_frames deviceBus dialOk inOrder inOrder_perm guarded site_portsOpen)
    as [(r & w' & tr & Hrun & Htr & _ & Hframes) _].
  rewrite guarded_frames in Hframes.
  exists r, w', tr. split; [exact Hrun|]. split; [exact Htr|exact Hframes].
Defined.

(** The IO4040 gets its four coils switched off in one frame, the IO0404
    one frame with 4000 for its current channels and 0 for its voltage
    channel. *)
Example safe_state_on_site :
  traced (WriteAllOutputsToSafeState deviceBus dialOk inOrder siteWorld)
  = [EvFrame "/dev/ttyS1" 1 (WriteMultipleCoils 0 4 [0]) (inl [0]);
     EvFrame "/dev/ttyS1" 2
       (WriteMultipleRegisters 0 8
          (putFloats [F32.four_thousand; F32.zero; F32.four_thousand; F32.four_thousand]))
       (inl [0])].
Proof. vm_compute. reflexivity. Qed.

Lemma C2_safe_state_first_error_witness :
  exists r w' trs,
    WriteAllOutputsToSafeState deafBus dialOk inOrder siteWorld = Ok r w' /\
    World.trace w' = World.trace siteWorld ++ concat trs /\
    Forall2 (safeStateAttempt (Manager.safeStateConfig site)) (rangeCards inOrder site) trs /\
    r = option_map (fun e => "WriteAllOutputsToSafeState completed with errors: " +:+ e)
                   (firstSome (safeStateMessages (rangeCards inOrder site) trs)) /\
    (r = None <-> Forall (fun ev => evError ev = None) (concat trs)).
Proof.
  destruct (C2_safe_state_first_error deafBus dialOk inOrder inOrder_perm siteWorld)
    as (r & w' & trs & H1 & _ & H3 & H4 & H5 & H6).
  exists r, w', trs. repeat split; try assumption; apply H6.
Defined.

(** On a bus where nothing answers both cards are still attempted, and
    the error of the first one is returned. *)
Example safe_state_on_deaf_bus :
  let r := WriteAllOutputsToSafeState deafBus dialOk inOrder siteWorld in
  returned r
  = Some (Some ("WriteAllOutputsToSafeState completed with errors: "
                +:+ "card 1: failed to write DO to safe state: timeout")) /\
  map evTarget (traced r)
  = [Some ("/dev/ttyS1", 1, WriteMultipleCoils 0 4 [0]);
     Some ("/dev/ttyS1", 2,
           WriteMultipleRegisters 0 8
             (putFloats [F32.four_thousand; F32.zero; F32.four_thousand; F32.four_thousand]))].
Proof. vm_compute. split; reflexivity. Qed.

(** ** Batch writes *)

Lemma site_writesDO (ops : list writeOperation.t) (i : Z) :
  opDO "1" i true ∈ ops -> 0 <= i < 4 -> writesDO site ops "1" (opDO "1" i true).
Proof.
  intros Hin Hi. split; [exact Hin|]. split; [reflexivity|]. split; [reflexivity|].
  exists cardA. split; [reflexivity|]. split; [exact Hi|].
  unfold cachedEqual. cbn [writeOperation.Type_ opDO writeOperation.Index cardA Card.Last
                           CardState.DO writeOperation.Value].
  assert (Hi' : Z.to_nat i = 0%nat \/ Z.to_nat i = 1%nat \/ Z.to_nat i = 2%nat
                \/ Z.to_nat i = 3%nat) by lia.
  destruct Hi' as [ -> | [ -> | [ -> | -> ] ] ]; vm_compute; discriminate.
Qed.

(** The scenario of the specification: outputs 0 and 3 of a card with four
    outputs, all off, are switched on with one frame for coils 0 to 3 whose
    payload is 0b00001001. *)
Lemma C3_coalesced_DO_write_witness :
  let ops := [opDO "1" 0 true; opDO "1" 3 true] in
  (portsOpen site /\ distinctAddresses site /\
   writesDO site ops "1" (opDO "1" 0 true) /\ writesDO site ops "1" (opDO "1" 3 true)) /\
  (exists rs w' tr lo vals,
     ProcessBatchWrite deviceBus dialOk inOrder ops siteWorld = Ok rs w' /\
     World.trace w' = World.trace siteWorld ++ tr /\
     coilFrames "/dev/ttyS1" 1 tr
     = [WriteMultipleCoils lo (Z.of_nat (length vals)) (packBits vals)] /\
     lo <= 0 /\ 3 <= lo + Z.of_nat (length vals) - 1) /\
  coilFrames "/dev/ttyS1" 1
    (traced (ProcessBatchWrite deviceBus dialOk inOrder ops siteWorld))
  = [WriteMultipleCoils 0 4 [9]].
Proof.
  assert (Ha : writesDO site [opDO "1" 0 true; opDO "1" 3 true] "1" (opDO "1" 0 true))
    by (apply site_writesDO; [left|lia]).
  assert (Hb : writesDO site [opDO "1" 0 true; opDO "1" 3 true] "1" (opDO "1" 3 true))
    by (apply site_writesDO; [right; left|lia]).
  split; [|split].
  - split; [exact site_portsOpen|]. split; [exact site_distinctAddresses|]. split; assumption.
  - destruct (C3_coalesced_DO_write deviceBus dialOk inOrder inOrder_perm
                [opDO "1" 0 true; opDO "1" 3 true] (opDO "1" 0 true) (opDO "1" 3 true)
                cardA siteWorld site_portsOpen site_distinctAddresses eq_refl Ha Hb
                ltac:(reflexivity))
      as (rs & w' & tr & lo & vals & H1 & H2 & H3 & H4 & H5 & _).
    exists rs, w', tr, lo, vals. repeat split; assumption.
  - vm_compute. reflexivity.
Defined.

(** C3 as stated fails when one of the two operations asks for the value
    the output already has: that operation is left out of the batch, and
    the single frame is the window of the other one, coil 3 alone. *)
Lemma C3_counterexample :
  exists rq,
    coilFrames "/dev/ttyS1" 1
      (traced (ProcessBatchWrite deviceBus dialOk inOrder
                 [opDO "1" 0 false; opDO "1" 3 true] siteWorld))
    = [rq] /\
    rq = WriteMultipleCoils 3 1 [1] /\ ~ covers rq 0 3.
Proof.
  exists (WriteMultipleCoils 3 1 [1]). split; [vm_compute; reflexivity|].
  split; [reflexivity|]. unfold covers. lia.
Qed.

(** C4.  The results of a batch are as many as its operations, but the
    second of two operations on the same card, kind and index keeps the
    zero result: its Index is 0, not its position 1, and its Status is
    empty. *)
Theorem C4_duplicate_operation_result :
  returned (ProcessBatchWrite deviceBus dialOk inOrder
              [opDO "1" 0 true; opDO "1" 0 true] siteWorld)
  = Some [CommandResult.mk 0 "ok" ""; CommandResult.mk 0 "" ""].
Proof. vm_compute. reflexivity. Qed.

Lemma C5_unchanged_op_is_elided_witness :
  let ops := [opDO "1" 3 true; opDO "1" 1 false] in
  (ops !! 1%nat = Some (opDO "1" 1 false) /\ cachedEqual cardA (opDO "1" 1 false)) /\
  exists rs rs' w',
    ProcessBatchWrite deviceBus dialOk inOrder ops siteWorld = Ok rs w' /\
    ProcessBatchWrite deviceBus dialOk inOrder (delete 1%nat ops) siteWorld = Ok rs' w' /\
    rs !! 1%nat = Some (CommandResult.mk 1 "ok" "value unchanged, skipped").
Proof.
  split; [split; reflexivity|].
  apply (C5_unchanged_op_is_elided deviceBus dialOk inOrder inOrder_perm
           [opDO "1" 3 true; opDO "1" 1 false] 1%nat (opDO "1" 1 false) cardA siteWorld);
    [reflexivity|reflexivity|vm_compute; split; [discriminate|reflexivity]|reflexivity].
Defined.

Lemma ProcessBatchWrite_positions_witness :
  exists rs w',
    ProcessBatchWrite deviceBus dialOk inOrder
      [opDO "1" 0 true; opDO "1" 0 true; opDO "7" 0 true; opAOType "2" 9 "0-10V"] siteWorld
    = Ok rs w' /\
    length rs = 4%nat /\ positioned rs.
Proof.
  exact (ProcessBatchWrite_positions deviceBus dialOk inOrder inOrder_perm
           [opDO "1" 0 true; opDO "1" 0 true; opDO "7" 0 true; opAOType "2" 9 "0-10V"]
           siteWorld).
Defined.

Lemma ProcessBatchWrite_distinct_targets_witness :
  let ops := [opDO "1" 0 true; opDO "1" 3 true; opAOType "2" 1 "0-10V"] in
  distinctTargets site ops /\
  exists rs w',
    ProcessBatchWrite deviceBus dialOk inOrder ops siteWorld = Ok rs w' /\
    length rs = 3%nat /\
    forall (i : nat) r, rs !! i = Some r ->
      CommandResult.Index r = Z.of_nat i /\ CommandResult.Status r <> "".
Proof.
  assert (Hd : distinctTargets site [opDO "1" 0 true; opDO "1" 3 true; opAOType "2" 1 "0-10V"]).
  { intros i j a b Hi Hj _ _ Hs.
    destruct i as [|[|[|i]]]; destruct j as [|[|[|j]]]; simpl in Hi, Hj;
      try discriminate; inversion Hi; inversion Hj; subst; try reflexivity;
      vm_compute in Hs; discriminate. }
  split; [exact Hd|].
  exact (ProcessBatchWrite_distinct_targets deviceBus dialOk inOrder inOrder_perm
           [opDO "1" 0 true; opDO "1" 3 true; opAOType "2" 1 "0-10V"] siteWorld Hd).
Defined.

Lemma GroupWriteOperations_partition_witness :
  GroupWriteOperations inOrder [opDO "1" 0 true; opAOType "2" 1 "0-10V"; opDO "1" 3 true]
  = [WriteGroup.mk "1" writeOpDO [opDO "1" 0 true; opDO "1" 3 true];
     WriteGroup.mk "2" writeOpAOType [opAOType "2" 1 "0-10V"]] /\
  NoDup (map (fun g => (WriteGroup.CardID g, WriteGroup.RegisterType g))
             (GroupWriteOperations inOrder
                [opDO "1" 0 true; opAOType "2" 1 "0-10V"; opDO "1" 3 true])).
Proof.
  split; [vm_compute; reflexivity|].
  exact (proj1 (GroupWriteOperations_partition inOrder inOrder_perm
                  [opDO "1" 0 true; opAOType "2" 1 "0-10V"; opDO "1" 3 true])).
Defined.

(** C5 as stated fails when an operation that is left out shares its
    channel with one that is written: the second operation asks for the
    cached value of output 1 and is reported as skipped, and the frame of
    the first one writes output 1 of that card in the same call. *)
Lemma C5_counterexample :
  let r := ProcessBatchWrite deviceBus dialOk inOrder
             [opDO "1" 1 true; opDO "1" 1 false] siteWorld in
  cachedEqual cardA (opDO "1" 1 false) /\
  (returned r ≫= fun rs => rs !! 1%nat)
  = Some (CommandResult.mk 1 "ok" "value unchanged, skipped") /\
  traced r = [EvFrame "/dev/ttyS1" 1 (WriteMultipleCoils 1 1 [1]) (inl [0])].
Proof. split; [reflexivity|]. split; vm_compute; reflexivity. Qed.

(** ** Reading a card *)

Lemma primaryOnlyBus_sized : registerRepliesSized primaryOnlyBus.
Proof.
  intros tr p s a q raw [H|H]; unfold primaryOnlyBus in H.
  - apply (deviceBus_sized tr p s a q raw). left. exact H.
  - destruct (a =? 0); [|discriminate]. apply (deviceBus_sized tr p s a q raw). right. exact H.
Qed.

Lemma C6_readCard_primary_failure_aborts_witness :
  registerRepliesSized primaryOnlyBus /\
  exists st err w' tr,
    readCard primaryOnlyBus tick "/dev/ttyS1" 2 (specOf "IO0404") true siteWorld
    = Ok (st, err) w' /\
    World.trace w' = World.trace siteWorld ++ tr /\
    match err with
    | Some e =>
        exists tr0 p s rq kind,
          tr = tr0 ++ [EvFrame p s rq (inr e)] /\ isPrimaryRead rq = true /\
          Forall (fun ev => evError ev = None) tr0 /\
          readKind rq = Some kind /\
          CardState.Error st = kind +:+ " read error: " +:+ e
    | None =>
        Forall (fun ev => evFailedPrimary ev = false) tr /\
        CardState.Error st = "" /\
        (true = true ->
         exists s, identityTail "/dev/ttyS1" s (ModelSpec.AO (specOf "IO0404")) st tr)
    end.
Proof.
  split; [exact primaryOnlyBus_sized|].
  exact (proj1 (C6_readCard_primary_failure_aborts primaryOnlyBus dialOk tick inOrder
                  inOrder_perm primaryOnlyBus_sized)
               "/dev/ttyS1" 2 "IO0404" true siteWorld).
Defined.

(** A primary read that fails ends the call with its error. *)
Example readCard_on_deaf_bus :
  let r := readCard deafBus tick "/dev/ttyS1" 2 (specOf "IO0404") true siteWorld in
  option_map snd (returned r) = Some (Some "timeout") /\
  traced r = [EvFrame "/dev/ttyS1" 2 (ReadInputRegisters 0 8) (inr "timeout")].
Proof. vm_compute. split; reflexivity. Qed.

(** C6 as stated fails for the three reads of a full read that the claim
    names: the AO type, serial number and baud rate reads all time out
    here, and the call still returns the state with a nil error. *)
Lemma C6_counterexample :
  let r := readCard primaryOnlyBus tick "/dev/ttyS1" 2 (specOf "IO0404") true siteWorld in
  returned r
  = Some (CardState.mk 0 [] [] [F32.zero; F32.zero; F32.zero; F32.zero]
            [F32.zero; F32.zero; F32.zero; F32.zero] [] "" 0 "", None) /\
  filter (fun ev => evError ev <> None) (traced r)
  = [EvFrame "/dev/ttyS1" 2 (ReadHoldingRegisters 400 4) (inr "timeout");
     EvFrame "/dev/ttyS1" 2 (ReadHoldingRegisters 112 10) (inr "timeout");
     EvFrame "/dev/ttyS1" 2 (ReadHoldingRegisters 32 2) (inr "timeout")].
Proof. vm_compute. split; reflexivity. Qed.

(** ** Registration, reboot and the read cycle *)

Lemma C7_needsFullRead_lifecycle_witness :
  registerRepliesSized deviceBus /\
  (exists c w4,
     AddCard deviceBus dialOk tick "/dev/ttyS1" 3 "IO8000" siteWorld = Ok (inl c) w4 /\
     Manager.cards (World.mgr w4) !! Card.ID c = Some c /\ Card.needsFullRead c = false) /\
  (exists r w' c',
     RebootCard deviceBus dialOk "1" siteWorld = Ok r w' /\
     Manager.cards (World.mgr w') !! "1" = Some c' /\ Card.needsFullRead c' = true) /\
  (exists h' w' c',
     cycleCard deviceBus dialOk tick inOrder false "1"
       (worldAfter (RebootCard deviceBus dialOk "1" siteWorld) siteWorld) = Ok h' w' /\
     Manager.cards (World.mgr w') !! "1" = Some c' /\ Card.needsFullRead c' = false).
Proof.
  destruct (C7_needsFullRead_lifecycle deviceBus dialOk tick inOrder inOrder_perm
              deviceBus_sized) as (Hadd & Hreboot & Hcycle).
  split; [exact deviceBus_sized|]. split; [|split].
  - set (spec := ModelSpec.mk "IO8000" 8 0 0 0).
    set (r := readCard deviceBus tick "/dev/ttyS1" 3 spec true
                (registerCard "/dev/ttyS1" 3 spec siteWorld)).
    apply (Hadd "/dev/ttyS1" 3 "IO8000" "/dev/ttyS1" "IO8000" spec
             (default CardState.zero (fst <$> returned r)) None siteWorld siteWorld siteWorld
             (worldAfter r siteWorld)); vm_compute; reflexivity.
  - apply (Hreboot "1" cardA siteWorld). reflexivity.
  - destruct (Hcycle false "1" (Card.set_needsFullRead true cardA)
                (worldAfter (RebootCard deviceBus dialOk "1" siteWorld) siteWorld))
      as (_ & _ & _ & h' & w' & _ & c' & _ & Hrun & _ & Hc & Hflag).
    + vm_compute. reflexivity.
    + eexists. vm_compute. reflexivity.
    + exists h', w', c'. repeat split; assumption.
Defined.

(** C7 as stated fails at registration: the card [AddCard] returns has
    the flag cleared (the full read was made by [AddCard] itself). *)
Lemma C7_counterexample :
  let r := AddCard deviceBus dialOk tick "/dev/ttyS1" 3 "IO8000" siteWorld in
  (returned r ≫= fun c => match c with
                          | inl c => Some (Card.ID c, Card.needsFullRead c)
                          | inr _ => None
                          end)
  = Some ("3", false) /\
  Card.needsFullRead <$> cardAfter "3" r = Some false.
Proof. vm_compute. split; reflexivity. Qed.

(** The reboot sets the flag although the bus write fails, and the next
    cycle reads everything, the AO type, serial number and baud rate
    registers included. *)
Example reboot_then_full_read :
  let r1 := RebootCard deafBus dialOk "2" siteWorld in
  let r2 := cycleCard deviceBus dialOk tick inOrder false "2" (worldAfter r1 siteWorld) in
  returned r1 = Some (Some "timeout") /\
  Card.needsFullRead <$> cardAfter "2" r1 = Some true /\
  Card.needsFullRead <$> cardAfter "2" r2 = Some false /\
  map evTarget (traced r2)
  = map evTarget (traced r1)
    ++ [Some ("/dev/ttyS1", 2, ReadInputRegisters 0 8);
        Some ("/dev/ttyS1", 2, ReadHoldingRegisters 0 8);
        Some ("/dev/ttyS1", 2, ReadHoldingRegisters 400 4);
        Some ("/dev/ttyS1", 2, ReadHoldingRegisters 112 10);
        Some ("/dev/ttyS1", 2, ReadHoldingRegisters 32 2)].
Proof. vm_compute. repeat split; reflexivity. Qed.

(** A failed read in the cycle leaves the card's state as it was but for
    the error text; the successful read of the next cycle replaces it and
    the error text is gone. *)
Lemma C8_failed_read_keeps_state_witness :
  let r1 := cycleCard deafBus dialOk tick inOrder false "1" siteWorld in
  let r2 := cycleCard deviceBus dialOk tick inOrder false "1" (worldAfter r1 siteWorld) in
  (exists h' w' c',
     r1 = Ok h' w' /\ Manager.cards (World.mgr w') !! "1" = Some c' /\
     Card.Last c' = CardState.set_Error "timeout" (Card.Last cardA)) /\
  (exists h' w' c',
     r2 = Ok h' w' /\ Manager.cards (World.mgr w') !! "1" = Some c' /\
     CardState.Error (Card.Last c') = "" /\
     CardState.SerialNumber (Card.Last c') = "SN-A").
Proof.
  split.
  - set (r := readCard deafBus tick "/dev/ttyS1" 1 (specOf "IO4040") false
                (withCard "1" (Card.set_needsFullRead false) siteWorld)).
    destruct (C8_failed_read_keeps_state deafBus dialOk tick inOrder inOrder_perm false "1" cardA
                (default CardState.zero (fst <$> returned r)) (Some "timeout")
                siteWorld (worldAfter r siteWorld))
      as (h' & w' & c' & Hrun & Hc & He & Ht & Hdi & Hdo & Hai & Hao & Hty & Hsn & Hbd).
    + reflexivity.
    + eexists. reflexivity.
    + vm_compute. reflexivity.
    + exists h', w', c'. split; [exact Hrun|]. split; [exact Hc|].
      destruct (Card.Last c'). simpl in *. subst. reflexivity.
  - set (w1 := worldAfter (cycleCard deafBus dialOk tick inOrder false "1" siteWorld) siteWorld).
    set (c1 := Card.set_Last (CardState.set_Error "timeout" (Card.Last cardA)) cardA).
    set (r := readCard deviceBus tick "/dev/ttyS1" 1 (specOf "IO4040") false
                (withCard "1" (Card.set_needsFullRead false) w1)).
    destruct (C8_failed_read_keeps_state deviceBus dialOk tick inOrder inOrder_perm false "1" c1
                (default CardState.zero (fst <$> returned r)) None w1 (worldAfter r w1))
      as (h' & w' & c' & Hrun & Hc & He & _ & _ & _ & _ & _ & _ & Hm & _).
    + vm_compute. reflexivity.
    + eexists. vm_compute. reflexivity.
    + vm_compute. reflexivity.
    + exists h', w', c'. split; [exact Hrun|]. split; [exact Hc|]. split; [exact He|].
      rewrite Hm. reflexivity.
Defined.

(** ** AO type writes *)

Lemma C9_any_AO_mode_is_written_witness :
  (Manager.cards site !! "2" = Some cardB /\
   is_Some (Manager.ports site !! Card.PortPath cardB) /\
   0 <= 1 < ModelSpec.AO (specOf (Card.Module_ cardB))) /\
  exists w1,
    QueueWriteAOType "2" 1 "4-20mA" siteWorld = Ok None w1 /\
    Manager.writeQueue (World.mgr w1) = [opAOType "2" 1 "4-20mA"] /\
    exists w2 rp,
      ProcessWriteQueue deviceBus dialOk inOrder w1 = Ok tt w2 /\
      World.trace w2 = [EvFrame "/dev/ttyS1" 2 (WriteSingleRegister 401 4) rp].
Proof.
  assert (Hport : is_Some (Manager.ports site !! Card.PortPath cardB))
    by (eexists; reflexivity).
  assert (Hidx : 0 <= 1 < ModelSpec.AO (specOf (Card.Module_ cardB)))
    by (vm_compute; split; [discriminate|reflexivity]).
  split; [split; [reflexivity|split; assumption]|].
  destruct (C9_any_AO_mode_is_written deviceBus dialOk inOrder inOrder_perm "2" 1 "4-20mA"
              cardB siteWorld eq_refl Hport Hidx) as (w1 & Hq & Hqueue & _ & Hflush).
  exists w1. split; [exact Hq|]. split; [exact Hqueue|].
  apply Hflush; [reflexivity|vm_compute; discriminate].
Defined.

(** C9 as stated fails: a mode that is neither "0-10V" nor "4-20mA" is
    accepted and enqueued, and the flush writes 4, the code of "4-20mA",
    to the AO type register of the channel. *)
Lemma C9_counterexample :
  let r1 := QueueWriteAOType "2" 1 "bogus" siteWorld in
  let r2 := ProcessWriteQueue deviceBus dialOk inOrder (worldAfter r1 siteWorld) in
  returned r1 = Some None /\
  Manager.writeQueue (World.mgr (worldAfter r1 siteWorld)) = [opAOType "2" 1 "bogus"] /\
  returned r2 = Some tt /\
  traced r2 = [EvFrame "/dev/ttyS1" 2 (WriteSingleRegister 401 4) (inl [0])].
Proof. vm_compute. repeat split; reflexivity. Qed.

(** ** Registration with a failing read *)

Lemma C10_AddCard_succeeds_when_read_fails_witness :
  exists c w4,
    AddCard deafBus dialOk tick "/dev/ttyS1" 3 "IO8000" siteWorld = Ok (inl c) w4 /\
    Manager.cards (World.mgr w4) !! Card.ID c = Some c /\
    Card.ID c = "3" /\ Card.PortPath c = "/dev/ttyS1" /\ Card.SlaveID c = 3 /\
    Card.Module_ c = "IO8000" /\ Card.Last c = CardState.zero /\
    CardState.Error (Card.Last c) = "".
Proof.
  set (spec := ModelSpec.mk "IO8000" 8 0 0 0).
  set (r := readCard deafBus tick "/dev/ttyS1" 3 spec true
              (registerCard "/dev/ttyS1" 3 spec siteWorld)).
  destruct (C10_AddCard_succeeds_when_read_fails deafBus dialOk tick "/dev/ttyS1" 3 "IO8000"
              "/dev/ttyS1" "IO8000" spec (default CardState.zero (fst <$> returned r))
              (Some "timeout") siteWorld siteWorld siteWorld (worldAfter r siteWorld))
    as (c & w4 & Hrun & Hreg & Hid & Hp & Hs & Hm & Hfail & _);
    [vm_compute; reflexivity ..|].
  destruct (Hfail ltac:(discriminate)) as (Hlast & Herr & _).
  exists c, w4. repeat split; assumption.
Defined.

(** ** Encodings *)

Lemma packBits_unpackBits_example :
  packBits [true; false; false; true; false; false; false; false; true] = [9; 1] /\
  unpackBits [9; 1] 9 = [true; false; false; true; false; false; false; false; true].
Proof. vm_compute. split; reflexivity. Qed.

Lemma putFloats_getFloats_witness :
  Forall (fun v => 0 <= v < 2 ^ 32) [F32.four_thousand; F32.one] /\
  putFloats [F32.four_thousand; F32.one] = [69; 122; 0; 0; 63; 128; 0; 0] /\
  getFloats (putFloats [F32.four_thousand; F32.one]) 2 = Some [F32.four_thousand; F32.one].
Proof.
  assert (H : Forall (fun v => 0 <= v < 2 ^ 32) [F32.four_thousand; F32.one])
    by (repeat (constructor; [unfold F32.four_thousand, F32.one; lia|]); constructor).
  split; [exact H|]. split; [vm_compute; reflexivity|].
  exact (proj1 (putFloats_getFloats [F32.four_thousand; F32.one] H)).
Defined.

(** ** Batches *)

Lemma ProcessBatchWrite_rejected_operation_witness :
  let ops := [opDO "1" 3 true; opDO "7" 0 true; opAOType "2" 9 "0-10V"] in
  exists rs rs' w',
    ProcessBatchWrite deviceBus dialOk inOrder ops siteWorld = Ok rs w' /\
    ProcessBatchWrite deviceBus dialOk inOrder (delete 2%nat ops) siteWorld = Ok rs' w' /\
    rs !! 2%nat = Some (CommandResult.mk 2 "error" "index out of range").
Proof.
  apply (ProcessBatchWrite_rejected_operation deviceBus dialOk inOrder inOrder_perm
           [opDO "1" 3 true; opDO "7" 0 true; opAOType "2" 9 "0-10V"] 2%nat
           (opAOType "2" 9 "0-10V") siteWorld); [reflexivity|].
  intros card Hcard. vm_compute in Hcard. inversion Hcard; subst card.
  vm_compute. intros [_ H]. discriminate H.
Defined.

Lemma ProcessBatchWrite_traffic_witness :
  portsOpen site /\
  batchRequests inOrder site [opDO "1" 3 true; opDO "1" 1 false; opDO "1" 0 true]
  = [("/dev/ttyS1", 1, WriteMultipleCoils 0 4 [9])] /\
  exists rs w' tr,
    ProcessBatchWrite deviceBus dialOk inOrder
      [opDO "1" 3 true; opDO "1" 1 false; opDO "1" 0 true] siteWorld = Ok rs w' /\
    World.trace w' = World.trace siteWorld ++ tr /\
    map evTarget tr = [Some ("/dev/ttyS1", 1, WriteMultipleCoils 0 4 [9])] /\
    Manager.cards (World.mgr w') = Manager.cards site /\
    Manager.writeQueue (World.mgr w') = Manager.writeQueue site.
Proof.
  split; [exact site_portsOpen|]. split; [vm_compute; reflexivity|].
  exact (ProcessBatchWrite_traffic deviceBus dialOk inOrder inOrder_perm
           [opDO "1" 3 true; opDO "1" 1 false; opDO "1" 0 true] siteWorld site_portsOpen).
Defined.

Lemma site_batch_inOrder :
  batchRequests inOrder site [opDO "1" 3 true; opAOType "2" 0 "0-10V"]
  = [("/dev/ttyS1", 1, WriteMultipleCoils 3 1 [1]);
     ("/dev/ttyS1", 2, WriteSingleRegister 400 1)].
Proof. vm_compute. reflexivity. Qed.

Lemma site_batch_reversed :
  batchRequests reversed site [opDO "1" 3 true; opAOType "2" 0 "0-10V"]
  = [("/dev/ttyS1", 2, WriteSingleRegister 400 1);
     ("/dev/ttyS1", 1, WriteMultipleCoils 3 1 [1])].
Proof. vm_compute. reflexivity. Qed.

Lemma ProcessBatchWrite_repeated_witness :
  portsOpen site /\
  exists rs1 w1 rs2 w2 tr1 tr2,
    ProcessBatchWrite deviceBus dialOk inOrder
      [opDO "1" 3 true; opAOType "2" 0 "0-10V"] siteWorld = Ok rs1 w1 /\
    ProcessBatchWrite deviceBus dialOk reversed
      [opDO "1" 3 true; opAOType "2" 0 "0-10V"] w1 = Ok rs2 w2 /\
    World.trace w1 = World.trace siteWorld ++ tr1 /\
    World.trace w2 = World.trace w1 ++ tr2 /\
    map evTarget tr1
    = [Some ("/dev/ttyS1", 1, WriteMultipleCoils 3 1 [1]);
       Some ("/dev/ttyS1", 2, WriteSingleRegister 400 1)] /\
    map evTarget tr2
    = [Some ("/dev/ttyS1", 2, WriteSingleRegister 400 1);
       Some ("/dev/ttyS1", 1, WriteMultipleCoils 3 1 [1])] /\
    Permutation (map evTarget tr2) (map evTarget tr1).
Proof.
  split; [exact site_portsOpen|].
  destruct (ProcessBatchWrite_repeated deviceBus dialOk inOrder reversed inOrder_perm
              reversed_perm [opDO "1" 3 true; opAOType "2" 0 "0-10V"] siteWorld site_portsOpen)
    as (rs1 & w1 & rs2 & w2 & tr1 & tr2 & H1 & H2 & Ht1 & Ht2 & He1 & He2 & Hp).
  change (World.mgr siteWorld) with site in He1, He2.
  rewrite site_batch_inOrder in He1. rewrite site_batch_reversed in He2.
  exists rs1, w1, rs2, w2, tr1, tr2. repeat split; assumption.
Defined.

(** ** The registry *)

Lemma site_registryOK : registryOK site.
Proof.
  split; [simpl; lia|]. intros id c H.
  apply site_cards in H as [[-> ->]|[-> ->]];
    (split; [reflexivity|]; split; [eexists; vm_compute; reflexivity|]).
  - exists 1. split; [simpl; lia|reflexivity].
  - exists 2. split; [simpl; lia|reflexivity].
Qed.

Lemma AddCard_registers_fresh_witness :
  registryOK site /\
  exists c w',
    AddCard deafBus dialOk tick "/dev/ttyS1" 3 "IO8000" siteWorld = Ok (inl c) w' /\
    Card.ID c = "3" /\
    Manager.cards site !! "3" = None /\
    Manager.cards (World.mgr w') !! "3" = Some c.
Proof.
  split; [exact site_registryOK|].
  set (r := AddCard deafBus dialOk tick "/dev/ttyS1" 3 "IO8000" siteWorld).
  set (c := match returned r with Some (inl c) => c | _ => cardA end).
  assert (Hrun : r = Ok (inl c) (worldAfter r siteWorld)) by (vm_compute; reflexivity).
  destruct (AddCard_registers_fresh deafBus dialOk tick "/dev/ttyS1" 3 "IO8000" siteWorld
              c (worldAfter r siteWorld) site_registryOK Hrun)
    as (Hid & Hnew & Hfound & _).
  exists c, (worldAfter r siteWorld). split; [exact Hrun|]. split; [exact Hid|].
  rewrite Hid in Hnew, Hfound. split; [exact Hnew|exact Hfound].
Defined.

Lemma AddCard_failure_witness :
  exists w',
    AddCard deafBus dialOk tick "/dev/ttyS1" 3 "" siteWorld
    = Ok (inr "unknown module Unknown") w' /\
    Manager.cards (World.mgr w') = Manager.cards site /\
    Manager.nextID (World.mgr w') = 3.
Proof.
  set (r := AddCard deafBus dialOk tick "/dev/ttyS1" 3 "" siteWorld).
  assert (Hrun : r = Ok (inr "unknown module Unknown") (worldAfter r siteWorld))
    by (vm_compute; reflexivity).
  destruct (AddCard_failure deafBus dialOk tick "/dev/ttyS1" 3 "" siteWorld
              "unknown module Unknown" (worldAfter r siteWorld) Hrun) as (Hc & Hn & _).
  exists (worldAfter r siteWorld). split; [exact Hrun|]. split; [exact Hc|exact Hn].
Defined.

Lemma GetAllCards_order_witness :
  registryOK site /\
  exists cards,
    GetAllCards inOrder siteWorld = Ok cards siteWorld /\
    GetAllCards reversed siteWorld = Ok cards siteWorld /\
    map Card.ID cards = ["1"; "2"].
Proof.
  split; [exact site_registryOK|].
  destruct (GetAllCards_order inOrder reversed inOrder_perm reversed_perm siteWorld
              site_registryOK) as (cards & H1 & H2 & _).
  exists cards. split; [exact H1|]. split; [exact H2|].
  vm_compute in H1. inversion H1. reflexivity.
Defined.

Lemma registryOK_invariant_witness :
  registryOK NewManager /\
  exists r w',
    AddCard deviceBus dialOk tick "/dev/ttyS1" 1 "IO4040" (World.mk NewManager []) = Ok r w' /\
    registryOK (World.mgr w').
Proof.
  destruct (registryOK_invariant deviceBus dialOk tick inOrder inOrder_perm) as (H0 & Hadd & _).
  split; [exact H0|].
  set (w0 := World.mk NewManager []).
  set (r := AddCard deviceBus dialOk tick "/dev/ttyS1" 1 "IO4040" w0).
  assert (Hrun : r = Ok (default (inr "") (returned r)) (worldAfter r w0))
    by (vm_compute; reflexivity).
  eexists _, _. split; [exact Hrun|].
  exact (Hadd "/dev/ttyS1" 1 "IO4040" w0 _ _ H0 Hrun).
Defined.

(** ** The write queue *)

Lemma ProcessWriteQueue_flush_witness :
  let w := World.mk (Manager.set_writeQueue [opDO "1" 3 true; opDO "9" 0 true] site) [] in
  portsOpen (World.mgr w) /\
  exists w' tr,
    ProcessWriteQueue deviceBus dialOk inOrder w = Ok tt w' /\
    World.trace w' = tr /\
    map evTarget tr = [Some ("/dev/ttyS1", 1, WriteMultipleCoils 3 1 [1])] /\
    Manager.writeQueue (World.mgr w') = [] /\
    Manager.cards (World.mgr w') = Manager.cards site /\
    ProcessWriteQueue deviceBus dialOk inOrder w' = Ok tt w'.
Proof.
  split; [exact site_portsOpen|].
  exact (ProcessWriteQueue_flush deviceBus dialOk inOrder inOrder_perm
           (World.mk (Manager.set_writeQueue [opDO "1" 3 true; opDO "9" 0 true] site) [])
           site_portsOpen).
Defined.

Lemma QueueWriteDO_reaches_bus_witness :
  (portsOpen site /\ Manager.cards site !! "1" = Some cardA /\
   0 <= 3 < ModelSpec.DO (specOf (Card.Module_ cardA)) /\ Manager.writeQueue site = []) /\
  exists w1 w2 tr,
    QueueWriteDO "1" 3 true siteWorld = Ok None w1 /\
    World.trace w1 = [] /\
    ProcessWriteQueue deviceBus dialOk inOrder w1 = Ok tt w2 /\
    World.trace w2 = tr /\
    Manager.writeQueue (World.mgr w2) = [] /\
    map evTarget tr = [Some ("/dev/ttyS1", 1, WriteMultipleCoils 3 1 [1])].
Proof.
  assert (Hidx : 0 <= 3 < ModelSpec.DO (specOf (Card.Module_ cardA))) by (vm_compute; split; discriminate || reflexivity).
  split; [split; [exact site_portsOpen|]; split; [reflexivity|]; split; [exact Hidx|reflexivity]|].
  exact (QueueWriteDO_reaches_bus deviceBus dialOk inOrder inOrder_perm "1" 3 true cardA siteWorld
           site_portsOpen eq_refl Hidx eq_refl).
Defined.

Lemma QueueWriteAO_reaches_bus_witness :
  (portsOpen site /\ Manager.cards site !! "2" = Some cardB /\
   0 <= 1 < ModelSpec.AO (specOf (Card.Module_ cardB)) /\ Manager.writeQueue site = []) /\
  exists w1 w2 tr,
    QueueWriteAO "2" 1 F32.one siteWorld = Ok None w1 /\
    World.trace w1 = [] /\
    ProcessWriteQueue deviceBus dialOk inOrder w1 = Ok tt w2 /\
    World.trace w2 = tr /\
    Manager.writeQueue (World.mgr w2) = [] /\
    map evTarget tr = [Some ("/dev/ttyS1", 2, WriteMultipleRegisters 2 2 [63; 128; 0; 0])].
Proof.
  assert (Hidx : 0 <= 1 < ModelSpec.AO (specOf (Card.Module_ cardB))) by (vm_compute; split; discriminate || reflexivity).
  split; [split; [exact site_portsOpen|]; split; [reflexivity|]; split; [exact Hidx|reflexivity]|].
  exact (QueueWriteAO_reaches_bus deviceBus dialOk inOrder inOrder_perm "2" 1 F32.one cardB siteWorld
           site_portsOpen eq_refl Hidx eq_refl).
Defined.

Lemma AddCard_only_reads_witness :
  exists r w' tr,
    AddCard deafBus dialOk tick "/dev/ttyS7" 4 "IO0404" (World.mk NewManager []) = Ok r w' /\
    World.trace w' = [] ++ tr /\
    Forall (fun ev => readOf "/dev/ttyS7" 4 ev \/ exists e, ev = EvDial "/dev/ttyS7" e) tr.
Proof.
  set (w0 := World.mk NewManager []).
  set (res := AddCard deafBus dialOk tick "/dev/ttyS7" 4 "IO0404" w0).
  assert (Hrun : res = Ok (default (inr "") (returned res)) (worldAfter res w0))
    by (vm_compute; reflexivity).
  destruct (AddCard_only_reads deafBus dialOk tick "/dev/ttyS7" 4 "IO0404" w0 _ _ Hrun)
    as (tr & Ht & HP & _).
  eexists _, _, tr. split; [exact Hrun|]. split; [exact Ht|exact HP].
Defined.

(** ** The read cycle *)

Lemma inputBus_sized : registerRepliesSized inputBus.
Proof.
  intros tr p s a q raw [H|H]; unfold inputBus in H; apply (deviceBus_sized tr p s a q raw);
    [left|right]; exact H.
Qed.

Lemma site_cycle_ids :
  map Card.ID <$> returned (ReadAllAndProcessWrites deviceBus dialOk tick inOrder siteWorld)
  = Some ["1"; "2"].
Proof. vm_compute. reflexivity. Qed.

Lemma ReadAllAndProcessWrites_cycle_witness :
  (registerRepliesSized deviceBus /\ registryOK site /\ portsOpen site) /\
  exists cards w',
    ReadAllAndProcessWrites deviceBus dialOk tick inOrder siteWorld = Ok cards w' /\
    GetAllCards inOrder w' = Ok cards w' /\
    map Card.ID cards = ["1"; "2"] /\
    Manager.writeQueue (World.mgr w') = [].
Proof.
  split; [split; [exact deviceBus_sized|split; [exact site_registryOK|exact site_portsOpen]]|].
  destruct (ReadAllAndProcessWrites_cycle deviceBus dialOk tick inOrder inOrder_perm siteWorld
              deviceBus_sized site_registryOK site_portsOpen)
    as (cards & w' & Hrun & Hall & _ & _ & _ & _ & Hq).
  pose proof site_cycle_ids as Hids. rewrite Hrun in Hids.
  change (Some (map Card.ID cards) = Some ["1"; "2"]) in Hids. injection Hids as Hids.
  exists cards, w'. split; [exact Hrun|]. split; [exact Hall|]. split; [exact Hids|].
  apply Hq. intros ->. discriminate Hids.
Defined.

Lemma watched_cycle_changed :
  (fun c' => detectStateChange (Card.Last cardA) (Card.Last c'))
    <$> cardAfter "1" (ReadAllAndProcessWrites inputBus dialOk tick inOrder watched)
  = Some true.
Proof. vm_compute. reflexivity. Qed.

Lemma watched_cycle_inputs :
  map (fun c => CardState.DI (Card.Last c))
    <$> returned (ReadAllAndProcessWrites inputBus dialOk tick inOrder watched)
  = Some [[true; false; false; false]; []].
Proof. vm_compute. reflexivity. Qed.

Lemma ReadAllAndProcessWrites_callback_witness :
  exists cards w' tr,
    ReadAllAndProcessWrites inputBus dialOk tick inOrder watched = Ok cards w' /\
    World.trace w' = [] ++ tr /\
    callbacks tr = [cards] /\ last tr = Some (EvCallback cards) /\
    map (fun c => CardState.DI (Card.Last c)) cards = [[true; false; false; false]; []].
Proof.
  destruct (ReadAllAndProcessWrites_callback inputBus dialOk tick inOrder inOrder_perm watched
              inputBus_sized site_registryOK site_portsOpen)
    as (cards & w' & tr & Hrun & Htr & Hyes & _).
  pose proof watched_cycle_changed as Hch. pose proof watched_cycle_inputs as Hin.
  rewrite Hrun in Hch, Hin.
  change (Some (map (fun c => CardState.DI (Card.Last c)) cards)
          = Some [[true; false; false; false]; []]) in Hin.
  injection Hin as Hin.
  change ((fun c' => detectStateChange (Card.Last cardA) (Card.Last c'))
            <$> Manager.cards (World.mgr w') !! "1" = Some true) in Hch.
  destruct (Manager.cards (World.mgr w') !! "1") as [c'|] eqn:Hc'; [|discriminate Hch].
  injection Hch as Hch.
  assert (Hchanged : callbacks tr = [cards] /\ last tr = Some (EvCallback cards)).
  { apply Hyes. split; [reflexivity|]. exists "1", cardA, c'.
    split; [reflexivity|]. split; [exact Hc'|exact Hch]. }
  destruct Hchanged as [H1 H2].
  exists cards, w', tr. split; [exact Hrun|]. split; [exact Htr|].
  split; [exact H1|]. split; [exact H2|exact Hin].
Defined.
